(** * n8n-nodes-filecoin: conversion, validation and RPC-client core

    A shallow embedding of the utility layer of the Filecoin node
    (utils/unitConverter.ts, utils/cidUtils.ts, utils/addressUtils.ts,
    constants/addresses.ts and transport/lotusClient.ts) and of the
    code around it (constants/networks.ts and the operations of
    actions/utility/utility.ts that compute without the network or
    guard a request), followed by the properties of that code.

    Conventions of the embedding:
    - a JavaScript string is a Rocq [string]; the development is about
      ASCII text (code units below 128), which is what addresses, CIDs
      and amounts are made of;
    - a regular expression is the list of its quantified character
      classes, matched greedily with backtracking;
    - a [bigint] is a [Z];
    - a [BigNumber] of bignumber.js is a sign, a coefficient and a
      decimal exponent, or an infinity, or [NaN];
    - a JavaScript [number] that the code only counts with (the
      request counter, a number of characters, a number of epochs) is
      a natural number; such numbers are exact below 2^53.  Where the
      code computes with fractions ([formatBytes], [parseBytes],
      [parseFilInput]), or reads a number from a text or prints it
      into one (an actor id, the parts of a duration), a number is an
      IEEE-754 double, represented by a sign, an integer mantissa and
      a binary exponent, and every rounding is written out;
    - [null] and [undefined] are [None]; a thrown error is the [Thrown]
      outcome, with its message;
    - the HTTP transport of the Lotus client is a function from the
      request to what [post] does with it. *)

From Stdlib Require Import ZArith NArith Lia Bool List String Ascii.
From Equations Require Import Equations.
Import ListNotations.

Open Scope string_scope.
Open Scope bool_scope.

(* ------------------------------------------------------------------ *)
(** * JavaScript strings *)
(* ------------------------------------------------------------------ *)

Definition char_code (c : ascii) : nat := nat_of_ascii c.

(** [lo <= c <= hi], the character range [lo-hi] of a regular expression. *)
Definition in_range (lo hi c : ascii) : bool :=
  Nat.leb (char_code lo) (char_code c) && Nat.leb (char_code c) (char_code hi).

Definition is_digit (c : ascii) : bool := in_range "0" "9" c.
Definition is_lower (c : ascii) : bool := in_range "a" "z" c.
Definition is_upper (c : ascii) : bool := in_range "A" "Z" c.

(** White space and line terminators of ECMAScript, ASCII part:
    TAB, LF, VT, FF, CR and SPACE. *)
Definition is_space (c : ascii) : bool :=
  in_range "009" "013" c || Ascii.eqb c " ".

(** [\w] *)
Definition is_word (c : ascii) : bool :=
  is_digit c || is_lower c || is_upper c || Ascii.eqb c "_".

Definition lower_char (c : ascii) : ascii :=
  if is_upper c then ascii_of_nat (char_code c + 32) else c.

Definition upper_char (c : ascii) : ascii :=
  if is_lower c then ascii_of_nat (char_code c - 32) else c.

Fixpoint str_map (f : ascii -> ascii) (s : string) : string :=
  match s with
  | EmptyString => EmptyString
  | String c s' => String (f c) (str_map f s')
  end.

Fixpoint str_forall (p : ascii -> bool) (s : string) : bool :=
  match s with
  | EmptyString => true
  | String c s' => p c && str_forall p s'
  end.

(** [s.toLowerCase()] *)
Definition toLowerCase (s : string) : string := str_map lower_char s.

(** [s.startsWith(p)] *)
Definition startsWith (s p : string) : bool := String.prefix p s.

(** [s.slice(n)] for [n >= 0]. *)
Fixpoint slice (n : nat) (s : string) : string :=
  match n, s with
  | O, _ => s
  | S n', String _ s' => slice n' s'
  | S _, EmptyString => EmptyString
  end.

(** [s.endsWith(p)] *)
Definition endsWith (s p : string) : bool :=
  Nat.leb (String.length p) (String.length s)
  && String.eqb (slice (String.length s - String.length p) s) p.

(** [s.charAt(i)]; the empty string of JavaScript is [None]. *)
Definition charAt (i : nat) (s : string) : option ascii := String.get i s.

(** [s.includes(p)] *)
Fixpoint includes (s p : string) : bool :=
  String.prefix p s ||
  match s with
  | EmptyString => false
  | String _ s' => includes s' p
  end.

(** [s.replace(p, r)] with a string pattern: the first occurrence only. *)
Fixpoint replace_first (s p r : string) : string :=
  if String.prefix p s then r ++ slice (String.length p) s
  else match s with
       | EmptyString => EmptyString
       | String c s' => String c (replace_first s' p r)
       end.

Fixpoint trimStart (s : string) : string :=
  match s with
  | String c s' => if is_space c then trimStart s' else s
  | EmptyString => EmptyString
  end.

(** Removes trailing white space: a character is kept when something
    that is kept follows it, or when it is not white space. *)
Fixpoint trimEnd (s : string) : string :=
  match s with
  | EmptyString => EmptyString
  | String c s' =>
      match trimEnd s' with
      | EmptyString => if is_space c then EmptyString else String c EmptyString
      | rest => String c rest
      end
  end.

(** [s.trim()] *)
Definition trim (s : string) : string := trimEnd (trimStart s).

Definition digit_value (c : ascii) : N := N.of_nat (char_code c - 48).

(** Value of a string of decimal digits, most significant first,
    continuing from [acc]. *)
Fixpoint digits_value (acc : N) (s : string) : N :=
  match s with
  | EmptyString => acc
  | String c s' => digits_value (10 * acc + digit_value c) s'
  end.

(** Longest prefix of characters of a class, and what follows it. *)
Fixpoint span (p : ascii -> bool) (s : string) : string * string :=
  match s with
  | String c s' =>
      if p c then let (a, b) := span p s' in (String c a, b)
      else (EmptyString, s)
  | EmptyString => (EmptyString, EmptyString)
  end.

Definition is_empty (s : string) : bool :=
  match s with EmptyString => true | _ => false end.

Definition is_e (c : ascii) : bool := Ascii.eqb c "e" || Ascii.eqb c "E".

(** An optional ["-"] in front. *)
Definition minus_sign (s : string) : bool * string :=
  match s with
  | String "-" r => (true, r)
  | _ => (false, s)
  end.

(** An optional ["+"] or ["-"] in front. *)
Definition any_sign (s : string) : bool * string :=
  match s with
  | String "-" r => (true, r)
  | String "+" r => (false, r)
  | _ => (false, s)
  end.

Definition digit_char (d : N) : ascii := ascii_of_N (48 + d).

(** A value, with the proof that it is the value of the expression
    that was examined. *)
Definition inspect {A : Type} (a : A) : {b : A | a = b} := exist _ a eq_refl.

(** Decimal notation of a natural number, as [String(n)] and template
    literals print an integer: the digits of [n / 10], then the last
    digit. *)
Equations decimal (n : N) : string by wf (N.to_nat (N.log2 n)) lt :=
decimal n with inspect (n <? 10)%N := {
  | exist _ true _ => String (digit_char n) EmptyString
  | exist _ false ge10 =>
      decimal (n / 10) ++ String (digit_char (n mod 10)) EmptyString }.
Next Obligation.
  apply N.ltb_ge in ge10.
  assert (H1 : (0 < n / 10)%N).
  { apply N.div_str_pos. lia. }
  assert (H2 : (n / 10 < 2 ^ N.log2 n)%N).
  { pose proof (N.log2_spec n ltac:(lia)) as [Hlo Hhi].
    rewrite N.pow_succ_r' in Hhi.
    apply N.Div0.div_lt_upper_bound. lia. }
  apply N.log2_lt_pow2 in H2; [lia | exact H1].
Qed.

(** [String(z)] for a bigint. *)
Definition bigint_string (z : Z) : string :=
  if (z <? 0)%Z then "-" ++ decimal (Z.abs_N z) else decimal (Z.abs_N z).

(** [parseInt(s, 10)]: leading white space, an optional sign, then the
    longest run of digits; [None] is [NaN]. *)
Definition parseInt (s : string) : option Z :=
  let s1 := trimStart s in
  let (neg, s2) := any_sign s1 in
  let (ds, _) := span is_digit s2 in
  match ds with
  | EmptyString => None
  | _ => let v := Z.of_N (digits_value 0 ds) in
         Some (if neg then (- v)%Z else v)
  end.

(** Outcome of a call that may throw. *)
Inductive outcome (A : Type) : Type :=
| Returned (a : A)
| Thrown (message : string).
Arguments Returned {A} a.
Arguments Thrown {A} message.

(* ------------------------------------------------------------------ *)
(** * Regular expressions

    Every pattern of the sources is anchored at both ends and is a
    sequence of quantified character classes.  A pattern is the list of
    its items; matching is greedy with backtracking, as in JavaScript,
    and returns the text taken by each item. *)
(* ------------------------------------------------------------------ *)

Record item : Type := Item {
  cls : ascii -> bool;     (* the character class *)
  lo : nat;                (* least number of repetitions *)
  hi : option nat          (* greatest number, [None] when unbounded *)
}.

Definition pattern : Type := list item.

Definition lit (c : ascii) : item := Item (Ascii.eqb c) 1 (Some 1).
Definition one (p : ascii -> bool) : item := Item p 1 (Some 1).
Definition plus (p : ascii -> bool) : item := Item p 1 None.
Definition star (p : ascii -> bool) : item := Item p 0 None.
Definition exactly (n : nat) (p : ascii -> bool) : item := Item p n (Some n).
Definition between (n m : nat) (p : ascii -> bool) : item := Item p n (Some m).
Definition at_least (n : nat) (p : ascii -> bool) : item := Item p n None.

Definition below (n : nat) (h : option nat) : bool :=
  match h with
  | None => true
  | Some m => Nat.ltb n m
  end.

(** [run_item it k n acc s]: [n] characters, [acc], are already taken by
    the item [it]; take as many more as possible from [s], then give the
    rest to the continuation [k], giving characters back one at a time
    when [k] fails. *)
Fixpoint run_item (it : item) (k : string -> option (list string))
    (n : nat) (acc : string) (s : string) : option (list string) :=
  let stop :=
    if Nat.leb (lo it) n then
      match k s with
      | Some gs => Some (acc :: gs)
      | None => None
      end
    else None in
  match s with
  | String c s' =>
      if below n (hi it) && cls it c then
        match run_item it k (S n) (acc ++ String c EmptyString) s' with
        | Some r => Some r
        | None => stop
        end
      else stop
  | EmptyString => stop
  end.

(** [regex_exec p s] is [p.exec(s)] for the anchored pattern [p]. *)
Fixpoint regex_exec (p : pattern) (s : string) : option (list string) :=
  match p with
  | [] => match s with EmptyString => Some [] | _ => None end
  | it :: rest => run_item it (regex_exec rest) 0 EmptyString s
  end.

(** [p.test(s)] *)
Definition regex_test (p : pattern) (s : string) : bool :=
  match regex_exec p s with
  | Some _ => true
  | None => false
  end.

(** The [i] flag: a character matches a class when one of its two cases
    does. *)
Definition ignore_case (p : pattern) : pattern :=
  map (fun it => Item (fun c => cls it (lower_char c) || cls it (upper_char c))
                      (lo it) (hi it)) p.

(* ------------------------------------------------------------------ *)
(** * utils/cidUtils.ts *)
(* ------------------------------------------------------------------ *)

(** [[1-9A-HJ-NP-Za-km-z]] *)
Definition base58_char (c : ascii) : bool :=
  in_range "1" "9" c || in_range "A" "H" c || in_range "J" "N" c
  || in_range "P" "Z" c || in_range "a" "k" c || in_range "m" "z" c.

(** [[a-z2-7]] *)
Definition base32_char (c : ascii) : bool :=
  in_range "a" "z" c || in_range "2" "7" c.

(** [/^Qm[1-9A-HJ-NP-Za-km-z]{44}$/] *)
Definition CID_V0_PATTERN : pattern :=
  [lit "Q"; lit "m"; exactly 44 base58_char].

(** [/^b[a-z2-7]{58,}$/] *)
Definition CID_V1_PATTERN : pattern :=
  [lit "b"; at_least 58 base32_char].

(** [/^ba[a-z2-7]+$/] *)
Definition CID_BASE32_PATTERN : pattern :=
  [lit "b"; lit "a"; plus base32_char].

Definition validateCid (cid : string) : bool :=
  match cid with
  | EmptyString => false
  | _ =>
      if startsWith cid "Qm" then regex_test CID_V0_PATTERN cid
      else if startsWith cid "b" then Nat.leb 59 (String.length cid)
      else if startsWith cid "ba" then regex_test CID_BASE32_PATTERN cid
      else false
  end.

(** The loop [while (size < dataSize) size *= 2n].  It is entered with
    [size = 1n]; [pos] is the invariant that makes it terminate. *)
Equations double_until (size dataSize : Z) (pos : (0 < size)%Z) : Z
  by wf (Z.to_nat (Z.log2_up dataSize - Z.log2 size)) lt :=
double_until size dataSize pos with Z_lt_dec size dataSize := {
  | left lt_d => double_until (size * 2) dataSize _
  | right _ => size }.
Next Obligation. lia. Qed.
Next Obligation.
  assert (Hd : Z.log2 (size * 2) = Z.succ (Z.log2 size)).
  { rewrite Z.mul_comm. apply Z.log2_double. exact pos. }
  assert (Hu : (Z.log2 size < Z.log2_up dataSize)%Z).
  { apply Z.log2_lt_pow2; [exact pos|].
    apply Z.lt_le_trans with dataSize; [exact lt_d|].
    apply Z.log2_up_spec. lia. }
  lia.
Qed.

Definition calculatePaddedPieceSize (dataSize : Z) : Z :=
  if (dataSize <=? 0)%Z then 256%Z
  else
    let size := double_until 1 dataSize eq_refl in
    if (size <? 256)%Z then 256%Z else size.

(* ------------------------------------------------------------------ *)
(** * constants/addresses.ts *)
(* ------------------------------------------------------------------ *)

Definition ADDRESS_TYPES_ID : Z := 0.
Definition ADDRESS_TYPES_SECP256K1 : Z := 1.
Definition ADDRESS_TYPES_ACTOR : Z := 2.
Definition ADDRESS_TYPES_BLS : Z := 3.
Definition ADDRESS_TYPES_DELEGATED : Z := 4.

Definition f_or_t (c : ascii) : bool := Ascii.eqb c "f" || Ascii.eqb c "t".

(** [[a-fA-F0-9]] *)
Definition hex_char (c : ascii) : bool :=
  in_range "a" "f" c || in_range "A" "F" c || in_range "0" "9" c.

(** [[a-f0-9]] *)
Definition lower_hex_char (c : ascii) : bool :=
  in_range "a" "f" c || in_range "0" "9" c.

(** [/^[ft]0[0-9]+$/] *)
Definition ID_ADDRESS : pattern := [one f_or_t; lit "0"; plus is_digit].

(** [/^[ft]1[a-z2-7]{38,39}$/] *)
Definition SECP256K1_ADDRESS : pattern :=
  [one f_or_t; lit "1"; between 38 39 base32_char].

(** [/^[ft]2[a-z2-7]{38,39}$/] *)
Definition ACTOR_ADDRESS : pattern :=
  [one f_or_t; lit "2"; between 38 39 base32_char].

(** [/^[ft]3[a-z2-7]{84,86}$/] *)
Definition BLS_ADDRESS : pattern :=
  [one f_or_t; lit "3"; between 84 86 base32_char].

(** [/^[ft]4[0-9]+f[a-z2-7]+$/] *)
Definition DELEGATED_ADDRESS : pattern :=
  [one f_or_t; lit "4"; plus is_digit; lit "f"; plus base32_char].

(** [/^0x[a-fA-F0-9]{40}$/] *)
Definition ETH_ADDRESS : pattern := [lit "0"; lit "x"; exactly 40 hex_char].

(** [parseInt(address.charAt(i), 10)] *)
Definition parseInt_charAt (i : nat) (address : string) : option Z :=
  match charAt i address with
  | Some c => parseInt (String c EmptyString)
  | None => parseInt EmptyString
  end.

Definition getAddressType (address : string) : option Z :=
  if Nat.ltb (String.length address) 2 then None
  else
    match charAt 0 address with
    | Some prefix =>
        if negb (Ascii.eqb prefix "f") && negb (Ascii.eqb prefix "t") then None
        else
          match parseInt_charAt 1 address with
          | None => None
          | Some protocol =>
              if (protocol <? 0)%Z || (4 <? protocol)%Z then None
              else Some protocol
          end
    | None => None
    end.

(* ------------------------------------------------------------------ *)
(** * utils/addressUtils.ts *)
(* ------------------------------------------------------------------ *)

Definition validateAddress (address : string) : bool :=
  match address with
  | EmptyString => false
  | _ =>
      if startsWith address "0x" then regex_test ETH_ADDRESS address
      else
        match charAt 0 address with
        | None => false
        | Some prefix =>
            if negb (Ascii.eqb prefix "f") && negb (Ascii.eqb prefix "t")
            then false
            else
              match parseInt_charAt 1 address with
              | None => false
              | Some protocol =>
                  if (protocol <? 0)%Z || (4 <? protocol)%Z then false
                  else if (protocol =? ADDRESS_TYPES_ID)%Z
                    then regex_test ID_ADDRESS address
                  else if (protocol =? ADDRESS_TYPES_SECP256K1)%Z
                    then regex_test SECP256K1_ADDRESS address
                  else if (protocol =? ADDRESS_TYPES_ACTOR)%Z
                    then regex_test ACTOR_ADDRESS address
                  else if (protocol =? ADDRESS_TYPES_BLS)%Z
                    then regex_test BLS_ADDRESS address
                  else if (protocol =? ADDRESS_TYPES_DELEGATED)%Z
                    then Nat.ltb 3 (String.length address)
                  else false
              end
        end
  end.

Definition isRobustAddress (address : string) : bool :=
  match getAddressType address with
  | None => false
  | Some type => negb (type =? ADDRESS_TYPES_ID)%Z
  end.

Definition ethAddressToFilecoin (ethAddress : string) (testnet : bool)
  : outcome string :=
  if negb (regex_test ETH_ADDRESS ethAddress)
  then Thrown "Invalid Ethereum address"
  else
    let prefix := if testnet then "t" else "f" in
    let cleanAddress := slice 2 (toLowerCase ethAddress) in
    Returned (prefix ++ "410f" ++ cleanAddress).

(** [/^[ft]410f[a-f0-9]{40}$/i] *)
Definition F410_PATTERN : pattern :=
  ignore_case [one f_or_t; lit "4"; lit "1"; lit "0"; lit "f";
               exactly 40 lower_hex_char].

Definition filecoinToEthAddress (f4Address : string) : option string :=
  if negb (regex_test F410_PATTERN f4Address) then None
  else
    let ethPart := slice 5 f4Address in
    Some ("0x" ++ ethPart).

(* ------------------------------------------------------------------ *)
(** * bignumber.js

    The arbitrary-precision decimal type the unit converter computes
    with, as far as the converter uses it: construction from a string,
    [multipliedBy], [dividedBy], [toFixed], and the three predicates of
    [isValidFilAmount].  The library is a dependency of the repository;
    the definitions below follow its documented behaviour.

    A finite value is a sign, a coefficient and a decimal exponent,
    standing for [(-1)^neg * coef * 10^exp]; the library keeps a signed
    zero, and so does the model.  Two things are left out: the exponent
    limits of the library (10^7 decimal digits by default; coefficients
    and exponents are unbounded here), and literals with a radix prefix
    ([0x], [0b], [0o]), which the library converts and which read as
    [NaN] here. *)
(* ------------------------------------------------------------------ *)

Module BigNumber.

Inductive t : Type :=
| NaN
| Infinity (neg : bool)
| Finite (neg : bool) (coef : N) (exp : Z).

(** [BigNumber.config({ DECIMAL_PLACES: 36, ROUNDING_MODE: ROUND_DOWN })],
    set at the top of utils/unitConverter.ts. *)
Definition DECIMAL_PLACES : Z := 36.

(** The exponent part [(?:e[+-]?\d+)?] followed by the end of the
    text: [Some e] when [s] is such a part ([Some 0] for no part at
    all), [None] otherwise. *)
Definition exponent_part (s : string) : option Z :=
  match s with
  | EmptyString => Some 0%Z
  | String c r =>
      if is_e c then
        let (eneg, r1) := any_sign r in
        let (ds, r2) := span is_digit r1 in
        if negb (is_empty ds) && is_empty r2 then
          let v := Z.of_N (digits_value 0 ds) in
          Some (if eneg then (- v)%Z else v)
        else None
      else None
  end.

(** A decimal literal as the library accepts it: an optional minus
    sign; digits, with an optional dot and further digits, or a dot
    and digits; an optional exponent, [e] or [E] with an optional sign
    and digits.  [None] when the text is not one. *)
Definition of_decimal (s : string) : option t :=
  let (neg, s1) := minus_sign s in
  let (ip, s2) := span is_digit s1 in
  let '(dot, fp, s3) :=
    match s2 with
    | String "." r => let (f, r') := span is_digit r in (true, f, r')
    | _ => (false, EmptyString, s2)
    end in
  if is_empty ip && (negb dot || is_empty fp) then None
  else
    match exponent_part s3 with
    | Some e =>
        Some (Finite neg (digits_value 0 (ip ++ fp))
                     (e - Z.of_nat (String.length fp)))
    | None => None
    end.

(** Removes what [/^\s*\+(?=[\w.])|^\s+|\s+$/g] matches: leading white
    space with a plus sign that a word character or a dot follows, or
    else leading white space; and trailing white space. *)
Definition strip (s : string) : string :=
  let (ws, r) := span is_space s in
  let lead :=
    match r with
    | String "+" (String c r') =>
        if is_word c || Ascii.eqb c "." then String c r'
        else match ws with EmptyString => s | _ => r end
    | _ => match ws with EmptyString => s | _ => r end
    end in
  trimEnd lead.

(** [new BigNumber(s)] for a string [s]. *)
Definition of_string (s : string) : t :=
  match of_decimal s with
  | Some x => x
  | None =>
      let s' := strip s in
      if String.eqb s' "Infinity" then Infinity false
      else if String.eqb s' "-Infinity" then Infinity true
      else if String.eqb s' "NaN" || String.eqb s' "-NaN" then NaN
      else match of_decimal s' with
           | Some x => x
           | None => NaN
           end
  end.

Definition is_zero (x : t) : bool :=
  match x with
  | Finite _ c _ => N.eqb c 0
  | _ => false
  end.

(** [x.multipliedBy(y)]: exact. *)
Definition times (x y : t) : t :=
  match x, y with
  | NaN, _ | _, NaN => NaN
  | Infinity nx, Infinity ny => Infinity (xorb nx ny)
  | Infinity nx, Finite ny c _ =>
      if N.eqb c 0 then NaN else Infinity (xorb nx ny)
  | Finite nx c _, Infinity ny =>
      if N.eqb c 0 then NaN else Infinity (xorb nx ny)
  | Finite nx cx ex, Finite ny cy ey =>
      if N.eqb cx 0 || N.eqb cy 0 then Finite (xorb nx ny) 0 0
      else Finite (xorb nx ny) (cx * cy) (ex + ey)
  end.

(** [x.dividedBy(y)]: the quotient with [DECIMAL_PLACES] decimals,
    what lies beyond them cut off ([ROUND_DOWN]). *)
Definition div (x y : t) : t :=
  match x, y with
  | NaN, _ | _, NaN => NaN
  | Infinity _, Infinity _ => NaN
  | Infinity nx, Finite ny _ _ => Infinity (xorb nx ny)
  | Finite nx _ _, Infinity ny => Finite (xorb nx ny) 0 0
  | Finite nx cx ex, Finite ny cy ey =>
      if N.eqb cy 0 then
        if N.eqb cx 0 then NaN else Infinity (xorb nx ny)
      else if N.eqb cx 0 then Finite (xorb nx ny) 0 0
      else
        let k := (ex - ey + DECIMAL_PLACES)%Z in
        let q :=
          if (0 <=? k)%Z then (cx * 10 ^ Z.to_N k / cy)%N
          else (cx / (cy * 10 ^ Z.to_N (- k)))%N in
        Finite (xorb nx ny) q (- DECIMAL_PLACES)
  end.

Fixpoint zeros (n : nat) : string :=
  match n with
  | O => EmptyString
  | S n' => String "0" (zeros n')
  end.

(** [d], with zeros in front up to [n] characters. *)
Definition pad_left (n : nat) (d : string) : string :=
  zeros (n - String.length d) ++ d.

(** Without the zeros at the end. *)
Fixpoint drop_trailing_zeros (s : string) : string :=
  match s with
  | EmptyString => EmptyString
  | String c s' =>
      match drop_trailing_zeros s' with
      | EmptyString =>
          if Ascii.eqb c "0" then EmptyString else String c EmptyString
      | rest => String c rest
      end
  end.

(** Positional notation of [coef * 10^exp], no more digits than the
    value needs. *)
Definition positional (coef : N) (exp : Z) : string :=
  if (0 <=? exp)%Z then decimal (coef * 10 ^ Z.to_N exp)
  else
    let k := Z.to_N (- exp) in
    let q := (coef / 10 ^ k)%N in
    let r := (coef mod 10 ^ k)%N in
    if N.eqb r 0 then decimal q
    else decimal q ++ "." ++
         drop_trailing_zeros (pad_left (N.to_nat k) (decimal r)).

(** [x.toFixed()]: normal notation, all the digits of the value. *)
Definition toFixed (x : t) : string :=
  match x with
  | NaN => "NaN"
  | Infinity neg => if neg then "-Infinity" else "Infinity"
  | Finite neg c e =>
      let str := positional c e in
      if neg && negb (N.eqb c 0) then "-" ++ str else str
  end.

(** [coef * 10^exp * 10^dp], cut to an integer. *)
Definition scaled (coef : N) (exp : Z) (dp : nat) : N :=
  let k := (exp + Z.of_nat dp)%Z in
  if (0 <=? k)%Z then (coef * 10 ^ Z.to_N k)%N
  else (coef / 10 ^ Z.to_N (- k))%N.

(** [x.toFixed(dp)]: the value cut to [dp] decimals ([ROUND_DOWN]) and
    printed with exactly [dp] decimals.  The sign is that of the value
    before it is cut. *)
Definition toFixed_dp (dp : nat) (x : t) : string :=
  match x with
  | NaN => "NaN"
  | Infinity neg => if neg then "-Infinity" else "Infinity"
  | Finite neg c e =>
      let n := scaled c e dp in
      let unit := (10 ^ N.of_nat dp)%N in
      let str :=
        match dp with
        | O => decimal n
        | _ => decimal (n / unit) ++ "." ++ pad_left dp (decimal (n mod unit))
        end in
      if neg && negb (N.eqb c 0) then "-" ++ str else str
  end.

Definition isNaN (x : t) : bool :=
  match x with NaN => true | _ => false end.

Definition isFinite (x : t) : bool :=
  match x with Finite _ _ _ => true | _ => false end.

(** [x.isGreaterThanOrEqualTo(0)] *)
Definition isGreaterThanOrEqualTo_zero (x : t) : bool :=
  match x with
  | NaN => false
  | Infinity neg => negb neg
  | Finite neg c _ => negb neg || N.eqb c 0
  end.

(** Strictly below zero. *)
Definition is_negative (x : t) : bool :=
  match x with
  | NaN => false
  | Infinity neg => neg
  | Finite neg c _ => neg && negb (N.eqb c 0)
  end.

End BigNumber.

(* ------------------------------------------------------------------ *)
(** * JavaScript numbers

    An IEEE-754 double is a sign, an integer mantissa and a binary
    exponent, standing for [(-1)^neg * m * 2^e].  Every operation
    rounds to the nearest double, ties to the even mantissa. *)
(* ------------------------------------------------------------------ *)

Module Number.

Inductive t : Type :=
| NaN
| Infinity (neg : bool)
| Finite (neg : bool) (m : N) (e : Z).

(** The double nearest to [num / den], for [den > 0]: 53 bits of
    mantissa, the exponent of the last bit not below -1074, and
    infinity from 2^1024 on. *)
Definition round (neg : bool) (num den : N) : t :=
  if N.eqb num 0 then Finite neg 0 0
  else
    let e0 := (Z.of_N (N.log2 num) - Z.of_N (N.log2 den))%Z in
    let reached :=
      if (0 <=? e0)%Z then (den * 2 ^ Z.to_N e0 <=? num)%N
      else (den <=? num * 2 ^ Z.to_N (- e0))%N in
    let E := if reached then e0 else (e0 - 1)%Z in
    let q := Z.max (E - 52) (-1074) in
    let n' := if (0 <=? q)%Z then num else (num * 2 ^ Z.to_N (- q))%N in
    let d' := if (0 <=? q)%Z then (den * 2 ^ Z.to_N q)%N else den in
    let m0 := (n' / d')%N in
    let r := (n' mod d')%N in
    let m :=
      match (2 * r ?= d')%N with
      | Lt => m0
      | Gt => (m0 + 1)%N
      | Eq => if N.even m0 then m0 else (m0 + 1)%N
      end in
    if (971 <=? q)%Z && (2 ^ 1024 <=? m * 2 ^ Z.to_N q)%N then Infinity neg
    else Finite neg m q.

(** [Number(z)] for a bigint [z]. *)
Definition of_bigint (z : Z) : t := round (z <? 0)%Z (Z.abs_N z) 1.

(** [parseFloat(s)]: leading white space, an optional sign, then the
    longest prefix that is [Infinity] or a decimal literal. *)
Definition parseFloat (s : string) : t :=
  let s1 := trimStart s in
  let (neg, s2) := any_sign s1 in
  if String.prefix "Infinity" s2 then Infinity neg
  else
    let (ip, s3) := span is_digit s2 in
    let (fp, s4) :=
      match s3 with
      | String "." r => span is_digit r
      | _ => (EmptyString, s3)
      end in
    if is_empty ip && is_empty fp then NaN
    else
      let ex :=
        match s4 with
        | String c r =>
            if is_e c then
              let (eneg, r1) := any_sign r in
              let (ds, _) := span is_digit r1 in
              if is_empty ds then 0%Z
              else let v := Z.of_N (digits_value 0 ds) in
                   if eneg then (- v)%Z else v
            else 0%Z
        | EmptyString => 0%Z
        end in
      let c := digits_value 0 (ip ++ fp) in
      let k := (ex - Z.of_nat (String.length fp))%Z in
      if (0 <=? k)%Z then round neg (c * 10 ^ Z.to_N k) 1
      else round neg c (10 ^ Z.to_N (- k)).

(** [x / d] for an integer [d > 0]. *)
Definition div_int (x : t) (d : N) : t :=
  match x with
  | NaN => NaN
  | Infinity neg => Infinity neg
  | Finite neg m e =>
      if (0 <=? e)%Z then round neg (m * 2 ^ Z.to_N e) d
      else round neg m (d * 2 ^ Z.to_N (- e))
  end.

(** [x >= n] for an integer [n]. *)
Definition ge_int (x : t) (n : Z) : bool :=
  match x with
  | NaN => false
  | Infinity neg => negb neg
  | Finite neg m e =>
      let v := if neg then (- Z.of_N m)%Z else Z.of_N m in
      if (0 <=? e)%Z then (n <=? v * 2 ^ e)%Z
      else (n * 2 ^ (- e) <=? v)%Z
  end.

(** [x < n] for an integer [n]. *)
Definition lt_int (x : t) (n : Z) : bool :=
  match x with
  | NaN => false
  | Infinity neg => neg
  | Finite neg m e =>
      let v := if neg then (- Z.of_N m)%Z else Z.of_N m in
      if (0 <=? e)%Z then (v * 2 ^ e <? n)%Z
      else (v <? n * 2 ^ (- e))%Z
  end.

(** [Math.floor(x)] *)
Definition floor (x : t) : t :=
  match x with
  | Finite neg m e =>
      if (0 <=? e)%Z then x
      else
        let v := if neg then (- Z.of_N m)%Z else Z.of_N m in
        Finite neg (Z.abs_N (v / 2 ^ (- e))) 0
  | _ => x
  end.

(** [x.toFixed(f)]: the integer [n] for which [n / 10^f] is nearest to
    [x], the larger one of two, printed with [f] decimals.  From 10^21
    on JavaScript prints [String(x)], in exponent notation, which is
    not modelled: the result is [None] there. *)
Definition toFixed (f : nat) (x : t) : option string :=
  match x with
  | NaN => Some "NaN"
  | Infinity neg => Some (if neg then "-Infinity" else "Infinity")
  | Finite neg m e =>
      if ge_int (Finite false m e) (10 ^ 21) then None
      else
        let num := if (0 <=? e)%Z then (m * 2 ^ Z.to_N e)%N else m in
        let den := if (0 <=? e)%Z then 1%N else (2 ^ Z.to_N (- e))%N in
        let unit := (10 ^ N.of_nat f)%N in
        let n := ((2 * num * unit + den) / (2 * den))%N in
        let str :=
          match f with
          | O => decimal n
          | _ => decimal (n / unit) ++ "." ++
                 BigNumber.pad_left f (decimal (n mod unit))
          end in
        Some (if neg && negb (N.eqb m 0) then "-" ++ str else str)
  end.

End Number.

(** Value of a digit in a radix up to 16. *)
Definition radix_digit (c : ascii) : N :=
  if is_digit c then digit_value c
  else N.of_nat (char_code (lower_char c) - 87).

Fixpoint radix_value (base acc : N) (s : string) : N :=
  match s with
  | EmptyString => acc
  | String c s' => radix_value base (base * acc + radix_digit c) s'
  end.

Definition radix_literal (base : N) (digit : ascii -> bool) (ds : string)
  : outcome Z :=
  if negb (is_empty ds) && str_forall digit ds
  then Returned (Z.of_N (radix_value base 0 ds))
  else Thrown "SyntaxError".

(** [BigInt(s)] for a string: white space around an optionally signed
    decimal integer, or around a binary, octal or hexadecimal literal;
    the empty text is zero; anything else throws a [SyntaxError]. *)
Definition BigInt_of_string (s : string) : outcome Z :=
  let t := trim s in
  match t with
  | EmptyString => Returned 0%Z
  | String "0" (String "x" ds) | String "0" (String "X" ds) =>
      radix_literal 16 hex_char ds
  | String "0" (String "o" ds) | String "0" (String "O" ds) =>
      radix_literal 8 (in_range "0" "7") ds
  | String "0" (String "b" ds) | String "0" (String "B" ds) =>
      radix_literal 2 (in_range "0" "1") ds
  | _ =>
      let (neg, ds) := any_sign t in
      if negb (is_empty ds) && str_forall is_digit ds then
        let v := Z.of_N (digits_value 0 ds) in
        Returned (if neg then (- v)%Z else v)
      else Thrown "SyntaxError"
  end.

(** [BigInt(x)] for a number: throws a [RangeError] unless [x] is an
    integer. *)
Definition BigInt_of_number (x : Number.t) : outcome Z :=
  match x with
  | Number.Finite neg m e =>
      let v := if neg then (- Z.of_N m)%Z else Z.of_N m in
      if (0 <=? e)%Z then Returned (v * 2 ^ e)%Z
      else if (v mod 2 ^ (- e) =? 0)%Z then Returned (v / 2 ^ (- e))%Z
      else Thrown "RangeError"
  | _ => Thrown "RangeError"
  end.

(* ------------------------------------------------------------------ *)
(** * Numbers as text *)
(* ------------------------------------------------------------------ *)

(** Whether the double nearest to the integer [c] is the integer
    [v]. *)
Definition reads_as (v c : N) : bool :=
  match BigInt_of_number (Number.of_bigint (Z.of_N c)) with
  | Returned z => (z =? Z.of_N v)%Z
  | Thrown _ => false
  end.

(** The whole number [v] is a number: a double holds it exactly. *)
Definition is_double (v : N) : bool := reads_as v v.

(** The integer whose digits [String] prints for a double with the
    integer value [v]: a multiple of the highest power of ten, at most
    [10^j], that has a multiple which reads as that double; of two
    such multiples the one nearer to [v], and of two as near the one
    with an even number in front of the zeros. *)
Fixpoint shortest_from (v : N) (j : nat) : N :=
  match j with
  | O => v
  | S j' =>
      let p := (10 ^ N.of_nat j)%N in
      let c0 := (v / p * p)%N in
      let c1 := (c0 + p)%N in
      let ok0 := (0 <? c0)%N && reads_as v c0 in
      let ok1 := reads_as v c1 in
      if ok0 && ok1 then
        match (v - c0 ?= c1 - v)%N with
        | Lt => c0
        | Gt => c1
        | Eq => if N.even (c0 / p) then c0 else c1
        end
      else if ok0 then c0
      else if ok1 then c1
      else shortest_from v j'
  end.

(** The text of a double with the integer value [v]: the digits of the
    shortest number that reads as it, followed by zeros when there are
    at most 21 digits in all, and in exponent notation when there are
    more. *)
Definition integer_text (v : N) : string :=
  let c := shortest_from v (String.length (decimal v)) in
  let digits := decimal c in
  let n := String.length digits in
  if Nat.leb n 21 then digits
  else
    let e := decimal (N.of_nat (n - 1)) in
    match BigNumber.drop_trailing_zeros digits with
    | String d EmptyString => String d ("e+" ++ e)
    | String d rest => String d ("." ++ rest ++ "e+" ++ e)
    | EmptyString => digits
    end.

(** [String(x)], and [x] in a template literal, for a number that is
    an integer, an infinity or [NaN].  The notation of a number with a
    fraction is not modelled: the result is [None] there. *)
Definition String_of_number (x : Number.t) : option string :=
  match x with
  | Number.NaN => Some "NaN"
  | Number.Infinity neg => Some (if neg then "-Infinity" else "Infinity")
  | Number.Finite _ _ _ =>
      match BigInt_of_number x with
      | Returned z =>
          Some ((if (z <? 0)%Z then "-" else "") ++ integer_text (Z.abs_N z))
      | Thrown _ => None
      end
  end.

(* ------------------------------------------------------------------ *)
(** * utils/addressUtils.ts, ID addresses *)
(* ------------------------------------------------------------------ *)

(** The id is a number: [parseInt] gives the double nearest to the
    digits, which are all of the text here. *)
Definition extractIdFromAddress (address : string) : option Number.t :=
  if negb (regex_test ID_ADDRESS address) then None
  else
    match parseInt (slice 2 address) with
    | Some z => Some (Number.of_bigint z)
    | None => Some Number.NaN
    end.


(* ------------------------------------------------------------------ *)
(** * utils/unitConverter.ts *)
(* ------------------------------------------------------------------ *)

Inductive FilDenomination : Type :=
| attoFIL | femtoFIL | picoFIL | nanoFIL | microFIL | milliFIL | FIL.

(** The keys of [FIL_DENOMINATIONS], in the order of [Object.entries]. *)
Definition denominations : list FilDenomination :=
  [attoFIL; femtoFIL; picoFIL; nanoFIL; microFIL; milliFIL; FIL].

Definition denomination_name (d : FilDenomination) : string :=
  match d with
  | attoFIL => "attoFIL"
  | femtoFIL => "femtoFIL"
  | picoFIL => "picoFIL"
  | nanoFIL => "nanoFIL"
  | microFIL => "microFIL"
  | milliFIL => "milliFIL"
  | FIL => "FIL"
  end.

Definition FIL_DENOMINATIONS (d : FilDenomination) : string :=
  match d with
  | attoFIL => "1"
  | femtoFIL => "1000"
  | picoFIL => "1000000"
  | nanoFIL => "1000000000"
  | microFIL => "1000000000000"
  | milliFIL => "1000000000000000"
  | FIL => "1000000000000000000"
  end.

Definition filToAttoFil (fil : string) : string :=
  let bn := BigNumber.of_string fil in
  BigNumber.toFixed_dp 0
    (BigNumber.times bn (BigNumber.of_string (FIL_DENOMINATIONS FIL))).

Definition attoFilToFil (attoFil : string) : string :=
  let bn := BigNumber.of_string attoFil in
  BigNumber.toFixed
    (BigNumber.div bn (BigNumber.of_string (FIL_DENOMINATIONS FIL))).

Definition convertFilUnits (amount : string) (from to : FilDenomination)
  : string :=
  let bn := BigNumber.of_string amount in
  let fromMultiplier := BigNumber.of_string (FIL_DENOMINATIONS from) in
  let toMultiplier := BigNumber.of_string (FIL_DENOMINATIONS to) in
  let inAttoFil := BigNumber.times bn fromMultiplier in
  BigNumber.toFixed (BigNumber.div inAttoFil toMultiplier).

Definition formatFil (attoFil : string) (decimals : nat) : string :=
  let fil := attoFilToFil attoFil in
  let bn := BigNumber.of_string fil in
  BigNumber.toFixed_dp decimals bn.

Definition parseFilInput (input : string) : string :=
  let trimmed := toLowerCase (trim input) in
  match
    find (fun denom => endsWith trimmed (toLowerCase (denomination_name denom)))
         denominations
  with
  | Some denom =>
      let amount :=
        trim (replace_first trimmed (toLowerCase (denomination_name denom))
                            EmptyString) in
      convertFilUnits amount denom attoFIL
  | None =>
      if includes trimmed "."
         || Number.lt_int (Number.parseFloat trimmed) 1000000
      then filToAttoFil trimmed
      else trimmed
  end.

(** The loop of [formatBytes]: while the value is at least 1024 and a
    larger unit is left, divide by 1024 and move to that unit. *)
Fixpoint scale_units (value : Number.t) (unit : string) (larger : list string)
  : Number.t * string :=
  match larger with
  | [] => (value, unit)
  | next :: rest =>
      if Number.ge_int value 1024
      then scale_units (Number.div_int value 1024) next rest
      else (value, unit)
  end.

(** The array [units] of [formatBytes]: ["B"], then the larger units. *)
Definition larger_units : list string :=
  ["KiB"; "MiB"; "GiB"; "TiB"; "PiB"; "EiB"].

Definition size_units : list string := "B" :: larger_units.

Definition formatBytes (bytes : Z) : option string :=
  let value := Number.of_bigint bytes in
  let (value', unit) := scale_units value "B" larger_units in
  match Number.toFixed 2 value' with
  | Some digits => Some (digits ++ " " ++ unit)
  | None => None
  end.

(** The table [units] of [parseBytes]. *)
Definition byte_units : list (string * Z) :=
  [ ("b", 1); ("kib", 1024); ("mib", 1024 ^ 2); ("gib", 1024 ^ 3);
    ("tib", 1024 ^ 4); ("pib", 1024 ^ 5); ("eib", 1024 ^ 6);
    ("kb", 1000); ("mb", 1000 ^ 2); ("gb", 1000 ^ 3); ("tb", 1000 ^ 4);
    ("pb", 1000 ^ 5) ]%Z.

Fixpoint lookup_unit (table : list (string * Z)) (unit : string) : option Z :=
  match table with
  | [] => None
  | (name, multiplier) :: rest =>
      if String.eqb name unit then Some multiplier else lookup_unit rest unit
  end.

Definition digit_or_dot (c : ascii) : bool := is_digit c || Ascii.eqb c ".".

(** [/^([\d.]+)\s*([a-z]+)$/] *)
Definition SIZE_PATTERN : pattern :=
  [plus digit_or_dot; star is_space; plus is_lower].

(** [units[unit] || 1n] looks the unit up in an object literal: a name
    that is not in the table gives [1n], except [constructor], which
    every object inherits and which is not a bigint, so that the
    product throws a [TypeError] once its left operand is computed. *)
Definition parseBytes (size : string) : outcome Z :=
  match regex_exec SIZE_PATTERN (toLowerCase size) with
  | Some [value; _; unit] =>
      let multiplier := lookup_unit byte_units unit in
      match BigInt_of_number (Number.floor (Number.parseFloat value)) with
      | Returned n =>
          if String.eqb unit "constructor" then Thrown "TypeError"
          else
            match multiplier with
            | Some m => Returned (n * m)%Z
            | None => Returned (n * 1)%Z
            end
      | Thrown e => Thrown e
      end
  | _ => BigInt_of_string size
  end.

Definition isValidFilAmount (amount : string) : bool :=
  let bn := BigNumber.of_string amount in
  negb (BigNumber.isNaN bn) && BigNumber.isFinite bn
  && BigNumber.isGreaterThanOrEqualTo_zero bn.

(* ------------------------------------------------------------------ *)
(** * transport/lotusClient.ts *)
(* ------------------------------------------------------------------ *)

Module Lotus.
Section Client.

(** The type of the results and the type of the parameters of the
    JSON-RPC calls. *)
Variables T json : Type.

Record rpc_error : Type := RpcError {
  code : Z;
  message : string
}.

(** [LotusResponse<T>]; a field that is absent is [None]. *)
Record LotusResponse : Type := Response {
  result : option T;
  error : option rpc_error
}.

(** The body of the POST request. *)
Record request : Type := Request {
  jsonrpc : string;
  method : string;
  params : list json;
  id : N
}.

(** What [this.client.post] does with a request: it resolves with a
    response of a 2xx status, or it rejects with an axios error (a
    message, and the response when the server sent one: a status
    outside 2xx), or with an error that is not an axios error. *)
Inductive post_outcome : Type :=
| Resolved (data : LotusResponse)
| AxiosError (error_message : string)
             (response_data : option (option LotusResponse))
| OtherError (error_message : string).

(** The mutable state of a [LotusClient]. *)
Record LotusClient : Type := Client { requestId : N }.

(** [new LotusClient(config)] *)
Definition new_client : LotusClient := Client 0.

(** The error field of [axiosError.response?.data?.error]. *)
Definition response_error (r : option (option LotusResponse))
  : option rpc_error :=
  match r with
  | Some (Some data) => error data
  | _ => None
  end.

(** [call(method, params)]: the client after the call, the request
    that was posted, and the outcome of the call.  [post] is the
    transport. *)
Definition call (this : LotusClient) (post : request -> post_outcome)
    (method_name : string) (parameters : list json)
  : LotusClient * request * outcome (option T) :=
  let id' := (requestId this + 1)%N in
  let this' := Client id' in
  let req := Request "2.0" ("Filecoin." ++ method_name) parameters id' in
  let out :=
    match post req with
    | Resolved data =>
        match error data with
        | Some e => Thrown ("Lotus RPC Error: " ++ message e)
        | None => Returned (result data)
        end
    | AxiosError msg resp =>
        match response_error resp with
        | Some e => Thrown ("Lotus RPC Error: " ++ message e)
        | None => Thrown ("Lotus connection error: " ++ msg)
        end
    | OtherError msg => Thrown msg
    end in
  (this', req, out).

(** A sequence of calls on one client, in the order in which they are
    started (the id is taken before the call first suspends), each with
    its own method, parameters and transport behaviour; the requests
    that were posted and the outcomes, in order. *)
Fixpoint calls (this : LotusClient)
    (cs : list ((request -> post_outcome) * string * list json))
  : LotusClient * list (request * outcome (option T)) :=
  match cs with
  | [] => (this, [])
  | (post, m, ps) :: rest =>
      let '(this', req, out) := call this post m ps in
      let (final, log) := calls this' rest in
      (final, (req, out) :: log)
  end.

(** The request ids of a log of calls. *)
Definition ids_of (log : list (request * outcome (option T))) : list N :=
  map (fun entry => id (fst entry)) log.

(** [start + 1, ..., start + n] *)
Fixpoint count_from (start : N) (n : nat) : list N :=
  match n with
  | O => []
  | S n' => (start + 1)%N :: count_from (start + 1) n'
  end.

End Client.
End Lotus.

(* ------------------------------------------------------------------ *)
(** * More of JavaScript strings *)
(* ------------------------------------------------------------------ *)

(** [s.slice(0, n)] and [s.substring(0, n)]: the first [n] characters. *)
Definition slice_to (n : nat) (s : string) : string := String.substring 0 n s.

(** [s.slice(-n)]: the last [n] characters, and the whole of [s] for
    [n = 0], since [-0] is the index 0. *)
Definition slice_last (n : nat) (s : string) : string :=
  match n with
  | O => s
  | _ => slice (String.length s - n) s
  end.

(** [[a-zA-Z0-9]] *)
Definition is_alnum (c : ascii) : bool := is_lower c || is_upper c || is_digit c.

(** The pieces of [s.split(sep)], for a separator that is not empty:
    [cur] is the piece being read, and [skip] characters of the
    occurrence of the separator that was just found are still to be
    passed over. *)
Fixpoint split_from (sep : string) (skip : nat) (cur s : string)
  : list string :=
  match s with
  | EmptyString => [cur]
  | String c s' =>
      match skip with
      | S k => split_from sep k cur s'
      | O =>
          if String.prefix sep s
          then cur :: split_from sep (String.length sep - 1) EmptyString s'
          else split_from sep 0 (cur ++ String c EmptyString) s'
      end
  end.

(** [s.split(sep)] *)
Definition split (s sep : string) : list string :=
  split_from sep 0 EmptyString s.

(** A pattern without the anchor at the end, tried at the start of [s]. *)
Fixpoint regex_exec_open (p : pattern) (s : string) : option (list string) :=
  match p with
  | [] => Some []
  | it :: rest => run_item it (regex_exec_open rest) 0 EmptyString s
  end.

(** [s.match(p)] for a pattern without anchors: the match that starts
    first. *)
Fixpoint regex_match (p : pattern) (s : string) : option (list string) :=
  match regex_exec_open p s with
  | Some gs => Some gs
  | None =>
      match s with
      | String _ s' => regex_match p s'
      | EmptyString => None
      end
  end.

(* ------------------------------------------------------------------ *)
(** * utils/cidUtils.ts, the other functions *)
(* ------------------------------------------------------------------ *)

Definition CID_VERSIONS_V0 : Z := 0.
Definition CID_VERSIONS_V1 : Z := 1.

Definition getCidVersion (cid : string) : option Z :=
  match cid with
  | EmptyString => None
  | _ =>
      if startsWith cid "Qm" then Some CID_VERSIONS_V0
      else if startsWith cid "b" || startsWith cid "z" || startsWith cid "f"
      then Some CID_VERSIONS_V1
      else None
  end.

Definition isPieceCid (cid : string) : bool := startsWith cid "baga".

Definition isDataCid (cid : string) : bool := validateCid cid.

(** [chars] is a count of characters: a natural number. *)
Definition formatCidShort (cid : string) (chars : nat) : string :=
  if is_empty cid || Nat.leb (String.length cid) (chars * 2 + 3) then cid
  else slice_to chars cid ++ "..." ++ slice_last chars cid.

Definition getCidBase (cid : string) : string :=
  if startsWith cid "Qm" || startsWith cid "1" then "base58btc"
  else if startsWith cid "b" then "base32"
  else if startsWith cid "z" then "base58btc"
  else if startsWith cid "f" then "base16"
  else if startsWith cid "u" then "base64url"
  else "unknown".

Definition getCidExplorerLink (cid network : string) : string :=
  let baseUrl :=
    if String.eqb network "mainnet"
    then "https://filfox.info/en/message"
    else "https://calibration.filfox.info/en/message" in
  baseUrl ++ "/" ++ cid.

Definition getIpfsGatewayLink (cid gateway : string) : string :=
  gateway ++ "/ipfs/" ++ cid.

(** The default value of the parameter [gateway]. *)
Definition default_gateway : string := "https://dweb.link".

Definition validatePieceSize (size : Z) : bool :=
  let minSize := 256%Z in
  let maxSize := (64 * 1024 * 1024 * 1024)%Z in
  if (size <? minSize)%Z || (maxSize <? size)%Z then false
  else (Z.land size (size - 1) =? 0)%Z.

(** The pattern of [parseCid] for gateway links: the text [/ipfs/],
    then one or more letters or digits, anywhere in the input. *)
Definition IPFS_PATH_PATTERN : pattern :=
  [lit "/"; lit "i"; lit "p"; lit "f"; lit "s"; lit "/"; plus is_alnum].

Module Parsed.
Record t : Type := Make {
  cid : string;
  valid : bool;
  version : option Z
}.
End Parsed.

Definition parseCid (input : string) : Parsed.t :=
  let trimmed := trim input in
  let cid0 := trimmed in
  let cid1 :=
    if includes trimmed "/ipfs/" then
      let parts := split trimmed "/ipfs/" in
      hd EmptyString (split (last parts EmptyString) "/")
    else cid0 in
  let cid2 :=
    if includes trimmed "dweb.link" then
      match regex_match IPFS_PATH_PATTERN trimmed with
      | Some groups => nth 6 groups EmptyString
      | None => cid1
      end
    else cid1 in
  Parsed.Make cid2 (validateCid cid2) (getCidVersion cid2).

(* ------------------------------------------------------------------ *)
(** * constants/addresses.ts, the predicates *)
(* ------------------------------------------------------------------ *)

Definition isMainnetAddress (address : string) : bool := startsWith address "f".

Definition isTestnetAddress (address : string) : bool := startsWith address "t".

Definition isIdAddress (address : string) : bool :=
  regex_test ID_ADDRESS address.

Definition isDelegatedAddress (address : string) : bool :=
  let prefix := slice_to 2 address in
  String.eqb prefix "f4" || String.eqb prefix "t4".

Definition isEthAddress (address : string) : bool :=
  regex_test ETH_ADDRESS address.

(* ------------------------------------------------------------------ *)
(** * utils/addressUtils.ts, the other functions *)
(* ------------------------------------------------------------------ *)

Definition getAddressTypeName (address : string) : string :=
  match getAddressType address with
  | None => "Unknown"
  | Some type =>
      if (type =? ADDRESS_TYPES_ID)%Z then "ID"
      else if (type =? ADDRESS_TYPES_SECP256K1)%Z then "Secp256k1"
      else if (type =? ADDRESS_TYPES_ACTOR)%Z then "Actor"
      else if (type =? ADDRESS_TYPES_BLS)%Z then "BLS"
      else if (type =? ADDRESS_TYPES_DELEGATED)%Z then "Delegated (FEVM)"
      else "Unknown"
  end.

Definition normalizeAddress (address : string) : string :=
  match address with
  | EmptyString => EmptyString
  | _ =>
      let normalized := toLowerCase address in
      if startsWith normalized "0x" then normalized else normalized
  end.

Definition formatAddressShort (address : string) (chars : nat) : string :=
  if is_empty address || Nat.leb (String.length address) (chars * 2 + 3)
  then address
  else slice_to chars address ++ "..." ++ slice_last chars address.

Definition addressesEqual (addr1 addr2 : string) : bool :=
  let norm1 := normalizeAddress addr1 in
  let norm2 := normalizeAddress addr2 in
  String.eqb norm1 norm2.

Definition getNetworkFromAddress (address : string) : string :=
  if startsWith address "f" then "mainnet"
  else if startsWith address "t" then "testnet"
  else if startsWith address "0x" then "unknown"
  else "unknown".

Definition convertAddressNetwork (address : string) (toTestnet : bool)
  : string :=
  if is_empty address || Nat.ltb (String.length address) 2 then address
  else
    match charAt 0 address with
    | None => address
    | Some currentPrefix =>
        if negb (Ascii.eqb currentPrefix "f")
           && negb (Ascii.eqb currentPrefix "t")
        then address
        else
          let newPrefix := if toTestnet then "t" else "f" in
          newPrefix ++ slice 1 address
    end.

Definition hasValidChecksum (address : string) : bool :=
  if negb (validateAddress address) then false else true.

Module NumberExt.

(** [x > n] for an integer [n]. *)
Definition gt_int (x : Number.t) (n : Z) : bool :=
  match x with
  | Number.NaN => false
  | Number.Infinity neg => negb neg
  | Number.Finite neg m e =>
      let v := if neg then (- Z.of_N m)%Z else Z.of_N m in
      if (0 <=? e)%Z then (n <? v * 2 ^ e)%Z
      else (n * 2 ^ (- e) <? v)%Z
  end.

(** [Math.floor(x / d)] for an integer [x] and an integer [d > 0]: the
    quotient is a double, rounded to nearest, and then cut. *)
Definition floor_div (x : Z) (d : N) : Number.t :=
  Number.floor (Number.div_int (Number.of_bigint x) d).

(** [x / y]: the double nearest to the quotient.  A finite number
    divided by zero is an infinity, and zero by zero is [NaN]. *)
Definition div (x y : Number.t) : Number.t :=
  match x, y with
  | Number.NaN, _ | _, Number.NaN => Number.NaN
  | Number.Infinity _, Number.Infinity _ => Number.NaN
  | Number.Infinity nx, Number.Finite ny _ _ => Number.Infinity (xorb nx ny)
  | Number.Finite nx _ _, Number.Infinity ny => Number.Finite (xorb nx ny) 0 0
  | Number.Finite nx mx ex, Number.Finite ny my ey =>
      if (my =? 0)%N then
        if (mx =? 0)%N then Number.NaN else Number.Infinity (xorb nx ny)
      else
        let d := (ex - ey)%Z in
        if (0 <=? d)%Z then Number.round (xorb nx ny) (mx * 2 ^ Z.to_N d) my
        else Number.round (xorb nx ny) mx (my * 2 ^ Z.to_N (- d))
  end.

End NumberExt.

(** [parts.join(sep)] *)
Fixpoint join (sep : string) (parts : list string) : string :=
  match parts with
  | [] => EmptyString
  | [p] => p
  | p :: rest => p ++ sep ++ join sep rest
  end.

(* ------------------------------------------------------------------ *)
(** * utils/unitConverter.ts, epochs *)
(* ------------------------------------------------------------------ *)

(** The default value of the parameter [genesisTimestamp]. *)
Definition default_genesis : Z := 1598306400.

(** Epochs and timestamps are integers of at most 2^53 in absolute
    value, for which the sums and products of doubles are those of the
    integers. *)
Definition epochToTimestamp (epoch genesisTimestamp : Z) : Z :=
  genesisTimestamp + epoch * 30.

Definition timestampToEpoch (timestamp genesisTimestamp : Z) : Number.t :=
  NumberExt.floor_div (timestamp - genesisTimestamp) 30.

(** One entry of [parts]: pushed when the number is above zero. *)
Definition duration_part (x : Number.t) (suffix : string)
  : option (list string) :=
  if NumberExt.gt_int x 0 then
    match String_of_number x with
    | Some digits => Some [digits ++ suffix]
    | None => None
    end
  else Some [].

(** [epochs] is a count of epochs: a natural number, for which [%] is
    the remainder of the division. *)
Definition formatEpochDuration (epochs : N) : option string :=
  let days := NumberExt.floor_div (Z.of_N epochs) 2880 in
  let hours := NumberExt.floor_div (Z.of_N (epochs mod 2880)) 120 in
  let minutes := NumberExt.floor_div (Z.of_N (epochs mod 120)) 2 in
  match duration_part days "d", duration_part hours "h",
        duration_part minutes "m" with
  | Some d, Some h, Some m =>
      let parts := (d ++ h ++ m)%list in
      Some (if is_empty (join " " parts) then "0m" else join " " parts)
  | _, _, _ => None
  end.

(* ------------------------------------------------------------------ *)
(** * constants/networks.ts *)
(* ------------------------------------------------------------------ *)

Module Network.
Record t : Type := Make {
  name : string;
  chainId : Z;
  networkId : string;
  lotusRpc : string;
  fevmRpc : string;
  explorer : string;
  explorerApi : string;
  beryx : string;
  symbol : string;
  decimals : Z
}.
End Network.

Definition NETWORKS_mainnet : Network.t :=
  Network.Make "Filecoin Mainnet" 314 "mainnet"
    "https://api.node.glif.io/rpc/v1" "https://api.node.glif.io/rpc/v1"
    "https://filfox.info/en" "https://filfox.info/api/v1"
    "https://api.zondax.ch/fil/data/v3/mainnet" "FIL" 18.

Definition NETWORKS_calibration : Network.t :=
  Network.Make "Filecoin Calibration Testnet" 314159 "calibration"
    "https://api.calibration.node.glif.io/rpc/v1"
    "https://api.calibration.node.glif.io/rpc/v1"
    "https://calibration.filfox.info/en"
    "https://calibration.filfox.info/api/v1"
    "https://api.zondax.ch/fil/data/v3/calibration" "tFIL" 18.

Definition NETWORKS_hyperspace : Network.t :=
  Network.Make "Filecoin Hyperspace Testnet" 3141 "hyperspace"
    "https://api.hyperspace.node.glif.io/rpc/v1"
    "https://api.hyperspace.node.glif.io/rpc/v1"
    "https://hyperspace.filfox.info/en"
    "https://hyperspace.filfox.info/api/v1"
    "https://api.zondax.ch/fil/data/v3/hyperspace" "tFIL" 18.

(** The own properties of the object [NETWORKS]. *)
Definition NETWORKS : list (string * Network.t) :=
  [ ("mainnet", NETWORKS_mainnet); ("calibration", NETWORKS_calibration);
    ("hyperspace", NETWORKS_hyperspace) ].

(** The properties that an object literal inherits from
    [Object.prototype]; the value of each is a function or an object,
    none is a network. *)
Definition inherited_keys : list string :=
  [ "constructor"; "__defineGetter__"; "__defineSetter__"; "hasOwnProperty";
    "__lookupGetter__"; "__lookupSetter__"; "isPrototypeOf";
    "propertyIsEnumerable"; "toString"; "valueOf"; "__proto__";
    "toLocaleString" ].

(** What [NETWORKS[network]] can be: a network, a value inherited from
    the prototype, or [undefined]. *)
Inductive network_entry : Type :=
| Configured (config : Network.t)
| Inherited (key : string)
| Undefined.

Fixpoint own_network (table : list (string * Network.t)) (key : string)
  : option Network.t :=
  match table with
  | [] => None
  | (k, v) :: rest => if String.eqb k key then Some v else own_network rest key
  end.

Definition NETWORKS_get (key : string) : network_entry :=
  match own_network NETWORKS key with
  | Some config => Configured config
  | None =>
      if existsb (String.eqb key) inherited_keys then Inherited key
      else Undefined
  end.

(** An optional string in a condition: [undefined] and the empty string
    count as false. *)
Definition truthy (s : option string) : bool :=
  match s with
  | Some v => negb (is_empty v)
  | None => false
  end.

Definition getNetworkConfig (network : string) (customRpc : option string)
  : network_entry :=
  let named :=
    match NETWORKS_get network with
    | Undefined => Configured NETWORKS_mainnet
    | entry => entry
    end in
  match customRpc with
  | Some rpc =>
      if String.eqb network "custom" && truthy customRpc then
        Configured
          (Network.Make "Custom Network" (Network.chainId NETWORKS_mainnet)
             (Network.networkId NETWORKS_mainnet) rpc rpc
             (Network.explorer NETWORKS_mainnet)
             (Network.explorerApi NETWORKS_mainnet)
             (Network.beryx NETWORKS_mainnet)
             (Network.symbol NETWORKS_mainnet)
             (Network.decimals NETWORKS_mainnet))
      else named
  | None => named
  end.

(** [networkConfig.lotusRpc] *)
Definition entry_lotusRpc (entry : network_entry) : option string :=
  match entry with
  | Configured config => Some (Network.lotusRpc config)
  | _ => None
  end.

(* ------------------------------------------------------------------ *)
(** * transport/lotusClient.ts, the constructor and the methods *)
(* ------------------------------------------------------------------ *)

Module LotusClientConfig.
Record t : Type := Make {
  network : string;
  rpcUrl : option string;
  apiToken : option string;
  timeout : option Z
}.
End LotusClientConfig.

(** The argument of [axios.create]. *)
Module AxiosConfig.
Record t : Type := Make {
  baseURL : option string;
  headers : list (string * string);
  timeout : Z
}.
End AxiosConfig.

(** The constructor of [LotusClient], as far as the HTTP client that it
    creates goes; the request counter starts at zero. *)
Definition LotusClient_settings (config : LotusClientConfig.t)
  : AxiosConfig.t :=
  let networkConfig :=
    getNetworkConfig (LotusClientConfig.network config)
                     (LotusClientConfig.rpcUrl config) in
  let baseURL :=
    if truthy (LotusClientConfig.rpcUrl config)
    then LotusClientConfig.rpcUrl config
    else entry_lotusRpc networkConfig in
  let headers := [("Content-Type", "application/json")] in
  let headers :=
    match LotusClientConfig.apiToken config with
    | Some token =>
        if truthy (Some token)
        then (headers ++ [("Authorization", ("Bearer " ++ token)%string)])%list
        else headers
    | None => headers
    end in
  AxiosConfig.Make baseURL headers
    (match LotusClientConfig.timeout config with
     | Some t => if (t =? 0)%Z then 30000%Z else t
     | None => 30000%Z
     end).

Definition createLotusClient (network : string)
    (lotusRpcUrl lotusApiToken : option string) : AxiosConfig.t :=
  LotusClient_settings
    (LotusClientConfig.Make network lotusRpcUrl lotusApiToken None).

Module LotusMethods.
Section Methods.

(** The type of the results and of the parameters of the calls, as in
    [Lotus]; the JSON text of a string, [null], and the field [State]
    of a result that has one. *)
Variables T json : Type.
Variable json_string : string -> json.
Variable json_null : json.
Variable field_State : T -> option T.

(** [tsk || null]: an array counts as true, also when it is empty. *)
Definition or_null (tsk : option json) : json :=
  match tsk with
  | Some keys => keys
  | None => json_null
  end.

Definition getStateGetActor (this : Lotus.LotusClient)
    (post : Lotus.request json -> Lotus.post_outcome T)
    (address : string) (tsk : option json) :=
  Lotus.call T json this post "StateGetActor"
    [json_string address; or_null tsk].

Definition getStateReadState (this : Lotus.LotusClient)
    (post : Lotus.request json -> Lotus.post_outcome T)
    (address : string) (tsk : option json) :=
  Lotus.call T json this post "StateReadState"
    [json_string address; or_null tsk].

(** [getStatePowerActor(tsk)]: the client afterwards, the requests that
    were posted, in order, and the field [State] of the object that is
    returned.  [post1] and [post2] are what the transport does with the
    first and with the second request. *)
Definition getStatePowerActor (this : Lotus.LotusClient)
    (post1 post2 : Lotus.request json -> Lotus.post_outcome T)
    (tsk : option json)
  : Lotus.LotusClient * list (Lotus.request json) * outcome (option T) :=
  let '(this1, req1, actor) := getStateGetActor this post1 "f04" tsk in
  match actor with
  | Thrown e => (this1, [req1], Thrown e)
  | Returned _ =>
      let '(this2, req2, state) := getStateReadState this1 post2 "f04" tsk in
      match state with
      | Thrown e => (this2, [req1; req2], Thrown e)
      | Returned state =>
          (this2, [req1; req2],
           Returned (match state with
                     | Some s => field_State s
                     | None => None
                     end))
      end
  end.

End Methods.
End LotusMethods.

(* ------------------------------------------------------------------ *)
(** * actions/utility/utility.ts, the operations on CIDs and addresses *)
(* ------------------------------------------------------------------ *)

(** The default values of the parameter [chars]. *)
Definition default_cid_chars : nat := 8.
Definition default_address_chars : nat := 6.

Module ValidatedCid.
Record t : Type := Make {
  cid : string;
  isValid : bool;
  version : option Z;
  isPieceCid : option bool
}.
End ValidatedCid.

(** The case [validateCid]. *)
Definition validateCid_operation (cid : string) : ValidatedCid.t :=
  let isValid := validateCid cid in
  ValidatedCid.Make cid isValid
    (if isValid then getCidVersion cid else None)
    (if isValid then Some (isPieceCid cid) else None).

Module FormattedCid.
Record links : Type := Links {
  explorer : string;
  ipfsGateway : string;
  filGateway : string
}.
Record t : Type := Make {
  cid : string;
  short : string;
  version : option Z;
  isPieceCid : bool;
  cid_links : links
}.
End FormattedCid.

(** The case [formatCid]; [network] is the network of the
    credentials. *)
Definition formatCid_operation (cid network : string)
  : outcome FormattedCid.t :=
  if negb (validateCid cid) then Thrown ("Invalid CID: " ++ cid)
  else
    Returned
      (FormattedCid.Make cid (formatCidShort cid default_cid_chars)
         (getCidVersion cid) (isPieceCid cid)
         (FormattedCid.Links
            (getCidExplorerLink cid network)
            (getIpfsGatewayLink cid default_gateway)
            ("https://fil.storage/ipfs/" ++ cid))).

Module ValidatedAddress.
Record t : Type := Make {
  address : string;
  isValid : bool;
  isEthAddress : bool;
  type : option string;
  isRobust : option bool;
  normalized : option string;
  short : option string
}.
End ValidatedAddress.

(** The test of the two address operations for an Ethereum address. *)
Definition looks_like_eth (address : string) : bool :=
  startsWith address "0x" && Nat.eqb (String.length address) 42.

(** The case [validateAddress]. *)
Definition validateAddress_operation (address : string)
  : ValidatedAddress.t :=
  let isValid := validateAddress address in
  let isEthAddress := looks_like_eth address in
  ValidatedAddress.Make address isValid isEthAddress
    (if isValid then Some (getAddressTypeName address) else None)
    (if isValid then Some (isRobustAddress address) else None)
    (if isValid then Some (normalizeAddress address) else None)
    (if isValid then Some (formatAddressShort address default_address_chars)
     else None).

Module ConvertedAddress.
Record t : Type := Make {
  input : string;
  filecoin : string;
  ethereum : option string;
  type : string
}.
End ConvertedAddress.

(** The case [convertAddress]; the field [ethereum] is [None] for
    [null]. *)
Definition convertAddress_operation (address : string)
  : outcome ConvertedAddress.t :=
  let isEthAddress := looks_like_eth address in
  if isEthAddress then
    match ethAddressToFilecoin address false with
    | Returned filecoin =>
        Returned (ConvertedAddress.Make address filecoin
                    (Some (toLowerCase address)) "Ethereum to Filecoin")
    | Thrown e => Thrown e
    end
  else if validateAddress address then
    let ethAddr := filecoinToEthAddress address in
    Returned (ConvertedAddress.Make address (normalizeAddress address)
                ethAddr "Filecoin to Ethereum")
  else Thrown ("Invalid address: " ++ address).

(* ------------------------------------------------------------------ *)
(** * actions/utility/utility.ts, the size of a piece *)
(* ------------------------------------------------------------------ *)

(** The pattern of a text of digits, from its first to its last
    character. *)
Definition DIGITS_PATTERN : pattern := [plus is_digit].

(** The amount of the operation: a text of digits is read as it is,
    any other text by [parseBytes]. *)
Definition byte_value (bytes : string) : outcome Z :=
  if regex_test DIGITS_PATTERN bytes then BigInt_of_string bytes
  else parseBytes bytes.

Module PieceSize.
Record t : Type := Make {
  input : string;
  inputBytes : string;
  inputFormatted : option string;
  paddedPieceSize : string;
  paddedPieceSizeFormatted : option string;
  paddingOverhead : option string;
  note : string
}.
End PieceSize.

(** The share of the padding in the padded size, in percent, with two
    decimals: a quotient of two doubles.  As for [formatBytes], [None]
    stands for a number of 10^21 or more, whose notation is not
    modelled. *)
Definition padding_overhead (paddedSize byteValue : Z) : option string :=
  match Number.toFixed 2
          (NumberExt.div (Number.of_bigint ((paddedSize - byteValue) * 100))
                       (Number.of_bigint paddedSize)) with
  | Some digits => Some (digits ++ "%")
  | None => None
  end.

(** The case [calculatePieceSize]. *)
Definition calculatePieceSize_operation (bytes : string)
  : outcome PieceSize.t :=
  match byte_value bytes with
  | Thrown e => Thrown e
  | Returned byteValue =>
      let paddedSize := calculatePaddedPieceSize byteValue in
      Returned
        (PieceSize.Make bytes (bigint_string byteValue)
           (formatBytes byteValue) (bigint_string paddedSize)
           (formatBytes paddedSize)
           (padding_overhead paddedSize byteValue)
           "Filecoin requires data to be padded to power-of-2 piece sizes")
  end.

(* ------------------------------------------------------------------ *)
(** * actions/utility/utility.ts, signatures *)
(* ------------------------------------------------------------------ *)

Module Signing.
Section Operations.

(** The results and the parameters of the calls, as in [Lotus], with
    what the operations do with them: the JSON text of a string, of
    the base64 form of a string and of a secp256k1 signature with the
    given data; for a result, the string that it is, if it is one, its
    conversion to a string, whether it is [null], and its property of
    a given name, if it has it. *)
Variables T json : Type.
Variable json_string : string -> json.
Variable json_base64 : string -> json.
Variable json_signature : string -> json.
Variable as_string : T -> option string.
Variable text_of : T -> string.
Variable is_null : T -> bool.
Variable field : string -> T -> option T.

Record signed : Type := Signed {
  signer : string;
  signed_data : string;
  signature : option T;
  signatureType : option T
}.

Record verified : Type := Verified {
  address : string;
  data : string;
  verified_signature : string;
  isValid : option T
}.

(** The end of [signData], from the check of the address on; [log]
    holds the requests posted so far. *)
Definition sign_with (lotus : Lotus.LotusClient)
    (post : Lotus.request json -> Lotus.post_outcome T)
    (log : list (Lotus.request json)) (signer_address data : string)
  : list (Lotus.request json) * outcome signed :=
  if negb (validateAddress signer_address)
  then (log, Thrown ("Invalid signer address: " ++ signer_address))
  else
    let '(_, req, out) :=
      Lotus.call T json lotus post "WalletSign"
        [json_string signer_address; json_string data] in
    let log := (log ++ [req])%list in
    match out with
    | Thrown e => (log, Thrown e)
    | Returned None => (log, Thrown "TypeError")
    | Returned (Some sig) =>
        if is_null sig then (log, Thrown "TypeError")
        else
          (log, Returned (Signed signer_address data (field "Data" sig)
                            (field "Type" sig)))
    end.

(** The case [signData]: the requests that are posted, in order, and
    the outcome.  [post1] and [post2] are what the transport does with
    the first and with the second request. *)
Definition signData_operation
    (post1 post2 : Lotus.request json -> Lotus.post_outcome T)
    (data signerAddress : string)
  : list (Lotus.request json) * outcome signed :=
  let lotus := Lotus.new_client in
  if negb (is_empty signerAddress)
  then sign_with lotus post1 [] signerAddress data
  else
    let '(lotus, req, out) :=
      Lotus.call T json lotus post1 "WalletDefaultAddress" [] in
    match out with
    | Thrown e => ([req], Thrown e)
    | Returned None => ([req], Thrown "Invalid signer address: undefined")
    | Returned (Some v) =>
        match as_string v with
        | Some s => sign_with lotus post2 [req] s data
        | None => ([req], Thrown ("Invalid signer address: " ++ text_of v))
        end
    end.

(** The case [verifySignature]. *)
Definition verifySignature_operation
    (post : Lotus.request json -> Lotus.post_outcome T)
    (signature_text originalData verifyAddress : string)
  : list (Lotus.request json) * outcome verified :=
  if negb (validateAddress verifyAddress)
  then ([], Thrown ("Invalid address: " ++ verifyAddress))
  else
    let lotus := Lotus.new_client in
    let '(_, req, out) :=
      Lotus.call T json lotus post "WalletVerify"
        [json_string verifyAddress; json_base64 originalData;
         json_signature signature_text] in
    match out with
    | Thrown e => ([req], Thrown e)
    | Returned isValid =>
        ([req], Returned (Verified verifyAddress originalData signature_text
                            isValid))
    end.

End Operations.
End Signing.

(* ------------------------------------------------------------------ *)
(** * The FEVM actions, the format of an address *)
(* ------------------------------------------------------------------ *)

Module FevmAddress.
Record t : Type := Make {
  original : string;
  addressType : string;
  normalized : string;
  note : string
}.
End FevmAddress.

(** The case [convertAddress] of the FEVM resource. *)
Definition fevm_convertAddress_operation (address : string)
  : outcome FevmAddress.t :=
  let note :=
    "For full address conversion, use external tools or the Filecoin StateAccountKey API" in
  if startsWith address "0x" then
    Returned (FevmAddress.Make address "Ethereum (0x)" (toLowerCase address)
                note)
  else if startsWith address "f4" || startsWith address "t4" then
    Returned (FevmAddress.Make address "Filecoin f4" address note)
  else Thrown "Unknown address format. Use 0x or f4/t4 format.".

(* ------------------------------------------------------------------ *)
(** * Vocabulary of the statements *)
(* ------------------------------------------------------------------ *)

(** The text [g] can be what the item [it] takes. *)
Definition item_ok (it : item) (g : string) : Prop :=
  str_forall (cls it) g = true
  /\ lo it <= String.length g
  /\ match hi it with
     | Some h => String.length g <= h
     | None => True
     end.

Fixpoint concat_all (gs : list string) : string :=
  match gs with
  | [] => ""
  | g :: rest => g ++ concat_all rest
  end.

(** The texts [gs] are a way to cut a text into what the items of [p]
    take, one after the other. *)
Definition cut (p : pattern) (gs : list string) : Prop := Forall2 item_ok p gs.

(** A text made of digits and minus signs. *)
Definition digit_or_minus (c : ascii) : bool := is_digit c || Ascii.eqb c "-".

(** The double that stands for [n / 1024^i], for [0 < n < 2^53]: the
    mantissa is [n] on 53 bits. *)
Definition scaled_double (n : N) (i : nat) : Number.t :=
  Number.Finite false (n * 2 ^ (52 - N.log2 n))
    (Z.of_N (N.log2 n) - 52 - 10 * Z.of_nat i).

(** What [formatBytes] prints for [h] hundredths in a unit. *)
Definition hundredths (h : N) (unit : string) : string :=
  decimal (h / 100) ++ "." ++ BigNumber.pad_left 2 (decimal (h mod 100))
  ++ " " ++ unit.

(** [formatBytes] as the specification words it: 1024-based steps, with
    the fraction cut to two decimals at each step; [h] counts
    hundredths. *)
Fixpoint truncating_steps (h : N) (unit : string) (larger : list string)
  : N * string :=
  match larger with
  | [] => (h, unit)
  | next :: rest =>
      if (1024 * 100 <=? h)%N then truncating_steps (h / 1024) next rest
      else (h, unit)
  end.

Definition formatBytes_truncating (bytes : N) : string :=
  let (h, unit) := truncating_steps (bytes * 100) "B" larger_units in
  hundredths h unit.

(** The number of zeros of the multiplier of a denomination in
    [FIL_DENOMINATIONS]. *)
Definition denomination_exponent (d : FilDenomination) : nat :=
  match d with
  | attoFIL => 0
  | femtoFIL => 3
  | picoFIL => 6
  | nanoFIL => 9
  | microFIL => 12
  | milliFIL => 15
  | FIL => 18
  end.

(* ================================================================== *)
(** * Properties *)
(* ================================================================== *)

(* ------------------------------------------------------------------ *)
(** * Facts about strings *)
(* ------------------------------------------------------------------ *)

(** Decides a closed statement about one character by going through the
    256 characters. *)
Ltac all_chars c :=
  destruct c as [[] [] [] [] [] [] [] []]; vm_compute; try reflexivity;
  try discriminate; auto.

Lemma str_length_app (a b : string) :
  String.length (a ++ b) = String.length a + String.length b.
Proof. induction a as [|c a IH]; simpl; [reflexivity | now rewrite IH]. Qed.

Lemma str_app_empty_r (a : string) : a ++ "" = a.
Proof. induction a as [|c a IH]; simpl; [reflexivity | now rewrite IH]. Qed.

Lemma str_app_assoc (a b c : string) : (a ++ b) ++ c = a ++ (b ++ c).
Proof. induction a as [|x a IH]; simpl; [reflexivity | now rewrite IH]. Qed.

Lemma str_forall_app (p : ascii -> bool) (a b : string) :
  str_forall p (a ++ b) = str_forall p a && str_forall p b.
Proof.
  induction a as [|c a IH]; simpl; [reflexivity|].
  rewrite IH. now rewrite andb_assoc.
Qed.

Lemma str_forall_impl (p q : ascii -> bool) (s : string) :
  (forall c, p c = true -> q c = true) ->
  str_forall p s = true -> str_forall q s = true.
Proof.
  intros Hpq. induction s as [|c s IH]; simpl; [reflexivity|].
  intros H. apply andb_true_iff in H as [Hc Hs].
  rewrite (Hpq _ Hc). simpl. now apply IH.
Qed.

Lemma str_map_app (f : ascii -> ascii) (a b : string) :
  str_map f (a ++ b) = str_map f a ++ str_map f b.
Proof. induction a as [|c a IH]; simpl; [reflexivity | now rewrite IH]. Qed.

Lemma str_map_length (f : ascii -> ascii) (s : string) :
  String.length (str_map f s) = String.length s.
Proof. induction s as [|c s IH]; simpl; [reflexivity | now rewrite IH]. Qed.

Lemma str_map_id (f : ascii -> ascii) (p : ascii -> bool) (s : string) :
  (forall c, p c = true -> f c = c) ->
  str_forall p s = true -> str_map f s = s.
Proof.
  intros Hf. induction s as [|c s IH]; simpl; [reflexivity|].
  intros H. apply andb_true_iff in H as [Hc Hs].
  now rewrite (Hf _ Hc), IH.
Qed.

Lemma slice_app (a b : string) : slice (String.length a) (a ++ b) = b.
Proof. induction a as [|c a IH]; simpl; [now destruct b | exact IH]. Qed.

Lemma slice_forall (p : ascii -> bool) (n : nat) (s : string) :
  str_forall p s = true -> str_forall p (slice n s) = true.
Proof.
  revert s. induction n as [|n IH]; intros s H; [now destruct s|].
  destruct s as [|c s]; simpl; [reflexivity|].
  simpl in H. apply andb_true_iff in H as [_ Hs]. now apply IH.
Qed.

Lemma prefix_app (a b : string) : String.prefix a (a ++ b) = true.
Proof.
  induction a as [|c a IH]; simpl; [now destruct b|].
  destruct (ascii_dec c c) as [_|n]; [exact IH | now elim n].
Qed.

Lemma includes_app (a b : string) : includes (a ++ b) b = true.
Proof.
  induction a as [|c a IH]; simpl.
  - destruct b as [|c b]; simpl; [reflexivity|].
    pose proof (prefix_app (String c b) "") as H. rewrite str_app_empty_r in H.
    simpl in H. now rewrite H.
  - rewrite IH. now rewrite orb_true_r.
Qed.

Lemma trimStart_id (s : string) :
  match s with String c _ => is_space c = false | EmptyString => True end ->
  trimStart s = s.
Proof. destruct s as [|c s]; simpl; [reflexivity|]. now intros ->. Qed.

Lemma trimEnd_id (s : string) :
  str_forall (fun c => negb (is_space c)) s = true -> trimEnd s = s.
Proof.
  induction s as [|c s IH]; simpl; [reflexivity|].
  intros H. apply andb_true_iff in H as [Hc Hs].
  rewrite (IH Hs). destruct s; [|reflexivity].
  apply negb_true_iff in Hc. now rewrite Hc.
Qed.

Lemma span_all (p : ascii -> bool) (a b : string) :
  str_forall p a = true ->
  match b with String c _ => p c = false | EmptyString => True end ->
  span p (a ++ b) = (a, b).
Proof.
  intros Ha Hb. induction a as [|c a IH]; simpl.
  - destruct b as [|c b]; [reflexivity|]. simpl. now rewrite Hb.
  - simpl in Ha. apply andb_true_iff in Ha as [Hc Ha].
    rewrite Hc, (IH Ha). reflexivity.
Qed.

Lemma digits_value_app (acc : N) (a b : string) :
  digits_value acc (a ++ b) = digits_value (digits_value acc a) b.
Proof. revert acc. induction a as [|c a IH]; intros acc; simpl; [reflexivity | apply IH]. Qed.

Lemma digits_value_acc (acc : N) (s : string) :
  digits_value acc s
  = (acc * 10 ^ N.of_nat (String.length s) + digits_value 0 s)%N.
Proof.
  revert acc. induction s as [|c s IH]; intros acc.
  - simpl. lia.
  - cbn [digits_value String.length]. rewrite IH, (IH (10 * 0 + digit_value c)%N).
    rewrite Nat2N.inj_succ, N.pow_succ_r'. lia.
Qed.

(* ------------------------------------------------------------------ *)
(** * Decimal notation *)
(* ------------------------------------------------------------------ *)

Lemma decimal_small (n : N) :
  (n < 10)%N -> decimal n = String (digit_char n) "".
Proof.
  intros H. rewrite decimal_equation_1. unfold decimal_unfold_clause_1.
  destruct (inspect (n <? 10)%N) as [[] Hb]; [reflexivity|].
  apply N.ltb_ge in Hb. lia.
Qed.

Lemma decimal_large (n : N) :
  (10 <= n)%N ->
  decimal n = decimal (n / 10) ++ String (digit_char (n mod 10)) "".
Proof.
  intros H. rewrite decimal_equation_1 at 1. unfold decimal_unfold_clause_1.
  destruct (inspect (n <? 10)%N) as [[] Hb]; [|reflexivity].
  apply N.ltb_lt in Hb. lia.
Qed.

(** Induction on the number of digits. *)
Lemma decimal_ind (P : N -> Prop) :
  (forall n, (n < 10)%N -> P n) ->
  (forall n, (10 <= n)%N -> P (n / 10)%N -> P n) ->
  forall n, P n.
Proof.
  intros Hs Hl n.
  induction n as [n IH] using (well_founded_induction N.lt_wf_0).
  destruct (N.lt_ge_cases n 10) as [H|H]; [now apply Hs|].
  apply Hl; [exact H|]. apply IH.
  apply N.Div0.div_lt_upper_bound. lia.
Qed.

Lemma digit_char_is_digit (d : N) :
  (d < 10)%N -> is_digit (digit_char d) = true.
Proof.
  intros H.
  assert (C : (d = 0 \/ d = 1 \/ d = 2 \/ d = 3 \/ d = 4 \/ d = 5 \/ d = 6
               \/ d = 7 \/ d = 8 \/ d = 9)%N) by lia.
  repeat (destruct C as [-> | C]; [reflexivity | ]). now subst.
Qed.

Lemma digit_char_value (d : N) :
  (d < 10)%N -> digit_value (digit_char d) = d.
Proof.
  intros H.
  assert (C : (d = 0 \/ d = 1 \/ d = 2 \/ d = 3 \/ d = 4 \/ d = 5 \/ d = 6
               \/ d = 7 \/ d = 8 \/ d = 9)%N) by lia.
  repeat (destruct C as [-> | C]; [reflexivity | ]). now subst.
Qed.

Lemma decimal_digits (n : N) : str_forall is_digit (decimal n) = true.
Proof.
  induction n as [n H | n H IH] using decimal_ind.
  - rewrite (decimal_small n H). simpl. now rewrite digit_char_is_digit.
  - rewrite (decimal_large n H), str_forall_app, IH. simpl.
    rewrite digit_char_is_digit; [reflexivity|].
    apply N.mod_lt. lia.
Qed.

Lemma decimal_value (n : N) : digits_value 0 (decimal n) = n.
Proof.
  induction n as [n H | n H IH] using decimal_ind.
  - rewrite (decimal_small n H). cbn [digits_value].
    rewrite digit_char_value; [lia | exact H].
  - rewrite (decimal_large n H), digits_value_app, IH. cbn [digits_value].
    rewrite digit_char_value by (apply N.mod_lt; lia).
    pose proof (N.div_mod n 10 ltac:(lia)). lia.
Qed.

Lemma decimal_nonempty (n : N) :
  exists c s, decimal n = String c s /\ is_digit c = true.
Proof.
  pose proof (decimal_digits n) as Hd.
  induction n as [n H | n H IH] using decimal_ind.
  - rewrite (decimal_small n H) in *. simpl in Hd.
    apply andb_true_iff in Hd as [Hc _]. eauto.
  - rewrite (decimal_large n H) in *.
    rewrite str_forall_app in Hd. apply andb_true_iff in Hd as [Hd _].
    destruct (IH Hd) as (c & s & -> & Hc). simpl. eauto.
Qed.

(* ------------------------------------------------------------------ *)
(** * What a pattern matches *)
(* ------------------------------------------------------------------ *)

Section RunItem.

Variable it : item.
Variable k : string -> option (list string).

Lemma run_item_sound (s : string) :
  forall n acc r,
    run_item it k n acc s = Some r ->
    exists g rest gs,
      s = g ++ rest /\ r = (acc ++ g) :: gs /\ k rest = Some gs
      /\ str_forall (cls it) g = true
      /\ lo it <= n + String.length g
      /\ match hi it with
         | Some h => g = "" \/ n + String.length g <= h
         | None => True
         end.
Proof.
  induction s as [|c s IH]; intros n acc r H.
  - simpl in H. destruct (Nat.leb (lo it) n) eqn:Hlo; [|discriminate].
    destruct (k "") as [gs|] eqn:Hk; [|discriminate].
    injection H as <-. exists "", "", gs.
    rewrite (str_app_empty_r acc). simpl. apply Nat.leb_le in Hlo.
    repeat split; auto; try lia. destruct (hi it); auto.
  - simpl in H.
    assert (Stop :
      (if Nat.leb (lo it) n
       then match k (String c s) with
            | Some gs => Some (acc :: gs)
            | None => None
            end
       else None) = Some r ->
      exists g rest gs,
        String c s = g ++ rest /\ r = (acc ++ g) :: gs /\ k rest = Some gs
        /\ str_forall (cls it) g = true
        /\ lo it <= n + String.length g
        /\ match hi it with
           | Some h => g = "" \/ n + String.length g <= h
           | None => True
           end).
    { intros H'. destruct (Nat.leb (lo it) n) eqn:Hlo; [|discriminate].
      destruct (k (String c s)) as [gs|] eqn:Hk; [|discriminate].
      injection H' as <-. exists "", (String c s), gs.
      rewrite (str_app_empty_r acc). simpl. apply Nat.leb_le in Hlo.
      repeat split; auto; try lia. destruct (hi it); auto. }
    destruct (below n (hi it) && cls it c) eqn:Hstep; [|now apply Stop].
    destruct (run_item it k (S n) (acc ++ String c "") s) as [r'|] eqn:Hrec;
      [|now apply Stop].
    injection H as <-.
    apply andb_true_iff in Hstep as [Hb Hc].
    destruct (IH _ _ _ Hrec) as (g & rest & gs & -> & -> & Hk & Hg & Hlo & Hhi).
    exists (String c g), rest, gs. simpl.
    rewrite Hc, Hg, str_app_assoc. simpl.
    repeat split; auto; [lia|].
    destruct (hi it) as [h|]; [|exact I]. right.
    simpl in Hb. apply Nat.ltb_lt in Hb.
    destruct Hhi as [-> | Hhi]; simpl; lia.
Qed.

Lemma run_item_complete (g rest : string) (gs : list string) :
  k rest = Some gs ->
  forall n acc,
    str_forall (cls it) g = true ->
    lo it <= n + String.length g ->
    match hi it with
    | Some h => n + String.length g <= h
    | None => True
    end ->
    exists r, run_item it k n acc (g ++ rest) = Some r.
Proof.
  intros Hk. induction g as [|c g IH]; intros n acc Hg Hlo Hhi.
  - simpl in Hlo. rewrite Nat.add_0_r in Hlo.
    apply Nat.leb_le in Hlo. simpl.
    destruct rest as [|c rest]; simpl; rewrite Hlo, Hk.
    + eauto.
    + destruct (below n (hi it) && cls it c); [|eauto].
      destruct (run_item it k (S n) (acc ++ String c "") rest); eauto.
  - simpl in Hg. apply andb_true_iff in Hg as [Hc Hg].
    simpl in Hlo, Hhi.
    assert (Hb : below n (hi it) = true).
    { destruct (hi it) as [h|]; [|reflexivity]. apply Nat.ltb_lt. lia. }
    destruct (IH (S n) (acc ++ String c "") Hg) as [r Hr].
    { lia. }
    { destruct (hi it); [lia | exact I]. }
    simpl. rewrite Hb, Hc. simpl. rewrite Hr. eauto.
Qed.

End RunItem.

Lemma regex_exec_sound (p : pattern) :
  forall s gs, regex_exec p s = Some gs -> cut p gs /\ s = concat_all gs.
Proof.
  induction p as [|it p IH]; intros s gs H.
  - destruct s; [|discriminate]. injection H as <-. split; [constructor | reflexivity].
  - simpl in H. apply run_item_sound in H
      as (g & rest & gs' & -> & -> & Hk & Hg & Hlo & Hhi).
    destruct (IH _ _ Hk) as [Hcut ->]. simpl. split; [|reflexivity].
    constructor; [|exact Hcut]. repeat split; auto.
    destruct (hi it) as [h|]; [|exact I].
    destruct Hhi as [-> | Hhi]; simpl in *; lia.
Qed.

Lemma regex_exec_complete (p : pattern) :
  forall gs, cut p gs -> exists r, regex_exec p (concat_all gs) = Some r.
Proof.
  induction p as [|it p IH]; intros gs H.
  - inversion H; subst. simpl. eauto.
  - inversion H as [|? g ? gs' (Hg & Hlo & Hhi) Hcut]; subst.
    destruct (IH _ Hcut) as [r Hr]. simpl.
    eapply run_item_complete; eauto.
Qed.

(** A pattern accepts a text exactly when the text can be cut into
    pieces that fit its items. *)
Lemma regex_test_iff (p : pattern) (s : string) :
  regex_test p s = true <-> exists gs, cut p gs /\ s = concat_all gs.
Proof.
  unfold regex_test. split.
  - destruct (regex_exec p s) as [gs|] eqn:H; [|discriminate].
    intros _. exists gs. now apply regex_exec_sound.
  - intros (gs & Hcut & ->).
    destruct (regex_exec_complete p gs Hcut) as [r ->]. reflexivity.
Qed.

Lemma item_ok_lit (c : ascii) (g : string) :
  item_ok (lit c) g <-> g = String c "".
Proof.
  unfold item_ok, lit; simpl. split.
  - intros (Hg & Hlo & Hhi).
    destruct g as [|x [|y g]]; simpl in *; try lia.
    rewrite andb_true_r in Hg. apply Ascii.eqb_eq in Hg. now subst.
  - intros ->. simpl. rewrite Ascii.eqb_refl. repeat split; lia.
Qed.

Lemma item_ok_one (p : ascii -> bool) (g : string) :
  item_ok (one p) g <-> exists c, g = String c "" /\ p c = true.
Proof.
  unfold item_ok, one; simpl. split.
  - intros (Hg & Hlo & Hhi).
    destruct g as [|x [|y g]]; simpl in *; try lia.
    rewrite andb_true_r in Hg. eauto.
  - intros (c & -> & Hc). simpl. rewrite Hc. repeat split; lia.
Qed.

(** Inversion of a cut, item by item. *)
Ltac cut_inv H :=
  repeat match type of H with
  | cut _ _ => unfold cut in H
  | Forall2 _ (_ :: _) _ =>
      let g := fresh "g" in let gs := fresh "gs" in
      let Hi := fresh "Hitem" in let Hr := fresh "Hrest" in
      inversion H as [|? g ? gs Hi Hr]; subst; clear H; rename Hr into H
  | Forall2 _ [] _ => inversion H; subst; clear H
  end.

(** [/^0x[a-fA-F0-9]{40}$/] *)
Lemma ETH_ADDRESS_iff (s : string) :
  regex_test ETH_ADDRESS s = true <->
  exists h, s = "0x" ++ h /\ String.length h = 40
            /\ str_forall hex_char h = true.
Proof.
  rewrite regex_test_iff. unfold ETH_ADDRESS. split.
  - intros (gs & Hcut & ->). cut_inv Hcut.
    apply item_ok_lit in Hitem, Hitem0. subst.
    destruct Hitem1 as (Hg & Hlo & Hhi). simpl in *.
    exists g1. rewrite str_app_empty_r. repeat split; auto. lia.
  - intros (h & -> & Hlen & Hh).
    exists ["0"; "x"; h]. simpl. rewrite str_app_empty_r. split; [|reflexivity].
    constructor; [now apply item_ok_lit|].
    constructor; [now apply item_ok_lit|].
    constructor; [|constructor].
    repeat split; simpl; auto; lia.
Qed.

(** [/^[ft]0[0-9]+$/] *)
Lemma ID_ADDRESS_iff (s : string) :
  regex_test ID_ADDRESS s = true <->
  exists c ds, s = String c (String "0" ds) /\ f_or_t c = true
               /\ ds <> "" /\ str_forall is_digit ds = true.
Proof.
  rewrite regex_test_iff. unfold ID_ADDRESS. split.
  - intros (gs & Hcut & ->). cut_inv Hcut.
    apply item_ok_one in Hitem as (c & -> & Hc).
    apply item_ok_lit in Hitem0. subst.
    destruct Hitem1 as (Hg & Hlo & Hhi). simpl in *.
    exists c, g1. rewrite str_app_empty_r. repeat split; auto.
    intros ->. simpl in Hlo. lia.
  - intros (c & ds & -> & Hc & Hne & Hds).
    exists [String c ""; "0"; ds]. simpl. rewrite str_app_empty_r. split; [|reflexivity].
    constructor; [now apply item_ok_one; eauto|].
    constructor; [now apply item_ok_lit|].
    constructor; [|constructor].
    repeat split; simpl; auto. destruct ds; [congruence | simpl; lia].
Qed.

(* ------------------------------------------------------------------ *)
(** * CIDs *)
(* ------------------------------------------------------------------ *)

Lemma prefix_shorter (a b s : string) :
  String.prefix (a ++ b) s = true -> String.prefix a s = true.
Proof.
  revert s. induction a as [|c a IH]; intros s H.
  - now destruct s.
  - destruct s as [|d s]; [discriminate|]. simpl in *.
    destruct (ascii_dec c d); [now apply IH | discriminate].
Qed.

(** ["Qm" followed by exactly 44 characters of the base58 alphabet]. *)
Lemma CID_V0_PATTERN_iff (s : string) :
  regex_test CID_V0_PATTERN s = true <->
  exists h, s = "Qm" ++ h /\ String.length h = 44
            /\ str_forall base58_char h = true.
Proof.
  rewrite regex_test_iff. unfold CID_V0_PATTERN. split.
  - intros (gs & Hcut & ->). cut_inv Hcut.
    apply item_ok_lit in Hitem, Hitem0. subst.
    destruct Hitem1 as (Hg & Hlo & Hhi). simpl in *.
    exists g1. rewrite str_app_empty_r. repeat split; auto. lia.
  - intros (h & -> & Hlen & Hh).
    exists ["Q"; "m"; h]. simpl. rewrite str_app_empty_r. split; [|reflexivity].
    constructor; [now apply item_ok_lit|].
    constructor; [now apply item_ok_lit|].
    constructor; [|constructor].
    repeat split; simpl; auto; lia.
Qed.

(** ["b" followed by at least 58 characters of the base32 alphabet]. *)
Lemma CID_V1_PATTERN_iff (s : string) :
  regex_test CID_V1_PATTERN s = true <->
  exists h, s = "b" ++ h /\ 58 <= String.length h
            /\ str_forall base32_char h = true.
Proof.
  rewrite regex_test_iff. unfold CID_V1_PATTERN. split.
  - intros (gs & Hcut & ->). cut_inv Hcut.
    apply item_ok_lit in Hitem. subst.
    destruct Hitem0 as (Hg & Hlo & Hhi). simpl in *.
    exists g0. rewrite str_app_empty_r. repeat split; auto.
  - intros (h & -> & Hlen & Hh).
    exists ["b"; h]. simpl. rewrite str_app_empty_r. split; [|reflexivity].
    constructor; [now apply item_ok_lit|].
    constructor; [|constructor].
    repeat split; simpl; auto.
Qed.

(** What [validateCid] decides: a string that starts with [Qm] is
    tested against the version-0 pattern; any other string that starts
    with [b] is accepted exactly when it has at least 59 characters,
    whatever they are; nothing else is accepted.  The branch for
    strings that start with [ba] never decides. *)
Lemma validateCid_behaviour (cid : string) :
  validateCid cid =
    (if startsWith cid "Qm" then regex_test CID_V0_PATTERN cid
     else if startsWith cid "b" then Nat.leb 59 (String.length cid)
     else false).
Proof.
  unfold validateCid.
  destruct cid as [|c cid]; [reflexivity|].
  destruct (startsWith (String c cid) "Qm"); [reflexivity|].
  destruct (startsWith (String c cid) "b") eqn:Hb; [reflexivity|].
  destruct (startsWith (String c cid) "ba") eqn:Hba; [|reflexivity].
  apply (prefix_shorter "b" "a") in Hba. unfold startsWith in Hb. congruence.
Qed.

(** The version-0 CIDs that are accepted are [Qm] followed by exactly
    44 base58 characters, and every [b] followed by at least 58 base32
    characters is accepted; so are the two sample CIDs of the tests,
    and ["invalid"] is not. *)
Lemma validateCid_accepts (cid : string) :
  (startsWith cid "Qm" = true ->
     (validateCid cid = true <->
      exists h, cid = "Qm" ++ h /\ String.length h = 44
                /\ str_forall base58_char h = true))
  /\ (regex_test CID_V1_PATTERN cid = true -> validateCid cid = true)
  /\ validateCid "QmYwAPJzv5CZsnA625s3Xf2nemtYgPpHdWEz79ojWnPbdG" = true
  /\ validateCid "bafybeigdyrzt5sfp7udm7hu76uh7y26nf3efuylqabf3oclgtqy55fbzdi"
     = true
  /\ validateCid "invalid" = false.
Proof.
  split; [|split].
  - intros HQ. rewrite <- CID_V0_PATTERN_iff, validateCid_behaviour, HQ.
    reflexivity.
  - intros H. apply CID_V1_PATTERN_iff in H as (h & -> & Hlen & _).
    rewrite validateCid_behaviour.
    change ("b" ++ h) with (String "b" h).
    replace (startsWith (String "b" h) "Qm") with false by reflexivity.
    replace (startsWith (String "b" h) "b") with true
      by (destruct h; reflexivity).
    apply Nat.leb_le. cbn [String.length]. lia.
  - repeat split; reflexivity.
Qed.

(** C5.  The code departs from the claim at [ba] followed by 57 zeros,
    59 characters: a zero is not a base32 character, so the string is
    not [b] followed by at least 58 base32 characters, and the pattern
    of the branch for [ba] does not match it either; [validateCid]
    returns [true] for it, on its length, in the branch for [b]. *)
Lemma validateCid_ignores_alphabet :
  validateCid "ba000000000000000000000000000000000000000000000000000000000"
  = true
  /\ regex_test CID_V1_PATTERN
       "ba000000000000000000000000000000000000000000000000000000000"
     = false
  /\ regex_test CID_BASE32_PATTERN
       "ba000000000000000000000000000000000000000000000000000000000"
     = false
  /\ String.length
       "ba000000000000000000000000000000000000000000000000000000000" = 59
  /\ base32_char "0" = false.
Proof. repeat split; reflexivity. Qed.

(* ------------------------------------------------------------------ *)
(** * Padded piece size *)
(* ------------------------------------------------------------------ *)

Lemma double_until_spec (size dataSize : Z) (pos : (0 < size)%Z) :
  forall j, (0 <= j)%Z -> size = (2 ^ j)%Z ->
  exists k, (j <= k)%Z
    /\ double_until size dataSize pos = (2 ^ k)%Z
    /\ (dataSize <= 2 ^ k)%Z
    /\ (k = j \/ 2 ^ (k - 1) < dataSize)%Z.
Proof.
  funelim (double_until size dataSize pos); intros j Hj Hsize.
  - destruct (H (j + 1)%Z) as (k & Hk & Hr & Hge & Hlt).
    + lia.
    + rewrite Z.pow_add_r by lia. lia.
    + exists k. repeat split; auto; try lia.
      right. destruct Hlt as [-> | Hlt]; [|exact Hlt].
      replace (j + 1 - 1)%Z with j by lia. lia.
  - exists j. repeat split; auto; lia.
Qed.

Lemma pow2_le_inv (a b : Z) :
  (0 <= a)%Z -> (0 <= b)%Z -> (2 ^ a < 2 ^ (b + 1))%Z -> (a <= b)%Z.
Proof.
  intros Ha Hb H. apply Z.pow_lt_mono_r_iff in H; lia.
Qed.

(** C2 (as amended).  [calculatePaddedPieceSize n] is the smallest power
    of two that is at least [n] and at least 256: it is a power of two
    from 2^8 on, it is not below [n], no power of two from 2^8 on that
    reaches [n] is smaller; it is below [2 * n] as soon as [n] exceeds
    128, and it is [n] itself when [n] is a power of two from 256 on.
    At 0, 256, 257 and 64 GiB it is 256, 256, 512 and 64 GiB; on
    bigints nothing overflows. *)
Theorem calculatePaddedPieceSize_spec (n : Z) :
  let r := calculatePaddedPieceSize n in
  (exists k, 8 <= k /\ r = 2 ^ k)%Z
  /\ (n <= r)%Z
  /\ (forall k, 8 <= k -> n <= 2 ^ k -> r <= 2 ^ k)%Z
  /\ (128 < n -> r < 2 * n)%Z
  /\ (forall k, 8 <= k -> n = 2 ^ k -> r = n)%Z
  /\ calculatePaddedPieceSize 0 = 256%Z
  /\ calculatePaddedPieceSize 256 = 256%Z
  /\ calculatePaddedPieceSize 257 = 512%Z
  /\ calculatePaddedPieceSize (64 * 1024 * 1024 * 1024)
     = (64 * 1024 * 1024 * 1024)%Z.
Proof.
  assert (P8 : forall k, (8 <= k)%Z -> (256 <= 2 ^ k)%Z).
  { intros k Hk. change 256%Z with (2 ^ 8)%Z.
    apply Z.pow_le_mono_r; lia. }
  assert (Main :
    let r := calculatePaddedPieceSize n in
    (exists k, 8 <= k /\ r = 2 ^ k)%Z
    /\ (n <= r)%Z
    /\ (forall k, 8 <= k -> n <= 2 ^ k -> r <= 2 ^ k)%Z
    /\ (128 < n -> r < 2 * n)%Z).
  { unfold calculatePaddedPieceSize.
    destruct (Z.leb_spec n 0) as [Hn | Hn].
    - cbv zeta. split; [exists 8%Z; split; [lia | reflexivity]|].
      split; [lia|]. split; [|lia]. intros k Hk _. now apply P8.
    - destruct (double_until_spec 1 n eq_refl 0 ltac:(lia) eq_refl)
        as (k & Hk & Hr & Hge & Hlt).
      cbv zeta. rewrite Hr.
      destruct (Z.ltb_spec (2 ^ k) 256) as [Hsmall | Hbig].
      + split; [exists 8%Z; split; [lia | reflexivity]|].
        split; [lia|]. split; [|lia]. intros k' Hk' _. now apply P8.
      + assert (Hk8 : (8 <= k)%Z).
        { destruct (Z.le_gt_cases 8 k) as [?|Hlt8]; [assumption|].
          exfalso. assert (2 ^ k <= 2 ^ 7)%Z by (apply Z.pow_le_mono_r; lia).
          change (2 ^ 7)%Z with 128%Z in *. lia. }
        destruct Hlt as [-> | Hlt]; [lia|].
        split; [exists k; split; [lia | reflexivity]|].
        split; [lia|]. split.
        * intros k' Hk' Hn'.
          apply Z.pow_le_mono_r; [lia|].
          apply pow2_le_inv; try lia.
          replace (k' + 1)%Z with (Z.succ k') by lia.
          rewrite Z.pow_succ_r by lia.
          assert (2 ^ (k - 1) < 2 ^ k')%Z by lia.
          replace k with (Z.succ (k - 1)) at 1 by lia.
          rewrite Z.pow_succ_r by lia. lia.
        * intros _. replace k with (Z.succ (k - 1)) by lia.
          rewrite Z.pow_succ_r by lia. lia. }
  cbv zeta in *. destruct Main as (M1 & M2 & M3 & M4).
  split; [exact M1|]. split; [exact M2|]. split; [exact M3|].
  split; [exact M4|]. split.
  - intros k Hk ->. specialize (M3 k Hk ltac:(lia)). lia.
  - repeat split; reflexivity.
Qed.

(** C2, the claim as written fails: at [n = 3] the result is 256, which
    is not below [2 * 3]. *)
Lemma calculatePaddedPieceSize_not_below_double :
  calculatePaddedPieceSize 3 = 256%Z
  /\ ~ (3 <= calculatePaddedPieceSize 3 < 2 * 3)%Z.
Proof.
  assert (H : calculatePaddedPieceSize 3 = 256%Z) by reflexivity.
  split; [exact H|]. rewrite H. lia.
Qed.

(* ------------------------------------------------------------------ *)
(** * Addresses *)
(* ------------------------------------------------------------------ *)

Lemma digit_not_space (c : ascii) : is_digit c = true -> is_space c = false.
Proof. all_chars c. Qed.

Lemma digit_not_upper (c : ascii) : is_digit c = true -> is_upper c = false.
Proof. all_chars c. Qed.

Lemma any_sign_digit (c : ascii) (s : string) :
  is_digit c = true -> any_sign (String c s) = (false, String c s).
Proof. all_chars c. Qed.

Lemma minus_sign_digit (c : ascii) (s : string) :
  is_digit c = true -> minus_sign (String c s) = (false, String c s).
Proof. all_chars c. Qed.

Lemma span_digits (ds : string) :
  str_forall is_digit ds = true -> span is_digit ds = (ds, "").
Proof.
  intros H. pose proof (span_all is_digit ds "" H I) as E.
  now rewrite str_app_empty_r in E.
Qed.


(** The protocol digit that [getAddressType] reads is the one
    [validateAddress] reads. *)
Lemma short_address_no_protocol (address : string) :
  Nat.ltb (String.length address) 2 = true ->
  parseInt_charAt 1 address = None.
Proof.
  destruct address as [|c [|d rest]]; intros H; try reflexivity.
  discriminate.
Qed.

(** C3 (as amended).  [validateAddress] tests a string that starts with
    [0x] against the Ethereum pattern; any other string is classified by
    [getAddressType], and is valid exactly when it matches the pattern
    of its protocol for the ID, Secp256k1, Actor and BLS protocols, and
    exactly when it has more than three characters for the Delegated
    protocol; a string without a protocol is not valid.  Every string
    that matches the delegated-address pattern is accepted. *)
Theorem validateAddress_by_protocol (address : string) :
  validateAddress address =
    (if startsWith address "0x" then regex_test ETH_ADDRESS address
     else match getAddressType address with
          | Some 0%Z => regex_test ID_ADDRESS address
          | Some 1%Z => regex_test SECP256K1_ADDRESS address
          | Some 2%Z => regex_test ACTOR_ADDRESS address
          | Some 3%Z => regex_test BLS_ADDRESS address
          | Some 4%Z => Nat.ltb 3 (String.length address)
          | _ => false
          end)
  /\ implb (regex_test DELEGATED_ADDRESS address) (validateAddress address)
     = true.
Proof.
  assert (Main : validateAddress address =
    (if startsWith address "0x" then regex_test ETH_ADDRESS address
     else match getAddressType address with
          | Some 0%Z => regex_test ID_ADDRESS address
          | Some 1%Z => regex_test SECP256K1_ADDRESS address
          | Some 2%Z => regex_test ACTOR_ADDRESS address
          | Some 3%Z => regex_test BLS_ADDRESS address
          | Some 4%Z => Nat.ltb 3 (String.length address)
          | _ => false
          end)).
  { unfold validateAddress, getAddressType.
    destruct (startsWith address "0x") eqn:H0x.
    { destruct address; [discriminate | reflexivity]. }
    destruct (Nat.ltb (String.length address) 2) eqn:Hlen.
    { rewrite (short_address_no_protocol _ Hlen).
      destruct address as [|c rest]; [reflexivity|].
      destruct (charAt 0 (String c rest)); [|reflexivity].
      now destruct (negb (Ascii.eqb a "f") && negb (Ascii.eqb a "t")). }
    destruct address as [|c rest]; [discriminate|].
    destruct (charAt 0 (String c rest)) as [prefix|]; [|reflexivity].
    destruct (negb (Ascii.eqb prefix "f") && negb (Ascii.eqb prefix "t"));
      [reflexivity|].
    destruct (parseInt_charAt 1 (String c rest)) as [protocol|]; [|reflexivity].
    destruct ((protocol <? 0)%Z || (4 <? protocol)%Z) eqn:Hrange;
      [reflexivity|].
    apply orb_false_iff in Hrange as [Hlo Hhi].
    apply Z.ltb_ge in Hlo, Hhi.
    assert (C : (protocol = 0 \/ protocol = 1 \/ protocol = 2
                 \/ protocol = 3 \/ protocol = 4)%Z) by lia.
    repeat (destruct C as [-> | C]; [reflexivity | ]). now subst. }
  split; [exact Main|].
  destruct (regex_test DELEGATED_ADDRESS address) eqn:Hd; [|reflexivity].
  simpl. apply regex_test_iff in Hd as (gs & Hcut & ->).
  unfold DELEGATED_ADDRESS in Hcut. cut_inv Hcut.
  apply item_ok_one in Hitem as (c & -> & Hc).
  apply item_ok_lit in Hitem0, Hitem2. subst.
  destruct Hitem1 as (_ & Hlo1 & _). destruct Hitem3 as (_ & Hlo3 & _).
  destruct g1 as [|d g1]; [simpl in Hlo1; lia|].
  clear Main Hlo1 Hlo3.
  unfold f_or_t in Hc. apply orb_true_iff in Hc as [Hc | Hc];
    apply Ascii.eqb_eq in Hc; subst; destruct g1; reflexivity.
Qed.

(** The delegated address that [ethAddressToFilecoin] makes of the
    wrapped-FIL contract of [FEVM_ADDRESSES] has hexadecimal digits
    that are no base32 characters: [validateAddress] accepts it, and the
    delegated-address pattern does not match it. *)
Lemma eam_address_outside_pattern :
  ethAddressToFilecoin "0x60E1773636CF5E4A227d9AC24F20fEca034ee25A" false
  = Returned "f410f60e1773636cf5e4a227d9ac24f20feca034ee25a"
  /\ validateAddress "f410f60e1773636cf5e4a227d9ac24f20feca034ee25a" = true
  /\ regex_test DELEGATED_ADDRESS
       "f410f60e1773636cf5e4a227d9ac24f20feca034ee25a" = false.
Proof. repeat split; reflexivity. Qed.

(** C3, the claim as written fails: ["f4!!"] is classified as a
    Delegated address and is accepted, and it does not match the
    delegated-address pattern. *)
Lemma validateAddress_accepts_malformed_delegated :
  getAddressType "f4!!" = Some ADDRESS_TYPES_DELEGATED
  /\ validateAddress "f4!!" = true
  /\ regex_test DELEGATED_ADDRESS "f4!!" = false.
Proof. repeat split; reflexivity. Qed.

(* ------------------------------------------------------------------ *)
(** * Ethereum addresses and delegated addresses *)
(* ------------------------------------------------------------------ *)

Lemma lower_of_hex (c : ascii) :
  hex_char c = true -> lower_hex_char (lower_char c) = true.
Proof. all_chars c. Qed.

Lemma lower_hex_any_case (c : ascii) :
  lower_hex_char c = true ->
  lower_hex_char (lower_char c) || lower_hex_char (upper_char c) = true.
Proof. all_chars c. Qed.

Lemma toLowerCase_hex (h : string) :
  str_forall hex_char h = true ->
  str_forall lower_hex_char (toLowerCase h) = true.
Proof.
  unfold toLowerCase.
  induction h as [|c h IH]; simpl; [reflexivity|].
  intros H. apply andb_true_iff in H as [Hc Hh].
  now rewrite (lower_of_hex c Hc), IH.
Qed.

Lemma F410_PATTERN_accepts (h : string) :
  String.length h = 40 -> str_forall lower_hex_char h = true ->
  regex_test F410_PATTERN ("f410f" ++ h) = true.
Proof.
  intros Hlen Hh. apply regex_test_iff.
  exists ["f"; "4"; "1"; "0"; "f"; h]. split.
  - unfold F410_PATTERN, ignore_case, cut. simpl.
    repeat (constructor; [repeat split; simpl; auto; lia|]).
    constructor; [|constructor].
    repeat split; simpl; try lia.
    eapply str_forall_impl; [|exact Hh]. apply lower_hex_any_case.
  - simpl. now rewrite str_app_empty_r.
Qed.

(** C4.  For every string [e] that is [0x] followed by 40 hexadecimal
    characters, [ethAddressToFilecoin e false] is [f], then [410f], then
    40 lower-case hexadecimal characters, and [filecoinToEthAddress]
    takes that prefix off again and gives [e] in lower case. *)
Theorem eth_delegated_roundtrip (h0 : string) :
  String.length h0 = 40 -> str_forall hex_char h0 = true ->
  let e := "0x" ++ h0 in
  exists h,
    String.length h = 40 /\ str_forall lower_hex_char h = true
    /\ ethAddressToFilecoin e false = Returned ("f" ++ "410f" ++ h)
    /\ filecoinToEthAddress ("f" ++ "410f" ++ h) = Some ("0x" ++ h)
    /\ "0x" ++ h = toLowerCase e.
Proof.
  intros Hlen Hhex e. exists (toLowerCase h0).
  assert (Hl : String.length (toLowerCase h0) = 40).
  { unfold toLowerCase. now rewrite str_map_length. }
  assert (Hh : str_forall lower_hex_char (toLowerCase h0) = true)
    by now apply toLowerCase_hex.
  split; [exact Hl|]. split; [exact Hh|]. split; [|split].
  - unfold ethAddressToFilecoin.
    assert (He : regex_test ETH_ADDRESS e = true).
    { apply ETH_ADDRESS_iff. exists h0. auto. }
    rewrite He. reflexivity.
  - unfold filecoinToEthAddress.
    change ("f" ++ "410f" ++ toLowerCase h0) with ("f410f" ++ toLowerCase h0).
    rewrite (F410_PATTERN_accepts _ Hl Hh). reflexivity.
  - reflexivity.
Qed.

(** An instance of [eth_delegated_roundtrip]: the wrapped-FIL contract
    of [FEVM_ADDRESSES]. *)
Lemma eth_delegated_roundtrip_wfil :
  String.length "60E1773636CF5E4A227d9AC24F20fEca034ee25A" = 40
  /\ str_forall hex_char "60E1773636CF5E4A227d9AC24F20fEca034ee25A" = true
  /\ exists h,
    String.length h = 40 /\ str_forall lower_hex_char h = true
    /\ ethAddressToFilecoin "0x60E1773636CF5E4A227d9AC24F20fEca034ee25A" false
       = Returned ("f" ++ "410f" ++ h)
    /\ filecoinToEthAddress ("f" ++ "410f" ++ h) = Some ("0x" ++ h)
    /\ "0x" ++ h = toLowerCase "0x60E1773636CF5E4A227d9AC24F20fEca034ee25A".
Proof.
  split; [reflexivity|]. split; [reflexivity|].
  apply (eth_delegated_roundtrip "60E1773636CF5E4A227d9AC24F20fEca034ee25A");
    reflexivity.
Defined.

(* ------------------------------------------------------------------ *)
(** * The Lotus client *)
(* ------------------------------------------------------------------ *)

Section LotusClientFacts.

Variables T json : Type.

Lemma calls_ids (cs : list ((Lotus.request json -> Lotus.post_outcome T) * string * list json)) :
  forall this : Lotus.LotusClient,
    Lotus.ids_of T json (snd (Lotus.calls T json this cs))
    = Lotus.count_from (Lotus.requestId this) (List.length cs)
    /\ Lotus.requestId (fst (Lotus.calls T json this cs))
       = (Lotus.requestId this + N.of_nat (List.length cs))%N.
Proof.
  induction cs as [|[[post m] ps] cs IH]; intros this.
  - simpl. split; [reflexivity | lia].
  - cbn [Lotus.calls Lotus.call List.length Lotus.count_from].
    destruct (IH (Lotus.Client (Lotus.requestId this + 1))) as [Hids Hfin].
    destruct (Lotus.calls T json (Lotus.Client (Lotus.requestId this + 1)) cs)
      as [final log].
    cbn [fst snd Lotus.ids_of map Lotus.id Lotus.requestId] in *.
    split; [now rewrite <- Hids | lia].
Qed.

Lemma count_from_bounds (n : nat) :
  forall start x, In x (Lotus.count_from start n) ->
    (start < x <= start + N.of_nat n)%N.
Proof.
  induction n as [|n IH]; intros start x H; [contradiction|].
  destruct H as [<- | H]; [lia|]. apply IH in H. lia.
Qed.

Lemma count_from_NoDup (n : nat) : forall start, NoDup (Lotus.count_from start n).
Proof.
  induction n as [|n IH]; intros start; constructor; [|apply IH].
  intros H. apply count_from_bounds in H. lia.
Qed.

Lemma count_from_nth (n : nat) :
  forall start i, i < n ->
    nth_error (Lotus.count_from start n) i = Some (start + N.of_nat (S i))%N.
Proof.
  induction n as [|n IH]; intros start i Hi; [lia|].
  destruct i as [|i]; cbn [Lotus.count_from nth_error].
  - f_equal; lia.
  - rewrite IH by lia. f_equal; lia.
Qed.

(** C7.  On a new client, whatever the calls are and however each of
    them ends, the ids of the requests are 1, 2, ..., n in the order of
    the calls: the call at index [i] (the [i+1]-th call) carries
    [i + 1], no id occurs twice, and the counter ends at [n]. *)
Theorem request_ids_count_calls
    (cs : list ((Lotus.request json -> Lotus.post_outcome T) * string * list json)) :
  let log := snd (Lotus.calls T json Lotus.new_client cs) in
  Lotus.ids_of T json log = Lotus.count_from 0 (List.length cs)
  /\ (forall i, i < List.length cs ->
        nth_error (Lotus.ids_of T json log) i = Some (N.of_nat (i + 1)))
  /\ NoDup (Lotus.ids_of T json log)
  /\ Lotus.requestId (fst (Lotus.calls T json Lotus.new_client cs))
     = N.of_nat (List.length cs).
Proof.
  destruct (calls_ids cs Lotus.new_client) as [Hids Hfin].
  cbv zeta. rewrite Hids. repeat split.
  - intros i Hi. rewrite count_from_nth by exact Hi.
    rewrite N.add_0_l. replace (i + 1) with (S i) by lia. reflexivity.
  - apply count_from_NoDup.
  - rewrite Hfin. reflexivity.
Qed.

(** C6.  A call whose POST resolves (a 2xx status) with a body that
    carries an error fails, with the server's message after ["Lotus RPC
    Error: "], instead of returning a result; a call whose POST is
    rejected fails through the same channel, a thrown error with a
    message: the server's message when the response carries an error,
    the transport's message after ["Lotus connection error: "] when it
    does not; and in each case the text of the thrown error contains
    that message.  With an endpoint that answers every request with
    status 200 and [{"error":{"code":1,"message":"actor not found"}}],
    the call throws ["Lotus RPC Error: actor not found"]. *)
Theorem call_surfaces_errors (this : Lotus.LotusClient)
    (post : Lotus.request json -> Lotus.post_outcome T)
    (method_name : string) (parameters : list json) :
  (let '(_, req, out) := Lotus.call T json this post method_name parameters in
   match post req with
   | Lotus.Resolved _ data =>
       match Lotus.error T data with
       | Some e =>
           out = Thrown ("Lotus RPC Error: " ++ Lotus.message e)
           /\ includes ("Lotus RPC Error: " ++ Lotus.message e)
                       (Lotus.message e) = true
       | None => out = Returned (Lotus.result T data)
       end
   | Lotus.AxiosError _ msg response =>
       match Lotus.response_error T response with
       | Some e =>
           out = Thrown ("Lotus RPC Error: " ++ Lotus.message e)
           /\ includes ("Lotus RPC Error: " ++ Lotus.message e)
                       (Lotus.message e) = true
       | None =>
           out = Thrown ("Lotus connection error: " ++ msg)
           /\ includes ("Lotus connection error: " ++ msg) msg = true
       end
   | Lotus.OtherError _ msg => out = Thrown msg
   end)
  /\ (let actor_not_found :=
        Lotus.Resolved T
          (Lotus.Response T None (Some (Lotus.RpcError 1 "actor not found"))) in
      snd (Lotus.call T json this (fun _ => actor_not_found)
                      method_name parameters)
      = Thrown "Lotus RPC Error: actor not found"
      /\ includes "Lotus RPC Error: actor not found" "actor not found" = true).
Proof.
  split; [|split; reflexivity].
  unfold Lotus.call.
  destruct (post _) as [data | msg response | msg].
  - destruct (Lotus.error T data) as [e|]; [|reflexivity].
    split; [reflexivity | apply includes_app].
  - destruct (Lotus.response_error T response) as [e|];
      (split; [reflexivity | apply includes_app]).
  - reflexivity.
Qed.

End LotusClientFacts.

(* ------------------------------------------------------------------ *)
(** * Decimal literals of bignumber.js *)
(* ------------------------------------------------------------------ *)

Lemma digits_value_0 (s : string) (c : ascii) :
  digits_value 0 (String c s)
  = (digit_value c * 10 ^ N.of_nat (String.length s) + digits_value 0 s)%N.
Proof. cbn [digits_value]. rewrite digits_value_acc. lia. Qed.

Lemma zeros_length (n : nat) : String.length (BigNumber.zeros n) = n.
Proof. induction n as [|n IH]; simpl; [reflexivity | now rewrite IH]. Qed.

Lemma zeros_digits (n : nat) : str_forall is_digit (BigNumber.zeros n) = true.
Proof. induction n as [|n IH]; simpl; [reflexivity | exact IH]. Qed.

Lemma zeros_value (n : nat) : digits_value 0 (BigNumber.zeros n) = 0%N.
Proof.
  induction n as [|n IH]; [reflexivity|].
  cbn [BigNumber.zeros]. rewrite digits_value_0, IH. reflexivity.
Qed.

Lemma decimal_length (k : nat) :
  forall n, 1 <= k -> (n < 10 ^ N.of_nat k)%N -> String.length (decimal n) <= k.
Proof.
  induction k as [|k IH]; intros n Hk Hn; [lia|].
  destruct (N.lt_ge_cases n 10) as [Hs | Hl].
  - rewrite (decimal_small n Hs). simpl. lia.
  - rewrite (decimal_large n Hl), str_length_app. simpl.
    rewrite Nat2N.inj_succ, N.pow_succ_r' in Hn.
    assert (Hq : (n / 10 < 10 ^ N.of_nat k)%N).
    { apply N.Div0.div_lt_upper_bound. lia. }
    destruct k as [|k].
    + simpl in Hn. lia.
    + specialize (IH (n / 10)%N ltac:(lia) Hq). lia.
Qed.

(** The digits of [n], with zeros in front up to [k] characters: a text
    of [k] digits whose value is [n]. *)
Lemma pad_left_spec (k : nat) (n : N) :
  1 <= k -> (n < 10 ^ N.of_nat k)%N ->
  let s := BigNumber.pad_left k (decimal n) in
  String.length s = k /\ str_forall is_digit s = true
  /\ digits_value 0 s = n.
Proof.
  intros Hk Hn. pose proof (decimal_length k n Hk Hn) as Hlen.
  unfold BigNumber.pad_left. cbv zeta. split; [|split].
  - rewrite str_length_app, zeros_length. lia.
  - now rewrite str_forall_app, zeros_digits, decimal_digits.
  - now rewrite digits_value_app, zeros_value, decimal_value.
Qed.

(** Dropping the zeros at the end of a text of digits divides its value
    by the power of ten that they stand for. *)
Lemma drop_trailing_zeros_spec (s : string) :
  str_forall is_digit s = true ->
  let f := BigNumber.drop_trailing_zeros s in
  str_forall is_digit f = true
  /\ String.length f <= String.length s
  /\ digits_value 0 s
     = (digits_value 0 f
        * 10 ^ N.of_nat (String.length s - String.length f))%N.
Proof.
  induction s as [|c s IH]; intros Hs.
  - simpl. repeat split; auto.
  - simpl in Hs. apply andb_true_iff in Hs as [Hc Hs].
    destruct (IH Hs) as (Hf & Hlen & Hval). cbv zeta.
    cbn [BigNumber.drop_trailing_zeros].
    destruct (BigNumber.drop_trailing_zeros s) as [|d f] eqn:E.
    + simpl in Hval. destruct (Ascii.eqb c "0") eqn:Hc0.
      * apply Ascii.eqb_eq in Hc0. subst c.
        split; [reflexivity|]. split; [simpl; lia|].
        rewrite digits_value_0, Hval. reflexivity.
      * split; [simpl; now rewrite Hc|]. split; [simpl; lia|].
        rewrite digits_value_0, Hval.
        cbn [String.length digits_value].
        replace (S (String.length s) - 1) with (String.length s) by lia. lia.
    + split; [|split].
      * simpl. rewrite Hc. exact Hf.
      * simpl in *. lia.
      * rewrite digits_value_0, Hval, (digits_value_0 f d).
        rewrite (digits_value_0 (String d f) c).
        cbn [String.length] in *.
        replace (S (String.length s) - S (S (String.length f)))
          with (String.length s - S (String.length f)) by lia.
        set (a := String.length s - S (String.length f)).
        replace (N.of_nat (String.length s))
          with (N.of_nat (S (String.length f)) + N.of_nat a)%N by lia.
        rewrite N.pow_add_r, !(digits_value_0 f d). ring.
Qed.

Lemma dot_not_digit : is_digit "." = false.
Proof. reflexivity. Qed.

(** A text of digits, then possibly a dot and digits, with or without a
    minus sign in front, reads as the number that it writes. *)
Lemma of_decimal_plain (neg : bool) (ip fp : string) :
  ip <> "" -> str_forall is_digit ip = true ->
  str_forall is_digit fp = true ->
  BigNumber.of_decimal
    ((if neg then "-" else "") ++ ip
     ++ (match fp with EmptyString => "" | _ => "." ++ fp end))
  = Some (BigNumber.Finite neg (digits_value 0 (ip ++ fp))
            (- Z.of_nat (String.length fp))).
Proof.
  intros Hne Hip Hfp.
  destruct ip as [|c ip]; [congruence|]. clear Hne.
  assert (Hc : is_digit c = true).
  { simpl in Hip. now apply andb_true_iff in Hip as [Hc _]. }
  unfold BigNumber.of_decimal.
  assert (Hsign :
    minus_sign ((if neg then "-" else "") ++ String c ip
                ++ match fp with EmptyString => "" | _ => "." ++ fp end)
    = (neg, String c ip
            ++ match fp with EmptyString => "" | _ => "." ++ fp end)).
  { destruct neg; [reflexivity|]. apply minus_sign_digit. exact Hc. }
  rewrite Hsign. clear Hsign.
  destruct fp as [|d fp].
  - rewrite (span_all is_digit (String c ip) "" Hip I).
    cbn [is_empty andb BigNumber.exponent_part String.length].
    rewrite str_app_empty_r. reflexivity.
  - rewrite (span_all is_digit (String c ip) ("." ++ String d fp) Hip dot_not_digit).
    change ("." ++ String d fp) with (String "." (String d fp)).
    cbv iota beta.
    rewrite (span_digits (String d fp) Hfp).
    cbn [is_empty andb negb orb BigNumber.exponent_part].
    reflexivity.
Qed.

Lemma of_string_plain (neg : bool) (ip fp : string) :
  ip <> "" -> str_forall is_digit ip = true ->
  str_forall is_digit fp = true ->
  BigNumber.of_string
    ((if neg then "-" else "") ++ ip
     ++ (match fp with EmptyString => "" | _ => "." ++ fp end))
  = BigNumber.Finite neg (digits_value 0 (ip ++ fp))
      (- Z.of_nat (String.length fp)).
Proof.
  intros. unfold BigNumber.of_string. now rewrite of_decimal_plain.
Qed.

Lemma decimal_not_empty (n : N) : decimal n <> "".
Proof. destruct (decimal_nonempty n) as (c & s & -> & _). discriminate. Qed.

Lemma of_string_bigint (z : Z) :
  BigNumber.of_string (bigint_string z)
  = BigNumber.Finite (z <? 0)%Z (Z.abs_N z) 0.
Proof.
  pose proof (of_string_plain (z <? 0)%Z (decimal (Z.abs_N z)) ""
                (decimal_not_empty _) (decimal_digits _) eq_refl) as H.
  rewrite !str_app_empty_r, decimal_value in H.
  unfold bigint_string. destruct (z <? 0)%Z; exact H.
Qed.

(** The positional notation of [c * 10^-k] reads as a number of the
    same value, with at most [k] decimals. *)
Lemma positional_reads_back (neg : bool) (c : N) (k : nat) :
  1 <= k ->
  exists c' k',
    k' <= k
    /\ BigNumber.of_string
         ((if neg then "-" else "") ++ BigNumber.positional c (- Z.of_nat k))
       = BigNumber.Finite neg c' (- Z.of_nat k')
    /\ (c' * 10 ^ N.of_nat (k - k') = c)%N.
Proof.
  intros Hk. unfold BigNumber.positional.
  destruct (Z.leb_spec 0 (- Z.of_nat k)) as [H|_]; [lia|].
  replace (Z.to_N (- - Z.of_nat k)) with (N.of_nat k) by lia.
  rewrite Nat2N.id.
  set (q := (c / 10 ^ N.of_nat k)%N). set (r := (c mod 10 ^ N.of_nat k)%N).
  assert (Hpow : (10 ^ N.of_nat k <> 0)%N) by (apply N.pow_nonzero; lia).
  assert (Hc : (c = 10 ^ N.of_nat k * q + r)%N) by (apply N.div_mod; exact Hpow).
  assert (Hr : (r < 10 ^ N.of_nat k)%N) by (apply N.mod_lt; exact Hpow).
  destruct (N.eqb_spec r 0) as [Hr0 | Hr0].
  - exists q, 0. split; [lia|].
    pose proof (of_string_plain neg (decimal q) ""
                  (decimal_not_empty _) (decimal_digits _) eq_refl) as H.
    rewrite !str_app_empty_r, decimal_value in H. split; [exact H|].
    rewrite Nat.sub_0_r. lia.
  - destruct (pad_left_spec k r Hk Hr) as (Hplen & Hpdig & Hpval).
    destruct (drop_trailing_zeros_spec _ Hpdig) as (Hfdig & Hflen & Hfval).
    set (f := BigNumber.drop_trailing_zeros
                (BigNumber.pad_left k (decimal r))) in *.
    rewrite Hplen, Hpval in *.
    assert (Hfne : f <> "").
    { intros E. rewrite E in Hfval. simpl in Hfval. lia. }
    exists (digits_value 0 (decimal q ++ f)), (String.length f).
    split; [exact Hflen|]. split.
    + pose proof (of_string_plain neg (decimal q) f
                    (decimal_not_empty _) (decimal_digits _) Hfdig) as H.
      destruct f as [|d f']; [congruence|]. exact H.
    + rewrite digits_value_app, decimal_value, digits_value_acc.
      rewrite N.mul_add_distr_r, <- Hfval, <- N.mul_assoc, <- N.pow_add_r.
      replace (N.of_nat (String.length f) + N.of_nat (k - String.length f))%N
        with (N.of_nat k) by lia.
      lia.
Qed.

(* ------------------------------------------------------------------ *)
(** * FIL and attoFIL *)
(* ------------------------------------------------------------------ *)

Lemma decimal_times_ten (a : N) :
  (0 < a)%N -> decimal (a * 10) = decimal a ++ "0".
Proof.
  intros Ha. rewrite (decimal_large (a * 10)) by lia.
  rewrite N.div_mul by lia. rewrite N.Div0.mod_mul. reflexivity.
Qed.

Lemma decimal_shift (m : nat) (a : N) :
  (0 < a)%N ->
  decimal (a * 10 ^ N.of_nat m) = decimal a ++ BigNumber.zeros m.
Proof.
  intros Ha. induction m as [|m IH].
  - simpl. now rewrite N.mul_1_r, str_app_empty_r.
  - rewrite Nat2N.inj_succ, N.pow_succ_r'.
    replace (a * (10 * 10 ^ N.of_nat m))%N
      with (a * 10 ^ N.of_nat m * 10)%N by lia.
    rewrite decimal_times_ten.
    + rewrite IH, str_app_assoc. f_equal.
      clear. induction m as [|m IH]; simpl; [reflexivity | now rewrite IH].
    + assert (0 < 10 ^ N.of_nat m)%N by (apply N.neq_0_lt_0, N.pow_nonzero; lia).
      lia.
Qed.

Lemma drop_trailing_zeros_zeros (m : nat) :
  BigNumber.drop_trailing_zeros (BigNumber.zeros m) = "".
Proof. induction m as [|m IH]; simpl; [reflexivity | now rewrite IH]. Qed.

Lemma drop_trailing_zeros_app (s : string) (m : nat) :
  BigNumber.drop_trailing_zeros (s ++ BigNumber.zeros m)
  = BigNumber.drop_trailing_zeros s.
Proof.
  induction s as [|c s IH]; simpl.
  - apply drop_trailing_zeros_zeros.
  - now rewrite IH.
Qed.

Lemma zeros_add (a b : nat) :
  BigNumber.zeros (a + b) = BigNumber.zeros a ++ BigNumber.zeros b.
Proof. induction a as [|a IH]; simpl; [reflexivity | now rewrite IH]. Qed.

(** An integer number of attoFIL, divided by 10^18 with 36 decimals,
    prints as the positional notation of the integer with the point 18
    places from the right. *)
Lemma positional_attoFil (n : N) :
  BigNumber.positional (n * 10 ^ 18) (-36) = BigNumber.positional n (-18).
Proof.
  unfold BigNumber.positional.
  change (0 <=? -36)%Z with false. change (0 <=? -18)%Z with false.
  cbv iota.
  change (Z.to_N (- -36)) with 36%N. change (Z.to_N (- -18)) with 18%N.
  change (N.to_nat 36) with 36. change (N.to_nat 18) with 18.
  assert (P : (10 ^ 36 = 10 ^ 18 * 10 ^ 18)%N) by reflexivity.
  assert (Hq : (n * 10 ^ 18 / 10 ^ 36 = n / 10 ^ 18)%N).
  { rewrite P. rewrite N.Div0.div_mul_cancel_r; [reflexivity | ].
    apply N.pow_nonzero. lia. }
  assert (Hr : ((n * 10 ^ 18) mod 10 ^ 36 = (n mod 10 ^ 18) * 10 ^ 18)%N).
  { rewrite P. rewrite N.Div0.mul_mod_distr_r. reflexivity. }
  rewrite Hq, Hr.
  set (r := (n mod 10 ^ 18)%N).
  assert (Hrlt : (r < 10 ^ 18)%N).
  { apply N.mod_lt. apply N.pow_nonzero. lia. }
  destruct (N.eqb_spec r 0) as [-> | Hr0]; [reflexivity|].
  replace (r * 10 ^ 18 =? 0)%N with false.
  2:{ symmetry. apply N.eqb_neq.
      assert (0 < 10 ^ 18)%N by reflexivity. lia. }
  f_equal. f_equal.
  pose proof (decimal_length 18 r ltac:(lia) Hrlt) as Hlen.
  change (10 ^ 18)%N with (10 ^ N.of_nat 18)%N.
  rewrite (decimal_shift 18 r) by lia.
  unfold BigNumber.pad_left. rewrite str_length_app, zeros_length.
  replace (36 - (String.length (decimal r) + 18))
    with (18 - String.length (decimal r)) by lia.
  rewrite <- str_app_assoc. apply drop_trailing_zeros_app.
Qed.

Lemma FIL_multiplier :
  BigNumber.of_string (FIL_DENOMINATIONS FIL)
  = BigNumber.Finite false (10 ^ 18) 0.
Proof. reflexivity. Qed.

Lemma attoFilToFil_bigint (z : Z) :
  attoFilToFil (bigint_string z)
  = (if (z <? 0)%Z then "-" else "")
    ++ BigNumber.positional (Z.abs_N z) (-18).
Proof.
  unfold attoFilToFil. rewrite of_string_bigint, FIL_multiplier.
  unfold BigNumber.div. change (10 ^ 18 =? 0)%N with false. cbv iota.
  rewrite xorb_false_r.
  destruct (N.eqb_spec (Z.abs_N z) 0) as [H0 | Hn0].
  - assert (z = 0%Z) by lia. subst z. reflexivity.
  - change (0 - 0 + BigNumber.DECIMAL_PLACES)%Z with 36%Z.
    change (0 <=? 36)%Z with true. cbv iota.
    change (Z.to_N 36) with 36%N.
    change (- BigNumber.DECIMAL_PLACES)%Z with (-36)%Z.
    assert (Hq : (Z.abs_N z * 10 ^ 36 / 10 ^ 18 = Z.abs_N z * 10 ^ 18)%N).
    { replace (10 ^ 36)%N with (10 ^ 18 * 10 ^ 18)%N by reflexivity.
      rewrite N.mul_assoc. apply N.div_mul. apply N.pow_nonzero. lia. }
    rewrite Hq. unfold BigNumber.toFixed.
    replace (Z.abs_N z * 10 ^ 18 =? 0)%N with false.
    2:{ symmetry. apply N.eqb_neq.
        assert (0 < 10 ^ 18)%N by reflexivity. lia. }
    rewrite positional_attoFil.
    destruct (z <? 0)%Z; reflexivity.
Qed.

(** A number of FIL written with at most 18 decimals is a whole number
    of attoFIL, and [filToAttoFil] prints that number. *)
Lemma filToAttoFil_decimals (ip fp : string) :
  ip <> "" -> str_forall is_digit ip = true ->
  fp <> "" -> str_forall is_digit fp = true ->
  String.length fp <= 18 ->
  filToAttoFil (ip ++ "." ++ fp)
  = decimal (digits_value 0 (ip ++ fp)
             * 10 ^ N.of_nat (18 - String.length fp)).
Proof.
  intros Hip Hipd Hfp Hfpd Hlen.
  destruct fp as [|d fp]; [congruence|].
  assert (Hread : BigNumber.of_string (ip ++ "." ++ String d fp)
                  = BigNumber.Finite false
                      (digits_value 0 (ip ++ String d fp))
                      (- Z.of_nat (String.length (String d fp))))
    by exact (of_string_plain false ip (String d fp) Hip Hipd Hfpd).
  unfold filToAttoFil. rewrite Hread, FIL_multiplier.
  set (v := digits_value 0 (ip ++ String d fp)).
  set (k := String.length (String d fp)) in *.
  unfold BigNumber.times. change (10 ^ 18 =? 0)%N with false.
  rewrite orb_false_r. cbn [xorb].
  assert (Hpow : forall m, (0 < 10 ^ N.of_nat m)%N).
  { intros m. apply N.neq_0_lt_0, N.pow_nonzero. lia. }
  destruct (N.eqb_spec v 0) as [Hv0 | Hv0].
  - rewrite Hv0. reflexivity.
  - unfold BigNumber.toFixed_dp. cbn [andb]. f_equal.
    unfold BigNumber.scaled. change (Z.of_nat 0) with 0%Z.
    rewrite !Z.add_0_r.
    assert (Hsplit : (v * 10 ^ 18
                      = v * 10 ^ N.of_nat (18 - k) * 10 ^ N.of_nat k)%N).
    { rewrite <- N.mul_assoc, <- N.pow_add_r.
      replace (N.of_nat (18 - k) + N.of_nat k)%N with 18%N by lia.
      reflexivity. }
    destruct (Z.leb_spec 0 (- Z.of_nat k)) as [Hle | Hgt].
    + exfalso. unfold k in Hle. cbn [String.length] in Hle. lia.
    + replace (Z.to_N (- - Z.of_nat k)) with (N.of_nat k) by lia.
      rewrite Hsplit. apply N.div_mul. pose proof (Hpow k). lia.
Qed.

(** C1.  One FIL is 10^18 attoFIL, half of 10^18 attoFIL is ["0.5"], and
    one attoFIL is ["0.000000000000000001"].  For every integer number
    [z] of attoFIL, [attoFilToFil] returns a decimal text of at most 18
    decimals that reads as [z / 10^18] exactly (it is [c * 10^-k] with
    [c * 10^(18-k) = |z|] and the sign of [z]), and [filToAttoFil] gives
    the integer back from it; and [filToAttoFil] turns a number of FIL
    written with at most 18 decimals into the whole number of attoFIL
    that it is. *)
Theorem attoFil_conversion_exact :
  filToAttoFil "1" = "1000000000000000000"
  /\ attoFilToFil "500000000000000000" = "0.5"
  /\ attoFilToFil "1" = "0.000000000000000001"
  /\ (forall z : Z,
        exists c k,
          k <= 18
          /\ BigNumber.of_string (attoFilToFil (bigint_string z))
             = BigNumber.Finite (z <? 0)%Z c (- Z.of_nat k)
          /\ (c * 10 ^ N.of_nat (18 - k))%N = Z.abs_N z)
  /\ (forall z : Z,
        filToAttoFil (attoFilToFil (bigint_string z)) = bigint_string z)
  /\ (forall ip fp : string,
        ip <> "" -> str_forall is_digit ip = true ->
        fp <> "" -> str_forall is_digit fp = true ->
        String.length fp <= 18 ->
        filToAttoFil (ip ++ "." ++ fp)
        = decimal (digits_value 0 (ip ++ fp)
                   * 10 ^ N.of_nat (18 - String.length fp)))
  /\ filToAttoFil "0.5" = "500000000000000000".
Proof.
  assert (Reads : forall z : Z,
    exists c k,
      k <= 18
      /\ BigNumber.of_string (attoFilToFil (bigint_string z))
         = BigNumber.Finite (z <? 0)%Z c (- Z.of_nat k)
      /\ (c * 10 ^ N.of_nat (18 - k))%N = Z.abs_N z).
  { intros z. rewrite attoFilToFil_bigint.
    destruct (positional_reads_back (z <? 0)%Z (Z.abs_N z) 18 ltac:(lia))
      as (c & k & Hk & Hread & Hval).
    exists c, k. auto. }
  split; [reflexivity|]. split; [reflexivity|]. split; [reflexivity|].
  split; [exact Reads|].
  split; [|split; [exact filToAttoFil_decimals | reflexivity]].
  intros z. destruct (Reads z) as (c & k & Hk & Hread & Hval).
  unfold filToAttoFil. rewrite Hread, FIL_multiplier.
  unfold BigNumber.times. change (10 ^ 18 =? 0)%N with false.
  rewrite orb_false_r, xorb_false_r.
  assert (Hpow : forall m, (0 < 10 ^ N.of_nat m)%N).
  { intros m. apply N.neq_0_lt_0, N.pow_nonzero. lia. }
  destruct (N.eqb_spec c 0) as [Hc0 | Hc0].
  - subst c. assert (z = 0%Z) by lia. subst z. reflexivity.
  - assert (Hz : Z.abs_N z <> 0%N).
    { rewrite <- Hval. pose proof (Hpow (18 - k)). lia. }
    unfold BigNumber.toFixed_dp.
    replace (c * 10 ^ 18 =? 0)%N with false.
    2:{ symmetry. apply N.eqb_neq. assert (0 < 10 ^ 18)%N by reflexivity. lia. }
    rewrite andb_true_r.
    assert (Hs : BigNumber.scaled (c * 10 ^ 18) (- Z.of_nat k + 0) 0
                 = Z.abs_N z).
    { unfold BigNumber.scaled.
      change (Z.of_nat 0) with 0%Z. rewrite !Z.add_0_r.
      assert (Hsplit : (c * 10 ^ 18 = Z.abs_N z * 10 ^ N.of_nat k)%N).
      { rewrite <- Hval, <- N.mul_assoc, <- N.pow_add_r.
        replace (N.of_nat (18 - k) + N.of_nat k)%N with 18%N by lia.
        reflexivity. }
      destruct (Z.leb_spec 0 (- Z.of_nat k)) as [Hle | Hgt].
      - assert (k = 0) by lia. subst k. simpl in Hsplit.
        replace (Z.to_N (- Z.of_nat 0)) with 0%N by reflexivity.
        rewrite N.pow_0_r. lia.
      - replace (Z.to_N (- - Z.of_nat k)) with (N.of_nat k) by lia.
        rewrite Hsplit. apply N.div_mul. pose proof (Hpow k). lia. }
    rewrite Hs.
    unfold bigint_string. destruct (z <? 0)%Z; reflexivity.
Qed.

(* ------------------------------------------------------------------ *)
(** * Negative amounts *)
(* ------------------------------------------------------------------ *)

Lemma filToAttoFil_bigint (z : Z) :
  filToAttoFil (bigint_string z) = bigint_string (z * 10 ^ 18).
Proof.
  unfold filToAttoFil. rewrite of_string_bigint, FIL_multiplier.
  unfold BigNumber.times. change (10 ^ 18 =? 0)%N with false.
  rewrite orb_false_r, xorb_false_r.
  destruct (N.eqb_spec (Z.abs_N z) 0) as [H0 | Hn0].
  - assert (z = 0%Z) by lia. subst z. reflexivity.
  - unfold BigNumber.toFixed_dp, BigNumber.scaled.
    change (0 + 0 + Z.of_nat 0)%Z with 0%Z.
    change (0 <=? 0)%Z with true. cbv iota.
    change (10 ^ Z.to_N 0)%N with 1%N. rewrite N.mul_1_r.
    replace (Z.abs_N z * 10 ^ 18 =? 0)%N with false.
    2:{ symmetry. apply N.eqb_neq. assert (0 < 10 ^ 18)%N by reflexivity. lia. }
    rewrite andb_true_r. unfold bigint_string.
    replace (Z.abs_N (z * 10 ^ 18)) with (Z.abs_N z * 10 ^ 18)%N
      by (rewrite Zabs2N.inj_mul; reflexivity).
    replace (z * 10 ^ 18 <? 0)%Z with (z <? 0)%Z.
    2:{ destruct (Z.ltb_spec z 0), (Z.ltb_spec (z * 10 ^ 18) 0);
          try reflexivity; lia. }
    destruct (z <? 0)%Z; reflexivity.
Qed.

Lemma digit_or_minus_not_space (c : ascii) :
  digit_or_minus c = true -> negb (is_space c) = true.
Proof. all_chars c. Qed.

Lemma digit_or_minus_lower (c : ascii) :
  digit_or_minus c = true -> lower_char c = c.
Proof. all_chars c. Qed.

Lemma bigint_string_chars (z : Z) :
  str_forall digit_or_minus (bigint_string z) = true.
Proof.
  assert (H : str_forall digit_or_minus (decimal (Z.abs_N z)) = true).
  { eapply str_forall_impl; [|apply decimal_digits].
    intros c Hc. unfold digit_or_minus. now rewrite Hc. }
  unfold bigint_string. destruct (z <? 0)%Z; [simpl; exact H | exact H].
Qed.

Lemma endsWith_other_chars (p : ascii -> bool) (s suffix : string) :
  str_forall p s = true -> str_forall p suffix = false ->
  endsWith s suffix = false.
Proof.
  intros Hs Hsuffix. unfold endsWith.
  destruct (Nat.leb (String.length suffix) (String.length s)); [|reflexivity].
  simpl. apply String.eqb_neq. intros E.
  pose proof (slice_forall p (String.length s - String.length suffix) s Hs) as H.
  rewrite E in H. congruence.
Qed.

Lemma includes_other_chars (p : ascii -> bool) (s : string) (c : ascii) :
  str_forall p s = true -> p c = false ->
  includes s (String c "") = false.
Proof.
  intros Hs Hc. induction s as [|d s IH]; [reflexivity|].
  simpl in Hs. apply andb_true_iff in Hs as [Hd Hs].
  cbn [includes String.prefix]. rewrite (IH Hs).
  destruct (ascii_dec c d) as [-> | _]; [congruence | reflexivity].
Qed.

Lemma round_negative_below (num den : N) (n : Z) :
  (0 < n)%Z -> Number.lt_int (Number.round true num den) n = true.
Proof.
  intros Hn. unfold Number.round.
  destruct (N.eqb num 0); [apply Z.ltb_lt; simpl; lia|].
  match goal with
  | |- context [if ?c then Number.Infinity true else Number.Finite true ?m ?q] =>
      destruct c; [reflexivity|]; generalize m; generalize q
  end.
  intros q m. unfold Number.lt_int.
  destruct (Z.leb_spec 0 q) as [Hq | Hq]; apply Z.ltb_lt.
  - assert (0 <= 2 ^ q)%Z by (apply Z.pow_nonneg; lia). nia.
  - assert (0 < 2 ^ (- q))%Z by (apply Z.pow_pos_nonneg; lia). nia.
Qed.

Lemma not_Infinity_digit (c : ascii) (s : string) :
  is_digit c = true -> String.prefix "Infinity" (String c s) = false.
Proof. all_chars c. Qed.

Lemma parseFloat_bigint (neg : bool) (n : N) :
  Number.parseFloat ((if neg then "-" else "") ++ decimal n)
  = Number.round neg n 1.
Proof.
  unfold Number.parseFloat.
  destruct (decimal_nonempty n) as (c & s & E & Hc).
  pose proof (decimal_digits n) as Hd. pose proof (decimal_value n) as Hv.
  rewrite E in *.
  assert (Hsign :
    any_sign (trimStart ((if neg then "-" else "") ++ String c s))
    = (neg, String c s)).
  { destruct neg; [reflexivity|]. simpl.
    rewrite (digit_not_space c Hc). now apply any_sign_digit. }
  rewrite Hsign, (not_Infinity_digit c s Hc).
  rewrite (span_digits _ Hd). cbn [is_empty andb String.length].
  rewrite str_app_empty_r, Hv.
  change (0 - Z.of_nat 0)%Z with 0%Z. change (0 <=? 0)%Z with true.
  cbv iota. change (10 ^ Z.to_N 0)%N with 1%N. now rewrite N.mul_1_r.
Qed.

Lemma parseFloat_integer (v : N) :
  Number.parseFloat (decimal v) = Number.round false v 1.
Proof. exact (parseFloat_bigint false v). Qed.

Lemma parseFilInput_negative_integer (z : Z) :
  (z < 0)%Z -> parseFilInput (bigint_string z) = filToAttoFil (bigint_string z).
Proof.
  intros Hz. pose proof (bigint_string_chars z) as Hchars.
  assert (Hneg : bigint_string z = "-" ++ decimal (Z.abs_N z)).
  { unfold bigint_string. destruct (Z.ltb_spec z 0); [reflexivity | lia]. }
  assert (Htrim : toLowerCase (trim (bigint_string z)) = bigint_string z).
  { unfold trim, toLowerCase.
    rewrite Hneg at 1. change (trimStart ("-" ++ decimal (Z.abs_N z)))
      with ("-" ++ decimal (Z.abs_N z)). rewrite <- Hneg.
    rewrite trimEnd_id.
    - apply (str_map_id _ digit_or_minus); [apply digit_or_minus_lower | exact Hchars].
    - eapply str_forall_impl; [|exact Hchars].
      apply digit_or_minus_not_space. }
  unfold parseFilInput. rewrite Htrim.
  assert (Hsuffix : forall d,
    endsWith (bigint_string z) (toLowerCase (denomination_name d)) = false).
  { intros d. apply (endsWith_other_chars digit_or_minus); [exact Hchars|].
    now destruct d. }
  cbn [find denominations]. rewrite !Hsuffix.
  rewrite (includes_other_chars digit_or_minus _ "." Hchars eq_refl).
  rewrite Hneg at 1. rewrite (parseFloat_bigint true).
  rewrite round_negative_below by lia. reflexivity.
Qed.

(** C8 (as amended).  [isValidFilAmount] returns [false] for every text
    that reads as a number below zero.  [filToAttoFil] and
    [parseFilInput] do not reject such a text: for every text that
    reads as a number below zero, [filToAttoFil] returns a text that
    starts with the minus sign, and for every integer [z] below zero
    both return [z * 10^18], a negative number of attoFIL. *)
Theorem negative_amounts_pass_through :
  (forall s, BigNumber.is_negative (BigNumber.of_string s) = true ->
             isValidFilAmount s = false)
  /\ (forall s, BigNumber.is_negative (BigNumber.of_string s) = true ->
                String.prefix "-" (filToAttoFil s) = true)
  /\ (forall z, (z < 0)%Z ->
        BigNumber.is_negative (BigNumber.of_string (bigint_string z)) = true
        /\ filToAttoFil (bigint_string z) = bigint_string (z * 10 ^ 18)
        /\ parseFilInput (bigint_string z) = bigint_string (z * 10 ^ 18))
  /\ isValidFilAmount "-1" = false
  /\ filToAttoFil "-0.5" = "-500000000000000000".
Proof.
  split; [|split; [|split]].
  - intros s H. unfold isValidFilAmount.
    destruct (BigNumber.of_string s) as [|neg|neg c e]; simpl in *.
    + discriminate.
    + reflexivity.
    + apply andb_true_iff in H as [-> Hc]. apply negb_true_iff in Hc.
      now rewrite Hc.
  - intros s H. unfold filToAttoFil. rewrite FIL_multiplier.
    destruct (BigNumber.of_string s) as [|neg|neg c e]; simpl in H.
    + discriminate.
    + subst neg. reflexivity.
    + apply andb_true_iff in H as [-> Hc]. apply negb_true_iff in Hc.
      unfold BigNumber.times. rewrite Hc. change (10 ^ 18 =? 0)%N with false.
      cbn [orb xorb]. unfold BigNumber.toFixed_dp.
      replace (c * 10 ^ 18 =? 0)%N with false.
      2:{ symmetry. apply N.eqb_neq. apply N.eqb_neq in Hc.
          assert (0 < 10 ^ 18)%N by reflexivity. lia. }
      cbn [andb negb].
      match goal with |- String.prefix "-" ("-" ++ ?str) = true =>
        destruct str; reflexivity end.
  - intros z Hz. split; [|split].
    + rewrite of_string_bigint. simpl.
      destruct (Z.ltb_spec z 0); [|lia].
      destruct (N.eqb_spec (Z.abs_N z) 0); [lia | reflexivity].
    + apply filToAttoFil_bigint.
    + rewrite parseFilInput_negative_integer by exact Hz.
      apply filToAttoFil_bigint.
  - split; reflexivity.
Qed.

(** C8, the claim as written fails: ["-1"] reads as a number below zero,
    and [filToAttoFil] and [parseFilInput] both return the negative
    amount ["-1000000000000000000"] for it. *)
Lemma negative_amount_not_rejected :
  BigNumber.is_negative (BigNumber.of_string "-1") = true
  /\ filToAttoFil "-1" = "-1000000000000000000"
  /\ parseFilInput "-1" = "-1000000000000000000"
  /\ BigNumber.is_negative (BigNumber.of_string (parseFilInput "-1")) = true.
Proof. repeat split; reflexivity. Qed.

(* ------------------------------------------------------------------ *)
(** * Doubles that are exact *)
(* ------------------------------------------------------------------ *)

(** A number below 2^53 over a power of two is a double: rounding it
    changes nothing, it only writes the mantissa on 53 bits. *)
Lemma round_dyadic (neg : bool) (num j : N) :
  (0 < num < 2 ^ 53)%N -> (j <= 1022)%N ->
  Number.round neg num (2 ^ j)
  = Number.Finite neg (num * 2 ^ (52 - N.log2 num))
      (Z.of_N (N.log2 num) - Z.of_N j - 52).
Proof.
  intros [Hpos Hlt] Hj.
  pose proof (N.log2_spec num Hpos) as [Hlo Hhi].
  set (L := N.log2 num) in *.
  assert (HL : (L <= 52)%N).
  { destruct (N.le_gt_cases L 52) as [?|Hgt]; [assumption|].
    exfalso. assert (2 ^ 53 <= 2 ^ L)%N by (apply N.pow_le_mono_r; lia). lia. }
  assert (Hp : forall a, (0 < 2 ^ a)%N).
  { intros a. apply N.neq_0_lt_0, N.pow_nonzero. lia. }
  unfold Number.round.
  destruct (N.eqb_spec num 0) as [?|_]; [lia|].
  rewrite N.log2_pow2 by lia. fold L.
  set (e0 := (Z.of_N L - Z.of_N j)%Z).
  assert (Hreached :
    (if (0 <=? e0)%Z then (2 ^ j * 2 ^ Z.to_N e0 <=? num)%N
     else (2 ^ j <=? num * 2 ^ Z.to_N (- e0))%N) = true).
  { destruct (Z.leb_spec 0 e0) as [He | He]; apply N.leb_le.
    - rewrite <- N.pow_add_r. replace (j + Z.to_N e0)%N with L by lia. exact Hlo.
    - replace j with (L + Z.to_N (- e0))%N at 1 by lia.
      rewrite N.pow_add_r. apply N.mul_le_mono_r. exact Hlo. }
  rewrite Hreached.
  replace (Z.max (e0 - 52) (-1074)) with (e0 - 52)%Z by lia.
  set (q := (e0 - 52)%Z).
  destruct (Z.leb_spec 0 q) as [Hq | Hq].
  - assert (j = 0%N) by lia. assert (L = 52%N) by lia. subst j.
    replace q with 0%Z by lia. cbn [Z.to_N]. rewrite N.pow_0_r, N.mul_1_l.
    rewrite N.div_1_r, N.mod_1_r. cbn [N.mul N.compare andb Z.leb Z.compare].
    replace (52 - L)%N with 0%N by lia. rewrite N.pow_0_r, N.mul_1_r.
    reflexivity.
  - replace (971 <=? q)%Z with false by (symmetry; apply Z.leb_gt; lia).
    cbn [andb].
    replace (Z.to_N (- q)) with ((52 - L) + j)%N by lia.
    rewrite N.pow_add_r, N.mul_assoc.
    rewrite N.div_mul by (pose proof (Hp j); lia).
    rewrite N.Div0.mod_mul, N.mul_0_r.
    replace (0 ?= 2 ^ j)%N with Lt
      by (symmetry; apply N.compare_lt_iff; apply Hp).
    reflexivity.
Qed.

Lemma log2_normal (m : N) : (2 ^ 52 <= m < 2 ^ 53)%N -> N.log2 m = 52%N.
Proof. intros H. apply N.log2_unique; [lia | exact H]. Qed.

Section ExactBytes.

Variable n : N.
Hypothesis n_pos : (0 < n)%N.
Hypothesis n_safe : (n < 2 ^ 53)%N.

Lemma log2_below_53 : (N.log2 n <= 52)%N.
Proof.
  pose proof (N.log2_spec n n_pos) as [Hlo _]. set (L := N.log2 n) in *.
  destruct (N.le_gt_cases L 52) as [?|Hgt]; [assumption|].
  exfalso. assert (2 ^ 53 <= 2 ^ L)%N by (apply N.pow_le_mono_r; lia). lia.
Qed.

Lemma shift_positive : (0 < 2 ^ (52 - N.log2 n))%N.
Proof. apply N.neq_0_lt_0, N.pow_nonzero. lia. Qed.

Lemma mantissa_normal :
  (2 ^ 52 <= n * 2 ^ (52 - N.log2 n) < 2 ^ 53)%N.
Proof.
  pose proof (N.log2_spec n n_pos) as [Hlo Hhi].
  pose proof log2_below_53. pose proof shift_positive.
  set (L := N.log2 n) in *. set (S := (2 ^ (52 - L))%N) in *.
  assert (E52 : (2 ^ 52 = 2 ^ L * S)%N).
  { unfold S. rewrite <- N.pow_add_r. f_equal. lia. }
  assert (E53 : (2 ^ 53 = 2 ^ N.succ L * S)%N).
  { unfold S. rewrite <- N.pow_add_r. f_equal. lia. }
  rewrite E52, E53. split.
  - apply N.mul_le_mono_r. exact Hlo.
  - apply N.mul_lt_mono_pos_r; assumption.
Qed.

Lemma of_bigint_exact : Number.of_bigint (Z.of_N n) = scaled_double n 0.
Proof.
  unfold Number.of_bigint, scaled_double.
  replace (Z.of_N n <? 0)%Z with false by (symmetry; apply Z.ltb_ge; lia).
  rewrite Zabs2N.id. change 1%N with (2 ^ 0)%N.
  rewrite round_dyadic by lia. f_equal. lia.
Qed.

Lemma div_1024_exact (i : nat) :
  i <= 90 ->
  Number.div_int (scaled_double n i) 1024 = scaled_double n (i + 1).
Proof.
  intros Hi. unfold scaled_double, Number.div_int.
  pose proof mantissa_normal as HM. pose proof log2_below_53 as HL.
  set (L := N.log2 n) in *. set (S := (2 ^ (52 - L))%N) in *.
  set (e := (Z.of_N L - 52 - 10 * Z.of_nat i)%Z).
  assert (Hlog : N.log2 (n * S) = 52%N) by (apply log2_normal; exact HM).
  destruct (Z.leb_spec 0 e) as [He | He].
  - assert (e = 0%Z) by lia.
    replace (Z.to_N e) with 0%N by lia. rewrite N.pow_0_r, N.mul_1_r.
    change 1024%N with (2 ^ 10)%N.
    rewrite round_dyadic by lia. rewrite Hlog.
    rewrite N.sub_diag, N.pow_0_r, N.mul_1_r. f_equal. lia.
  - change 1024%N with (2 ^ 10)%N. rewrite <- N.pow_add_r.
    rewrite round_dyadic by lia. rewrite Hlog.
    rewrite N.sub_diag, N.pow_0_r, N.mul_1_r. f_equal. lia.
Qed.

(** [scaled_double n i] stands for [n / 1024^i]: comparing it with an
    integer [c] is comparing [n] with [c * 1024^i]. *)
Lemma ge_int_exact (i : nat) (c : N) :
  Number.ge_int (scaled_double n i) (Z.of_N c)
  = (c * 1024 ^ N.of_nat i <=? n)%N.
Proof.
  unfold scaled_double, Number.ge_int.
  pose proof log2_below_53 as HL. pose proof shift_positive as HS.
  set (L := N.log2 n) in *. set (S := (2 ^ (52 - L))%N) in *.
  set (e := (Z.of_N L - 52 - 10 * Z.of_nat i)%Z).
  assert (He : (e <= 0)%Z) by (unfold e; lia).
  assert (Hpow : (2 ^ (- e) = Z.of_N S * Z.of_N (1024 ^ N.of_nat i))%Z).
  { unfold S. rewrite !N2Z.inj_pow.
    change (Z.of_N 1024) with (2 ^ 10)%Z. rewrite <- Z.pow_mul_r by lia.
    change (Z.of_N 2) with 2%Z.
    rewrite <- Z.pow_add_r by lia. f_equal. lia. }
  assert (HSz : (0 < Z.of_N S)%Z) by lia.
  destruct (Z.leb_spec 0 e) as [He0 | He0].
  - assert (e = 0%Z) by lia. replace e with 0%Z in * by lia.
    simpl in Hpow. rewrite Z.pow_0_r, Z.mul_1_r.
    destruct (Z.leb_spec (Z.of_N c) (Z.of_N (n * S)));
      destruct (N.leb_spec (c * 1024 ^ N.of_nat i) n); try reflexivity; nia.
  - rewrite Hpow.
    destruct (Z.leb_spec (Z.of_N c * (Z.of_N S * Z.of_N (1024 ^ N.of_nat i)))
                         (Z.of_N (n * S)));
      destruct (N.leb_spec (c * 1024 ^ N.of_nat i) n); try reflexivity; nia.
Qed.

End ExactBytes.

Section FormatBytes.

Variable n : N.
Hypothesis n_pos : (0 < n)%N.
Hypothesis n_safe : (n < 2 ^ 53)%N.

Lemma scale_units_exact (larger : list string) :
  forall i u, i + List.length larger <= 90 ->
  exists k,
    k <= List.length larger
    /\ scale_units (scaled_double n i) u larger
       = (scaled_double n (i + k), nth k (u :: larger) "")
    /\ (k = 0 \/ (1024 ^ N.of_nat (i + k) <= n)%N)
    /\ (k = List.length larger \/ (n < 1024 ^ N.of_nat (i + k + 1))%N).
Proof.
  induction larger as [|next rest IH]; intros i u Hi.
  - exists 0. rewrite Nat.add_0_r. simpl. auto.
  - cbn [scale_units]. change 1024%Z with (Z.of_N 1024).
    rewrite (ge_int_exact n n_pos n_safe i 1024).
    assert (Hstep : (1024 * 1024 ^ N.of_nat i = 1024 ^ N.of_nat (i + 1))%N).
    { rewrite Nat.add_1_r, Nat2N.inj_succ, N.pow_succ_r'. reflexivity. }
    rewrite Hstep.
    destruct (N.leb_spec (1024 ^ N.of_nat (i + 1)) n) as [Hge | Hlt].
    + rewrite (div_1024_exact n n_pos n_safe i) by (simpl in Hi; lia).
      destruct (IH (i + 1) next) as (k & Hk & Hres & Hlo & Hhi).
      { simpl in Hi. lia. }
      exists (S k). split; [simpl; lia|]. split.
      * rewrite Hres. replace (i + 1 + k) with (i + S k) by lia. reflexivity.
      * replace (i + S k) with (i + 1 + k) by lia. split.
        -- right. destruct Hlo as [-> | Hlo]; [|exact Hlo].
           now rewrite Nat.add_0_r.
        -- destruct Hhi as [-> | Hhi]; [left; reflexivity | right; exact Hhi].
    + exists 0. rewrite Nat.add_0_r. split; [lia|].
      split; [reflexivity|]. split; [now left | now right].
Qed.

Lemma toFixed_exact (i : nat) :
  i <= 90 ->
  Number.toFixed 2 (scaled_double n i)
  = let h := ((200 * n + 1024 ^ N.of_nat i) / (2 * 1024 ^ N.of_nat i))%N in
    Some (decimal (h / 100) ++ "."
          ++ BigNumber.pad_left 2 (decimal (h mod 100))).
Proof.
  intros Hi.
  assert (Hp : (0 < 1024 ^ N.of_nat i)%N)
    by (apply N.neq_0_lt_0, N.pow_nonzero; lia).
  assert (Hsmall : Number.ge_int (scaled_double n i) (10 ^ 21) = false).
  { change (10 ^ 21)%Z with (Z.of_N (10 ^ 21)).
    rewrite (ge_int_exact n n_pos n_safe i (10 ^ 21)).
    apply N.leb_gt. assert (2 ^ 53 < 10 ^ 21)%N by reflexivity. nia. }
  unfold scaled_double in *. unfold Number.toFixed. rewrite Hsmall.
  pose proof (log2_below_53 n n_pos n_safe) as HL.
  pose proof (shift_positive n) as HS.
  set (L := N.log2 n) in *. set (S := (2 ^ (52 - L))%N) in *.
  set (e := (Z.of_N L - 52 - 10 * Z.of_nat i)%Z).
  set (P := (1024 ^ N.of_nat i)%N) in *.
  assert (Hden : (2 ^ Z.to_N (- e) = S * P)%N).
  { unfold S, P. change 1024%N with (2 ^ 10)%N.
    rewrite <- N.pow_mul_r, <- N.pow_add_r. f_equal. lia. }
  cbn [andb]. change (10 ^ N.of_nat 2)%N with 100%N.
  assert (Hh :
    ((2 * (if (0 <=? e)%Z then n * S * 2 ^ Z.to_N e else n * S) * 100
      + (if (0 <=? e)%Z then 1 else 2 ^ Z.to_N (- e)))
     / (2 * (if (0 <=? e)%Z then 1 else 2 ^ Z.to_N (- e)))
     = (200 * n + P) / (2 * P))%N).
  { destruct (Z.leb_spec 0 e) as [He | He].
    - assert (e = 0%Z) by lia. replace e with 0%Z in * by lia.
      simpl in Hden. cbn [Z.to_N]. rewrite N.pow_0_r, N.mul_1_r.
      assert (S = 1%N /\ P = 1%N) as [-> ->] by lia.
      f_equal; lia.
    - rewrite Hden.
      replace (2 * (n * S) * 100 + S * P)%N with (S * (200 * n + P))%N by lia.
      replace (2 * (S * P))%N with (S * (2 * P))%N by lia.
      apply N.Div0.div_mul_cancel_l. lia. }
  rewrite Hh. reflexivity.
Qed.

End FormatBytes.

Lemma formatBytes_exact (n : N) :
  (n < 2 ^ 53)%N ->
  exists k h,
    k <= 6
    /\ (k = 0 \/ (1024 ^ N.of_nat k <= n)%N)
    /\ (n < 1024 ^ N.of_nat (k + 1))%N
    /\ (2 * h * 1024 ^ N.of_nat k <= 200 * n + 1024 ^ N.of_nat k
        < 2 * (h + 1) * 1024 ^ N.of_nat k)%N
    /\ formatBytes (Z.of_N n) = Some (hundredths h (nth k size_units "")).
Proof.
  intros Hsafe. destruct (N.eq_dec n 0) as [-> | Hn0].
  - exists 0, 0%N. repeat split; try reflexivity; auto; lia.
  - assert (Hpos : (0 < n)%N) by lia.
    destruct (scale_units_exact n Hpos Hsafe larger_units 0 "B" ltac:(simpl; lia))
      as (k & Hk & Hres & Hlo & Hhi).
    cbn [Nat.add] in *.
    set (P := (1024 ^ N.of_nat k)%N) in *.
    assert (HP : (0 < P)%N) by (apply N.neq_0_lt_0, N.pow_nonzero; lia).
    exists k, ((200 * n + P) / (2 * P))%N.
    split; [exact Hk|]. split; [exact Hlo|]. split.
    { destruct Hhi as [-> | Hhi]; [|exact Hhi].
      assert (2 ^ 53 < 1024 ^ N.of_nat (List.length larger_units + 1))%N
        by reflexivity. lia. }
    split.
    { pose proof (N.Div0.mul_div_le (200 * n + P) (2 * P)).
      pose proof (N.mul_succ_div_gt (200 * n + P) (2 * P) ltac:(lia)).
      lia. }
    unfold formatBytes. rewrite (of_bigint_exact n Hpos Hsafe), Hres.
    rewrite (toFixed_exact n Hpos Hsafe k) by (simpl in Hk; lia).
    cbv zeta. fold P. unfold hundredths, size_units.
    now rewrite !str_app_assoc.
Qed.

(* ------------------------------------------------------------------ *)
(** * Sizes with a unit *)
(* ------------------------------------------------------------------ *)

(** An unbounded item takes all the characters of its class that stand
    at the front when what follows them matches the rest. *)
Lemma run_item_greedy (it : item) (k : string -> option (list string))
    (g rest : string) (gs : list string) :
  hi it = None ->
  match rest with String c _ => cls it c = false | EmptyString => True end ->
  k rest = Some gs ->
  forall n acc,
    str_forall (cls it) g = true ->
    lo it <= n + String.length g ->
    run_item it k n acc (g ++ rest) = Some ((acc ++ g) :: gs).
Proof.
  intros Hhi Hrest Hk. induction g as [|c g IH]; intros n acc Hg Hlo.
  - simpl in Hlo. rewrite Nat.add_0_r in Hlo. apply Nat.leb_le in Hlo.
    rewrite str_app_empty_r. simpl.
    destruct rest as [|c rest]; simpl; rewrite Hlo, Hk; [reflexivity|].
    rewrite Hrest, andb_false_r. reflexivity.
  - simpl in Hg. apply andb_true_iff in Hg as [Hc Hg].
    simpl. rewrite Hhi, Hc. simpl.
    rewrite (IH (S n) (acc ++ String c "") Hg) by (simpl in Hlo; lia).
    now rewrite str_app_assoc.
Qed.

Lemma lower_not_space (c : ascii) : is_lower c = true -> is_space c = false.
Proof. all_chars c. Qed.

Lemma lower_not_digit_or_dot (c : ascii) :
  is_lower c = true -> digit_or_dot c = false.
Proof. all_chars c. Qed.

Lemma space_not_digit_or_dot (c : ascii) :
  is_space c = true -> digit_or_dot c = false.
Proof. all_chars c. Qed.

Lemma space_lower_char (c : ascii) : is_space c = true -> lower_char c = c.
Proof. all_chars c. Qed.

Lemma digit_lower_char (c : ascii) : is_digit c = true -> lower_char c = c.
Proof. all_chars c. Qed.

Lemma digit_is_digit_or_dot (c : ascii) :
  is_digit c = true -> digit_or_dot c = true.
Proof. intros H. unfold digit_or_dot. now rewrite H. Qed.

Lemma SIZE_PATTERN_exec (d ws u : string) :
  d <> "" -> str_forall digit_or_dot d = true ->
  str_forall is_space ws = true ->
  u <> "" -> str_forall is_lower u = true ->
  regex_exec SIZE_PATTERN (d ++ ws ++ u) = Some [d; ws; u].
Proof.
  intros Hd Hdd Hws Hu Hul.
  destruct u as [|c u]; [congruence|]. clear Hu.
  assert (Hc : is_lower c = true).
  { simpl in Hul. now apply andb_true_iff in Hul as [? _]. }
  assert (H3 : regex_exec [plus is_lower] (String c u) = Some [String c u]).
  { pose proof (run_item_greedy (plus is_lower) (regex_exec []) (String c u) ""
                  [] eq_refl I eq_refl 0 "" Hul ltac:(simpl; lia)) as H.
    rewrite str_app_empty_r in H. exact H. }
  assert (H2 : regex_exec [star is_space; plus is_lower] (ws ++ String c u)
               = Some [ws; String c u]).
  { apply (run_item_greedy (star is_space) (regex_exec [plus is_lower])
             ws (String c u) [String c u] eq_refl);
      [now apply lower_not_space | exact H3 | exact Hws | simpl; lia]. }
  unfold SIZE_PATTERN.
  apply (run_item_greedy (plus digit_or_dot)
           (regex_exec [star is_space; plus is_lower])
           d (ws ++ String c u) [ws; String c u] eq_refl);
    [ | exact H2 | exact Hdd | destruct d; [congruence | simpl; lia]].
  destruct ws as [|w ws]; simpl.
  - now apply lower_not_digit_or_dot.
  - simpl in Hws. apply andb_true_iff in Hws as [Hw _].
    now apply space_not_digit_or_dot.
Qed.

(** The integer part of a whole number below 2^53 is the number. *)
Lemma floor_integer (v : N) :
  (v < 2 ^ 53)%N ->
  BigInt_of_number (Number.floor (Number.round false v 1))
  = Returned (Z.of_N v).
Proof.
  intros Hsafe. destruct (N.eq_dec v 0) as [-> | Hv0]; [reflexivity|].
  assert (Hpos : (0 < v)%N) by lia.
  change 1%N with (2 ^ 0)%N. rewrite round_dyadic by lia.
  pose proof (log2_below_53 v Hpos Hsafe) as HL. pose proof (shift_positive v) as HS.
  set (L := N.log2 v) in *. set (S := (2 ^ (52 - L))%N) in *.
  unfold Number.floor.
  destruct (Z.leb_spec 0 (Z.of_N L - Z.of_N 0 - 52)) as [He | He].
  - assert (L = 52%N) by lia.
    unfold BigInt_of_number.
    replace (Z.of_N L - Z.of_N 0 - 52)%Z with 0%Z by lia.
    cbn [Z.leb Z.compare]. rewrite Z.pow_0_r, Z.mul_1_r.
    assert (S = 1%N) by (unfold S; replace (52 - L)%N with 0%N by lia; reflexivity).
    f_equal. lia.
  - assert (Hdiv : (Z.of_N (v * S) / 2 ^ (- (Z.of_N L - Z.of_N 0 - 52))
                    = Z.of_N v)%Z).
    { replace (2 ^ (- (Z.of_N L - Z.of_N 0 - 52)))%Z with (Z.of_N S).
      - rewrite N2Z.inj_mul. apply Z.div_mul. lia.
      - unfold S. rewrite N2Z.inj_pow. f_equal. lia. }
    rewrite Hdiv, Zabs2N.id. unfold BigInt_of_number.
    cbn [Z.leb Z.compare]. rewrite Z.pow_0_r, Z.mul_1_r. reflexivity.
Qed.

Lemma byte_units_facts (name : string) (multiplier : Z) :
  In (name, multiplier) byte_units ->
  name <> "" /\ str_forall is_lower name = true
  /\ String.eqb name "constructor" = false
  /\ lookup_unit byte_units name = Some multiplier.
Proof.
  intros Hin. unfold byte_units in Hin. simpl in Hin.
  repeat (destruct Hin as [E | Hin];
          [injection E as <- <-; repeat split; try reflexivity; discriminate | ]).
  contradiction.
Qed.

Lemma parseBytes_exact (v : N) (ws unit name : string) (multiplier : Z) :
  (v < 2 ^ 53)%N -> In (name, multiplier) byte_units ->
  toLowerCase unit = name -> str_forall is_space ws = true ->
  parseBytes (decimal v ++ ws ++ unit) = Returned (Z.of_N v * multiplier)%Z.
Proof.
  intros Hsafe Hin Hunit Hws.
  destruct (byte_units_facts name multiplier Hin) as (Hne & Hlow & Hcons & Hlook).
  assert (Hlower : toLowerCase (decimal v ++ ws ++ unit)
                   = decimal v ++ ws ++ name).
  { unfold toLowerCase in *. rewrite !str_map_app, Hunit.
    rewrite (str_map_id lower_char is_digit (decimal v) digit_lower_char
               (decimal_digits v)).
    now rewrite (str_map_id lower_char is_space ws space_lower_char Hws). }
  unfold parseBytes. rewrite Hlower.
  rewrite (SIZE_PATTERN_exec (decimal v) ws name (decimal_not_empty v)).
  - rewrite Hlook, parseFloat_integer, floor_integer, Hcons by exact Hsafe.
    reflexivity.
  - eapply str_forall_impl; [|apply decimal_digits].
    apply digit_is_digit_or_dot.
  - exact Hws.
  - exact Hne.
  - exact Hlow.
Qed.

(* ------------------------------------------------------------------ *)
(** * Whole numbers as text *)
(* ------------------------------------------------------------------ *)

(** A whole number below 2^53 is a double. *)
Lemma of_bigint_value (c : N) :
  (c < 2 ^ 53)%N ->
  BigInt_of_number (Number.of_bigint (Z.of_N c)) = Returned (Z.of_N c).
Proof.
  intros Hsafe. destruct (N.eq_dec c 0) as [-> | Hc0]; [reflexivity|].
  assert (Hpos : (0 < c)%N) by lia.
  rewrite (of_bigint_exact c Hpos Hsafe). unfold scaled_double.
  pose proof (log2_below_53 c Hpos Hsafe) as HL.
  pose proof (shift_positive c) as HS.
  set (L := N.log2 c) in *. set (S := (2 ^ (52 - L))%N) in *.
  unfold BigInt_of_number.
  replace (Z.of_N L - 52 - 10 * Z.of_nat 0)%Z with (Z.of_N L - 52)%Z by lia.
  assert (Hpow : (2 ^ (- (Z.of_N L - 52)))%Z = Z.of_N S).
  { unfold S. rewrite N2Z.inj_pow. f_equal. lia. }
  destruct (Z.leb_spec 0 (Z.of_N L - 52)) as [He | He].
  - assert (E : (Z.of_N L - 52 = 0)%Z) by lia. rewrite E in *.
    cbn [Z.opp] in Hpow. rewrite Z.pow_0_r in Hpow |- *. f_equal. nia.
  - rewrite Hpow, N2Z.inj_mul, Z.mod_mul by lia. cbn [Z.eqb].
    rewrite Z.div_mul by lia. reflexivity.
Qed.

(** The double nearest to a whole number from 2^53 on is at least
    2^53. *)
Lemma of_bigint_large (c : N) (z : Z) :
  (2 ^ 53 <= c)%N ->
  BigInt_of_number (Number.of_bigint (Z.of_N c)) = Returned z ->
  (2 ^ 53 <= z)%Z.
Proof.
  intros Hbig. unfold Number.of_bigint.
  replace (Z.of_N c <? 0)%Z with false by (symmetry; apply Z.ltb_ge; lia).
  rewrite Zabs2N.id. unfold Number.round.
  assert (Hc0 : (0 < c)%N) by (assert (0 < 2 ^ 53)%N by reflexivity; lia).
  replace (c =? 0)%N with false by (symmetry; apply N.eqb_neq; lia).
  change (N.log2 1) with 0%N. rewrite Z.sub_0_r.
  assert (HL : (53 <= N.log2 c)%N).
  { change 53%N with (N.log2 (2 ^ 53)). now apply N.log2_le_mono. }
  destruct (N.log2_spec c Hc0) as [Hlo Hhi].
  set (L := N.log2 c) in *.
  assert (H0 : (0 <=? Z.of_N L)%Z = true) by (apply Z.leb_le; lia).
  rewrite H0, N2Z.id, N.mul_1_l.
  replace (2 ^ L <=? c)%N with true by (symmetry; apply N.leb_le; exact Hlo).
  replace (Z.max (Z.of_N L - 52) (-1074)) with (Z.of_N L - 52)%Z by lia.
  assert (Hq : (0 <=? Z.of_N L - 52)%Z = true) by (apply Z.leb_le; lia).
  rewrite Hq, N.mul_1_l.
  replace (Z.to_N (Z.of_N L - 52)) with (L - 52)%N by lia.
  set (d := (2 ^ (L - 52))%N).
  assert (Hd : (0 < d)%N)
    by (apply N.neq_0_lt_0, N.pow_nonzero; lia).
  assert (Hd2 : (2 <= d)%N).
  { unfold d. change 2%N with (2 ^ 1)%N at 1. apply N.pow_le_mono_r; lia. }
  assert (Hm0 : (2 ^ 52 <= c / d)%N).
  { apply N.div_le_lower_bound; [lia|].
    unfold d. rewrite <- N.pow_add_r.
    replace (L - 52 + 52)%N with L by lia. exact Hlo. }
  set (m0 := (c / d)%N) in *.
  match goal with
  | |- context [if _ then Number.Infinity false else Number.Finite false ?m _] =>
      assert (Hm : (m0 <= m)%N);
      [| set (mm := m) in *; clearbody mm ]
  end.
  { destruct (2 * (c mod d) ?= d)%N; [destruct (N.even m0)| |]; lia. }
  match goal with
  | |- context [if ?b then Number.Infinity false else _] =>
      destruct b; [discriminate|]
  end.
  unfold BigInt_of_number. rewrite Hq. intros [= <-].
  assert (Hp : (2 <= 2 ^ (Z.of_N L - 52))%Z).
  { change 2%Z with (2 ^ 1)%Z at 1. apply Z.pow_le_mono_r; lia. }
  assert (Hz : (2 ^ 52 <= Z.of_N mm)%Z).
  { apply Z.le_trans with (Z.of_N (2 ^ 52)); [reflexivity | lia]. }
  change (2 ^ 53)%Z with (2 ^ 52 * 2)%Z. nia.
Qed.

Lemma reads_as_safe (v c : N) :
  (v < 2 ^ 53)%N -> reads_as v c = true -> c = v.
Proof.
  intros Hv. unfold reads_as.
  destruct (N.lt_ge_cases c (2 ^ 53)) as [Hc | Hc].
  - rewrite (of_bigint_value c Hc). intros H%Z.eqb_eq. lia.
  - destruct (BigInt_of_number (Number.of_bigint (Z.of_N c))) as [z|] eqn:E;
      [|discriminate].
    pose proof (of_bigint_large c z Hc E) as Hz.
    intros H%Z.eqb_eq.
    assert (Z.of_N v < 2 ^ 53)%Z; [|lia].
    change (2 ^ 53)%Z with (Z.of_N (2 ^ 53)). lia.
Qed.

Lemma shortest_safe (v : N) (j : nat) :
  (v < 2 ^ 53)%N -> shortest_from v j = v.
Proof.
  intros Hv. induction j as [|j IH]; [reflexivity|].
  cbn [shortest_from]. cbv zeta.
  set (p := (10 ^ N.of_nat (S j))%N).
  assert (Hp : (0 < p)%N) by (apply N.neq_0_lt_0, N.pow_nonzero; lia).
  pose proof (N.div_mod v p ltac:(lia)) as Hdm.
  pose proof (N.mod_lt v p ltac:(lia)) as Hml.
  set (c0 := (v / p * p)%N).
  assert (Hc0 : (c0 <= v < c0 + p)%N).
  { unfold c0. rewrite (N.mul_comm (v / p) p).
    remember (p * (v / p))%N as a. remember (v mod p)%N as b.
    clear - Hdm Hml. split; lia. }
  assert (H1 : reads_as v (c0 + p) = false).
  { destruct (reads_as v (c0 + p)) eqn:E; [|reflexivity].
    apply (reads_as_safe v _ Hv) in E. lia. }
  rewrite H1, andb_false_r.
  destruct ((0 <? c0)%N && reads_as v c0) eqn:E0; [|exact IH].
  apply andb_true_iff in E0 as [_ E0].
  now apply (reads_as_safe v _ Hv).
Qed.

(** A whole number below 2^53 prints with all its digits. *)
Lemma integer_text_safe (v : N) :
  (v < 2 ^ 53)%N -> integer_text v = decimal v.
Proof.
  intros Hv. unfold integer_text. rewrite shortest_safe by exact Hv.
  assert (Hlen : String.length (decimal v) <= 16).
  { apply decimal_length; [lia|].
    apply N.lt_trans with (2 ^ 53)%N; [exact Hv | reflexivity]. }
  cbv zeta.
  replace (Nat.leb (String.length (decimal v)) 21) with true
    by (symmetry; apply Nat.leb_le; lia).
  reflexivity.
Qed.

Lemma String_of_number_integer (x : Number.t) (n : N) :
  BigInt_of_number x = Returned (Z.of_N n) -> (n < 2 ^ 53)%N ->
  String_of_number x = Some (decimal n).
Proof.
  intros Hx Hn. destruct x as [| neg | neg m e]; try discriminate.
  unfold String_of_number. rewrite Hx.
  replace (Z.of_N n <? 0)%Z with false by (symmetry; apply Z.ltb_ge; lia).
  rewrite Zabs2N.id, (integer_text_safe n Hn). reflexivity.
Qed.

Lemma String_of_number_safe (n : N) :
  (n < 2 ^ 53)%N ->
  String_of_number (Number.of_bigint (Z.of_N n)) = Some (decimal n).
Proof.
  intros Hn. apply String_of_number_integer; [|exact Hn].
  now apply of_bigint_value.
Qed.


Lemma safe_is_double (v : N) : (v < 2 ^ 53)%N -> is_double v = true.
Proof.
  intros Hv. unfold is_double, reads_as.
  rewrite (of_bigint_value v Hv). apply Z.eqb_refl.
Qed.





(* ------------------------------------------------------------------ *)
(** * ID addresses *)
(* ------------------------------------------------------------------ *)

(** The double nearest to a natural number is not negative. *)
Lemma of_bigint_not_negative (n : N) :
  Number.ge_int (Number.of_bigint (Z.of_N n)) 0 = true.
Proof.
  unfold Number.of_bigint.
  replace (Z.of_N n <? 0)%Z with false by (symmetry; apply Z.ltb_ge; lia).
  unfold Number.round.
  destruct (Z.abs_N (Z.of_N n) =? 0)%N; [reflexivity|].
  match goal with
  | |- context [if ?b then Number.Infinity false else Number.Finite false ?m ?q] =>
      destruct b; [reflexivity|]; generalize m; generalize q
  end.
  intros q m. unfold Number.ge_int.
  destruct (Z.leb_spec 0 q) as [Hq | Hq]; apply Z.leb_le.
  - assert (0 <= 2 ^ q)%Z by (apply Z.pow_nonneg; lia). nia.
  - lia.
Qed.




(* ------------------------------------------------------------------ *)
(** * Patterns read one character at a time *)
(* ------------------------------------------------------------------ *)

(** An item that takes exactly one character. *)
Lemma regex_exec_one (p : ascii -> bool) (rest : pattern) (c : ascii)
    (s : string) :
  regex_exec (one p :: rest) (String c s)
  = if p c then
      match regex_exec rest s with
      | Some gs => Some (String c "" :: gs)
      | None => None
      end
    else None.
Proof.
  cbn [regex_exec run_item one lo hi cls below Nat.leb Nat.ltb].
  destruct (p c); [|reflexivity]. cbn [andb].
  destruct s as [|d s]; cbn [run_item one lo hi cls below Nat.leb Nat.ltb andb
                             append];
    destruct (regex_exec rest _); reflexivity.
Qed.

Lemma regex_test_one (p : ascii -> bool) (rest : pattern) (c : ascii)
    (s : string) :
  regex_test (one p :: rest) (String c s) = p c && regex_test rest s.
Proof.
  unfold regex_test. rewrite regex_exec_one.
  destruct (p c); [|reflexivity].
  destruct (regex_exec rest s); reflexivity.
Qed.

Lemma regex_test_lit (a : ascii) (rest : pattern) (c : ascii) (s : string) :
  regex_test (lit a :: rest) (String c s) = Ascii.eqb a c && regex_test rest s.
Proof. exact (regex_test_one (Ascii.eqb a) rest c s). Qed.

Lemma regex_test_one_empty (p : ascii -> bool) (rest : pattern) :
  regex_test (one p :: rest) "" = false.
Proof. reflexivity. Qed.

Lemma regex_test_one_inv (p : ascii -> bool) (rest : pattern) (s : string) :
  regex_test (one p :: rest) s = true ->
  exists c s', s = String c s' /\ p c = true /\ regex_test rest s' = true.
Proof.
  destruct s as [|c s]; [discriminate|].
  rewrite regex_test_one. intros H. apply andb_true_iff in H as [Hc Hs].
  eauto.
Qed.

(* ------------------------------------------------------------------ *)
(** * Addresses: prefix, protocol and network *)
(* ------------------------------------------------------------------ *)

Lemma f_or_t_inv (c : ascii) : f_or_t c = true -> c = "f"%char \/ c = "t"%char.
Proof.
  unfold f_or_t. intros H. apply orb_true_iff in H as [H | H];
    apply Ascii.eqb_eq in H; auto.
Qed.

(** The patterns of the four protocols that have one start with the
    class [[ft]]: what follows the first character decides. *)
Lemma validateAddress_tail (c d : ascii) (rest : string) :
  f_or_t c = true ->
  validateAddress (String c (String d rest))
  = match parseInt_charAt 1 (String c (String d rest)) with
    | None => false
    | Some protocol =>
        if (protocol <? 0)%Z || (4 <? protocol)%Z then false
        else if (protocol =? ADDRESS_TYPES_ID)%Z
          then regex_test [lit "0"; plus is_digit] (String d rest)
        else if (protocol =? ADDRESS_TYPES_SECP256K1)%Z
          then regex_test [lit "1"; between 38 39 base32_char] (String d rest)
        else if (protocol =? ADDRESS_TYPES_ACTOR)%Z
          then regex_test [lit "2"; between 38 39 base32_char] (String d rest)
        else if (protocol =? ADDRESS_TYPES_BLS)%Z
          then regex_test [lit "3"; between 84 86 base32_char] (String d rest)
        else if (protocol =? ADDRESS_TYPES_DELEGATED)%Z
          then Nat.ltb 1 (String.length rest)
        else false
    end.
Proof.
  intros Hc.
  unfold validateAddress, ID_ADDRESS, SECP256K1_ADDRESS, ACTOR_ADDRESS,
    BLS_ADDRESS.
  rewrite !regex_test_one, Hc. cbn [andb].
  destruct (f_or_t_inv c Hc) as [-> | ->]; reflexivity.
Qed.

Lemma parseInt_charAt_second (c d : ascii) (rest : string) :
  parseInt_charAt 1 (String c (String d rest)) = parseInt (String d "").
Proof. reflexivity. Qed.

Lemma getAddressType_tail (c d : ascii) (rest : string) :
  f_or_t c = true ->
  getAddressType (String c (String d rest))
  = match parseInt (String d "") with
    | None => None
    | Some protocol =>
        if (protocol <? 0)%Z || (4 <? protocol)%Z then None else Some protocol
    end.
Proof.
  intros Hc. destruct (f_or_t_inv c Hc) as [-> | ->]; reflexivity.
Qed.

Lemma getAddressType_other (c : ascii) (rest : string) :
  f_or_t c = false -> getAddressType (String c rest) = None.
Proof.
  intros Hc. unfold getAddressType.
  destruct (Nat.ltb (String.length (String c rest)) 2); [reflexivity|].
  cbn [charAt String.get].
  unfold f_or_t in Hc. apply orb_false_iff in Hc as [Hf Ht].
  rewrite Hf, Ht. reflexivity.
Qed.

Lemma validateAddress_other (c : ascii) (rest : string) :
  f_or_t c = false ->
  validateAddress (String c rest)
  = startsWith (String c rest) "0x" && regex_test ETH_ADDRESS (String c rest).
Proof.
  intros Hc. unfold validateAddress.
  destruct (startsWith (String c rest) "0x"); [reflexivity|].
  cbn [charAt String.get andb].
  unfold f_or_t in Hc. apply orb_false_iff in Hc as [Hf Ht].
  rewrite Hf, Ht. reflexivity.
Qed.

(** X1.  Moving an address to the other network keeps what the
    validator and the classifier say about it, and its length: the
    result is valid exactly when the address is, and has the same
    protocol. *)
Theorem convertAddressNetwork_keeps_validity (address : string)
    (toTestnet : bool) :
  validateAddress (convertAddressNetwork address toTestnet)
  = validateAddress address
  /\ getAddressType (convertAddressNetwork address toTestnet)
     = getAddressType address
  /\ String.length (convertAddressNetwork address toTestnet)
     = String.length address.
Proof.
  destruct address as [|c [|d rest]]; [now auto | now auto |].
  unfold convertAddressNetwork.
  cbn [is_empty orb String.length Nat.ltb Nat.leb charAt String.get slice].
  destruct (f_or_t c) eqn:Hc.
  - assert (Hnew : f_or_t (if toTestnet then "t" else "f")%char = true)
      by now destruct toTestnet.
    destruct (f_or_t_inv c Hc) as [-> | ->]; cbn [Ascii.eqb Bool.eqb negb andb];
      (replace ((if toTestnet then "t" else "f") ++ String d rest)
         with (String (if toTestnet then "t" else "f")%char (String d rest))
         by now destruct toTestnet);
      rewrite !validateAddress_tail, !getAddressType_tail by assumption;
      rewrite !parseInt_charAt_second; auto.
  - unfold f_or_t in Hc. apply orb_false_iff in Hc as [Hf Ht].
      rewrite Hf, Ht. auto.
Qed.

Lemma startsWith_char (c x : ascii) (rest : string) :
  startsWith (String c rest) (String x "") = Ascii.eqb x c.
Proof.
  unfold startsWith. cbn [String.prefix].
  destruct (ascii_dec x c) as [-> | Hne].
  - rewrite Ascii.eqb_refl. now destruct rest.
  - symmetry. now apply Ascii.eqb_neq.
Qed.

(** X2.  The network of the result is the one that was asked for: a
    second conversion overrides the first, an address of a protocol
    comes out on the requested network, an address that is on that
    network already is returned as it is, and so is an Ethereum
    address. *)
Theorem convertAddressNetwork_sets_network (address : string) (a b : bool) :
  convertAddressNetwork (convertAddressNetwork address a) b
  = convertAddressNetwork address b
  /\ (getAddressType address <> None ->
      getNetworkFromAddress (convertAddressNetwork address a)
      = (if a then "testnet" else "mainnet")
      /\ isTestnetAddress (convertAddressNetwork address a) = a
      /\ isMainnetAddress (convertAddressNetwork address a) = negb a)
  /\ (getNetworkFromAddress address = (if a then "testnet" else "mainnet") ->
      convertAddressNetwork address a = address)
  /\ (isEthAddress address = true -> convertAddressNetwork address a = address).
Proof.
  destruct address as [|c [|d rest]].
  - split; [reflexivity|]. split; [intros H; now elim H|]. now split.
  - split; [reflexivity|]. split; [intros H; now elim H|]. now split.
  - destruct (f_or_t c) eqn:Hc.
    + assert (Heth : isEthAddress (String c (String d rest)) = false).
      { unfold isEthAddress, ETH_ADDRESS. rewrite regex_test_lit.
        destruct (f_or_t_inv c Hc) as [-> | ->]; reflexivity. }
      rewrite Heth.
      destruct (f_or_t_inv c Hc) as [-> | ->].
      * split; [now destruct a, b|]. split; [intros _; now destruct a|].
        split; [now destruct a | discriminate].
      * split; [now destruct a, b|]. split; [intros _; now destruct a|].
        split; [now destruct a | discriminate].
    + assert (Hsame : forall t, convertAddressNetwork (String c (String d rest)) t
                                = String c (String d rest)).
      { intros t. unfold convertAddressNetwork.
        cbn [is_empty orb String.length Nat.ltb Nat.leb charAt String.get].
        unfold f_or_t in Hc. apply orb_false_iff in Hc as [Hf Ht].
        now rewrite Hf, Ht. }
      rewrite !Hsame. split; [reflexivity|].
      split; [|now split].
      intros H. elim H. now apply getAddressType_other.
Qed.

(** [parseInt] of one character: its value when it is a digit. *)
Lemma parseInt_char (d : ascii) :
  parseInt (String d "")
  = if is_digit d then Some (Z.of_N (digit_value d)) else None.
Proof. all_chars d. Qed.

Lemma digit_value_zero (d : ascii) :
  is_digit d = true -> (digit_value d = 0%N <-> d = "0"%char).
Proof. all_chars d; intros _; split; intros H; discriminate H. Qed.

Lemma isIdAddress_tail (c d : ascii) (rest : string) :
  f_or_t c = true ->
  isIdAddress (String c (String d rest))
  = Ascii.eqb "0" d && regex_test [plus is_digit] rest.
Proof.
  intros Hc. unfold isIdAddress, ID_ADDRESS.
  now rewrite regex_test_one, regex_test_lit, Hc.
Qed.

(** X3.  What the other functions say about an address that the
    validator accepts.  An Ethereum address has no protocol: its type
    name is ["Unknown"], it is not robust and its network is
    ["unknown"].  Every other valid address has one of the five
    protocols and a type name, is on exactly one of the two networks,
    and is robust exactly when it is not an ID address. *)
Theorem valid_address_classes (address : string) :
  validateAddress address = true ->
  (isEthAddress address = true
   /\ getAddressType address = None
   /\ getAddressTypeName address = "Unknown"
   /\ isRobustAddress address = false
   /\ getNetworkFromAddress address = "unknown"
   /\ isMainnetAddress address = false
   /\ isTestnetAddress address = false)
  \/ (isEthAddress address = false
      /\ (exists p, getAddressType address = Some p /\ (0 <= p <= 4)%Z)
      /\ getAddressTypeName address <> "Unknown"
      /\ isRobustAddress address = negb (isIdAddress address)
      /\ xorb (isMainnetAddress address) (isTestnetAddress address) = true
      /\ getNetworkFromAddress address <> "unknown").
Proof.
  intros Hvalid.
  destruct address as [|c rest]; [discriminate|].
  destruct (f_or_t c) eqn:Hc.
  - right.
    destruct rest as [|d rest].
    { destruct (f_or_t_inv c Hc) as [-> | ->]; discriminate. }
    assert (Heth : isEthAddress (String c (String d rest)) = false).
    { unfold isEthAddress, ETH_ADDRESS. rewrite regex_test_lit.
      destruct (f_or_t_inv c Hc) as [-> | ->]; reflexivity. }
    assert (Hnet : xorb (isMainnetAddress (String c (String d rest)))
                        (isTestnetAddress (String c (String d rest))) = true
                   /\ getNetworkFromAddress (String c (String d rest))
                      <> "unknown").
    { destruct (f_or_t_inv c Hc) as [-> | ->]; split; try reflexivity;
        discriminate. }
    rewrite validateAddress_tail, parseInt_charAt_second in Hvalid
      by exact Hc.
    unfold isRobustAddress, getAddressTypeName.
    rewrite isIdAddress_tail, getAddressType_tail by exact Hc.
    rewrite parseInt_char in *.
    destruct (is_digit d) eqn:Hd; [|discriminate].
    pose proof (digit_value_zero d Hd) as Hzero.
    set (p := Z.of_N (digit_value d)) in *.
    destruct ((p <? 0)%Z || (4 <? p)%Z) eqn:Hrange; [discriminate|].
    apply orb_false_iff in Hrange as [Hlo Hhi].
    apply Z.ltb_ge in Hlo, Hhi.
    split; [exact Heth|]. split; [exists p; split; [reflexivity | lia]|].
    split.
    { assert (C : (p = 0 \/ p = 1 \/ p = 2 \/ p = 3 \/ p = 4)%Z) by lia.
      destruct C as [-> | [-> | [-> | [-> | ->]]]]; discriminate. }
    split; [|exact Hnet].
    unfold ADDRESS_TYPES_ID in *.
    destruct (Z.eqb_spec p 0) as [Hp | Hp].
    + assert (Hd0 : d = "0"%char) by (apply Hzero; unfold p in Hp; lia).
      subst d. rewrite regex_test_lit in Hvalid. cbn [negb].
      cbn [Ascii.eqb Bool.eqb andb] in *.
      unfold regex_test in *. unfold regex_test in Hvalid.
      cbn [regex_exec] in *.
      destruct rest as [|x rest]; [discriminate|].
      symmetry. apply negb_false_iff. exact Hvalid.
    + assert (Hd0 : Ascii.eqb "0" d = false).
      { apply Ascii.eqb_neq. intros <-. apply Hp. reflexivity. }
      rewrite Hd0. reflexivity.
  - left.
    rewrite validateAddress_other in Hvalid by exact Hc.
    apply andb_true_iff in Hvalid as [H0x Heth].
    unfold isRobustAddress, getAddressTypeName.
    rewrite getAddressType_other by exact Hc.
    unfold isMainnetAddress, isTestnetAddress, getNetworkFromAddress.
    rewrite H0x, !startsWith_char.
    unfold f_or_t in Hc. apply orb_false_iff in Hc as [Hf Ht].
    rewrite (Ascii.eqb_sym "f"), (Ascii.eqb_sym "t"), Hf, Ht.
    repeat split; auto.
Qed.

(** The ID address of actor 1 on the main network. *)
Lemma valid_address_classes_id :
  validateAddress "f01" = true
  /\ ((isEthAddress "f01" = true
       /\ getAddressType "f01" = None
       /\ getAddressTypeName "f01" = "Unknown"
       /\ isRobustAddress "f01" = false
       /\ getNetworkFromAddress "f01" = "unknown"
       /\ isMainnetAddress "f01" = false
       /\ isTestnetAddress "f01" = false)
      \/ (isEthAddress "f01" = false
          /\ (exists p, getAddressType "f01" = Some p /\ (0 <= p <= 4)%Z)
          /\ getAddressTypeName "f01" <> "Unknown"
          /\ isRobustAddress "f01" = negb (isIdAddress "f01")
          /\ xorb (isMainnetAddress "f01") (isTestnetAddress "f01") = true
          /\ getNetworkFromAddress "f01" <> "unknown")).
Proof.
  split; [reflexivity|].
  exact (valid_address_classes "f01" eq_refl).
Defined.

(* ------------------------------------------------------------------ *)
(** * Delegated addresses of Ethereum accounts *)
(* ------------------------------------------------------------------ *)

Lemma regex_test_exactly (p : ascii -> bool) (n : nat) (h : string) :
  regex_test [Item p n (Some n)] h = true
  <-> String.length h = n /\ str_forall p h = true.
Proof.
  rewrite regex_test_iff. split.
  - intros (gs & Hcut & ->). cut_inv Hcut.
    destruct Hitem as (Hg & Hlo & Hhi). simpl in *.
    rewrite str_app_empty_r. split; [lia | exact Hg].
  - intros [Hlen Hh]. exists [h]. simpl. rewrite str_app_empty_r.
    split; [|reflexivity].
    constructor; [|constructor]. repeat split; simpl; auto; lia.
Qed.

Lemma any_case_hex (c : ascii) :
  lower_hex_char (lower_char c) || lower_hex_char (upper_char c) = hex_char c.
Proof. all_chars c. Qed.

Lemma any_case_f_or_t (c : ascii) :
  f_or_t (lower_char c) || f_or_t (upper_char c) = f_or_t (lower_char c).
Proof. all_chars c. Qed.

Lemma any_case_digit (a c : ascii) :
  is_digit a = true ->
  Ascii.eqb a (lower_char c) || Ascii.eqb a (upper_char c) = Ascii.eqb a c.
Proof.
  intros Ha.
  destruct (Ascii.eqb_spec a c) as [<- | Hne].
  - revert Ha. all_chars a.
  - assert (H1 : Ascii.eqb a (lower_char c) = false).
    { apply Ascii.eqb_neq. intros ->. revert Ha Hne. all_chars c. }
    assert (H2 : Ascii.eqb a (upper_char c) = false).
    { apply Ascii.eqb_neq. intros ->. revert Ha Hne. all_chars c. }
    now rewrite H1, H2.
Qed.

Lemma any_case_f (c : ascii) :
  Ascii.eqb "f" (lower_char c) || Ascii.eqb "f" (upper_char c)
  = Ascii.eqb "f" (lower_char c).
Proof. all_chars c. Qed.

(** What [filecoinToEthAddress] accepts: [f] or [t], then [410f], then
    40 hexadecimal characters, every letter in either case. *)
Lemma F410_PATTERN_iff (s : string) :
  regex_test F410_PATTERN s = true <->
  exists p f h,
    s = String p (String "4" (String "1" (String "0" (String f h))))
    /\ f_or_t (lower_char p) = true /\ lower_char f = "f"%char
    /\ String.length h = 40 /\ str_forall hex_char h = true.
Proof.
  unfold F410_PATTERN, ignore_case.
  cbn [map cls lo hi one lit exactly].
  assert (Hhex : forall h,
    regex_test [Item (fun c => lower_hex_char (lower_char c)
                               || lower_hex_char (upper_char c)) 40 (Some 40)] h
    = true <-> String.length h = 40 /\ str_forall hex_char h = true).
  { intros h. rewrite regex_test_exactly. split; intros [Hl Hh]; split; auto.
    - eapply str_forall_impl; [|exact Hh].
      intros c. cbv beta. now rewrite any_case_hex.
    - eapply str_forall_impl; [|exact Hh].
      intros c. cbv beta. now rewrite any_case_hex. }
  split.
  - intros H.
    apply regex_test_one_inv in H as (p & s1 & -> & Hp & H).
    apply regex_test_one_inv in H as (c4 & s2 & -> & H4 & H).
    apply regex_test_one_inv in H as (c1 & s3 & -> & H1 & H).
    apply regex_test_one_inv in H as (c0 & s4 & -> & H0 & H).
    apply regex_test_one_inv in H as (f & h & -> & Hf & H).
    rewrite any_case_f_or_t in Hp. rewrite any_case_f in Hf.
    rewrite any_case_digit in H4, H1, H0 by reflexivity.
    apply Ascii.eqb_eq in H4, H1, H0, Hf. subst c4 c1 c0.
    apply Hhex in H as [Hl Hh].
    exists p, f, h. repeat split; auto.
  - intros (p & f & h & -> & Hp & Hf & Hl & Hh).
    change (regex_test
      (one (fun c => f_or_t (lower_char c) || f_or_t (upper_char c))
       :: one (fun c => Ascii.eqb "4" (lower_char c) || Ascii.eqb "4" (upper_char c))
       :: one (fun c => Ascii.eqb "1" (lower_char c) || Ascii.eqb "1" (upper_char c))
       :: one (fun c => Ascii.eqb "0" (lower_char c) || Ascii.eqb "0" (upper_char c))
       :: one (fun c => Ascii.eqb "f" (lower_char c) || Ascii.eqb "f" (upper_char c))
       :: [Item (fun c => lower_hex_char (lower_char c)
                          || lower_hex_char (upper_char c)) 40 (Some 40)])
      (String p (String "4" (String "1" (String "0" (String f h))))) = true).
    rewrite !regex_test_one.
    rewrite any_case_f_or_t, any_case_f, !any_case_digit by reflexivity.
    rewrite Hp, Hf. cbn [Ascii.eqb Bool.eqb andb].
    apply Hhex. auto.
Qed.

Lemma toLowerCase_hex_length (h : string) :
  String.length (toLowerCase h) = String.length h.
Proof. apply str_map_length. Qed.

Lemma hex_of_lower_hex (c : ascii) :
  lower_hex_char c = true -> hex_char c = true.
Proof. all_chars c. Qed.

(** The address that [ethAddressToFilecoin] builds on a network. *)
Lemma delegated_address_facts (t : bool) (h : string) :
  String.length h = 40 -> str_forall lower_hex_char h = true ->
  let a := (if t then "t" else "f") ++ "410f" ++ h in
  validateAddress a = true
  /\ hasValidChecksum a = true
  /\ String.length a = 45
  /\ isDelegatedAddress a = true
  /\ getAddressType a = Some ADDRESS_TYPES_DELEGATED
  /\ getAddressTypeName a = "Delegated (FEVM)"
  /\ isRobustAddress a = true
  /\ getNetworkFromAddress a = (if t then "testnet" else "mainnet")
  /\ filecoinToEthAddress a = Some ("0x" ++ h).
Proof.
  intros Hl Hh a.
  assert (Hv : validateAddress a = true).
  { subst a. destruct t; cbn [append];
      rewrite validateAddress_tail by reflexivity; reflexivity. }
  assert (Hm : regex_test F410_PATTERN a = true).
  { apply F410_PATTERN_iff.
    exists (if t then "t" else "f")%char, "f"%char, h.
    subst a. destruct t; repeat split; auto.
    all: eapply str_forall_impl; [|exact Hh]; apply hex_of_lower_hex. }
  split; [exact Hv|].
  split; [unfold hasValidChecksum; now rewrite Hv|].
  split; [subst a; destruct t; cbn [append String.length]; now rewrite Hl|].
  split; [now destruct t|]. split; [now destruct t|].
  split; [now destruct t|]. split; [now destruct t|].
  split; [now destruct t|].
  unfold filecoinToEthAddress. rewrite Hm. subst a. now destruct t.
Qed.

(** X4.  What [ethAddressToFilecoin] returns, on either network.  It
    throws exactly when its argument is not [0x] and 40 hexadecimal
    characters.  Otherwise the result has 45 characters, the validator
    and [hasValidChecksum] accept it, it is classified as a delegated,
    robust address of the requested network, and
    [filecoinToEthAddress] gives the argument back in lower case. *)
Theorem ethAddressToFilecoin_result (ethAddress : string) (testnet : bool) :
  match ethAddressToFilecoin ethAddress testnet with
  | Returned a =>
      isEthAddress ethAddress = true
      /\ validateAddress a = true
      /\ hasValidChecksum a = true
      /\ String.length a = 45
      /\ isDelegatedAddress a = true
      /\ getAddressType a = Some ADDRESS_TYPES_DELEGATED
      /\ getAddressTypeName a = "Delegated (FEVM)"
      /\ isRobustAddress a = true
      /\ getNetworkFromAddress a = (if testnet then "testnet" else "mainnet")
      /\ filecoinToEthAddress a = Some (toLowerCase ethAddress)
  | Thrown m =>
      m = "Invalid Ethereum address" /\ isEthAddress ethAddress = false
  end.
Proof.
  unfold ethAddressToFilecoin, isEthAddress.
  destruct (regex_test ETH_ADDRESS ethAddress) eqn:He; cbn [negb];
    [|now split].
  apply ETH_ADDRESS_iff in He as (h & -> & Hl & Hh).
  change (slice 2 (toLowerCase ("0x" ++ h))) with (toLowerCase h).
  change (toLowerCase ("0x" ++ h)) with ("0x" ++ toLowerCase h).
  split; [reflexivity|].
  apply (delegated_address_facts testnet (toLowerCase h)).
  - now rewrite toLowerCase_hex_length.
  - now apply toLowerCase_hex.
Qed.

Lemma lower_f_or_t (p : ascii) :
  f_or_t (lower_char p) = true ->
  String (lower_char p) "" = (if Ascii.eqb "t" (lower_char p) then "t" else "f").
Proof. all_chars p. Qed.

(** X5.  The other way round: when [filecoinToEthAddress] returns an
    Ethereum address, [ethAddressToFilecoin] gives, on the network of
    the original, the original in lower case.  The original has 45
    characters; its letters may be in upper case, and only its
    lower-case form is sure to pass the validator. *)
Theorem filecoinToEthAddress_inverse (f4Address e : string) :
  filecoinToEthAddress f4Address = Some e ->
  isEthAddress e = true
  /\ String.length f4Address = 45
  /\ ethAddressToFilecoin e (isTestnetAddress (toLowerCase f4Address))
     = Returned (toLowerCase f4Address)
  /\ validateAddress (toLowerCase f4Address) = true.
Proof.
  unfold filecoinToEthAddress.
  destruct (regex_test F410_PATTERN f4Address) eqn:Hm; [|discriminate].
  cbn [negb]. intros [= <-].
  apply F410_PATTERN_iff in Hm as (p & f & h & -> & Hp & Hf & Hl & Hh).
  cbn [slice].
  assert (He : regex_test ETH_ADDRESS ("0x" ++ h) = true).
  { apply ETH_ADDRESS_iff. exists h. auto. }
  assert (Hlow : toLowerCase (String p (String "4" (String "1" (String "0"
                   (String f h)))))
                 = (if Ascii.eqb "t" (lower_char p) then "t" else "f")
                   ++ "410f" ++ toLowerCase h).
  { unfold toLowerCase. cbn [str_map].
    change (lower_char "4") with "4"%char.
    change (lower_char "1") with "1"%char.
    change (lower_char "0") with "0"%char.
    rewrite Hf.
    change (String (lower_char p) (String "4" (String "1" (String "0"
             (String "f" (str_map lower_char h))))))
      with (String (lower_char p) "" ++ "410f" ++ str_map lower_char h).
    now rewrite (lower_f_or_t p Hp). }
  rewrite Hlow.
  assert (Ht : isTestnetAddress
                 ((if Ascii.eqb "t" (lower_char p) then "t" else "f")
                  ++ "410f" ++ toLowerCase h)
               = Ascii.eqb "t" (lower_char p)).
  { now destruct (Ascii.eqb "t" (lower_char p)). }
  rewrite Ht.
  split; [exact He|]. split; [cbn [String.length]; now rewrite Hl|].
  split.
  - unfold ethAddressToFilecoin.
    change (String "0" (String "x" h)) with ("0x" ++ h).
    rewrite He. reflexivity.
  - apply (delegated_address_facts (Ascii.eqb "t" (lower_char p))
             (toLowerCase h)).
    + now rewrite toLowerCase_hex_length.
    + now apply toLowerCase_hex.
Qed.

Lemma filecoinToEthAddress_inverse_testnet :
  filecoinToEthAddress "T410F60E1773636CF5E4A227d9AC24F20fEca034ee25A"
  = Some "0x60E1773636CF5E4A227d9AC24F20fEca034ee25A"
  /\ isEthAddress "0x60E1773636CF5E4A227d9AC24F20fEca034ee25A" = true
  /\ String.length "T410F60E1773636CF5E4A227d9AC24F20fEca034ee25A" = 45
  /\ ethAddressToFilecoin "0x60E1773636CF5E4A227d9AC24F20fEca034ee25A"
       (isTestnetAddress
          (toLowerCase "T410F60E1773636CF5E4A227d9AC24F20fEca034ee25A"))
     = Returned (toLowerCase "T410F60E1773636CF5E4A227d9AC24F20fEca034ee25A")
  /\ validateAddress
       (toLowerCase "T410F60E1773636CF5E4A227d9AC24F20fEca034ee25A") = true.
Proof.
  split; [reflexivity|].
  apply (filecoinToEthAddress_inverse
           "T410F60E1773636CF5E4A227d9AC24F20fEca034ee25A"
           "0x60E1773636CF5E4A227d9AC24F20fEca034ee25A").
  reflexivity.
Defined.

(* ------------------------------------------------------------------ *)
(** * Normal form of an address *)
(* ------------------------------------------------------------------ *)

Lemma toLowerCase_idempotent (s : string) :
  toLowerCase (toLowerCase s) = toLowerCase s.
Proof.
  unfold toLowerCase. induction s as [|c s IH]; simpl; [reflexivity|].
  rewrite IH. f_equal. all_chars c.
Qed.

Lemma normalizeAddress_toLowerCase (a : string) :
  normalizeAddress a = toLowerCase a.
Proof.
  unfold normalizeAddress. destruct a as [|c a]; [reflexivity|].
  now destruct (startsWith (toLowerCase (String c a)) "0x").
Qed.

Lemma toLowerCase_concat (gs : list string) :
  toLowerCase (concat_all gs) = concat_all (map toLowerCase gs).
Proof.
  induction gs as [|g gs IH]; simpl; [reflexivity|].
  unfold toLowerCase in *. now rewrite str_map_app, IH.
Qed.

(** A pattern whose classes contain the lower-case form of each of
    their letters accepts the lower-case form of what it accepts. *)
Lemma regex_test_lower (p : pattern) (s : string) :
  Forall (fun it => forall c, cls it c = true -> cls it (lower_char c) = true)
         p ->
  regex_test p s = true -> regex_test p (toLowerCase s) = true.
Proof.
  intros Hp H. apply regex_test_iff in H as (gs & Hcut & ->).
  apply regex_test_iff. exists (map toLowerCase gs).
  split; [|apply toLowerCase_concat].
  unfold cut in *. revert Hp.
  induction Hcut as [|it g p' gs' (Hg & Hlo & Hhi) Hcut IH]; intros Hp;
    [constructor|].
  inversion Hp as [|? ? Hit Hp']; subst.
  cbn [map]. constructor; [|now apply IH].
  unfold item_ok, toLowerCase. rewrite str_map_length.
  repeat split; auto.
  clear - Hg Hit. induction g as [|c g IHg]; simpl in *; [reflexivity|].
  apply andb_true_iff in Hg as [Hc Hg]. now rewrite (Hit c Hc), IHg.
Qed.

Lemma lower_closed_lit_digit (a c : ascii) :
  is_digit a = true -> Ascii.eqb a c = true -> Ascii.eqb a (lower_char c) = true.
Proof.
  intros Ha H. apply Ascii.eqb_eq in H. subst c.
  rewrite digit_lower_char by exact Ha. apply Ascii.eqb_refl.
Qed.

Lemma lower_closed_digit (c : ascii) :
  is_digit c = true -> is_digit (lower_char c) = true.
Proof. all_chars c. Qed.

Lemma lower_closed_base32 (c : ascii) :
  base32_char c = true -> base32_char (lower_char c) = true.
Proof. all_chars c. Qed.

Lemma validateAddress_lower (a : string) :
  validateAddress a = true -> validateAddress (toLowerCase a) = true.
Proof.
  intros Hvalid.
  destruct a as [|c rest]; [discriminate|].
  destruct (f_or_t c) eqn:Hc.
  - destruct rest as [|d rest].
    { destruct (f_or_t_inv c Hc) as [-> | ->]; discriminate. }
    assert (Hlc : lower_char c = c)
      by (destruct (f_or_t_inv c Hc) as [-> | ->]; reflexivity).
    unfold toLowerCase. cbn [str_map]. rewrite Hlc.
    rewrite validateAddress_tail, parseInt_charAt_second in * by exact Hc.
    rewrite parseInt_char in Hvalid.
    destruct (is_digit d) eqn:Hd; [|discriminate].
    rewrite (digit_lower_char d Hd), parseInt_char, Hd.
    set (p := Z.of_N (digit_value d)) in *.
    destruct ((p <? 0)%Z || (4 <? p)%Z); [discriminate|].
    assert (E : String d (str_map lower_char rest)
                = toLowerCase (String d rest)).
    { unfold toLowerCase. cbn [str_map]. now rewrite digit_lower_char. }
    rewrite E, str_map_length.
    repeat match goal with
    | |- context [if ?b then _ else _] => destruct b
    end; try exact Hvalid; try discriminate.
    all: apply regex_test_lower; [|exact Hvalid].
    all: repeat constructor; cbn [cls lit plus between].
    all: intros x Hx;
      try (apply lower_closed_lit_digit; [reflexivity | exact Hx]);
      try (now apply lower_closed_digit);
      try (now apply lower_closed_base32).
  - rewrite validateAddress_other in Hvalid by exact Hc.
    apply andb_true_iff in Hvalid as [_ Heth].
    apply ETH_ADDRESS_iff in Heth as (h & Heq & Hl & Hh).
    rewrite Heq.
    change (toLowerCase ("0x" ++ h)) with ("0x" ++ toLowerCase h).
    change ("0x" ++ toLowerCase h)
      with (String "0" (String "x" (toLowerCase h))).
    rewrite validateAddress_other by reflexivity.
    apply andb_true_iff. split; [now destruct (toLowerCase h)|].
    apply ETH_ADDRESS_iff. exists (toLowerCase h).
    split; [reflexivity|]. split; [now rewrite toLowerCase_hex_length|].
    eapply str_forall_impl; [apply hex_of_lower_hex|].
    now apply toLowerCase_hex.
Qed.

(** X6.  [normalizeAddress] is the lower-case form.  Normalising twice
    is normalising once; a valid address stays valid; [addressesEqual]
    is equality of the normal forms, hence reflexive, symmetric and
    transitive, and it holds between an address and its normal form.
    It can hold between an address that is not valid and one that is. *)
Theorem normalizeAddress_laws :
  (forall a, normalizeAddress (normalizeAddress a) = normalizeAddress a)
  /\ (forall a, validateAddress a = true ->
                validateAddress (normalizeAddress a) = true)
  /\ (forall a b, addressesEqual a b = true
                  <-> normalizeAddress a = normalizeAddress b)
  /\ (forall a, addressesEqual a a = true)
  /\ (forall a b, addressesEqual a b = addressesEqual b a)
  /\ (forall a b c, addressesEqual a b = true -> addressesEqual b c = true ->
                    addressesEqual a c = true)
  /\ (forall a, addressesEqual a (normalizeAddress a) = true)
  /\ (addressesEqual "F01" "f01" = true
      /\ validateAddress "F01" = false /\ validateAddress "f01" = true).
Proof.
  assert (Heq : forall a b, addressesEqual a b = true
                            <-> normalizeAddress a = normalizeAddress b).
  { intros a b. unfold addressesEqual. apply String.eqb_eq. }
  assert (Hidem : forall a,
            normalizeAddress (normalizeAddress a) = normalizeAddress a).
  { intros a. rewrite !normalizeAddress_toLowerCase.
    apply toLowerCase_idempotent. }
  split; [exact Hidem|].
  split; [intros a H; rewrite normalizeAddress_toLowerCase;
          now apply validateAddress_lower|].
  split; [exact Heq|].
  split; [intros a; now apply Heq|].
  split; [intros a b; unfold addressesEqual; apply String.eqb_sym|].
  split; [intros a b c Hab Hbc; apply Heq; apply Heq in Hab, Hbc; congruence|].
  split; [intros a; apply Heq; now rewrite Hidem|].
  repeat split; reflexivity.
Qed.

(* ------------------------------------------------------------------ *)
(** * Short forms for display *)
(* ------------------------------------------------------------------ *)

Lemma slice_to_slice (n : nat) (s : string) : slice_to n s ++ slice n s = s.
Proof.
  unfold slice_to. revert s. induction n as [|n IH]; intros s.
  - now destruct s.
  - destruct s as [|c s]; [reflexivity|]. cbn [substring slice append].
    now rewrite IH.
Qed.

Lemma slice_to_length (n : nat) (s : string) :
  n <= String.length s -> String.length (slice_to n s) = n.
Proof.
  unfold slice_to. revert s. induction n as [|n IH]; intros s H.
  - now destruct s.
  - destruct s as [|c s]; simpl in *; [lia|]. rewrite IH; lia.
Qed.

Lemma slice_length (n : nat) (s : string) :
  String.length (slice n s) = String.length s - n.
Proof.
  revert s. induction n as [|n IH]; intros s; [simpl; lia|].
  destruct s as [|c s]; [reflexivity|]. simpl. apply IH.
Qed.

Lemma slice_slice (a b : nat) (s : string) :
  slice a (slice b s) = slice (b + a) s.
Proof.
  revert s. induction b as [|b IH]; intros s; [reflexivity|].
  destruct s as [|c s]; [now destruct a|]. simpl. apply IH.
Qed.

Lemma formatCidShort_shape (s : string) (chars : nat) :
  (String.length s <= 2 * chars + 3 -> formatCidShort s chars = s)
  /\ (2 * chars + 3 < String.length s -> 0 < chars ->
      String.length (formatCidShort s chars) = 2 * chars + 3
      /\ exists a m z,
           s = a ++ m ++ z
           /\ String.length a = chars /\ String.length z = chars
           /\ formatCidShort s chars = a ++ "..." ++ z)
  /\ (3 < String.length s -> formatCidShort s 0 = "..." ++ s).
Proof.
  unfold formatCidShort. split; [|split].
  - intros H. replace (chars * 2 + 3) with (2 * chars + 3) by lia.
    apply Nat.leb_le in H. rewrite H. now rewrite orb_true_r.
  - intros H Hpos.
    assert (Hne : is_empty s = false) by (destruct s; [simpl in H; lia | reflexivity]).
    assert (Hle : Nat.leb (String.length s) (chars * 2 + 3) = false)
      by (apply Nat.leb_gt; lia).
    rewrite Hne, Hle. cbn [orb].
    assert (Hlast : slice_last chars s = slice (String.length s - chars) s)
      by (destruct chars; [lia | reflexivity]).
    rewrite Hlast.
    assert (La : String.length (slice_to chars s) = chars)
      by (apply slice_to_length; lia).
    assert (Lz : String.length (slice (String.length s - chars) s) = chars)
      by (rewrite slice_length; lia).
    split.
    + rewrite !str_length_app, La, Lz. simpl. lia.
    + exists (slice_to chars s),
             (slice_to (String.length s - 2 * chars) (slice chars s)),
             (slice (String.length s - chars) s).
      repeat split; auto.
      replace (slice (String.length s - chars) s)
        with (slice (String.length s - 2 * chars) (slice chars s))
        by (rewrite slice_slice; f_equal; lia).
      now rewrite !slice_to_slice.
  - intros H.
    assert (Hne : is_empty s = false) by (destruct s; [simpl in H; lia | reflexivity]).
    assert (Hle : Nat.leb (String.length s) (0 * 2 + 3) = false)
      by (apply Nat.leb_gt; simpl; lia).
    rewrite Hne, Hle. now destruct s.
Qed.

(** X7.  The short form of a CID, and of an address, for a count
    [chars] of characters to keep at each end.  A text of at most
    [2 * chars + 3] characters is returned as it is.  A longer one,
    when [chars] is not zero, becomes its first [chars] characters,
    three dots and its last [chars] characters: [2 * chars + 3]
    characters.  With [chars = 0] a text of more than three characters
    is not shortened at all: it comes back whole behind the dots. *)
Theorem short_forms (s : string) (chars : nat) :
  ((String.length s <= 2 * chars + 3 -> formatCidShort s chars = s)
   /\ (2 * chars + 3 < String.length s -> 0 < chars ->
       String.length (formatCidShort s chars) = 2 * chars + 3
       /\ exists a m z,
            s = a ++ m ++ z
            /\ String.length a = chars /\ String.length z = chars
            /\ formatCidShort s chars = a ++ "..." ++ z)
   /\ (3 < String.length s -> formatCidShort s 0 = "..." ++ s))
  /\ formatAddressShort s chars = formatCidShort s chars.
Proof. split; [apply formatCidShort_shape | reflexivity]. Qed.

(* ------------------------------------------------------------------ *)
(** * CIDs: version, base and validity *)
(* ------------------------------------------------------------------ *)

Lemma startsWith_first (c x : ascii) (rest p : string) :
  startsWith (String c rest) (String x p) = true -> c = x.
Proof.
  unfold startsWith. cbn [String.prefix].
  destruct (ascii_dec x c) as [-> | _]; [reflexivity | discriminate].
Qed.

(** X8.  How the functions that classify a CID agree.  A CID that the
    validator accepts starts with [Qm], has version 0 and base
    base58btc, and is no piece CID; or it starts with [b], has version
    1, base base32 and at least 59 characters.  A piece CID has version
    1 and base base32 and is valid exactly when it has 59 characters or
    more.  The validator accepts no text that starts with [z], [f],
    [u] or [1], although the first two have version 1 and all four
    have a base.  A text without a version is not valid. *)
Theorem cid_classification (cid : string) :
  (validateCid cid = true ->
     (startsWith cid "Qm" = true /\ getCidVersion cid = Some CID_VERSIONS_V0
      /\ getCidBase cid = "base58btc" /\ isPieceCid cid = false)
     \/ (startsWith cid "b" = true /\ getCidVersion cid = Some CID_VERSIONS_V1
         /\ getCidBase cid = "base32" /\ 59 <= String.length cid))
  /\ (isPieceCid cid = true ->
        getCidVersion cid = Some CID_VERSIONS_V1
        /\ getCidBase cid = "base32"
        /\ validateCid cid = Nat.leb 59 (String.length cid))
  /\ (startsWith cid "z" = true \/ startsWith cid "f" = true
      \/ startsWith cid "u" = true \/ startsWith cid "1" = true ->
        validateCid cid = false /\ getCidBase cid <> "unknown")
  /\ (startsWith cid "z" = true \/ startsWith cid "f" = true ->
        getCidVersion cid = Some CID_VERSIONS_V1)
  /\ (getCidVersion cid = None -> validateCid cid = false)
  /\ isDataCid cid = validateCid cid.
Proof.
  rewrite validateCid_behaviour.
  destruct cid as [|c r].
  { split; [discriminate|]. split; [discriminate|].
    split; [intros [H | [H | [H | H]]]; discriminate H|].
    split; [intros [H | H]; discriminate H|].
    split; reflexivity. }
  unfold getCidVersion, getCidBase, isPieceCid, isDataCid.
  rewrite validateCid_behaviour.
  destruct (startsWith (String c r) "Qm") eqn:HQ.
  - apply startsWith_first in HQ as HcQ. subst c.
    rewrite !startsWith_char. cbn [Ascii.eqb Bool.eqb orb andb].
    split; [intros _; left; repeat split; reflexivity|].
    split; [intros H; discriminate H|].
    split; [intros H; repeat (destruct H as [H | H]; try discriminate H)|].
    split; [intros H; repeat (destruct H as [H | H]; try discriminate H)|].
    split; [discriminate | reflexivity].
  - rewrite !startsWith_char.
    destruct (Ascii.eqb_spec "b" c) as [<- | Hb].
    + cbn [Ascii.eqb Bool.eqb orb andb].
      split; [intros H; right; apply Nat.leb_le in H; repeat split; auto|].
      split; [intros _; repeat split; reflexivity|].
      split; [intros H; repeat (destruct H as [H | H]; try discriminate H)|].
      split; [intros _; reflexivity|].
      split; [discriminate | reflexivity].
    + cbn [orb].
      split; [discriminate|].
      split.
      { intros H. apply startsWith_first in H. congruence. }
      split.
      { intros H. split; [reflexivity|].
        repeat (destruct H as [H | H]); rewrite ?H; cbn [orb];
          try discriminate;
          repeat match goal with
          | |- context [if ?b then _ else _] => destruct b
          end; discriminate. }
      split.
      { intros [H | H]; rewrite H; [reflexivity | now rewrite orb_true_r]. }
      split; reflexivity.
Qed.

(* ------------------------------------------------------------------ *)
(** * The predicates of constants/addresses.ts *)
(* ------------------------------------------------------------------ *)

Lemma parseInt_digits (ds : string) :
  ds <> "" -> str_forall is_digit ds = true ->
  parseInt ds = Some (Z.of_N (digits_value 0 ds)).
Proof.
  intros Hne Hds. destruct ds as [|c ds]; [congruence|].
  pose proof Hds as Hc. simpl in Hc. apply andb_true_iff in Hc as [Hc _].
  unfold parseInt.
  rewrite trimStart_id by (now apply digit_not_space).
  rewrite any_sign_digit by exact Hc.
  rewrite span_digits by exact Hds. reflexivity.
Qed.

Lemma isDelegatedAddress_chars (c d : ascii) (r : string) :
  isDelegatedAddress (String c (String d r))
  = (Ascii.eqb c "f" || Ascii.eqb c "t") && Ascii.eqb d "4".
Proof.
  unfold isDelegatedAddress, slice_to.
  replace (substring 0 2 (String c (String d r))) with (String c (String d ""))
    by now destruct r.
  cbn [String.eqb].
  destruct (Ascii.eqb c "f"), (Ascii.eqb c "t"), (Ascii.eqb d "4"); reflexivity.
Qed.

Lemma protocol_four (d : ascii) :
  match parseInt (String d "") with
  | None => None
  | Some protocol =>
      if (protocol <? 0)%Z || (4 <? protocol)%Z then None else Some protocol
  end = Some ADDRESS_TYPES_DELEGATED
  <-> Ascii.eqb d "4" = true.
Proof. all_chars d; split; intros H; discriminate H. Qed.

(** A delegated address is one of protocol 4. *)
Lemma address_delegated_iff (address : string) :
  isDelegatedAddress address = true
  <-> getAddressType address = Some ADDRESS_TYPES_DELEGATED.
Proof.
  destruct address as [|c [|d r]].
  - split; discriminate.
  - unfold isDelegatedAddress, slice_to, getAddressType.
    cbn [substring String.eqb String.length Nat.ltb Nat.leb].
    destruct (Ascii.eqb c "f"), (Ascii.eqb c "t"); split; discriminate.
  - rewrite isDelegatedAddress_chars.
    destruct (f_or_t c) eqn:Hc.
    + rewrite getAddressType_tail by exact Hc.
      unfold f_or_t in Hc. rewrite Hc. cbn [andb]. symmetry.
      apply protocol_four.
    + rewrite getAddressType_other by exact Hc.
      unfold f_or_t in Hc. rewrite Hc. split; discriminate.
Qed.

(** X9.  The predicates agree with the classifier and the validator.
    [isDelegatedAddress] holds exactly for the addresses of protocol 4.
    [isIdAddress] holds exactly when [extractIdFromAddress] returns an
    id, which is then not negative, and exactly for the valid addresses
    of protocol 0.  [isEthAddress] holds exactly for the valid
    addresses that start with [0x].  No address is on both networks. *)
Theorem address_predicates (address : string) :
  (isDelegatedAddress address = true
   <-> getAddressType address = Some ADDRESS_TYPES_DELEGATED)
  /\ (isIdAddress address = true
      <-> exists v, extractIdFromAddress address = Some v
                    /\ Number.ge_int v 0 = true)
  /\ (isIdAddress address = true
      <-> validateAddress address = true
          /\ getAddressType address = Some ADDRESS_TYPES_ID)
  /\ (isEthAddress address = true
      <-> validateAddress address = true /\ startsWith address "0x" = true)
  /\ isMainnetAddress address && isTestnetAddress address = false.
Proof.
  split; [|split; [|split; [|split]]].
  - apply address_delegated_iff.
  - unfold isIdAddress, extractIdFromAddress. split.
    + intros H. rewrite H. cbn [negb].
      apply ID_ADDRESS_iff in H as (c & ds & -> & Hc & Hne & Hds).
      cbn [slice]. rewrite parseInt_digits by assumption.
      eexists. split; [reflexivity | apply of_bigint_not_negative].
    + intros (v & H & _).
      destruct (regex_test ID_ADDRESS address); [reflexivity | discriminate].
  - unfold isIdAddress. split.
    + intros H. pose proof H as H'.
      apply ID_ADDRESS_iff in H' as (c & ds & -> & Hc & Hne & Hds).
      rewrite validateAddress_tail, getAddressType_tail by exact Hc.
      rewrite parseInt_charAt_second.
      change (parseInt "0") with (Some 0%Z). cbn [Z.ltb Z.compare orb Z.eqb ADDRESS_TYPES_ID].
      unfold ID_ADDRESS in H. rewrite regex_test_one, Hc in H. auto.
    + intros [Hv Ht].
      destruct address as [|c [|d r]]; try discriminate.
      destruct (f_or_t c) eqn:Hc.
      * rewrite validateAddress_tail, parseInt_charAt_second in Hv by exact Hc.
        rewrite getAddressType_tail in Ht by exact Hc.
        destruct (parseInt (String d "")) as [p|]; [|discriminate].
        destruct ((p <? 0)%Z || (4 <? p)%Z); [discriminate|].
        injection Ht as ->. cbn [Z.eqb ADDRESS_TYPES_ID] in Hv.
        unfold ID_ADDRESS. now rewrite regex_test_one, Hc.
      * rewrite getAddressType_other in Ht by exact Hc. discriminate.
  - unfold isEthAddress. split.
    + intros H. pose proof H as H'.
      apply ETH_ADDRESS_iff in H' as (h & -> & _).
      change ("0x" ++ h) with (String "0" (String "x" h)) in *.
      rewrite validateAddress_other by reflexivity.
      assert (Hs : startsWith (String "0" (String "x" h)) "0x" = true)
        by now destruct h.
      rewrite Hs, H. auto.
    + intros [Hv Hs].
      unfold validateAddress in Hv.
      destruct address; [discriminate|]. now rewrite Hs in Hv.
  - unfold isMainnetAddress, isTestnetAddress.
    destruct address as [|c r]; [reflexivity|].
    rewrite !startsWith_char.
    destruct (Ascii.eqb_spec "f" c) as [<- | _]; reflexivity.
Qed.

(* ------------------------------------------------------------------ *)
(** * Piece sizes *)
(* ------------------------------------------------------------------ *)

(** The test [(size & (size - 1)) === 0] on a positive integer: no bit
    is shared with the number before exactly when one bit is set. *)
Lemma land_pred_pow2 (n : Z) :
  (0 < n)%Z ->
  (Z.land n (n - 1) = 0 <-> exists k, 0 <= k /\ n = 2 ^ k)%Z.
Proof.
  intros Hn. split.
  - intros Hland. exists (Z.log2 n).
    pose proof (Z.log2_nonneg n) as Hk.
    split; [exact Hk|].
    destruct (Z.log2_spec n Hn) as [Hlo Hhi].
    destruct (Z.eq_dec n (2 ^ Z.log2 n)) as [Heq | Hne]; [exact Heq|].
    exfalso.
    assert (Hpred : Z.log2 (n - 1) = Z.log2 n).
    { apply Z.log2_unique; [exact Hk | lia]. }
    assert (B1 : Z.testbit n (Z.log2 n) = true) by now apply Z.bit_log2.
    assert (B2 : Z.testbit (n - 1) (Z.log2 n) = true).
    { rewrite <- Hpred. apply Z.bit_log2. lia. }
    assert (B : Z.testbit (Z.land n (n - 1)) (Z.log2 n) = true)
      by now rewrite Z.land_spec, B1, B2.
    rewrite Hland, Z.bits_0 in B. discriminate.
  - intros (k & Hk & ->).
    replace (2 ^ k - 1)%Z with (Z.ones k) by (rewrite Z.ones_equiv; lia).
    rewrite Z.land_ones by exact Hk. apply Z.mod_same.
    apply Z.pow_nonzero; lia.
Qed.

Lemma validatePieceSize_iff (size : Z) :
  validatePieceSize size = true
  <-> exists k, (8 <= k <= 36 /\ size = 2 ^ k)%Z.
Proof.
  unfold validatePieceSize.
  change (64 * 1024 * 1024 * 1024)%Z with (2 ^ 36)%Z.
  change 256%Z with (2 ^ 8)%Z.
  destruct (Z.ltb_spec size (2 ^ 8)) as [Hlo | Hlo].
  { split; [discriminate|]. intros (k & Hk & ->).
    apply Z.pow_lt_mono_r_iff in Hlo; lia. }
  destruct (Z.ltb_spec (2 ^ 36) size) as [Hhi | Hhi].
  { split; [discriminate|]. intros (k & Hk & ->).
    apply Z.pow_lt_mono_r_iff in Hhi; lia. }
  cbn [orb]. rewrite Z.eqb_eq.
  assert (Hpos : (0 < size)%Z) by (change (2 ^ 8)%Z with 256%Z in Hlo; lia).
  rewrite (land_pred_pow2 size Hpos). split.
  - intros (k & Hk & ->). exists k. split; [|reflexivity].
    apply Z.pow_le_mono_r_iff in Hlo; try lia.
    apply Z.pow_le_mono_r_iff in Hhi; lia.
  - intros (k & Hk & ->). exists k. split; [lia | reflexivity].
Qed.

(** X10.  [validatePieceSize] accepts exactly the powers of two from
    2^8 = 256 to 2^36 = 64 GiB; zero, the negative numbers and every
    number with two bits set are refused. *)
Theorem validatePieceSize_powers_of_two (size : Z) :
  (validatePieceSize size = true
   <-> exists k, (8 <= k <= 36 /\ size = 2 ^ k)%Z)
  /\ ((size <= 0)%Z -> validatePieceSize size = false)
  /\ (forall i j, (0 <= i < j)%Z -> validatePieceSize (2 ^ i + 2 ^ j) = false).
Proof.
  split; [apply validatePieceSize_iff|]. split.
  - intros H. unfold validatePieceSize.
    destruct (Z.ltb_spec size 256); [reflexivity | lia].
  - intros i j Hij.
    destruct (validatePieceSize (2 ^ i + 2 ^ j)) eqn:Hv; [|reflexivity].
    exfalso. apply validatePieceSize_iff in Hv as (k & Hk & Heq).
    assert (Hi : (0 < 2 ^ i)%Z) by (apply Z.pow_pos_nonneg; lia).
    assert (Hjk : (j < k)%Z).
    { apply (Z.pow_lt_mono_r_iff 2); lia. }
    assert (Hle : (2 ^ (j + 1) <= 2 ^ k)%Z) by (apply Z.pow_le_mono_r; lia).
    rewrite Z.pow_add_r in Hle by lia.
    assert (Hlt : (2 ^ i < 2 ^ j)%Z) by (apply Z.pow_lt_mono_r; lia).
    lia.
Qed.

(** The exponent of the padded size. *)
Lemma padded_size_exponent (n : Z) :
  exists k, (8 <= k)%Z
    /\ calculatePaddedPieceSize n = (2 ^ k)%Z
    /\ (n <= 2 ^ k)%Z
    /\ (k = 8 \/ 2 ^ (k - 1) < n)%Z.
Proof.
  unfold calculatePaddedPieceSize.
  destruct (Z.leb_spec n 0) as [Hn | Hn].
  { exists 8%Z. repeat split; auto; lia. }
  destruct (double_until_spec 1 n eq_refl 0 ltac:(lia) eq_refl)
    as (k & Hk & Hr & Hge & Hlt).
  cbv zeta. rewrite Hr.
  destruct (Z.ltb_spec (2 ^ k) 256) as [Hsmall | Hbig].
  { exists 8%Z. repeat split; auto; lia. }
  assert (Hk8 : (8 <= k)%Z).
  { destruct (Z.le_gt_cases 8 k) as [?|Hlt8]; [assumption|].
    exfalso. assert (2 ^ k <= 2 ^ 7)%Z by (apply Z.pow_le_mono_r; lia).
    change (2 ^ 7)%Z with 128%Z in *. lia. }
  exists k. repeat split; auto.
  destruct Hlt as [-> | Hlt]; [lia | now right].
Qed.

(** X11.  The padded size of a piece passes [validatePieceSize]
    exactly when the data has at most 64 GiB.  Padding a padded size
    changes nothing, and padding is monotone. *)
Theorem padded_size_is_valid (n : Z) :
  (validatePieceSize (calculatePaddedPieceSize n) = true
   <-> (n <= 64 * 1024 * 1024 * 1024)%Z)
  /\ calculatePaddedPieceSize (calculatePaddedPieceSize n)
     = calculatePaddedPieceSize n
  /\ (forall m, (n <= m)%Z ->
        (calculatePaddedPieceSize n <= calculatePaddedPieceSize m)%Z).
Proof.
  assert (Mono2 : forall a b, (0 <= a)%Z -> (0 <= b)%Z ->
                    (2 ^ a <= 2 ^ b)%Z -> (a <= b)%Z).
  { intros a b Ha Hb H. apply Z.pow_le_mono_r_iff in H; lia. }
  assert (Half : forall k, (1 <= k)%Z -> (2 ^ k = 2 * 2 ^ (k - 1))%Z).
  { intros k Hk. replace k with (Z.succ (k - 1)) at 1 by lia.
    apply Z.pow_succ_r. lia. }
  destruct (padded_size_exponent n) as (k & Hk & Hr & Hge & Hmin).
  split; [|split].
  - rewrite validatePieceSize_iff, Hr.
    change (64 * 1024 * 1024 * 1024)%Z with (2 ^ 36)%Z. split.
    + intros (k' & Hk' & Heq).
      assert (k = k') by (apply (Z.pow_inj_r 2); lia). subst k'.
      apply Z.le_trans with (2 ^ k)%Z; [exact Hge|].
      apply Z.pow_le_mono_r; lia.
    + intros Hn. exists k. split; [|reflexivity]. split; [exact Hk|].
      destruct Hmin as [-> | Hmin]; [lia|].
      assert (H : (2 ^ (k - 1) < 2 ^ 36)%Z) by lia.
      apply Z.pow_lt_mono_r_iff in H; lia.
  - destruct (padded_size_exponent (calculatePaddedPieceSize n))
      as (k' & Hk' & Hr' & Hge' & Hmin').
    rewrite Hr'. rewrite Hr in Hge', Hmin' |- *.
    f_equal. apply Z.le_antisymm.
    + destruct Hmin' as [-> | Hmin']; [exact Hk|].
      assert (H : (2 ^ (k' - 1) < 2 ^ k)%Z) by exact Hmin'.
      apply Z.pow_lt_mono_r_iff in H; lia.
    + now apply Mono2; try lia.
  - intros m Hnm.
    destruct (padded_size_exponent m) as (k' & Hk' & Hr' & Hge' & Hmin').
    rewrite Hr, Hr'. apply Z.pow_le_mono_r; [lia|].
    destruct Hmin as [-> | Hmin]; [exact Hk'|].
    assert (H : (2 ^ (k - 1) < 2 ^ k')%Z) by lia.
    apply Z.pow_lt_mono_r_iff in H; lia.
Qed.

(* ------------------------------------------------------------------ *)
(** * Splitting and searching *)
(* ------------------------------------------------------------------ *)

Lemma prefix_refl_app (p b : string) : String.prefix p (p ++ b) = true.
Proof. apply prefix_app. Qed.

(** A prefix that fits in the first part of a text is a prefix of that
    part. *)
Lemma prefix_app_long (p a b : string) :
  String.length p <= String.length a ->
  String.prefix p (a ++ b) = String.prefix p a.
Proof.
  revert a. induction p as [|x p IH]; intros a H.
  - destruct a; simpl; [now destruct b | reflexivity].
  - destruct a as [|c a]; [simpl in H; lia|].
    simpl. destruct (ascii_dec x c); [|reflexivity].
    apply IH. simpl in H. lia.
Qed.

Lemma includes_prefix (s p : string) :
  includes s p = false -> String.prefix p s = false.
Proof.
  destruct s; simpl; intros H; apply orb_false_iff in H as [H _]; exact H.
Qed.

Lemma includes_tail (c : ascii) (s p : string) :
  includes (String c s) p = false -> includes s p = false.
Proof. simpl. intros H. apply orb_false_iff in H as [_ H]. exact H. Qed.

Lemma includes_of_prefix (s p : string) :
  String.prefix p s = true -> includes s p = true.
Proof. destruct s; simpl; intros ->; reflexivity. Qed.

Lemma includes_middle (a p b : string) : includes (a ++ p ++ b) p = true.
Proof.
  induction a as [|c a IH].
  - change ("" ++ p ++ b) with (p ++ b).
    apply includes_of_prefix, prefix_app.
  - cbn [append includes]. rewrite IH. apply orb_true_r.
Qed.

(** A text that has no character of the class of [x] holds no text that
    starts with [x]. *)
Lemma includes_first_char (q : ascii -> bool) (s : string) (x : ascii)
    (p : string) :
  str_forall q s = true -> q x = false -> includes s (String x p) = false.
Proof.
  intros Hs Hx. induction s as [|c s IH]; [reflexivity|].
  simpl in Hs. apply andb_true_iff in Hs as [Hc Hs].
  cbn [includes String.prefix].
  destruct (ascii_dec x c) as [-> | _]; [congruence|].
  now apply IH.
Qed.

Lemma prefix_forall (q : ascii -> bool) (p s : string) :
  String.prefix p s = true -> str_forall q s = true -> str_forall q p = true.
Proof.
  revert s. induction p as [|x p IH]; intros s Hp Hs; [reflexivity|].
  destruct s as [|c s]; [discriminate|]. simpl in *.
  destruct (ascii_dec x c) as [-> | _]; [|discriminate].
  apply andb_true_iff in Hs as [Hc Hs]. rewrite Hc. simpl. eapply IH; eauto.
Qed.

(** A text whose characters are all of one class holds no text that
    has a character outside the class. *)
Lemma includes_other_class (q : ascii -> bool) (s p : string) :
  str_forall q s = true -> str_forall q p = false -> includes s p = false.
Proof.
  intros Hs Hp. induction s as [|c s IH].
  - destruct p; [discriminate | reflexivity].
  - cbn [includes].
    destruct (String.prefix p (String c s)) eqn:E.
    + rewrite (prefix_forall q p _ E Hs) in Hp. discriminate.
    + simpl in Hs. apply andb_true_iff in Hs as [_ Hs]. now apply IH.
Qed.

Section Split.

(** The separator is [init], then the character [final]. *)
Variable init : string.
Variable final : ascii.

Lemma split_from_skip (a cur rest : string) :
  split_from (init ++ String final "") (String.length a) cur (a ++ rest)
  = split_from (init ++ String final "") 0 cur rest.
Proof. induction a as [|c a IH]; [reflexivity | exact IH]. Qed.

(** No occurrence of the separator: one piece. *)
Lemma split_from_none (s : string) :
  forall cur,
    includes s (init ++ String final "") = false ->
    split_from (init ++ String final "") 0 cur s = [cur ++ s].
Proof.
  induction s as [|c s IH]; intros cur H.
  - simpl. now rewrite str_app_empty_r.
  - cbn [split_from]. rewrite (includes_prefix _ _ H).
    rewrite IH by (eapply includes_tail; exact H).
    now rewrite str_app_assoc.
Qed.

(** The first occurrence of the separator ends the first piece. *)
Lemma split_from_first (g rest : string) :
  forall cur,
    includes (g ++ init) (init ++ String final "") = false ->
    split_from (init ++ String final "") 0 cur
      (g ++ (init ++ String final "") ++ rest)
    = (cur ++ g) :: split_from (init ++ String final "") 0 "" rest.
Proof.
  set (sep := init ++ String final "").
  assert (Lsep : String.length sep = S (String.length init)).
  { unfold sep. rewrite str_length_app. simpl. lia. }
  induction g as [|c g IH]; intros cur H.
  - cbn [append]. rewrite str_app_empty_r.
    assert (Hs' : exists x a, String.length a = String.length sep - 1
                              /\ sep ++ rest = String x (a ++ rest)).
    { unfold sep. destruct init as [|i init'].
      - exists final, "". split; reflexivity.
      - exists i, (init' ++ String final ""). split.
        + rewrite !str_length_app. simpl. lia.
        + simpl. now rewrite str_app_assoc. }
    destruct Hs' as (x & a & Ha & E).
    pose proof (prefix_app sep rest) as Hp. rewrite E in Hp |- *.
    cbn [split_from]. rewrite Hp. f_equal.
    rewrite <- Ha. apply split_from_skip.
  - cbn [append split_from].
    assert (Hp : String.prefix sep (String c (g ++ sep ++ rest)) = false).
    { apply includes_prefix in H.
      change (String c (g ++ sep ++ rest)) with ((String c g) ++ sep ++ rest).
      unfold sep at 2. rewrite (str_app_assoc init), <- (str_app_assoc (String c g)).
      rewrite prefix_app_long; [exact H|].
      rewrite Lsep, str_length_app. simpl. lia. }
    rewrite Hp, IH by (eapply includes_tail; exact H).
    now rewrite str_app_assoc.
Qed.

End Split.

Lemma run_item_one (p : ascii -> bool) (k : string -> option (list string))
    (c : ascii) (s : string) :
  run_item (Item p 1 (Some 1)) k 0 "" (String c s)
  = if p c then
      match k s with
      | Some gs => Some (String c "" :: gs)
      | None => None
      end
    else None.
Proof.
  cbn [run_item lo hi cls below Nat.leb Nat.ltb].
  destruct (p c); [|reflexivity]. cbn [andb].
  destruct s as [|d s]; cbn [run_item lo hi cls below Nat.leb Nat.ltb andb
                             append];
    destruct (k _); reflexivity.
Qed.

(** The pattern of [parseCid] at the start of a text. *)
Lemma ipfs_path_here (t : string) :
  regex_exec_open IPFS_PATH_PATTERN ("/ipfs/" ++ t)
  = match run_item (plus is_alnum) (fun _ => Some []) 0 "" t with
    | Some gs => Some ("/" :: "i" :: "p" :: "f" :: "s" :: "/" :: gs)
    | None => None
    end.
Proof.
  unfold IPFS_PATH_PATTERN. cbn [append regex_exec_open].
  unfold lit. repeat (rewrite run_item_one; cbv beta).
  cbn [Ascii.eqb Bool.eqb].
  destruct (run_item (plus is_alnum) _ 0 "" t); reflexivity.
Qed.

Lemma ipfs_path_not_here (s : string) :
  String.prefix "/ipfs/" s = false ->
  regex_exec_open IPFS_PATH_PATTERN s = None.
Proof.
  unfold IPFS_PATH_PATTERN, lit. cbn [regex_exec_open].
  intros H.
  repeat match goal with
  | |- run_item (Item _ 1 (Some 1)) _ 0 "" ?s = None =>
      destruct s as [|? ?]; [reflexivity|]; rewrite run_item_one; cbv beta
  | |- (if Ascii.eqb ?a ?c then _ else _) = None =>
      destruct (Ascii.eqb_spec a c) as [<- | ?]; [|reflexivity]
  | |- match ?k ?s with Some _ => _ | None => _ end = None =>
      let E := fresh "E" in
      enough (E : k s = None) by (now rewrite E)
  end.
  exfalso. cbn in H. destruct s; discriminate H.
Qed.

(* ------------------------------------------------------------------ *)
(** * CIDs in gateway links *)
(* ------------------------------------------------------------------ *)

Lemma trimStart_app (a b : string) :
  match b with String x _ => is_space x = false | EmptyString => False end ->
  trimStart (a ++ b) = trimStart a ++ b.
Proof.
  intros Hb. induction a as [|c a IH].
  - destruct b as [|x b]; [contradiction|]. simpl. now rewrite Hb.
  - cbn [append trimStart]. destruct (is_space c); [exact IH | reflexivity].
Qed.

Lemma trimEnd_app (a b : string) :
  b <> "" -> str_forall (fun c => negb (is_space c)) b = true ->
  trimEnd (a ++ b) = a ++ b.
Proof.
  intros Hne Hb. induction a as [|c a IH].
  - now apply trimEnd_id.
  - cbn [append trimEnd]. rewrite IH.
    destruct (a ++ b) eqn:E; [|reflexivity].
    destruct a; [simpl in E; congruence | discriminate].
Qed.

Lemma includes_trimStart (a b p : string) :
  includes (a ++ b) p = false -> includes (trimStart a ++ b) p = false.
Proof.
  induction a as [|c a IH]; intros H; [exact H|].
  cbn [trimStart]. destruct (is_space c); [|exact H].
  apply IH. eapply includes_tail. exact H.
Qed.

Lemma alnum_not_space (c : ascii) :
  is_alnum c = true -> negb (is_space c) = true.
Proof. all_chars c. Qed.

Lemma regex_match_ipfs (g cid : string) :
  cid <> "" -> str_forall is_alnum cid = true ->
  includes (g ++ "/ipfs") "/ipfs/" = false ->
  regex_match IPFS_PATH_PATTERN (g ++ "/ipfs/" ++ cid)
  = Some ["/"; "i"; "p"; "f"; "s"; "/"; cid].
Proof.
  intros Hne Hcid. induction g as [|c g IH]; intros H.
  - change ("" ++ "/ipfs/" ++ cid) with ("/ipfs/" ++ cid).
    assert (Hhere : regex_exec_open IPFS_PATH_PATTERN ("/ipfs/" ++ cid)
                    = Some ["/"; "i"; "p"; "f"; "s"; "/"; cid]).
    { rewrite ipfs_path_here.
      pose proof (run_item_greedy (plus is_alnum) (fun _ => Some []) cid ""
                    [] eq_refl I eq_refl 0 "" Hcid) as Hrun.
      rewrite str_app_empty_r in Hrun. rewrite Hrun; [reflexivity|].
      destruct cid; [congruence | simpl; lia]. }
    change ("/ipfs/" ++ cid)
      with (String "/" (String "i" (String "p" (String "f" (String "s"
              (String "/" cid)))))) in *.
    cbn [regex_match]. now rewrite Hhere.
  - assert (Hp : String.prefix "/ipfs/" (String c g ++ "/ipfs/" ++ cid) = false).
    { apply includes_prefix in H.
      change ("/ipfs/" ++ cid) with ("/ipfs" ++ String "/" cid).
      rewrite <- str_app_assoc, prefix_app_long; [exact H|].
      rewrite str_length_app. simpl. lia. }
    cbn [append regex_match] in *.
    rewrite (ipfs_path_not_here _ Hp).
    apply IH. eapply includes_tail. exact H.
Qed.

Lemma parseCid_link (g cid : string) :
  cid <> "" -> str_forall is_alnum cid = true ->
  includes (g ++ "/ipfs") "/ipfs/" = false ->
  parseCid (g ++ "/ipfs/" ++ cid)
  = Parsed.Make cid (validateCid cid) (getCidVersion cid).
Proof.
  intros Hne Hcid Hg.
  assert (Hns : str_forall (fun c => negb (is_space c)) cid = true).
  { eapply str_forall_impl; [|exact Hcid]. apply alnum_not_space. }
  assert (Htrim : trim (g ++ "/ipfs/" ++ cid) = trimStart g ++ "/ipfs/" ++ cid).
  { unfold trim. rewrite trimStart_app by reflexivity.
    rewrite <- str_app_assoc, trimEnd_app by assumption.
    reflexivity. }
  pose proof (includes_trimStart g "/ipfs" "/ipfs/" Hg) as Hg'.
  set (g' := trimStart g) in *.
  assert (Hslash : includes cid "/" = false).
  { apply (includes_first_char is_alnum); [exact Hcid | reflexivity]. }
  assert (Hipfs : includes cid "/ipfs/" = false).
  { apply (includes_first_char is_alnum); [exact Hcid | reflexivity]. }
  assert (Hsplit : split (g' ++ "/ipfs/" ++ cid) "/ipfs/" = [g'; cid]).
  { unfold split.
    pose proof (split_from_first "/ipfs" "/" g' cid "" Hg') as H1.
    pose proof (split_from_none "/ipfs" "/" cid "" Hipfs) as H2.
    cbn [append] in H1, H2 |- *. rewrite H1, H2. reflexivity. }
  assert (Hfirst : split cid "/" = [cid]).
  { unfold split. exact (split_from_none "" "/" cid "" Hslash). }
  unfold parseCid. rewrite Htrim.
  rewrite includes_middle, Hsplit.
  cbn [last]. rewrite Hfirst. cbn [hd].
  rewrite (regex_match_ipfs g' cid Hne Hcid Hg'). cbn [nth].
  destruct (includes (g' ++ "/ipfs/" ++ cid) "dweb.link"); reflexivity.
Qed.

(** A CID on its own is read as it is. *)
Lemma parseCid_bare (cid : string) :
  str_forall is_alnum cid = true ->
  parseCid cid = Parsed.Make cid (validateCid cid) (getCidVersion cid).
Proof.
  intros Hcid.
  assert (Hns : str_forall (fun c => negb (is_space c)) cid = true).
  { eapply str_forall_impl; [|exact Hcid]. apply alnum_not_space. }
  assert (Htrim : trim cid = cid).
  { unfold trim. rewrite trimStart_id.
    - now apply trimEnd_id.
    - destruct cid as [|c r]; [exact I|]. simpl in Hns.
      apply andb_true_iff in Hns as [Hc _]. now apply negb_true_iff. }
  unfold parseCid. rewrite Htrim.
  rewrite (includes_other_class is_alnum cid "/ipfs/" Hcid eq_refl).
  rewrite (includes_other_class is_alnum cid "dweb.link" Hcid eq_refl).
  reflexivity.
Qed.

Lemma includes_skip_class (q : ascii -> bool) (a b : string) (x : ascii)
    (p : string) :
  str_forall q a = true -> q x = false ->
  includes (a ++ b) (String x p) = includes b (String x p).
Proof.
  intros Ha Hx. induction a as [|c a IH]; [reflexivity|].
  simpl in Ha. apply andb_true_iff in Ha as [Hc Ha].
  cbn [append includes String.prefix].
  destruct (ascii_dec x c) as [-> | _]; [congruence|].
  now apply IH.
Qed.

Lemma trimEnd_keep (a b : string) :
  b <> "" -> str_forall (fun c => negb (is_space c)) b = true ->
  trimEnd (a ++ b) = a ++ b.
Proof. apply trimEnd_app. Qed.

(** A link with a path behind the CID. *)
Lemma parseCid_link_path (g cid path : string) :
  cid <> "" -> str_forall is_alnum cid = true ->
  includes (g ++ "/ipfs") "/ipfs/" = false ->
  str_forall (fun c => negb (is_space c)) path = true ->
  includes ("/" ++ path) "/ipfs/" = false ->
  parseCid (g ++ "/ipfs/" ++ cid ++ "/" ++ path)
  = Parsed.Make cid (validateCid cid) (getCidVersion cid).
Proof.
  intros Hne Hcid Hg Hpath Hnone.
  set (tail := "/" ++ path) in *.
  assert (Htail : str_forall (fun c => negb (is_space c)) (cid ++ tail) = true).
  { rewrite str_forall_app. apply andb_true_iff. split.
    - eapply str_forall_impl; [|exact Hcid]. apply alnum_not_space.
    - exact Hpath. }
  assert (Htrim : trim (g ++ "/ipfs/" ++ cid ++ tail)
                  = trimStart g ++ "/ipfs/" ++ cid ++ tail).
  { unfold trim. rewrite trimStart_app by reflexivity.
    rewrite <- str_app_assoc, trimEnd_app; [reflexivity | | exact Htail].
    destruct cid; [congruence | discriminate]. }
  pose proof (includes_trimStart g "/ipfs" "/ipfs/" Hg) as Hg'.
  set (g' := trimStart g) in *.
  assert (Hipfs : includes (cid ++ tail) "/ipfs/" = false).
  { rewrite (includes_skip_class is_alnum) by (assumption || reflexivity).
    exact Hnone. }
  assert (Hsplit : split (g' ++ "/ipfs/" ++ cid ++ tail) "/ipfs/"
                   = [g'; cid ++ tail]).
  { unfold split.
    pose proof (split_from_first "/ipfs" "/" g' (cid ++ tail) "" Hg') as H1.
    pose proof (split_from_none "/ipfs" "/" (cid ++ tail) "" Hipfs) as H2.
    cbn [append] in H1, H2 |- *. rewrite H1, H2. reflexivity. }
  assert (Hfirst : hd "" (split (cid ++ tail) "/") = cid).
  { unfold split, tail.
    pose proof (split_from_first "" "/" cid path "") as H1.
    cbn [append] in H1 |- *. rewrite H1; [reflexivity|].
    rewrite str_app_empty_r.
    apply (includes_first_char is_alnum); [exact Hcid | reflexivity]. }
  assert (Hmatch : regex_match IPFS_PATH_PATTERN (g' ++ "/ipfs/" ++ cid ++ tail)
                   = Some ["/"; "i"; "p"; "f"; "s"; "/"; cid]).
  { clear - Hne Hcid Hg'. unfold tail. induction g' as [|c g' IH].
    - change ("" ++ "/ipfs/" ++ cid ++ "/" ++ path)
        with ("/ipfs/" ++ cid ++ "/" ++ path).
      assert (Hhere : regex_exec_open IPFS_PATH_PATTERN
                        ("/ipfs/" ++ cid ++ "/" ++ path)
                      = Some ["/"; "i"; "p"; "f"; "s"; "/"; cid]).
      { rewrite ipfs_path_here.
        rewrite (run_item_greedy (plus is_alnum) (fun _ => Some []) cid
                   ("/" ++ path) [] eq_refl eq_refl eq_refl 0 "" Hcid);
          [reflexivity|].
        destruct cid; [congruence | simpl; lia]. }
      change ("/ipfs/" ++ cid ++ "/" ++ path)
        with (String "/" (String "i" (String "p" (String "f" (String "s"
                (String "/" (cid ++ "/" ++ path))))))) in *.
      cbn [regex_match]. now rewrite Hhere.
    - assert (Hp : String.prefix "/ipfs/"
                     (String c g' ++ "/ipfs/" ++ cid ++ "/" ++ path) = false).
      { apply includes_prefix in Hg'.
        change ("/ipfs/" ++ cid ++ "/" ++ path)
          with ("/ipfs" ++ String "/" (cid ++ "/" ++ path)).
        rewrite <- str_app_assoc, prefix_app_long; [exact Hg'|].
        rewrite str_length_app. simpl. lia. }
      cbn [append regex_match] in *.
      rewrite (ipfs_path_not_here _ Hp).
      apply IH. eapply includes_tail. exact Hg'. }
  unfold parseCid. rewrite Htrim.
  rewrite includes_middle, Hsplit.
  cbn [last]. rewrite Hfirst, Hmatch. cbn [nth].
  destruct (includes (g' ++ "/ipfs/" ++ cid ++ tail) "dweb.link"); reflexivity.
Qed.

(** X12.  [parseCid] finds the CID again in the link that
    [getIpfsGatewayLink] builds for it, whatever the gateway, as long
    as [/ipfs/] does not already occur in the gateway's address
    followed by [/ipfs]; the CID is any text of letters and digits that
    is not empty.  A path behind the CID is left out.  The default
    gateway qualifies, and so does a CID on its own.  The result
    reports what [validateCid] and [getCidVersion] say about the
    CID. *)
Theorem parseCid_gateway_link (cid gateway : string) :
  cid <> "" -> str_forall is_alnum cid = true ->
  includes (gateway ++ "/ipfs") "/ipfs/" = false ->
  parseCid (getIpfsGatewayLink cid gateway)
  = Parsed.Make cid (validateCid cid) (getCidVersion cid)
  /\ (forall path,
        str_forall (fun c => negb (is_space c)) path = true ->
        includes ("/" ++ path) "/ipfs/" = false ->
        parseCid (getIpfsGatewayLink cid gateway ++ "/" ++ path)
        = Parsed.Make cid (validateCid cid) (getCidVersion cid))
  /\ parseCid (getIpfsGatewayLink cid default_gateway)
     = Parsed.Make cid (validateCid cid) (getCidVersion cid)
  /\ parseCid cid = Parsed.Make cid (validateCid cid) (getCidVersion cid).
Proof.
  intros Hne Hcid Hg. unfold getIpfsGatewayLink.
  split; [now apply parseCid_link|].
  split.
  - intros path Hpath Hnone.
    rewrite !str_app_assoc. now apply parseCid_link_path.
  - split; [now apply parseCid_link | now apply parseCid_bare].
Qed.

Lemma parseCid_gateway_link_sample :
  "bafybeigdyrzt5sfp7udm7hu76uh7y26nf3efuylqabf3oclgtqy55fbzdi" <> ""
  /\ str_forall is_alnum
       "bafybeigdyrzt5sfp7udm7hu76uh7y26nf3efuylqabf3oclgtqy55fbzdi" = true
  /\ includes ("https://ipfs.io" ++ "/ipfs") "/ipfs/" = false
  /\ (parseCid
        (getIpfsGatewayLink
           "bafybeigdyrzt5sfp7udm7hu76uh7y26nf3efuylqabf3oclgtqy55fbzdi"
           "https://ipfs.io")
      = Parsed.Make
          "bafybeigdyrzt5sfp7udm7hu76uh7y26nf3efuylqabf3oclgtqy55fbzdi"
          (validateCid
             "bafybeigdyrzt5sfp7udm7hu76uh7y26nf3efuylqabf3oclgtqy55fbzdi")
          (getCidVersion
             "bafybeigdyrzt5sfp7udm7hu76uh7y26nf3efuylqabf3oclgtqy55fbzdi")
      /\ (forall path,
            str_forall (fun c => negb (is_space c)) path = true ->
            includes ("/" ++ path) "/ipfs/" = false ->
            parseCid
              (getIpfsGatewayLink
                 "bafybeigdyrzt5sfp7udm7hu76uh7y26nf3efuylqabf3oclgtqy55fbzdi"
                 "https://ipfs.io" ++ "/" ++ path)
            = Parsed.Make
                "bafybeigdyrzt5sfp7udm7hu76uh7y26nf3efuylqabf3oclgtqy55fbzdi"
                (validateCid
                   "bafybeigdyrzt5sfp7udm7hu76uh7y26nf3efuylqabf3oclgtqy55fbzdi")
                (getCidVersion
                   "bafybeigdyrzt5sfp7udm7hu76uh7y26nf3efuylqabf3oclgtqy55fbzdi"))
      /\ parseCid
           (getIpfsGatewayLink
              "bafybeigdyrzt5sfp7udm7hu76uh7y26nf3efuylqabf3oclgtqy55fbzdi"
              default_gateway)
         = Parsed.Make
             "bafybeigdyrzt5sfp7udm7hu76uh7y26nf3efuylqabf3oclgtqy55fbzdi"
             (validateCid
                "bafybeigdyrzt5sfp7udm7hu76uh7y26nf3efuylqabf3oclgtqy55fbzdi")
             (getCidVersion
                "bafybeigdyrzt5sfp7udm7hu76uh7y26nf3efuylqabf3oclgtqy55fbzdi")
      /\ parseCid "bafybeigdyrzt5sfp7udm7hu76uh7y26nf3efuylqabf3oclgtqy55fbzdi"
         = Parsed.Make
             "bafybeigdyrzt5sfp7udm7hu76uh7y26nf3efuylqabf3oclgtqy55fbzdi"
             (validateCid
                "bafybeigdyrzt5sfp7udm7hu76uh7y26nf3efuylqabf3oclgtqy55fbzdi")
             (getCidVersion
                "bafybeigdyrzt5sfp7udm7hu76uh7y26nf3efuylqabf3oclgtqy55fbzdi")).
Proof.
  split; [discriminate|]. split; [reflexivity|]. split; [reflexivity|].
  apply (parseCid_gateway_link
           "bafybeigdyrzt5sfp7udm7hu76uh7y26nf3efuylqabf3oclgtqy55fbzdi"
           "https://ipfs.io"); [discriminate | reflexivity | reflexivity].
Defined.

(* ------------------------------------------------------------------ *)
(** * Conversion between denominations *)
(* ------------------------------------------------------------------ *)

Lemma denomination_multiplier (d : FilDenomination) :
  BigNumber.of_string (FIL_DENOMINATIONS d)
  = BigNumber.Finite false (10 ^ N.of_nat (denomination_exponent d)) 0.
Proof. destruct d; reflexivity. Qed.

Lemma denomination_exponent_bound (d : FilDenomination) :
  denomination_exponent d <= 18.
Proof. destruct d; simpl; lia. Qed.

Lemma pow10_pos (m : N) : (0 < 10 ^ m)%N.
Proof. apply N.neq_0_lt_0, N.pow_nonzero. lia. Qed.

(** Zeros at the end of the coefficient that the exponent takes back
    do not show. *)
Lemma positional_cancel (n : N) (k j : nat) :
  BigNumber.positional (n * 10 ^ N.of_nat j) (- Z.of_nat (k + j))
  = BigNumber.positional n (- Z.of_nat k).
Proof.
  pose proof (pow10_pos (N.of_nat j)) as Pj.
  pose proof (pow10_pos (N.of_nat k)) as Pk.
  assert (P : (10 ^ N.of_nat (k + j) = 10 ^ N.of_nat k * 10 ^ N.of_nat j)%N).
  { rewrite Nat2N.inj_add. apply N.pow_add_r. }
  unfold BigNumber.positional.
  destruct k as [|k'].
  - cbn [Nat.add].
    change (- Z.of_nat 0)%Z with 0%Z. change (0 <=? 0)%Z with true.
    cbv iota. change (Z.to_N 0) with 0%N. rewrite N.pow_0_r, N.mul_1_r.
    destruct j as [|j'].
    + change (- Z.of_nat 0)%Z with 0%Z. change (0 <=? 0)%Z with true.
      cbv iota. change (Z.to_N 0) with 0%N.
      now rewrite !N.pow_0_r, !N.mul_1_r.
    + destruct (Z.leb_spec 0 (- Z.of_nat (S j'))) as [H|_]; [lia|].
      replace (Z.to_N (- - Z.of_nat (S j'))) with (N.of_nat (S j')) by lia.
      rewrite N.div_mul, N.Div0.mod_mul by lia. reflexivity.
  - set (k := S k') in *.
    destruct (Z.leb_spec 0 (- Z.of_nat (k + j))) as [H|_]; [unfold k in H; lia|].
    destruct (Z.leb_spec 0 (- Z.of_nat k)) as [H|_]; [unfold k in H; lia|].
    replace (Z.to_N (- - Z.of_nat (k + j))) with (N.of_nat (k + j)) by lia.
    replace (Z.to_N (- - Z.of_nat k)) with (N.of_nat k) by lia.
    rewrite !Nat2N.id.
    assert (Hq : (n * 10 ^ N.of_nat j / 10 ^ N.of_nat (k + j)
                  = n / 10 ^ N.of_nat k)%N).
    { rewrite P. apply N.Div0.div_mul_cancel_r. lia. }
    assert (Hr : ((n * 10 ^ N.of_nat j) mod 10 ^ N.of_nat (k + j)
                  = (n mod 10 ^ N.of_nat k) * 10 ^ N.of_nat j)%N).
    { rewrite P. apply N.Div0.mul_mod_distr_r. }
    rewrite Hq, Hr.
    set (r := (n mod 10 ^ N.of_nat k)%N).
    assert (Hrlt : (r < 10 ^ N.of_nat k)%N) by (apply N.mod_lt; lia).
    destruct (N.eqb_spec r 0) as [-> | Hr0]; [reflexivity|].
    replace (r * 10 ^ N.of_nat j =? 0)%N with false
      by (symmetry; apply N.eqb_neq; lia).
    f_equal. f_equal.
    pose proof (decimal_length k r ltac:(unfold k; lia) Hrlt) as Hlen.
    rewrite (decimal_shift j r) by lia.
    unfold BigNumber.pad_left. rewrite str_length_app, zeros_length.
    replace (k + j - (String.length (decimal r) + j))
      with (k - String.length (decimal r)) by lia.
    rewrite <- str_app_assoc. apply drop_trailing_zeros_app.
Qed.

Lemma positional_zero (e : Z) : BigNumber.positional 0 e = "0".
Proof.
  unfold BigNumber.positional. destruct (0 <=? e)%Z; [reflexivity|].
  rewrite N.Div0.div_0_l, N.Div0.mod_0_l. reflexivity.
Qed.

(** What [convertFilUnits] prints for an integer amount: the integer
    times a power of ten when the source unit is the larger one, the
    integer with the point moved to the left otherwise. *)
Lemma convertFilUnits_bigint (z : Z) (from to : FilDenomination) :
  convertFilUnits (bigint_string z) from to
  = (if (z <? 0)%Z then "-" else "")
    ++ (if Nat.leb (denomination_exponent to) (denomination_exponent from)
        then decimal (Z.abs_N z
                      * 10 ^ N.of_nat (denomination_exponent from
                                       - denomination_exponent to))
        else BigNumber.positional (Z.abs_N z)
               (- Z.of_nat (denomination_exponent to
                            - denomination_exponent from))).
Proof.
  unfold convertFilUnits.
  rewrite of_string_bigint, !denomination_multiplier.
  set (ef := denomination_exponent from). set (et := denomination_exponent to).
  pose proof (denomination_exponent_bound from) as Bf.
  pose proof (denomination_exponent_bound to) as Bt.
  fold ef in Bf. fold et in Bt.
  pose proof (pow10_pos (N.of_nat ef)) as Pf.
  pose proof (pow10_pos (N.of_nat et)) as Pt.
  unfold BigNumber.times, BigNumber.div.
  replace (10 ^ N.of_nat ef =? 0)%N with false by (symmetry; apply N.eqb_neq; lia).
  replace (10 ^ N.of_nat et =? 0)%N with false by (symmetry; apply N.eqb_neq; lia).
  rewrite orb_false_r, !xorb_false_r.
  destruct (N.eqb_spec (Z.abs_N z) 0) as [H0 | Hn0].
  { assert (z = 0%Z) by lia. subst z. cbn [N.eqb].
    destruct (Nat.leb et ef); [reflexivity|].
    change (Z.abs_N 0) with 0%N. now rewrite positional_zero. }
  replace (Z.abs_N z * 10 ^ N.of_nat ef =? 0)%N with false
    by (symmetry; apply N.eqb_neq; lia).
  change (0 + 0 - 0 + BigNumber.DECIMAL_PLACES)%Z with 36%Z.
  change (0 <=? 36)%Z with true. cbv iota.
  change (Z.to_N 36) with (N.of_nat 36).
  change (- BigNumber.DECIMAL_PLACES)%Z with (- Z.of_nat 36)%Z.
  unfold BigNumber.toFixed.
  destruct (Nat.leb_spec et ef) as [Hle | Hgt].
  - assert (Hq : (Z.abs_N z * 10 ^ N.of_nat ef * 10 ^ N.of_nat 36
                  / 10 ^ N.of_nat et
                  = Z.abs_N z * 10 ^ N.of_nat (ef - et) * 10 ^ N.of_nat 36)%N).
    { replace (N.of_nat ef) with (N.of_nat (ef - et) + N.of_nat et)%N by lia.
      rewrite N.pow_add_r.
      replace (Z.abs_N z * (10 ^ N.of_nat (ef - et) * 10 ^ N.of_nat et)
               * 10 ^ N.of_nat 36)%N
        with (Z.abs_N z * 10 ^ N.of_nat (ef - et) * 10 ^ N.of_nat 36
              * 10 ^ N.of_nat et)%N by lia.
      apply N.div_mul. lia. }
    rewrite Hq.
    pose proof (pow10_pos (N.of_nat (ef - et))) as Pd.
    pose proof (pow10_pos (N.of_nat 36)) as P36.
    replace (Z.abs_N z * 10 ^ N.of_nat (ef - et) * 10 ^ N.of_nat 36 =? 0)%N
      with false by (symmetry; apply N.eqb_neq; lia).
    rewrite (positional_cancel _ 0 36).
    unfold BigNumber.positional. change (- Z.of_nat 0)%Z with 0%Z.
    change (0 <=? 0)%Z with true. cbv iota. change (Z.to_N 0) with 0%N.
    rewrite N.pow_0_r, N.mul_1_r.
    destruct (z <? 0)%Z; reflexivity.
  - assert (Hq : (Z.abs_N z * 10 ^ N.of_nat ef * 10 ^ N.of_nat 36
                  / 10 ^ N.of_nat et
                  = Z.abs_N z * 10 ^ N.of_nat (36 - (et - ef)))%N).
    { replace (N.of_nat 36) with (N.of_nat (36 - (et - ef)) + N.of_nat (et - ef))%N
        by lia.
      rewrite N.pow_add_r.
      replace (Z.abs_N z * 10 ^ N.of_nat ef
               * (10 ^ N.of_nat (36 - (et - ef)) * 10 ^ N.of_nat (et - ef)))%N
        with (Z.abs_N z * 10 ^ N.of_nat (36 - (et - ef))
              * (10 ^ N.of_nat ef * 10 ^ N.of_nat (et - ef)))%N by lia.
      rewrite <- N.pow_add_r.
      replace (N.of_nat ef + N.of_nat (et - ef))%N with (N.of_nat et) by lia.
      apply N.div_mul. lia. }
    rewrite Hq.
    pose proof (pow10_pos (N.of_nat (36 - (et - ef)))) as Pd.
    replace (Z.abs_N z * 10 ^ N.of_nat (36 - (et - ef)) =? 0)%N
      with false by (symmetry; apply N.eqb_neq; lia).
    replace (- Z.of_nat 36)%Z
      with (- Z.of_nat ((et - ef) + (36 - (et - ef))))%Z
      by (f_equal; f_equal; lia).
    rewrite positional_cancel.
    destruct (z <? 0)%Z; reflexivity.
Qed.

Lemma bigint_string_scaled (z : Z) (m : nat) :
  bigint_string (z * 10 ^ Z.of_nat m)
  = (if (z <? 0)%Z then "-" else "")
    ++ decimal (Z.abs_N z * 10 ^ N.of_nat m).
Proof.
  assert (P : (0 < 10 ^ Z.of_nat m)%Z) by (apply Z.pow_pos_nonneg; lia).
  assert (Habs : Z.abs_N (z * 10 ^ Z.of_nat m)
                 = (Z.abs_N z * 10 ^ N.of_nat m)%N).
  { rewrite Zabs2N.inj_mul. f_equal.
    apply N2Z.inj. rewrite N2Z.inj_abs_N, N2Z.inj_pow, nat_N_Z.
    change (Z.of_N 10) with 10%Z. lia. }
  unfold bigint_string. rewrite Habs.
  assert (Hs : (z * 10 ^ Z.of_nat m <? 0)%Z = (z <? 0)%Z).
  { destruct (Z.ltb_spec z 0); [apply Z.ltb_lt | apply Z.ltb_ge]; nia. }
  rewrite Hs. now destruct (z <? 0)%Z.
Qed.

(** X13.  Conversion between two denominations loses nothing on an
    integer amount.  The result reads as the amount times the
    multiplier of the source unit, divided by that of the target unit,
    exactly, with at most 18 decimals; converting it back gives the
    amount; and converting to attoFIL multiplies by the multiplier of
    the source unit. *)
Theorem convertFilUnits_exact (z : Z) (from to : FilDenomination) :
  (exists c k,
      k <= 18
      /\ BigNumber.of_string (convertFilUnits (bigint_string z) from to)
         = BigNumber.Finite (z <? 0)%Z c (- Z.of_nat k)
      /\ (c * 10 ^ N.of_nat (denomination_exponent to)
          = Z.abs_N z * 10 ^ N.of_nat (denomination_exponent from)
            * 10 ^ N.of_nat k)%N)
  /\ convertFilUnits (convertFilUnits (bigint_string z) from to) to from
     = bigint_string z
  /\ convertFilUnits (bigint_string z) from attoFIL
     = bigint_string (z * 10 ^ Z.of_nat (denomination_exponent from))
  /\ BigNumber.of_string (FIL_DENOMINATIONS from)
     = BigNumber.Finite false (10 ^ N.of_nat (denomination_exponent from)) 0.
Proof.
  pose proof (denomination_exponent_bound from) as Bf.
  pose proof (denomination_exponent_bound to) as Bt.
  assert (Hatto : convertFilUnits (bigint_string z) from attoFIL
                  = bigint_string (z * 10 ^ Z.of_nat (denomination_exponent from))).
  { rewrite convertFilUnits_bigint, bigint_string_scaled.
    cbn [denomination_exponent Nat.leb]. now rewrite Nat.sub_0_r. }
  split; [|split; [|split; [exact Hatto | apply denomination_multiplier]]].
  - rewrite convertFilUnits_bigint.
    set (ef := denomination_exponent from) in *.
    set (et := denomination_exponent to) in *.
    destruct (Nat.leb_spec et ef) as [Hle | Hgt].
    + exists (Z.abs_N z * 10 ^ N.of_nat (ef - et))%N, 0.
      split; [lia|]. split.
      * pose proof (of_string_plain (z <? 0)%Z
                      (decimal (Z.abs_N z * 10 ^ N.of_nat (ef - et))) ""
                      (decimal_not_empty _) (decimal_digits _) eq_refl) as H.
        rewrite !str_app_empty_r, decimal_value in H. exact H.
      * rewrite N.pow_0_r, N.mul_1_r, <- N.mul_assoc, <- N.pow_add_r.
        do 2 f_equal. lia.
    + destruct (positional_reads_back (z <? 0)%Z (Z.abs_N z) (et - ef)
                  ltac:(lia)) as (c & k & Hk & Hread & Hval).
      exists c, k. split; [lia|]. split; [exact Hread|].
      rewrite <- Hval.
      rewrite <- !N.mul_assoc, <- !N.pow_add_r. do 2 f_equal. lia.
  - rewrite (convertFilUnits_bigint z from to).
    set (ef := denomination_exponent from) in *.
    set (et := denomination_exponent to) in *.
    destruct (Nat.leb_spec et ef) as [Hle | Hgt].
    + rewrite <- bigint_string_scaled, convertFilUnits_bigint.
      fold ef et.
      assert (Hs : (z * 10 ^ Z.of_nat (ef - et) <? 0)%Z = (z <? 0)%Z).
      { assert (P : (0 < 10 ^ Z.of_nat (ef - et))%Z)
          by (apply Z.pow_pos_nonneg; lia).
        destruct (Z.ltb_spec z 0); [apply Z.ltb_lt | apply Z.ltb_ge]; nia. }
      assert (Habs : Z.abs_N (z * 10 ^ Z.of_nat (ef - et))
                     = (Z.abs_N z * 10 ^ N.of_nat (ef - et))%N).
      { rewrite Zabs2N.inj_mul. f_equal.
        apply N2Z.inj. rewrite N2Z.inj_abs_N, N2Z.inj_pow, nat_N_Z.
        change (Z.of_N 10) with 10%Z.
        assert (0 < 10 ^ Z.of_nat (ef - et))%Z by (apply Z.pow_pos_nonneg; lia).
        lia. }
      rewrite Hs, Habs. unfold bigint_string.
      destruct (Nat.leb_spec ef et) as [Hle' | Hgt'].
      * replace (ef - et) with 0 by lia. replace (et - ef) with 0 by lia.
        rewrite !N.pow_0_r, !N.mul_1_r. now destruct (z <? 0)%Z.
      * pose proof (positional_cancel (Z.abs_N z) 0 (ef - et)) as Hcancel.
        cbn [Nat.add] in Hcancel. rewrite Hcancel.
        unfold BigNumber.positional. change (- Z.of_nat 0)%Z with 0%Z.
        change (0 <=? 0)%Z with true. cbv iota. change (Z.to_N 0) with 0%N.
        rewrite N.pow_0_r, N.mul_1_r. now destruct (z <? 0)%Z.
    + destruct (positional_reads_back (z <? 0)%Z (Z.abs_N z) (et - ef)
                  ltac:(lia)) as (c & k & Hk & Hread & Hval).
      unfold convertFilUnits at 1. rewrite Hread, !denomination_multiplier.
      fold ef et.
      pose proof (pow10_pos (N.of_nat ef)) as Pf.
      pose proof (pow10_pos (N.of_nat et)) as Pt.
      pose proof (pow10_pos (N.of_nat (et - ef - k))) as Pd.
      unfold BigNumber.times, BigNumber.div.
      replace (10 ^ N.of_nat ef =? 0)%N with false
        by (symmetry; apply N.eqb_neq; lia).
      replace (10 ^ N.of_nat et =? 0)%N with false
        by (symmetry; apply N.eqb_neq; lia).
      rewrite orb_false_r, !xorb_false_r.
      destruct (N.eqb_spec c 0) as [Hc0 | Hc0].
      { subst c. assert (z = 0%Z) by lia. subst z. reflexivity. }
      replace (c * 10 ^ N.of_nat et =? 0)%N with false
        by (symmetry; apply N.eqb_neq; lia).
      replace (- Z.of_nat k + 0 - 0 + BigNumber.DECIMAL_PLACES)%Z
        with (Z.of_nat (36 - k))
        by (unfold BigNumber.DECIMAL_PLACES; lia).
      destruct (Z.leb_spec 0 (Z.of_nat (36 - k))) as [_|H]; [|lia].
      replace (Z.to_N (Z.of_nat (36 - k))) with (N.of_nat (36 - k)) by lia.
      assert (Hq : (c * 10 ^ N.of_nat et * 10 ^ N.of_nat (36 - k)
                    / 10 ^ N.of_nat ef
                    = Z.abs_N z * 10 ^ N.of_nat 36)%N).
      { rewrite <- Hval.
        replace (c * 10 ^ N.of_nat et * 10 ^ N.of_nat (36 - k))%N
          with (c * 10 ^ N.of_nat (et - ef - k) * 10 ^ N.of_nat 36
                * 10 ^ N.of_nat ef)%N.
        - apply N.div_mul. lia.
        - rewrite <- !N.mul_assoc. f_equal. rewrite <- !N.pow_add_r.
          f_equal. lia. }
      rewrite Hq.
      pose proof (pow10_pos (N.of_nat 36)) as P36.
      assert (Hz : Z.abs_N z <> 0%N) by (rewrite <- Hval; lia).
      unfold BigNumber.toFixed.
      replace (Z.abs_N z * 10 ^ N.of_nat 36 =? 0)%N with false
        by (symmetry; apply N.eqb_neq; lia).
      change (- BigNumber.DECIMAL_PLACES)%Z with (- Z.of_nat (0 + 36))%Z.
      rewrite positional_cancel.
      unfold BigNumber.positional, bigint_string.
      change (- Z.of_nat 0)%Z with 0%Z.
      change (0 <=? 0)%Z with true. cbv iota. change (Z.to_N 0) with 0%N.
      rewrite N.pow_0_r, N.mul_1_r. now destruct (z <? 0)%Z.
Qed.

(** X14.  [formatFil] cuts, it never rounds up: for an integer amount
    of attoFIL it prints the number of FIL with the decimals beyond the
    requested ones dropped, toward zero, and with the sign of the
    amount even when nothing but zeros is left. *)
Theorem formatFil_truncates (z : Z) (decimals : nat) :
  (let n := (Z.abs_N z * 10 ^ N.of_nat decimals / 10 ^ 18)%N in
   formatFil (bigint_string z) decimals
   = (if (z <? 0)%Z then "-" else "")
     ++ match decimals with
        | O => decimal n
        | _ => decimal (n / 10 ^ N.of_nat decimals) ++ "."
               ++ BigNumber.pad_left decimals
                    (decimal (n mod 10 ^ N.of_nat decimals))
        end)
  /\ formatFil "1999999999999999999" 4 = "1.9999"
  /\ formatFil "1000000000000000000" 4 = "1.0000"
  /\ formatFil "-1" 4 = "-0.0000".
Proof.
  split; [|repeat split; reflexivity].
  cbv zeta. unfold formatFil. rewrite attoFilToFil_bigint.
  destruct (positional_reads_back (z <? 0)%Z (Z.abs_N z) 18 ltac:(lia))
    as (c & k & Hk & Hread & Hval).
  change (- Z.of_nat 18)%Z with (-18)%Z in Hread. rewrite Hread.
  unfold BigNumber.toFixed_dp.
  assert (Hsign : (z <? 0)%Z && negb (c =? 0)%N = (z <? 0)%Z).
  { destruct (Z.ltb_spec z 0) as [Hz|Hz]; [|reflexivity].
    cbn [andb]. apply negb_true_iff, N.eqb_neq. intros ->. lia. }
  rewrite Hsign.
  assert (Hn : BigNumber.scaled c (- Z.of_nat k) decimals
               = (Z.abs_N z * 10 ^ N.of_nat decimals / 10 ^ 18)%N).
  { unfold BigNumber.scaled. rewrite <- Hval.
    destruct (Z.leb_spec 0 (- Z.of_nat k + Z.of_nat decimals)) as [H|H].
    - replace (Z.to_N (- Z.of_nat k + Z.of_nat decimals))
        with (N.of_nat (decimals - k)) by lia.
      replace (c * 10 ^ N.of_nat (18 - k) * 10 ^ N.of_nat decimals)%N
        with (c * 10 ^ N.of_nat (decimals - k) * 10 ^ 18)%N.
      + symmetry. apply N.div_mul. pose proof (pow10_pos 18). lia.
      + rewrite <- !N.mul_assoc. f_equal.
        change 18%N with (N.of_nat 18). rewrite <- !N.pow_add_r.
        f_equal. lia.
    - replace (Z.to_N (- (- Z.of_nat k + Z.of_nat decimals)))
        with (N.of_nat (k - decimals)) by lia.
      replace (c * 10 ^ N.of_nat (18 - k) * 10 ^ N.of_nat decimals)%N
        with (c * 10 ^ N.of_nat (18 - k + decimals))%N
        by (rewrite <- N.mul_assoc, <- N.pow_add_r; do 2 f_equal; lia).
      replace (10 ^ 18)%N
        with (10 ^ N.of_nat (k - decimals) * 10 ^ N.of_nat (18 - k + decimals))%N
        by (rewrite <- N.pow_add_r; change 18%N with (N.of_nat 18);
            f_equal; lia).
      symmetry. apply N.Div0.div_mul_cancel_r.
      pose proof (pow10_pos (N.of_nat (18 - k + decimals))). lia. }
  rewrite Hn. now destruct (z <? 0)%Z, decimals.
Qed.

(* ------------------------------------------------------------------ *)
(** * Amounts typed by a user *)
(* ------------------------------------------------------------------ *)

Lemma bigint_string_nat (n : N) : bigint_string (Z.of_N n) = decimal n.
Proof.
  unfold bigint_string. rewrite Zabs2N.id.
  destruct (Z.ltb_spec (Z.of_N n) 0); [lia | reflexivity].
Qed.

Lemma trimEnd_spaces (a ws : string) :
  str_forall is_space ws = true -> trimEnd (a ++ ws) = trimEnd a.
Proof.
  intros Hws.
  assert (H0 : trimEnd ws = "").
  { induction ws as [|c ws IH]; [reflexivity|].
    simpl in *. apply andb_true_iff in Hws as [Hc Hws].
    now rewrite (IH Hws), Hc. }
  induction a as [|c a IH]; [exact H0|].
  cbn [append trimEnd]. now rewrite IH.
Qed.

Lemma endsWith_iff (s p : string) :
  endsWith s p = true <-> exists u, s = u ++ p.
Proof.
  unfold endsWith. split.
  - intros H. apply andb_true_iff in H as [Hl He].
    apply Nat.leb_le in Hl. apply String.eqb_eq in He.
    exists (slice_to (String.length s - String.length p) s).
    rewrite <- He at 2. symmetry. apply slice_to_slice.
  - intros (u & ->). rewrite str_length_app.
    replace (String.length u + String.length p - String.length p)
      with (String.length u) by lia.
    rewrite slice_app, String.eqb_refl, andb_true_r.
    apply Nat.leb_le. lia.
Qed.

(** Two ways to cut one text: the longer end holds the shorter one. *)
Lemma app_eq_app (a b u p : string) :
  a ++ b = u ++ p -> String.length b <= String.length p ->
  exists v, p = v ++ b /\ a = u ++ v.
Proof.
  revert u. induction a as [|c a IH]; intros u H Hlen.
  - destruct u as [|x u].
    + exists "". simpl in *. auto.
    + exfalso. simpl in H. subst b. simpl in Hlen.
      rewrite str_length_app in Hlen. lia.
  - destruct u as [|x u].
    + simpl in H. exists (String c a). split; [now rewrite <- H | reflexivity].
    + simpl in H. injection H as -> H.
      destruct (IH u H Hlen) as (v & -> & ->). exists v. auto.
Qed.

Lemma str_forall_last (q : ascii -> bool) (a : string) (x : ascii) :
  str_forall q (a ++ String x "") = true -> q x = true.
Proof.
  rewrite str_forall_app. intros H. apply andb_true_iff in H as [_ H].
  simpl in H. now rewrite andb_true_r in H.
Qed.

(** A suffix made of characters of one class does not reach over a
    character outside the class. *)
Lemma endsWith_behind (q : ascii -> bool) (a : string) (x : ascii)
    (b p : string) :
  q x = false -> str_forall q p = true ->
  endsWith (a ++ String x b) p = endsWith b p.
Proof.
  intros Hx Hp.
  destruct (endsWith b p) eqn:Hb.
  - apply endsWith_iff in Hb as (u & ->). apply endsWith_iff.
    exists (a ++ String x u). now rewrite str_app_assoc.
  - destruct (endsWith (a ++ String x b) p) eqn:Hs; [|reflexivity].
    exfalso. apply endsWith_iff in Hs as (u & Hs).
    destruct (Nat.le_gt_cases (String.length p) (String.length b)) as [Hl | Hl].
    + change (a ++ String x b) with (a ++ String x "" ++ b) in Hs.
      rewrite <- str_app_assoc in Hs. symmetry in Hs.
      destruct (app_eq_app u p (a ++ String x "") b Hs Hl) as (v & Hv & _).
      assert (E : endsWith b p = true) by (apply endsWith_iff; eauto).
      congruence.
    + destruct (app_eq_app a (String x b) u p Hs ltac:(simpl; lia))
        as (v & Hv & _).
      rewrite Hv in Hp. rewrite str_forall_app in Hp.
      apply andb_true_iff in Hp as [_ Hp]. simpl in Hp.
      rewrite Hx in Hp. discriminate.
Qed.

(** The first occurrence of a text behind characters that it does not
    start with. *)
Lemma replace_first_behind (q : ascii -> bool) (a : string) (x : ascii)
    (p r rest : string) :
  str_forall q a = true -> q x = false ->
  replace_first (a ++ String x (p ++ rest)) (String x p) r = a ++ r ++ rest.
Proof.
  intros Ha Hx. induction a as [|c a IH].
  - change ("" ++ String x (p ++ rest)) with (String x p ++ rest).
    destruct (String x p ++ rest) eqn:E; [discriminate|].
    cbn [replace_first]. rewrite <- E, prefix_app, slice_app. reflexivity.
  - simpl in Ha. apply andb_true_iff in Ha as [Hc Ha].
    cbn [append replace_first String.prefix].
    destruct (ascii_dec x c) as [-> | _]; [congruence|].
    now rewrite (IH Ha).
Qed.

Lemma last_char (s : string) :
  s <> "" -> exists s' x, s = s' ++ String x "".
Proof.
  induction s as [|c s IH]; [congruence|]. intros _.
  destruct s as [|d s].
  - exists "", c. reflexivity.
  - destruct IH as (s' & x & E); [discriminate|].
    exists (String c s'), x. simpl. now rewrite <- E.
Qed.

Lemma lower_is_letter (c : ascii) :
  is_lower (lower_char c) = true -> negb (is_space c) = true.
Proof. all_chars c. Qed.

Lemma digit_not_lower (c : ascii) : is_digit c = true -> is_lower c = false.
Proof. all_chars c. Qed.

Lemma space_not_lower (c : ascii) : is_space c = true -> is_lower c = false.
Proof. all_chars c. Qed.

Lemma convertFilUnits_to_attoFil (n : N) (d : FilDenomination) :
  convertFilUnits (decimal n) d attoFIL
  = decimal (n * 10 ^ N.of_nat (denomination_exponent d)).
Proof.
  rewrite <- bigint_string_nat, convertFilUnits_bigint.
  cbn [denomination_exponent Nat.leb]. rewrite Nat.sub_0_r, Zabs2N.id.
  destruct (Z.ltb_spec (Z.of_N n) 0); [lia | reflexivity].
Qed.

(** X15.  An integer amount followed by the name of a denomination, in
    any case, with or without white space in between, is that amount
    in that denomination: [parseFilInput] returns it in attoFIL, the
    amount times the multiplier of the denomination. *)
Theorem parseFilInput_with_unit (n : N) (ws name : string)
    (d : FilDenomination) :
  str_forall is_space ws = true ->
  toLowerCase name = toLowerCase (denomination_name d) ->
  parseFilInput (decimal n ++ ws ++ name)
  = decimal (n * 10 ^ N.of_nat (denomination_exponent d)).
Proof.
  intros Hws Hname.
  set (ln := toLowerCase (denomination_name d)) in *.
  assert (Hln : str_forall is_lower ln = true) by (unfold ln; now destruct d).
  assert (Hname_ns : str_forall (fun c => negb (is_space c)) name = true).
  { rewrite <- Hname in Hln. clear - Hln. unfold toLowerCase in Hln.
    induction name as [|c s IH]; [reflexivity|]. simpl in *.
    apply andb_true_iff in Hln as [Hc Hs].
    now rewrite (lower_is_letter c Hc), IH. }
  assert (Hname_ne : name <> "").
  { intros ->. unfold ln in Hname. now destruct d. }
  destruct (decimal_nonempty n) as (c0 & s0 & E0 & Hc0).
  pose proof (decimal_digits n) as Hdig.
  set (a := decimal n ++ ws).
  assert (Ha_nl : str_forall (fun c => negb (is_lower c)) a = true).
  { unfold a. rewrite str_forall_app. apply andb_true_iff. split.
    - eapply str_forall_impl; [|exact Hdig].
      intros c Hc. now rewrite digit_not_lower.
    - eapply str_forall_impl; [|exact Hws].
      intros c Hc. now rewrite space_not_lower. }
  assert (Ha_low : toLowerCase a = a).
  { unfold a, toLowerCase. rewrite str_map_app. f_equal.
    - apply (str_map_id _ is_digit); [apply digit_lower_char | exact Hdig].
    - apply (str_map_id _ is_space); [apply space_lower_char | exact Hws]. }
  assert (Htrim : trim (decimal n ++ ws ++ name) = a ++ name).
  { unfold trim, a. rewrite trimStart_id.
    - rewrite <- str_app_assoc. now apply trimEnd_app.
    - rewrite E0. simpl. now apply digit_not_space. }
  assert (Hlow : toLowerCase (a ++ name) = a ++ ln).
  { unfold toLowerCase at 1. rewrite str_map_app.
    fold (toLowerCase a). fold (toLowerCase name). now rewrite Ha_low, Hname. }
  assert (Ha_ne : a <> "").
  { unfold a. rewrite E0. discriminate. }
  destruct (last_char a Ha_ne) as (a' & x & Ea).
  assert (Hx : is_lower x = false).
  { rewrite Ea in Ha_nl. apply str_forall_last in Ha_nl.
    now apply negb_true_iff. }
  assert (Hends : forall d',
            endsWith (a ++ ln) (toLowerCase (denomination_name d'))
            = endsWith ln (toLowerCase (denomination_name d'))).
  { intros d'. rewrite Ea, str_app_assoc.
    change (String x "" ++ ln) with (String x ln).
    apply (endsWith_behind is_lower); [exact Hx | now destruct d']. }
  assert (Hfind : find (fun denom =>
                    endsWith (a ++ ln) (toLowerCase (denomination_name denom)))
                    denominations = Some d).
  { cbn [find denominations]. rewrite !Hends. unfold ln.
    destruct d; reflexivity. }
  assert (Hamount : trim (replace_first (a ++ ln) ln "") = decimal n).
  { assert (Hrep : replace_first (a ++ ln) ln "" = a).
    { unfold ln. destruct d; cbn [denomination_name];
        match goal with
        | |- replace_first (a ++ toLowerCase ?s) _ _ = _ =>
            let t := eval vm_compute in (toLowerCase s) in
            change (toLowerCase s) with t
        end;
        match goal with
        | |- replace_first (a ++ String ?y ?p) _ _ = _ =>
            pose proof (replace_first_behind (fun c => negb (is_lower c))
                          a y p "" "" Ha_nl eq_refl) as H;
            rewrite !str_app_empty_r in H; exact H
        end. }
    rewrite Hrep. unfold trim, a. rewrite trimStart_id.
    - rewrite trimEnd_spaces by exact Hws. apply trimEnd_id.
      eapply str_forall_impl; [|exact Hdig].
      intros c Hc. now rewrite digit_not_space.
    - rewrite E0. simpl. now apply digit_not_space. }
  unfold parseFilInput. rewrite Htrim, Hlow, Hfind. fold ln. rewrite Hamount.
  apply convertFilUnits_to_attoFil.
Qed.

Lemma parseFilInput_with_unit_nanoFIL :
  str_forall is_space " " = true
  /\ toLowerCase "NanoFil" = toLowerCase (denomination_name nanoFIL)
  /\ parseFilInput (decimal 25 ++ " " ++ "NanoFil")
     = decimal (25 * 10 ^ N.of_nat (denomination_exponent nanoFIL)).
Proof.
  split; [reflexivity|]. split; [reflexivity|].
  apply (parseFilInput_with_unit 25 " " "NanoFil" nanoFIL); reflexivity.
Defined.

(** Comparing the double nearest to a natural number with a small
    integer is comparing the number itself. *)
Lemma lt_int_round_integer (n c : N) :
  (0 < c <= 2 ^ 52)%N ->
  Number.lt_int (Number.round false n 1) (Z.of_N c) = (n <? c)%N.
Proof.
  intros [Hc0 Hc].
  assert (Hp : forall a, (0 < 2 ^ a)%N).
  { intros a. apply N.neq_0_lt_0, N.pow_nonzero. lia. }
  destruct (N.eq_dec n 0) as [-> | Hn0].
  { cbn. destruct (N.ltb_spec 0 c); [|lia]. apply Z.ltb_lt. lia. }
  destruct (N.lt_ge_cases n (2 ^ 53)) as [Hsmall | Hbig].
  - change 1%N with (2 ^ 0)%N.
    rewrite round_dyadic by lia.
    pose proof (N.log2_spec n ltac:(lia)) as [Hlo Hhi].
    set (L := N.log2 n) in *.
    assert (HL : (L <= 52)%N).
    { destruct (N.le_gt_cases L 52) as [?|Hgt]; [assumption|].
      exfalso. assert (2 ^ 53 <= 2 ^ L)%N by (apply N.pow_le_mono_r; lia).
      lia. }
    unfold Number.lt_int.
    destruct (Z.leb_spec 0 (Z.of_N L - Z.of_N 0 - 52)) as [He | He].
    + assert (L = 52%N) by lia.
      replace (Z.of_N L - Z.of_N 0 - 52)%Z with 0%Z by lia.
      replace (52 - L)%N with 0%N by lia.
      rewrite N.pow_0_r, N.mul_1_r, Z.pow_0_r, Z.mul_1_r.
      destruct (N.ltb_spec n c); [apply Z.ltb_lt | apply Z.ltb_ge]; lia.
    + replace (- (Z.of_N L - Z.of_N 0 - 52))%Z with (Z.of_N (52 - L)) by lia.
      assert (E : (2 ^ Z.of_N (52 - L))%Z = Z.of_N (2 ^ (52 - L)))
        by (rewrite N2Z.inj_pow; reflexivity).
      rewrite E, <- !N2Z.inj_mul.
      pose proof (Hp (52 - L)%N).
      destruct (N.ltb_spec n c); [apply Z.ltb_lt | apply Z.ltb_ge]; nia.
  - replace (n <? c)%N with false by (symmetry; apply N.ltb_ge; lia).
    pose proof (N.log2_spec n ltac:(lia)) as [Hlo Hhi].
    set (L := N.log2 n) in *.
    assert (HL : (53 <= L)%N).
    { destruct (N.le_gt_cases 53 L) as [?|Hgt]; [assumption|].
      exfalso.
      assert (2 ^ N.succ L <= 2 ^ 53)%N by (apply N.pow_le_mono_r; lia).
      lia. }
    unfold Number.round.
    destruct (N.eqb_spec n 0) as [?|_]; [lia|].
    fold L. change (N.log2 1) with 0%N.
    replace (Z.of_N L - Z.of_N 0)%Z with (Z.of_N L) by lia.
    destruct (Z.leb_spec 0 (Z.of_N L)) as [_|?]; [|lia].
    rewrite N2Z.id, N.mul_1_l.
    replace (2 ^ L <=? n)%N with true by (symmetry; apply N.leb_le; exact Hlo).
    replace (Z.max (Z.of_N L - 52) (-1074)) with (Z.of_N (L - 52)) by lia.
    destruct (Z.leb_spec 0 (Z.of_N (L - 52))) as [_|?]; [|lia].
    rewrite N2Z.id, N.mul_1_l.
    set (d := (2 ^ (L - 52))%N).
    assert (Hd : (0 < d)%N) by apply Hp.
    assert (Hm0 : (2 ^ 52 <= n / d)%N).
    { apply N.div_le_lower_bound; [lia|].
      unfold d. rewrite <- N.pow_add_r.
      replace (L - 52 + 52)%N with L by lia. exact Hlo. }
    match goal with
    | |- Number.lt_int (if ?b then _ else Number.Finite false ?m _) _ = false =>
        assert (Hm : (2 ^ 52 <= m)%N)
          by (destruct (2 * (n mod d) ?= d)%N; [destruct (N.even (n / d))| |]; lia);
        set (mm := m) in *; clearbody mm
    end.
    match goal with
    | |- Number.lt_int (if ?b then _ else _) _ = false =>
        destruct b; [reflexivity|]
    end.
    unfold Number.lt_int.
    destruct (Z.leb_spec 0 (Z.of_N (L - 52))) as [_|?]; [|lia].
    apply Z.ltb_ge.
    assert (E : (2 ^ Z.of_N (L - 52))%Z = Z.of_N d)
      by (unfold d; rewrite N2Z.inj_pow; reflexivity).
    rewrite E, <- N2Z.inj_mul.
    apply N2Z.inj_le. nia.
Qed.

Lemma digit_or_dot_not_space (c : ascii) :
  digit_or_dot c = true -> negb (is_space c) = true.
Proof. all_chars c. Qed.

Lemma digit_or_dot_lower (c : ascii) :
  digit_or_dot c = true -> lower_char c = c.
Proof. all_chars c. Qed.

(** A text of digits and dots has no denomination at its end, and
    trimming and lower case leave it as it is. *)
Lemma parseFilInput_plain (s : string) :
  s <> "" -> str_forall digit_or_dot s = true ->
  parseFilInput s
  = if includes s "." || Number.lt_int (Number.parseFloat s) 1000000
    then filToAttoFil s else s.
Proof.
  intros Hne Hs.
  assert (Hns : str_forall (fun c => negb (is_space c)) s = true).
  { eapply str_forall_impl; [|exact Hs]. apply digit_or_dot_not_space. }
  assert (Htrim : toLowerCase (trim s) = s).
  { unfold trim. rewrite trimStart_id.
    - rewrite trimEnd_id by exact Hns.
      apply (str_map_id _ digit_or_dot); [apply digit_or_dot_lower | exact Hs].
    - destruct s as [|c s]; [exact I|]. simpl in Hns.
      apply andb_true_iff in Hns as [Hc _]. now apply negb_true_iff. }
  unfold parseFilInput. rewrite Htrim.
  assert (Hsuffix : forall d,
    endsWith s (toLowerCase (denomination_name d)) = false).
  { intros d. apply (endsWith_other_chars digit_or_dot); [exact Hs|].
    now destruct d. }
  cbn [find denominations]. rewrite !Hsuffix. reflexivity.
Qed.

(** X16.  A number without a denomination.  An integer below one
    million is a number of FIL and is multiplied by 10^18; an integer
    from one million on is taken for a number of attoFIL and returned
    as it is; a number written with a decimal point is a number of FIL
    whatever its size.  So ["999999"], ["1000000"] and ["1000000.0"]
    give 999999 * 10^18, 10^6 and 10^24 attoFIL. *)
Theorem parseFilInput_bare_number (n : N) :
  parseFilInput (decimal n)
  = (if (n <? 1000000)%N then decimal (n * 10 ^ 18) else decimal n)
  /\ (forall ip fp,
        ip <> "" -> str_forall is_digit ip = true ->
        fp <> "" -> str_forall is_digit fp = true ->
        String.length fp <= 18 ->
        parseFilInput (ip ++ "." ++ fp)
        = decimal (digits_value 0 (ip ++ fp)
                   * 10 ^ N.of_nat (18 - String.length fp)))
  /\ parseFilInput "999999" = "999999000000000000000000"
  /\ parseFilInput "1000000" = "1000000"
  /\ parseFilInput "1000000.0" = "1000000000000000000000000".
Proof.
  assert (Hint : forall m,
    parseFilInput (decimal m)
    = (if (m <? 1000000)%N then decimal (m * 10 ^ 18) else decimal m)).
  { intros m.
    assert (Hd : str_forall digit_or_dot (decimal m) = true).
    { eapply str_forall_impl; [|apply decimal_digits].
      apply digit_is_digit_or_dot. }
    rewrite parseFilInput_plain by (apply decimal_not_empty || exact Hd).
    rewrite (includes_other_chars is_digit _ "." (decimal_digits m) eq_refl).
    rewrite parseFloat_integer. cbn [orb].
    change 1000000%Z with (Z.of_N 1000000).
    rewrite lt_int_round_integer by (split; [reflexivity | now apply N.leb_le]).
    destruct (m <? 1000000)%N; [|reflexivity].
    rewrite <- bigint_string_nat, filToAttoFil_bigint.
    change (10 ^ 18)%Z with (Z.of_N (10 ^ 18)).
    now rewrite <- N2Z.inj_mul, bigint_string_nat. }
  assert (Hdec : forall ip fp,
        ip <> "" -> str_forall is_digit ip = true ->
        fp <> "" -> str_forall is_digit fp = true ->
        String.length fp <= 18 ->
        parseFilInput (ip ++ "." ++ fp)
        = decimal (digits_value 0 (ip ++ fp)
                   * 10 ^ N.of_nat (18 - String.length fp))).
  { intros ip fp Hip Hipd Hfp Hfpd Hlen.
    rewrite parseFilInput_plain.
    - rewrite (includes_middle ip "." fp). cbn [orb].
      now apply filToAttoFil_decimals.
    - destruct ip; [congruence | discriminate].
    - rewrite !str_forall_app. apply andb_true_iff. split.
      + eapply str_forall_impl; [|exact Hipd]. apply digit_is_digit_or_dot.
      + cbn [str_forall]. unfold digit_or_dot at 1. cbn [Ascii.eqb Bool.eqb orb andb].
        rewrite orb_true_r. cbn [andb].
        eapply str_forall_impl; [|exact Hfpd]. apply digit_is_digit_or_dot. }
  split; [apply Hint|]. split; [exact Hdec|].
  split; [exact (Hint 999999%N)|]. split; [exact (Hint 1000000%N)|].
  exact (Hdec "1000000" "0" ltac:(discriminate) eq_refl ltac:(discriminate)
           eq_refl ltac:(simpl; lia)).
Qed.

(* ------------------------------------------------------------------ *)
(** * Whole part of a quotient computed with doubles *)
(* ------------------------------------------------------------------ *)

Lemma pow2_pos (s : N) : (0 < 2 ^ s)%N.
Proof. apply N.neq_0_lt_0, N.pow_nonzero. lia. Qed.

(** [num / den] is written with [s] binary places: [m0] is the
    mantissa cut off and [r] what is left; [m] is the mantissa after
    rounding to nearest.  When [den] is less than two units of the
    last place, rounding the mantissa up does not reach the next
    integer. *)
Lemma rounded_floor (num den s m0 r m : N) :
  (0 < den)%N -> (den < 2 * 2 ^ s)%N ->
  (num * 2 ^ s = den * m0 + r)%N -> (r < den)%N ->
  (m = m0 \/ (m = m0 + 1 /\ den <= 2 * r))%N ->
  (m / 2 ^ s = num / den)%N.
Proof.
  intros den_pos den_small cut r_small up.
  pose proof (pow2_pos s) as Ps.
  pose proof (N.div_mod num den ltac:(lia)) as Hnum.
  pose proof (N.mod_lt num den ltac:(lia)) as Hrho.
  set (I := (num / den)%N) in *. set (rho := (num mod den)%N) in *.
  assert (Hlow : (I * 2 ^ s <= m0)%N).
  { assert (den * (I * 2 ^ s) < den * (m0 + 1))%N by nia.
    apply N.mul_lt_mono_pos_l in H; lia. }
  assert (Hhigh : (m0 < (I + 1) * 2 ^ s)%N).
  { assert (den * m0 < den * ((I + 1) * 2 ^ s))%N by nia.
    apply N.mul_lt_mono_pos_l in H; lia. }
  assert (Hm : (I * 2 ^ s <= m < (I + 1) * 2 ^ s)%N).
  { destruct up as [-> | [-> Hr]]; [lia|]. split; [lia|].
    destruct (N.eq_dec (m0 + 1) ((I + 1) * 2 ^ s)) as [E | ?]; [|lia].
    exfalso.
    assert (den * (m0 + 1) = den * ((I + 1) * 2 ^ s))%N by now rewrite E.
    assert (den = r + (den - rho) * 2 ^ s)%N by nia.
    assert (2 ^ s <= (den - rho) * 2 ^ s)%N by nia.
    lia. }
  symmetry. apply (N.div_unique m (2 ^ s) I (m - I * 2 ^ s)); lia.
Qed.

(** Nor does rounding it down fall back onto the integer below. *)
Lemma rounded_ceiling (num den s m0 r m : N) :
  (0 < den)%N -> (den < 2 * 2 ^ s)%N ->
  (num * 2 ^ s = den * m0 + r)%N -> (r < den)%N ->
  (m = m0 \/ (m = m0 + 1 /\ den <= 2 * r))%N ->
  (m = m0 + 1 \/ (m = m0 /\ 2 * r <= den))%N ->
  ((m + (2 ^ s - 1)) / 2 ^ s = (num + (den - 1)) / den)%N.
Proof.
  intros den_pos den_small cut r_small up down.
  pose proof (pow2_pos s) as Ps.
  pose proof (N.div_mod num den ltac:(lia)) as Hnum.
  pose proof (N.mod_lt num den ltac:(lia)) as Hrho.
  set (I := (num / den)%N) in *. set (rho := (num mod den)%N) in *.
  assert (Hlow : (I * 2 ^ s <= m0)%N).
  { assert (den * (I * 2 ^ s) < den * (m0 + 1))%N by nia.
    apply N.mul_lt_mono_pos_l in H; lia. }
  assert (Hhigh : (m0 < (I + 1) * 2 ^ s)%N).
  { assert (den * m0 < den * ((I + 1) * 2 ^ s))%N by nia.
    apply N.mul_lt_mono_pos_l in H; lia. }
  destruct (N.eq_dec rho 0) as [H0 | Hpos].
  - assert (Hm0 : (m0 = I * 2 ^ s)%N).
    { assert (den * m0 + r = den * (I * 2 ^ s))%N by nia.
      assert (den * m0 <= den * (I * 2 ^ s))%N by lia.
      apply N.mul_le_mono_pos_l in H1; lia. }
    assert (Hr0 : r = 0%N) by nia.
    assert (Hmm : m = m0) by (destruct up as [? | [_ ?]]; [assumption | lia]).
    rewrite Hmm, Hm0.
    rewrite <- (N.div_unique (I * 2 ^ s + (2 ^ s - 1)) (2 ^ s) I (2 ^ s - 1))
      by lia.
    apply (N.div_unique (num + (den - 1)) den I (den - 1)); lia.
  - assert (Hm : (I * 2 ^ s < m <= (I + 1) * 2 ^ s)%N).
    { split; [|destruct up as [-> | [-> _]]; lia].
      destruct (N.eq_dec m0 (I * 2 ^ s)) as [E | ?];
        [|destruct up as [-> | [-> _]]; lia].
      assert (Hr : (r = rho * 2 ^ s)%N) by nia.
      destruct down as [-> | [_ Hd]]; [lia|].
      exfalso. assert (2 ^ s <= rho * 2 ^ s)%N by nia. lia. }
    rewrite <- (N.div_unique (m + (2 ^ s - 1)) (2 ^ s) (I + 1)
                  (m - I * 2 ^ s - 1)) by lia.
    apply (N.div_unique (num + (den - 1)) den (I + 1) (rho - 1)); lia.
Qed.

Ltac pick_side :=
  (left; reflexivity) || (right; split; [reflexivity | lia]).

(** The double nearest to a quotient whose numerator is below 2^53:
    its exponent is not positive, and the divisor is less than two
    units of the last binary place. *)
Lemma round_small (neg : bool) (num den : N) :
  (0 < num < 2 ^ 53)%N -> (0 < den)%N -> (N.log2 den <= 1000)%N ->
  exists s m,
    Number.round neg num den = Number.Finite neg m (- Z.of_N s)
    /\ (den < 2 * 2 ^ s)%N
    /\ (m = num * 2 ^ s / den
        \/ (m = num * 2 ^ s / den + 1 /\ den <= 2 * ((num * 2 ^ s) mod den)))%N
    /\ (m = num * 2 ^ s / den + 1
        \/ (m = num * 2 ^ s / den /\ 2 * ((num * 2 ^ s) mod den) <= den))%N.
Proof.
  intros [Hpos Hlt] Hden HB.
  assert (Hp : forall a, (0 < 2 ^ a)%N).
  { intros a. apply N.neq_0_lt_0, N.pow_nonzero. lia. }
  pose proof (N.log2_spec num Hpos) as [Hlo Hhi].
  pose proof (N.log2_spec den Hden) as [Dlo Dhi].
  set (L := N.log2 num) in *. set (B := N.log2 den) in *.
  assert (HL : (L <= 52)%N).
  { destruct (N.le_gt_cases L 52) as [?|Hgt]; [assumption|].
    exfalso. assert (2 ^ 53 <= 2 ^ L)%N by (apply N.pow_le_mono_r; lia). lia. }
  rewrite N.pow_succ_r' in Hhi, Dhi.
  unfold Number.round.
  destruct (N.eqb_spec num 0) as [?|_]; [lia|].
  fold L B.
  set (e0 := (Z.of_N L - Z.of_N B)%Z).
  remember (if (0 <=? e0)%Z then (den * 2 ^ Z.to_N e0 <=? num)%N
            else (den <=? num * 2 ^ Z.to_N (- e0))%N) as reached eqn:Hr.
  symmetry in Hr.
  set (E := if reached then e0 else (e0 - 1)%Z).
  assert (HE : (-1001 <= E <= 52)%Z).
  { unfold E, e0. destruct reached; lia. }
  replace (Z.max (E - 52) (-1074)) with (E - 52)%Z by lia.
  set (s := Z.to_N (52 - E)).
  assert (Hs : (E - 52 = - Z.of_N s)%Z) by (unfold s; lia).
  assert (Hsmall : (den < 2 * 2 ^ s)%N).
  { unfold s, E. destruct reached.
    - destruct (Z.leb_spec 0 e0) as [He | He]; apply N.leb_le in Hr.
      + assert (Hsplit : (2 * 2 ^ Z.to_N (52 - e0) * 2 ^ Z.to_N e0 = 2 ^ 53)%N).
        { rewrite <- N.mul_assoc, <- N.pow_add_r, <- N.pow_succ_r'.
          f_equal. lia. }
        pose proof (Hp (Z.to_N e0)). nia.
      + assert (Hsplit : (2 * 2 ^ Z.to_N (52 - e0)
                          = 2 ^ 53 * 2 ^ Z.to_N (- e0))%N).
        { rewrite <- N.pow_add_r, <- N.pow_succ_r'. f_equal. lia. }
        pose proof (Hp (Z.to_N (- e0))). nia.
    - assert (Hle : (2 * 2 ^ B <= 2 * 2 ^ Z.to_N (52 - (e0 - 1)))%N).
      { apply N.mul_le_mono_l. apply N.pow_le_mono_r; [lia|]. unfold e0. lia. }
      lia. }
  rewrite Hs.
  destruct (Z.leb_spec 0 (- Z.of_N s)) as [Hq | Hq].
  - assert (Hs0 : s = 0%N) by lia.
    exists s. rewrite Hs0 in *. cbn [Z.of_N Z.opp Z.to_N].
    rewrite !N.pow_0_r, !N.mul_1_r.
    change (971 <=? 0)%Z with false. cbn [andb].
    eexists. split; [reflexivity|]. split; [exact Hsmall|].
    destruct (2 * (num mod den) ?= den)%N eqn:Hc.
    + apply N.compare_eq_iff in Hc.
      destruct (N.even (num / den)); split; pick_side.
    + rewrite N.compare_lt_iff in Hc. split; pick_side.
    + rewrite N.compare_gt_iff in Hc. split; pick_side.
  - replace (971 <=? - Z.of_N s)%Z with false
      by (symmetry; apply Z.leb_gt; lia).
    cbn [andb]. rewrite Z.opp_involutive, N2Z.id.
    exists s. eexists. split; [reflexivity|]. split; [exact Hsmall|].
    destruct (2 * ((num * 2 ^ s) mod den) ?= den)%N eqn:Hc.
    + apply N.compare_eq_iff in Hc.
      destruct (N.even (num * 2 ^ s / den)); split; pick_side.
    + rewrite N.compare_lt_iff in Hc. split; pick_side.
    + rewrite N.compare_gt_iff in Hc. split; pick_side.
Qed.

Lemma neg_div_ceiling (a b : N) :
  (0 < b)%N ->
  (- Z.of_N a / Z.of_N b = - Z.of_N ((a + (b - 1)) / b))%Z.
Proof.
  intros Hb.
  pose proof (N.div_mod (a + (b - 1)) b ltac:(lia)) as Hdm.
  pose proof (N.mod_lt (a + (b - 1)) b ltac:(lia)) as Hlt.
  set (Q := ((a + (b - 1)) / b)%N) in *.
  set (R := ((a + (b - 1)) mod b)%N) in *.
  symmetry.
  apply (Z.div_unique_pos (- Z.of_N a) (Z.of_N b) (- Z.of_N Q)
           (Z.of_N (b - 1 - R))); lia.
Qed.

(** The whole part of the double nearest to a quotient is the whole
    part of the quotient, for a numerator below 2^53: rounding to 53
    bits moves the quotient by less than the distance to the next
    integer, in either direction. *)
Lemma floor_round (neg : bool) (num den : N) :
  (num < 2 ^ 53)%N -> (0 < den)%N -> (N.log2 den <= 1000)%N ->
  BigInt_of_number (Number.floor (Number.round neg num den))
  = Returned (if neg then - Z.of_N ((num + (den - 1)) / den)
              else Z.of_N (num / den))%Z.
Proof.
  intros Hnum Hden HB.
  destruct (N.eq_dec num 0) as [-> | Hn0].
  { unfold Number.round. cbn [N.eqb Number.floor Z.leb Z.compare
                             BigInt_of_number].
    rewrite N.Div0.div_0_l.
    replace ((0 + (den - 1)) / den)%N with 0%N
      by (symmetry; apply N.div_small; lia).
    now destruct neg. }
  destruct (round_small neg num den ltac:(lia) Hden HB)
    as (s & m & Hround & Hsmall & Hup & Hdown).
  rewrite Hround.
  pose proof (pow2_pos s) as Ps.
  assert (Hcut : (num * 2 ^ s
                  = den * (num * 2 ^ s / den) + (num * 2 ^ s) mod den)%N)
    by (apply N.div_mod; lia).
  assert (Hr : ((num * 2 ^ s) mod den < den)%N) by (apply N.mod_lt; lia).
  pose proof (rounded_floor num den s _ _ m Hden Hsmall Hcut Hr Hup) as Hfloor.
  pose proof (rounded_ceiling num den s _ _ m Hden Hsmall Hcut Hr Hup Hdown)
    as Hceil.
  unfold Number.floor.
  destruct (Z.leb_spec 0 (- Z.of_N s)) as [Hs | Hs].
  - assert (s = 0%N) by lia. subst s.
    rewrite N.pow_0_r, N.div_1_r in Hfloor.
    change (2 ^ 0 - 1)%N with 0%N in Hceil.
    rewrite N.add_0_r, N.pow_0_r, N.div_1_r in Hceil.
    cbn [BigInt_of_number Z.of_N Z.opp Z.leb Z.compare].
    rewrite Z.pow_0_r, Z.mul_1_r.
    destruct neg; [rewrite <- Hceil | rewrite <- Hfloor]; reflexivity.
  - rewrite Z.opp_involutive.
    assert (E : (2 ^ Z.of_N s)%Z = Z.of_N (2 ^ s))
      by (rewrite N2Z.inj_pow; reflexivity).
    rewrite E.
    cbn [BigInt_of_number Z.leb Z.compare]. rewrite Z.pow_0_r, Z.mul_1_r.
    destruct neg.
    + rewrite neg_div_ceiling by exact Ps.
      rewrite Hceil. rewrite Zabs2N.inj_opp, Zabs2N.id. reflexivity.
    + rewrite <- N2Z.inj_div, Zabs2N.id, Hfloor. reflexivity.
Qed.

Lemma ceiling_scale (a b k : N) :
  (0 < b)%N -> (0 < k)%N ->
  ((a * k + (b * k - 1)) / (b * k) = (a + (b - 1)) / b)%N.
Proof.
  intros Hb Hk.
  pose proof (N.div_mod (a + (b - 1)) b ltac:(lia)) as Hdm.
  pose proof (N.mod_lt (a + (b - 1)) b ltac:(lia)) as Hlt.
  set (Q := ((a + (b - 1)) / b)%N) in *.
  set (R := ((a + (b - 1)) mod b)%N) in *.
  symmetry.
  apply (N.div_unique (a * k + (b * k - 1)) (b * k) Q (R * k + (k - 1))); nia.
Qed.

(** [Math.floor(x / d)] is the quotient of the division that rounds
    down, for an integer [x] between -2^53 and 2^53. *)
Lemma floor_div_exact (x : Z) (d : N) :
  (Z.abs x < 2 ^ 53)%Z -> (0 < d < 2 ^ 53)%N ->
  BigInt_of_number (NumberExt.floor_div x d) = Returned (x / Z.of_N d)%Z.
Proof.
  intros Hx [Hd0 Hd].
  assert (Hlogd : (N.log2 d <= 52)%N).
  { destruct (N.le_gt_cases (N.log2 d) 52) as [?|Hgt]; [assumption|].
    exfalso. pose proof (N.log2_spec d Hd0) as [Hlo _].
    assert (2 ^ 53 <= 2 ^ N.log2 d)%N by (apply N.pow_le_mono_r; lia). lia. }
  assert (Hres : forall (neg : bool) (a : N),
            (if neg then - Z.of_N ((a + (d - 1)) / d)
             else Z.of_N (a / d))%Z
            = ((if neg then - Z.of_N a else Z.of_N a) / Z.of_N d)%Z).
  { intros neg a. destruct neg.
    - now rewrite neg_div_ceiling.
    - now rewrite N2Z.inj_div. }
  unfold NumberExt.floor_div, Number.of_bigint.
  set (n := Z.abs_N x).
  assert (Hn : (n < 2 ^ 53)%N).
  { unfold n. apply N2Z.inj_lt. rewrite N2Z.inj_abs_N.
    change (Z.of_N (2 ^ 53)) with (2 ^ 53)%Z. exact Hx. }
  assert (Hxn : x = (if (x <? 0)%Z then - Z.of_N n else Z.of_N n)%Z).
  { unfold n. rewrite N2Z.inj_abs_N. destruct (Z.ltb_spec x 0); lia. }
  replace (x / Z.of_N d)%Z
    with ((if (x <? 0)%Z then - Z.of_N n else Z.of_N n) / Z.of_N d)%Z
    by (now rewrite <- Hxn).
  rewrite <- Hres.
  destruct (N.eq_dec n 0) as [Hn0 | Hn0].
  { rewrite Hn0. unfold Number.round at 1. cbn [N.eqb Number.div_int Z.leb Z.compare].
    rewrite N.mul_0_l. apply floor_round; [reflexivity | exact Hd0 | lia]. }
  change (Number.round (x <? 0)%Z n 1)
    with (Number.round (x <? 0)%Z n (2 ^ 0)).
  rewrite round_dyadic by lia.
  pose proof (log2_below_53 n ltac:(lia) Hn) as HL.
  pose proof (mantissa_normal n ltac:(lia) Hn) as Hm.
  set (L := N.log2 n) in *.
  pose proof (pow2_pos (52 - L)) as Hsh.
  unfold Number.div_int.
  destruct (Z.leb_spec 0 (Z.of_N L - Z.of_N 0 - 52)) as [He | He].
  - assert (L = 52%N) by lia.
    replace (Z.of_N L - Z.of_N 0 - 52)%Z with 0%Z by lia.
    replace (52 - L)%N with 0%N in * by lia.
    cbn [Z.to_N]. rewrite !N.pow_0_r, !N.mul_1_r.
    apply floor_round; [exact Hn | exact Hd0 | lia].
  - rewrite floor_round.
    + replace (Z.to_N (- (Z.of_N L - Z.of_N 0 - 52))) with (52 - L)%N by lia.
      destruct (x <? 0)%Z.
      * now rewrite ceiling_scale.
      * now rewrite N.Div0.div_mul_cancel_r by lia.
    + lia.
    + replace (Z.to_N (- (Z.of_N L - Z.of_N 0 - 52))) with (52 - L)%N by lia.
      lia.
    + replace (Z.to_N (- (Z.of_N L - Z.of_N 0 - 52))) with (52 - L)%N by lia.
      rewrite N.log2_mul_pow2 by lia. lia.
Qed.

(* ------------------------------------------------------------------ *)
(** * Epochs and timestamps *)
(* ------------------------------------------------------------------ *)

(** X18.  Epochs of 30 seconds, counted from the genesis timestamp,
    for timestamps that are integers of at most 2^53 in absolute
    value.  For a timestamp less than 2^53 seconds away from genesis,
    [timestampToEpoch] is the integer quotient of the distance by 30,
    rounded down, also before genesis; it gives back the epoch of
    every timestamp that [epochToTimestamp] returns; and the epoch it
    returns starts at or before the timestamp and ends after it. *)
Theorem epoch_of_timestamp (genesis : Z) :
  (Z.abs genesis <= 2 ^ 53)%Z ->
  (forall t, (Z.abs t <= 2 ^ 53)%Z -> (Z.abs (t - genesis) < 2 ^ 53)%Z ->
     BigInt_of_number (timestampToEpoch t genesis)
     = Returned ((t - genesis) / 30)%Z)
  /\ (forall e, (Z.abs (e * 30) < 2 ^ 53)%Z ->
        (Z.abs (epochToTimestamp e genesis) <= 2 ^ 53)%Z ->
        BigInt_of_number (timestampToEpoch (epochToTimestamp e genesis) genesis)
        = Returned e)
  /\ (forall t e, (Z.abs t <= 2 ^ 53)%Z -> (Z.abs (t - genesis) < 2 ^ 53)%Z ->
        BigInt_of_number (timestampToEpoch t genesis) = Returned e ->
        (epochToTimestamp e genesis <= t < epochToTimestamp (e + 1) genesis)%Z).
Proof.
  intros _.
  assert (H1 : forall t, (Z.abs (t - genesis) < 2 ^ 53)%Z ->
     BigInt_of_number (timestampToEpoch t genesis)
     = Returned ((t - genesis) / 30)%Z).
  { intros t Ht. unfold timestampToEpoch.
    rewrite floor_div_exact; [reflexivity | exact Ht |].
    split; [reflexivity | now apply N.ltb_lt]. }
  split; [intros t _; exact (H1 t)|]. split.
  - intros e He _. unfold epochToTimestamp.
    rewrite H1 by (replace (genesis + e * 30 - genesis)%Z with (e * 30)%Z by lia;
                   exact He).
    replace (genesis + e * 30 - genesis)%Z with (e * 30)%Z by lia.
    now rewrite Z.div_mul.
  - intros t e _ Ht He. rewrite (H1 t Ht) in He. injection He as <-.
    unfold epochToTimestamp.
    pose proof (Z.div_mod (t - genesis) 30 ltac:(lia)) as Hdm.
    pose proof (Z.mod_pos_bound (t - genesis) 30 ltac:(lia)) as Hb.
    lia.
Qed.

(** The second before the default genesis belongs to epoch -1. *)
Lemma epoch_of_timestamp_before_genesis :
  (Z.abs default_genesis <= 2 ^ 53)%Z
  /\ BigInt_of_number (timestampToEpoch (default_genesis - 1) default_genesis)
     = Returned (-1)%Z.
Proof.
  assert (H : (Z.abs default_genesis <= 2 ^ 53)%Z) by (vm_compute; discriminate).
  split; [exact H|].
  refine (proj1 (epoch_of_timestamp default_genesis H) (default_genesis - 1)%Z _ _).
  - vm_compute; discriminate.
  - reflexivity.
Defined.

(* ------------------------------------------------------------------ *)
(** * Durations in epochs *)
(* ------------------------------------------------------------------ *)

(** A number that is an integer compares as that integer. *)
Lemma gt_int_integer (x : Number.t) (z n : Z) :
  BigInt_of_number x = Returned z -> NumberExt.gt_int x n = (n <? z)%Z.
Proof.
  destruct x as [| neg | neg m e]; try discriminate.
  unfold BigInt_of_number, NumberExt.gt_int.
  set (v := (if neg then - Z.of_N m else Z.of_N m)%Z).
  destruct (Z.leb_spec 0 e) as [He | He].
  - intros [= <-]. reflexivity.
  - destruct (Z.eqb_spec (v mod 2 ^ (- e)) 0) as [Hmod | Hmod]; [|discriminate].
    intros [= <-].
    assert (Hp : (0 < 2 ^ (- e))%Z) by (apply Z.pow_pos_nonneg; lia).
    pose proof (Z.div_mod v (2 ^ (- e)) ltac:(lia)) as Hdm.
    rewrite Hmod, Z.add_0_r in Hdm.
    destruct (Z.ltb_spec n (v / 2 ^ (- e)));
      [apply Z.ltb_lt | apply Z.ltb_ge]; nia.
Qed.

Lemma duration_part_integer (x : Number.t) (n : N) (suffix : string) :
  BigInt_of_number x = Returned (Z.of_N n) -> (n < 2 ^ 53)%N ->
  duration_part x suffix
  = Some (if (0 <? n)%N then [(decimal n ++ suffix)%string] else []).
Proof.
  intros Hx Hn. unfold duration_part.
  rewrite (gt_int_integer x _ 0 Hx), (String_of_number_integer x n Hx Hn).
  destruct (N.ltb_spec 0 n), (Z.ltb_spec 0 (Z.of_N n)); try reflexivity; lia.
Qed.

Lemma floor_div_nat (n d : N) :
  (n < 2 ^ 53)%N -> (0 < d < 2 ^ 53)%N ->
  BigInt_of_number (NumberExt.floor_div (Z.of_N n) d) = Returned (Z.of_N (n / d)).
Proof.
  intros Hn Hd. rewrite floor_div_exact.
  - now rewrite N2Z.inj_div.
  - rewrite Z.abs_eq by lia.
    apply Z.lt_le_trans with (Z.of_N (2 ^ 53)); [lia | now apply Z.leb_le].
  - exact Hd.
Qed.

Lemma join_first (sep p : string) (rest : list string) :
  exists t, join sep (p :: rest) = p ++ t.
Proof.
  destruct rest as [|q rest].
  - exists "". cbn [join]. now rewrite str_app_empty_r.
  - exists (sep ++ join sep (q :: rest)). reflexivity.
Qed.

(** A part of a duration is never empty, and a part that is not zero
    does not start the text ["0m"]. *)
Lemma duration_text (n : N) (x : ascii) (rest : list string) :
  (0 < n)%N ->
  let text := join " " ((decimal n ++ String x "") :: rest) in
  is_empty text = false /\ text <> "0m".
Proof.
  intros Hn text.
  destruct (join_first " " (decimal n ++ String x "") rest) as (t & Et).
  fold text in Et. rewrite str_app_assoc in Et.
  destruct (decimal_nonempty n) as (c & s & E & Hc).
  rewrite E in Et. cbn [append] in Et. rewrite Et.
  split; [reflexivity|].
  intros H. injection H as -> H.
  destruct s as [|c' s].
  - pose proof (decimal_value n) as Hv. rewrite E in Hv. vm_compute in Hv. lia.
  - cbn [append] in H. injection H as _ H. destruct s; discriminate.
Qed.

(** X19.  [formatEpochDuration] writes a number of epochs below 2^53
    as days, hours and minutes: the three numbers are the quotients
    that make up the duration to within the odd epoch, with less than
    24 hours and less than 60 minutes; the parts that are zero are
    left out, and a duration of less than two epochs, where all are
    zero, is ["0m"]. *)
Theorem formatEpochDuration_parts (epochs : N) :
  (epochs < 2 ^ 53)%N ->
  let days := (epochs / 2880)%N in
  let hours := (epochs mod 2880 / 120)%N in
  let minutes := (epochs mod 120 / 2)%N in
  let parts :=
    ((if (0 <? days)%N then [(decimal days ++ "d")%string] else [])
     ++ (if (0 <? hours)%N then [(decimal hours ++ "h")%string] else [])
     ++ (if (0 <? minutes)%N then [(decimal minutes ++ "m")%string] else []))%list in
  formatEpochDuration epochs
  = Some (match parts with [] => "0m" | _ => join " " parts end)
  /\ (days * 2880 + hours * 120 + minutes * 2 + epochs mod 2 = epochs)%N
  /\ (hours < 24)%N /\ (minutes < 60)%N
  /\ (formatEpochDuration epochs = Some "0m" <-> (epochs < 2)%N).
Proof.
  intros Hsafe days hours minutes parts.
  assert (Hmod1 : (epochs mod 2880 < 2880)%N) by (apply N.mod_lt; lia).
  assert (Hmod2 : (epochs mod 120 < 120)%N) by (apply N.mod_lt; lia).
  assert (P53 : (2880 < 2 ^ 53)%N) by now apply N.ltb_lt.
  assert (Hdays : (days < 2 ^ 53)%N).
  { unfold days. apply N.le_lt_trans with epochs; [|exact Hsafe].
    apply N.Div0.div_le_upper_bound. lia. }
  assert (Hhours : (hours < 24)%N).
  { unfold hours. apply N.Div0.div_lt_upper_bound. lia. }
  assert (Hminutes : (minutes < 60)%N).
  { unfold minutes. apply N.Div0.div_lt_upper_bound. lia. }
  assert (Hparts : (parts = [] /\ days = 0 /\ hours = 0 /\ minutes = 0)%N
                   \/ exists n x rest,
                        (0 < n)%N
                        /\ parts = (decimal n ++ String x "") :: rest).
  { unfold parts.
    destruct (N.ltb_spec 0 days) as [Hd|Hd];
      [right; exists days; cbn [app]; eauto|].
    destruct (N.ltb_spec 0 hours) as [Hh|Hh];
      [right; exists hours; cbn [app]; eauto|].
    destruct (N.ltb_spec 0 minutes) as [Hm|Hm];
      [right; exists minutes; cbn [app]; eauto|].
    left. repeat split; lia. }
  assert (Hformat : formatEpochDuration epochs
                    = Some (match parts with [] => "0m" | _ => join " " parts end)).
  { unfold formatEpochDuration.
    rewrite (duration_part_integer _ days "d");
      [|apply floor_div_nat; [exact Hsafe | lia] | exact Hdays].
    rewrite (duration_part_integer _ hours "h");
      [|apply floor_div_nat; lia | lia].
    rewrite (duration_part_integer _ minutes "m");
      [|apply floor_div_nat; lia | lia].
    fold parts. f_equal.
    destruct Hparts as [(-> & _) | (n & x & rest & Hn & ->)]; [reflexivity|].
    now rewrite (proj1 (duration_text n x rest Hn)). }
  assert (Hsum : (days * 2880 + hours * 120 + minutes * 2 + epochs mod 2
                  = epochs)%N).
  { unfold days, hours, minutes.
    pose proof (N.div_mod epochs 2880 ltac:(lia)) as E1.
    pose proof (N.div_mod (epochs mod 2880) 120 ltac:(lia)) as E2.
    pose proof (N.div_mod (epochs mod 120) 2 ltac:(lia)) as E3.
    assert (M1 : ((epochs mod 2880) mod 120 = epochs mod 120)%N).
    { pose proof (N.Div0.mod_mul_r epochs 120 24) as E.
      change (120 * 24)%N with 2880%N in E. rewrite E.
      rewrite (N.mul_comm 120), N.Div0.mod_add.
      apply N.Div0.mod_mod. }
    assert (M2 : ((epochs mod 120) mod 2 = epochs mod 2)%N).
    { pose proof (N.Div0.mod_mul_r epochs 2 60) as E.
      change (2 * 60)%N with 120%N in E. rewrite E.
      rewrite (N.mul_comm 2), N.Div0.mod_add.
      apply N.Div0.mod_mod. }
    lia. }
  split; [exact Hformat|]. split; [exact Hsum|].
  split; [exact Hhours|]. split; [exact Hminutes|].
  rewrite Hformat.
  pose proof (N.mod_lt epochs 2 ltac:(lia)) as Hodd.
  destruct Hparts as [(-> & Hd & Hh & Hm) | (n & x & rest & Hn & Hp)].
  - split; [intros _; lia | reflexivity].
  - rewrite Hp.
    split.
    + intros [= H]. now destruct (proj2 (duration_text n x rest Hn)).
    + intros H. exfalso.
      assert (days = 0%N) by (unfold days; apply N.div_small; lia).
      assert (hours = 0%N).
      { unfold hours. rewrite N.mod_small by lia. apply N.div_small. lia. }
      assert (minutes = 0%N).
      { unfold minutes. rewrite N.mod_small by lia.
        assert (C : (epochs = 0 \/ epochs = 1)%N) by lia.
        destruct C as [-> | ->]; reflexivity. }
      unfold parts in Hp.
      replace days with 0%N in Hp. replace hours with 0%N in Hp.
      replace minutes with 0%N in Hp. discriminate Hp.
Qed.

(** A duration of two days, three hours and a minute and a half. *)
Lemma formatEpochDuration_parts_sample :
  (6123 < 2 ^ 53)%N /\ formatEpochDuration 6123 = Some "2d 3h 1m".
Proof.
  split; [reflexivity|].
  exact (proj1 (formatEpochDuration_parts 6123 eq_refl)).
Defined.

(* ------------------------------------------------------------------ *)
(** * Sizes read back *)
(* ------------------------------------------------------------------ *)

(** [parseFloat] of digits, a point and digits. *)
Lemma parseFloat_fraction (ip fp : string) :
  ip <> "" -> str_forall is_digit ip = true ->
  fp <> "" -> str_forall is_digit fp = true ->
  Number.parseFloat (ip ++ "." ++ fp)
  = Number.round false (digits_value 0 (ip ++ fp))
      (10 ^ N.of_nat (String.length fp)).
Proof.
  intros Hip Hdi Hfp Hdf. unfold Number.parseFloat.
  destruct ip as [|c s]; [congruence|].
  assert (Hc : is_digit c = true).
  { simpl in Hdi. now apply andb_true_iff in Hdi as [? _]. }
  cbn [append]. rewrite trimStart_id by (now apply digit_not_space).
  rewrite (any_sign_digit c _ Hc), (not_Infinity_digit c _ Hc).
  pose proof (span_all is_digit (String c s) (String "." fp) Hdi
                dot_not_digit) as Hspan.
  cbn [append] in Hspan. rewrite Hspan.
  rewrite (span_digits fp Hdf).
  destruct fp as [|d fp]; [congruence|].
  cbn [is_empty andb].
  assert (Hk : (0 <=? 0 - Z.of_nat (String.length (String d fp)))%Z = false).
  { apply Z.leb_gt. cbn [String.length]. lia. }
  rewrite Hk. reflexivity.
Qed.

Lemma hundredths_lower (h : N) (unit name : string) :
  toLowerCase unit = name ->
  toLowerCase (hundredths h unit)
  = (decimal (h / 100) ++ "." ++ BigNumber.pad_left 2 (decimal (h mod 100)))
    ++ " " ++ name.
Proof.
  intros Hunit.
  assert (Hm : (h mod 100 < 10 ^ N.of_nat 2)%N) by (apply N.mod_lt; discriminate).
  destruct (pad_left_spec 2 (h mod 100) ltac:(lia) Hm) as (_ & Hd & _).
  unfold hundredths, toLowerCase in *. rewrite !str_map_app, Hunit.
  rewrite (str_map_id lower_char is_digit (decimal (h / 100)) digit_lower_char
             (decimal_digits _)).
  rewrite (str_map_id lower_char is_digit _ digit_lower_char Hd).
  now rewrite !str_app_assoc.
Qed.

(** What [parseBytes] reads in a text of [formatBytes]: the whole
    units, without the hundredths. *)
Lemma parseBytes_hundredths (h : N) (unit name : string) (multiplier : Z) :
  (h < 2 ^ 53)%N -> In (name, multiplier) byte_units ->
  toLowerCase unit = name ->
  parseBytes (hundredths h unit) = Returned (Z.of_N (h / 100) * multiplier)%Z.
Proof.
  intros Hsafe Hin Hunit.
  destruct (byte_units_facts name multiplier Hin) as (Hne & Hlow & Hcons & Hlook).
  assert (Hm : (h mod 100 < 10 ^ N.of_nat 2)%N) by (apply N.mod_lt; discriminate).
  destruct (pad_left_spec 2 (h mod 100) ltac:(lia) Hm) as (Hlen & Hd & Hv).
  cbv zeta in Hlen, Hd, Hv.
  set (ip := decimal (h / 100)) in *.
  set (fp := BigNumber.pad_left 2 (decimal (h mod 100))) in *.
  assert (Hfp : fp <> "") by (intros E; rewrite E in Hlen; discriminate).
  unfold parseBytes. rewrite (hundredths_lower h unit name Hunit).
  fold ip fp.
  rewrite (SIZE_PATTERN_exec (ip ++ "." ++ fp) " " name).
  - rewrite Hlook, Hcons.
    rewrite (parseFloat_fraction ip fp (decimal_not_empty _) (decimal_digits _)
               Hfp Hd).
    rewrite digits_value_app, digits_value_acc, Hlen, Hv.
    unfold ip. rewrite decimal_value.
    change (10 ^ N.of_nat 2)%N with 100%N.
    replace (h / 100 * 100 + h mod 100)%N with h
      by (rewrite (N.div_mod h 100) at 1; lia).
    rewrite floor_round; [reflexivity | exact Hsafe | lia | now apply N.leb_le].
  - unfold ip. destruct (decimal_nonempty (h / 100)) as (c & s & -> & _).
    discriminate.
  - rewrite !str_forall_app. cbn [str_forall].
    rewrite (str_forall_impl is_digit digit_or_dot ip digit_is_digit_or_dot
               (decimal_digits _)).
    rewrite (str_forall_impl is_digit digit_or_dot fp digit_is_digit_or_dot Hd).
    reflexivity.
  - reflexivity.
  - exact Hne.
  - exact Hlow.
Qed.

Lemma size_unit_multiplier (k : nat) :
  k <= 6 ->
  In (toLowerCase (nth k size_units ""), (1024 ^ Z.of_nat k)%Z) byte_units.
Proof.
  intros Hk.
  do 7 (destruct k as [|k]; [vm_compute; tauto|]). lia.
Qed.

Lemma digit_value_bound (c : ascii) :
  is_digit c = true -> (digit_value c < 10)%N.
Proof. all_chars c. Qed.

Lemma digits_value_bound (s : string) :
  str_forall is_digit s = true ->
  (digits_value 0 s < 10 ^ N.of_nat (String.length s))%N.
Proof.
  induction s as [|c s IH]; intros H; [reflexivity|].
  cbn [str_forall] in H. apply andb_true_iff in H as [Hc Hs].
  rewrite digits_value_0. cbn [String.length].
  rewrite Nat2N.inj_succ, N.pow_succ_r'.
  pose proof (digit_value_bound c Hc). specialize (IH Hs). nia.
Qed.

(** [parseBytes] on a number with decimals: the decimals are dropped
    when the digits, without the point, make a whole number below
    2^53. *)
Lemma parseBytes_fraction (ip fp ws unit name : string) (multiplier : Z) :
  ip <> "" -> str_forall is_digit ip = true ->
  fp <> "" -> str_forall is_digit fp = true ->
  String.length fp <= 300 ->
  (digits_value 0 (ip ++ fp) < 2 ^ 53)%N ->
  In (name, multiplier) byte_units ->
  toLowerCase unit = name -> str_forall is_space ws = true ->
  parseBytes (ip ++ "." ++ fp ++ ws ++ unit)
  = Returned (Z.of_N (digits_value 0 ip) * multiplier)%Z.
Proof.
  intros Hip Hdi Hfp Hdf Hlen Hsafe Hin Hunit Hws.
  destruct (byte_units_facts name multiplier Hin) as (Hne & Hlow & Hcons & Hlook).
  assert (Hlower : toLowerCase (ip ++ "." ++ fp ++ ws ++ unit)
                   = (ip ++ "." ++ fp) ++ ws ++ name).
  { unfold toLowerCase in *. rewrite !str_map_app, Hunit.
    rewrite (str_map_id lower_char is_digit ip digit_lower_char Hdi).
    rewrite (str_map_id lower_char is_digit fp digit_lower_char Hdf).
    rewrite (str_map_id lower_char is_space ws space_lower_char Hws).
    cbn [str_map]. change (lower_char ".") with "."%char.
    now rewrite !str_app_assoc. }
  unfold parseBytes. rewrite Hlower.
  rewrite (SIZE_PATTERN_exec (ip ++ "." ++ fp) ws name).
  - rewrite Hlook, Hcons.
    rewrite (parseFloat_fraction ip fp Hip Hdi Hfp Hdf).
    pose proof (digits_value_bound fp Hdf) as Hb.
    assert (Hp : (0 < 10 ^ N.of_nat (String.length fp))%N)
      by (apply N.neq_0_lt_0, N.pow_nonzero; lia).
    assert (Hlog : (N.log2 (10 ^ N.of_nat (String.length fp)) <= 1000)%N).
    { apply N.le_trans with (N.log2 (10 ^ 300)); [|now apply N.leb_le].
      apply N.log2_le_mono. apply N.pow_le_mono_r; lia. }
    rewrite floor_round by assumption.
    rewrite digits_value_app, digits_value_acc.
    rewrite N.div_add_l by lia. rewrite (N.div_small _ _ Hb), N.add_0_r.
    reflexivity.
  - destruct ip; [congruence | discriminate].
  - rewrite !str_forall_app. cbn [str_forall].
    rewrite (str_forall_impl is_digit digit_or_dot ip digit_is_digit_or_dot Hdi).
    rewrite (str_forall_impl is_digit digit_or_dot fp digit_is_digit_or_dot Hdf).
    reflexivity.
  - exact Hws.
  - exact Hne.
  - exact Hlow.
Qed.

(** C9 (as amended).  [formatBytes] goes up one unit for each factor of
    1024 and then rounds once, to the nearest hundredth (the larger one
    of two), which is what [Number.prototype.toFixed] does; it does not
    cut.  [parseBytes] accepts the units KiB to EiB as powers of 1024
    and KB to PB as powers of 1000, in either case of letters and with
    or without white space before the unit, and multiplies the unit by
    the number in front of it, read as a double and cut to a whole
    number.  Both compute with doubles: for a byte count, or a number
    in front of the unit, that is a whole number below 2^53 the
    results are exact; the decimals of a number in front of the unit
    are dropped when its digits, without the point, make a whole number
    below 2^53; with more digits the double can be the next whole
    number, as for ["1.9999999999999999999 kb"], which gives 2000. *)
Theorem byte_sizes_round_to_nearest :
  (forall n : N, (n < 2 ^ 53)%N ->
     exists k h,
       k <= 6
       /\ (k = 0 \/ (1024 ^ N.of_nat k <= n)%N)
       /\ (n < 1024 ^ N.of_nat (k + 1))%N
       /\ (2 * h * 1024 ^ N.of_nat k <= 200 * n + 1024 ^ N.of_nat k
           < 2 * (h + 1) * 1024 ^ N.of_nat k)%N
       /\ formatBytes (Z.of_N n) = Some (hundredths h (nth k size_units "")))
  /\ (forall (v : N) (ws unit name : string) (multiplier : Z),
        (v < 2 ^ 53)%N -> In (name, multiplier) byte_units ->
        toLowerCase unit = name -> str_forall is_space ws = true ->
        parseBytes (decimal v ++ ws ++ unit)
        = Returned (Z.of_N v * multiplier)%Z)
  /\ (forall (ip fp ws unit name : string) (multiplier : Z),
        ip <> "" -> str_forall is_digit ip = true ->
        fp <> "" -> str_forall is_digit fp = true ->
        String.length fp <= 300 ->
        (digits_value 0 (ip ++ fp) < 2 ^ 53)%N ->
        In (name, multiplier) byte_units ->
        toLowerCase unit = name -> str_forall is_space ws = true ->
        parseBytes (ip ++ "." ++ fp ++ ws ++ unit)
        = Returned (Z.of_N (digits_value 0 ip) * multiplier)%Z)
  /\ formatBytes 1536 = Some "1.50 KiB"
  /\ formatBytes 1048576 = Some "1.00 MiB"
  /\ parseBytes "1 KiB" = Returned 1024%Z
  /\ parseBytes "1KB" = Returned 1000%Z
  /\ parseBytes "2 PB" = Returned 2000000000000000%Z
  /\ parseBytes "3EiB" = Returned 3458764513820540928%Z
  /\ parseBytes "1.5 KiB" = Returned 1024%Z
  /\ parseBytes "1.99 kb" = Returned 1000%Z
  /\ parseBytes "1.9999999999999999999 kb" = Returned 2000%Z.
Proof.
  split; [exact formatBytes_exact|].
  split; [exact parseBytes_exact|].
  split; [exact parseBytes_fraction|].
  repeat split; reflexivity.
Qed.

(** C9, the claim as written fails: 1535 bytes are 1.4990234375 KiB,
    which [formatBytes] prints as ["1.50 KiB"], rounded, where cutting
    to two decimals gives ["1.49 KiB"]; and [parseBytes] reads
    9007199254740993 through a double and returns 9007199254740992. *)
Lemma formatBytes_rounds_up :
  formatBytes 1535 = Some "1.50 KiB"
  /\ formatBytes_truncating 1535 = "1.49 KiB"
  /\ parseBytes "9007199254740993b" = Returned 9007199254740992%Z.
Proof. repeat split; reflexivity. Qed.

(** X17.  What [parseBytes] makes of the text that [formatBytes] prints
    for a size below 2^53: the hundredths are dropped, so that the
    result is a whole number of the unit printed, more than the size
    less one unit and at most a two-hundredth of a unit above it; it is
    the size exactly when the size is a whole number of that unit. *)
Theorem parseBytes_of_formatBytes (n : N) :
  (n < 2 ^ 53)%N ->
  exists (k : nat) (text : string) (r : N),
    k <= 6
    /\ (k = 0 \/ (1024 ^ N.of_nat k <= n)%N)
    /\ (n < 1024 ^ N.of_nat (k + 1))%N
    /\ formatBytes (Z.of_N n) = Some text
    /\ parseBytes text = Returned (Z.of_N r)
    /\ (r mod 1024 ^ N.of_nat k = 0)%N
    /\ (n < r + 1024 ^ N.of_nat k)%N
    /\ (200 * r <= 200 * n + 1024 ^ N.of_nat k)%N
    /\ (r = n <-> (n mod 1024 ^ N.of_nat k = 0)%N).
Proof.
  intros Hsafe.
  destruct (formatBytes_exact n Hsafe) as (k & h & Hk & Hlo & Hhi & Hh & Hf).
  set (P := (1024 ^ N.of_nat k)%N) in *.
  assert (HP : (0 < P)%N) by (apply N.neq_0_lt_0, N.pow_nonzero; lia).
  assert (HP1 : (1024 ^ N.of_nat (k + 1) = 1024 * P)%N).
  { unfold P. rewrite Nat.add_1_r, Nat2N.inj_succ, N.pow_succ_r'. reflexivity. }
  rewrite HP1 in Hhi.
  assert (Hhs : (h < 2 ^ 53)%N).
  { assert (Hlt : (2 * h * P < 204801 * P)%N) by lia.
    apply N.mul_lt_mono_pos_r in Hlt; [|exact HP].
    assert (h <= 102400)%N by lia.
    apply N.le_lt_trans with 102400%N; [assumption | reflexivity]. }
  exists k, (hundredths h (nth k size_units "")), (h / 100 * P)%N.
  pose proof (N.div_mod h 100 ltac:(lia)) as Hdm.
  pose proof (N.mod_lt h 100 ltac:(lia)) as Hml.
  set (q := (h / 100)%N) in *.
  split; [exact Hk|]. split; [exact Hlo|]. split; [rewrite HP1; exact Hhi|].
  split; [exact Hf|]. split.
  { rewrite (parseBytes_hundredths h _ _ (1024 ^ Z.of_nat k) Hhs
               (size_unit_multiplier k Hk) eq_refl).
    fold q. unfold P. rewrite N2Z.inj_mul, N2Z.inj_pow, nat_N_Z. reflexivity. }
  fold P.
  assert (HhP : (h * P = 100 * (q * P) + h mod 100 * P)%N)
    by (rewrite Hdm at 1; lia).
  assert (HmP : (h mod 100 * P <= 99 * P)%N)
    by (apply N.mul_le_mono_r; lia).
  assert (Hh' : (2 * (h * P) <= 200 * n + P < 2 * (h * P) + 2 * P)%N) by lia.
  clear Hh Hf Hlo HP1. clearbody q P.
  assert (Hmul : ((q * P) mod P = 0)%N) by apply N.Div0.mod_mul.
  remember (h mod 100)%N as m eqn:Em. remember (m * P)%N as mP eqn:EmP.
  remember (h * P)%N as hP eqn:EhP. remember (q * P)%N as qP eqn:EqP.
  split; [exact Hmul|].
  split; [lia|]. split; [lia|].
  split.
  - intros <-. exact Hmul.
  - intros Hmod.
    pose proof (N.div_mod n P ltac:(lia)) as Hn. rewrite Hmod, N.add_0_r in Hn.
    remember (n / P)%N as c eqn:Ec.
    assert (Hhc : h = (100 * c)%N).
    { assert (L1 : (2 * h * P < (200 * c + 2) * P)%N).
      { replace (2 * h * P)%N with (2 * hP)%N by lia.
        replace ((200 * c + 2) * P)%N with (200 * (P * c) + 2 * P)%N by lia.
        lia. }
      assert (L2 : ((200 * c + 1) * P < (2 * h + 2) * P)%N).
      { replace ((2 * h + 2) * P)%N with (2 * hP + 2 * P)%N by lia.
        replace ((200 * c + 1) * P)%N with (200 * (P * c) + P)%N by lia.
        lia. }
      apply N.mul_lt_mono_pos_r in L1; [|exact HP].
      apply N.mul_lt_mono_pos_r in L2; [|exact HP]. lia. }
    assert (q = c) by lia. subst q qP. lia.
Qed.

(** A kibibyte and a half reads back as one kibibyte. *)
Lemma parseBytes_of_formatBytes_sample :
  (1536 < 2 ^ 53)%N
  /\ exists (k : nat) (text : string) (r : N),
       k <= 6
       /\ (k = 0 \/ (1024 ^ N.of_nat k <= 1536)%N)
       /\ (1536 < 1024 ^ N.of_nat (k + 1))%N
       /\ formatBytes 1536 = Some text
       /\ parseBytes text = Returned (Z.of_N r)
       /\ (r mod 1024 ^ N.of_nat k = 0)%N
       /\ (1536 < r + 1024 ^ N.of_nat k)%N
       /\ (200 * r <= 200 * 1536 + 1024 ^ N.of_nat k)%N
       /\ (r = 1536%N <-> (1536 mod 1024 ^ N.of_nat k = 0)%N).
Proof.
  split; [reflexivity|].
  exact (parseBytes_of_formatBytes 1536 eq_refl).
Defined.

(* ------------------------------------------------------------------ *)
(** * The address operations of the utility resource *)
(* ------------------------------------------------------------------ *)

Lemma validateAddress_0x (address : string) :
  startsWith address "0x" = true ->
  validateAddress address = regex_test ETH_ADDRESS address.
Proof.
  intros H. destruct address as [|c rest]; [discriminate|].
  apply startsWith_first in H as Hc. subst c.
  rewrite validateAddress_other by reflexivity. now rewrite H.
Qed.

Lemma eth_looks_like_eth (address : string) :
  regex_test ETH_ADDRESS address = true -> looks_like_eth address = true.
Proof.
  intros H. apply ETH_ADDRESS_iff in H as (h & -> & Hl & _).
  unfold looks_like_eth. cbn [append String.length].
  rewrite Hl. destruct h; reflexivity.
Qed.

Lemma looks_like_eth_0x (address : string) :
  looks_like_eth address = true -> startsWith address "0x" = true.
Proof. unfold looks_like_eth. now intros [H _]%andb_true_iff. Qed.

Lemma delegated_lower (t : bool) (h : string) :
  str_forall lower_hex_char h = true ->
  toLowerCase ((if t then "t" else "f") ++ "410f" ++ h)
  = (if t then "t" else "f") ++ "410f" ++ h.
Proof.
  intros Hh.
  assert (E : toLowerCase h = h).
  { unfold toLowerCase. apply (str_map_id lower_char lower_hex_char); [|exact Hh].
    intros c. all_chars c. }
  destruct t; unfold toLowerCase in *; cbn [append str_map];
    rewrite E; reflexivity.
Qed.

(** The conversion of an Ethereum address that the validator accepts. *)
Lemma convertAddress_eth (h : string) :
  String.length h = 40 -> str_forall hex_char h = true ->
  convertAddress_operation ("0x" ++ h)
  = Returned (ConvertedAddress.Make ("0x" ++ h) ("f410f" ++ toLowerCase h)
                (Some ("0x" ++ toLowerCase h)) "Ethereum to Filecoin").
Proof.
  intros Hl Hh.
  assert (He : regex_test ETH_ADDRESS ("0x" ++ h) = true)
    by (apply ETH_ADDRESS_iff; eauto).
  unfold convertAddress_operation.
  rewrite (eth_looks_like_eth _ He). unfold ethAddressToFilecoin.
  rewrite He. reflexivity.
Qed.

(** The conversion of a delegated address in lower case. *)
Lemma convertAddress_delegated (t : bool) (h : string) :
  String.length h = 40 -> str_forall lower_hex_char h = true ->
  let a := (if t then "t" else "f") ++ "410f" ++ h in
  convertAddress_operation a
  = Returned (ConvertedAddress.Make a a (Some ("0x" ++ h))
                "Filecoin to Ethereum").
Proof.
  intros Hl Hh a.
  destruct (delegated_address_facts t h Hl Hh)
    as (Hv & _ & _ & _ & _ & _ & _ & _ & Heth).
  fold a in Hv, Heth.
  unfold convertAddress_operation.
  assert (Hlook : looks_like_eth a = false) by (subst a; now destruct t).
  rewrite Hlook, Hv, Heth, normalizeAddress_toLowerCase.
  subst a. now rewrite (delegated_lower t h Hh).
Qed.

(** X20.  The operation [convertAddress].  It returns exactly for the
    addresses that the validator accepts, and otherwise fails with
    ["Invalid Ethereum address"] when the input starts with [0x] and
    has 42 characters, and with ["Invalid address: "] and the input
    when not.  The Filecoin address of the result is valid and in lower
    case; for an Ethereum address it is on the main network.  When the
    result has an Ethereum address, converting that address gives it
    back in lower case, with the Filecoin address moved to the main
    network, and converting the Filecoin address gives the same
    pair. *)
Theorem convertAddress_operation_result (address : string) :
  match convertAddress_operation address with
  | Returned r =>
      validateAddress address = true
      /\ ConvertedAddress.input r = address
      /\ validateAddress (ConvertedAddress.filecoin r) = true
      /\ toLowerCase (ConvertedAddress.filecoin r) = ConvertedAddress.filecoin r
      /\ (ConvertedAddress.type r = "Ethereum to Filecoin"
          <-> isEthAddress address = true)
      /\ (isEthAddress address = true ->
          getNetworkFromAddress (ConvertedAddress.filecoin r) = "mainnet"
          /\ ConvertedAddress.ethereum r = Some (toLowerCase address))
      /\ (forall e,
            ConvertedAddress.ethereum r = Some e ->
            isEthAddress e = true
            /\ convertAddress_operation e
               = Returned
                   (ConvertedAddress.Make e
                      (convertAddressNetwork (ConvertedAddress.filecoin r) false)
                      (Some (toLowerCase e)) "Ethereum to Filecoin")
            /\ convertAddress_operation (ConvertedAddress.filecoin r)
               = Returned
                   (ConvertedAddress.Make (ConvertedAddress.filecoin r)
                      (ConvertedAddress.filecoin r)
                      (Some (toLowerCase e)) "Filecoin to Ethereum"))
  | Thrown m =>
      validateAddress address = false
      /\ m = if looks_like_eth address then "Invalid Ethereum address"
             else "Invalid address: " ++ address
  end.
Proof.
  destruct (looks_like_eth address) eqn:Hlook.
  - pose proof (validateAddress_0x address (looks_like_eth_0x _ Hlook)) as Hv.
    destruct (regex_test ETH_ADDRESS address) eqn:He.
    + apply ETH_ADDRESS_iff in He as (h & -> & Hl & Hh).
      rewrite (convertAddress_eth h Hl Hh).
      cbn [ConvertedAddress.input ConvertedAddress.filecoin
           ConvertedAddress.ethereum ConvertedAddress.type].
      assert (Hll : String.length (toLowerCase h) = 40)
        by now rewrite toLowerCase_hex_length.
      assert (Hlh : str_forall lower_hex_char (toLowerCase h) = true)
        by now apply toLowerCase_hex.
      assert (Hhh : str_forall hex_char (toLowerCase h) = true).
      { eapply str_forall_impl; [|exact Hlh]. apply hex_of_lower_hex. }
      destruct (delegated_address_facts false (toLowerCase h) Hll Hlh)
        as (Hfv & _ & _ & _ & _ & _ & _ & Hnet & _).
      cbv zeta in Hfv, Hnet. cbn [append] in Hfv, Hnet.
      pose proof (delegated_lower false (toLowerCase h) Hlh) as Hlow.
      cbn [append] in Hlow.
      assert (Heth : isEthAddress ("0x" ++ h) = true)
        by (apply ETH_ADDRESS_iff; eauto).
      split; [exact Hv|]. split; [reflexivity|]. split; [exact Hfv|].
      split; [exact Hlow|]. split; [now split|].
      split; [intros _; split; [exact Hnet | reflexivity]|].
      intros e [= <-].
      split; [apply ETH_ADDRESS_iff; exists (toLowerCase h); auto|].
      assert (Hidem : toLowerCase ("0x" ++ toLowerCase h) = "0x" ++ toLowerCase h).
      { change (toLowerCase ("0x" ++ toLowerCase h))
          with ("0x" ++ toLowerCase (toLowerCase h)).
        now rewrite toLowerCase_idempotent. }
      apply conj.
      * change (String "0" (String "x" (toLowerCase h)))
          with ("0x" ++ toLowerCase h).
        rewrite (convertAddress_eth (toLowerCase h) Hll Hhh).
        rewrite toLowerCase_idempotent, Hidem. reflexivity.
      * change (String "0" (String "x" (toLowerCase h)))
          with ("0x" ++ toLowerCase h).
        rewrite Hidem.
        exact (convertAddress_delegated false (toLowerCase h) Hll Hlh).
    + unfold convertAddress_operation, ethAddressToFilecoin.
      rewrite Hlook, He. split; [exact Hv | reflexivity].
  - assert (Hne : isEthAddress address = false).
    { unfold isEthAddress. destruct (regex_test ETH_ADDRESS address) eqn:He;
        [|reflexivity].
      apply eth_looks_like_eth in He. congruence. }
    unfold convertAddress_operation at 1. rewrite Hlook.
    destruct (validateAddress address) eqn:Hv; [|now split].
    cbn [ConvertedAddress.input ConvertedAddress.filecoin
         ConvertedAddress.ethereum ConvertedAddress.type].
    rewrite normalizeAddress_toLowerCase, Hne.
    split; [reflexivity|]. split; [reflexivity|].
    split; [now apply validateAddress_lower|].
    split; [apply toLowerCase_idempotent|].
    split; [split; discriminate|]. split; [discriminate|].
    intros e He.
    unfold filecoinToEthAddress in He.
    destruct (regex_test F410_PATTERN address) eqn:Hm; [|discriminate].
    cbn [negb] in He. injection He as <-.
    apply F410_PATTERN_iff in Hm as (p & f & h & -> & Hp & Hf & Hl & Hh).
    cbn [slice].
    assert (Hpp : f_or_t p = true).
    { destruct (f_or_t p) eqn:E; [reflexivity|].
      rewrite validateAddress_other in Hv by exact E.
      apply andb_true_iff in Hv as [H0 _].
      unfold startsWith in H0. cbn [String.prefix] in H0.
      destruct (ascii_dec p "0") as [-> | Hn]; [discriminate H0|].
      destruct (ascii_dec "0" p); [congruence | discriminate H0]. }
    assert (Hll : String.length (toLowerCase h) = 40)
      by now rewrite toLowerCase_hex_length.
    assert (Hlh : str_forall lower_hex_char (toLowerCase h) = true)
      by now apply toLowerCase_hex.
    assert (Hlow : toLowerCase (String p (String "4" (String "1" (String "0"
                     (String f h)))))
                   = (if Ascii.eqb "t" p then "t" else "f")
                     ++ "410f" ++ toLowerCase h).
    { unfold toLowerCase. cbn [str_map]. rewrite Hf.
      destruct (f_or_t_inv p Hpp) as [-> | ->]; reflexivity. }
    rewrite Hlow.
    split; [apply ETH_ADDRESS_iff; exists h; auto|].
    change (toLowerCase (String "0" (String "x" h)))
      with ("0x" ++ toLowerCase h).
    split.
    + change (String "0" (String "x" h)) with ("0x" ++ h).
      rewrite (convertAddress_eth h Hl Hh).
      now destruct (Ascii.eqb "t" p).
    + exact (convertAddress_delegated (Ascii.eqb "t" p) (toLowerCase h) Hll Hlh).
Qed.

(** X21.  The operation [validateAddress].  The fields [type],
    [isRobust], [normalized] and [short] are [null] exactly when the
    address is not valid.  The field [isEthAddress] only looks at the
    first two characters and the length: it is set for every text of
    [0x] and 40 characters, valid or not; for a valid address it says
    what [isEthAddress] says.  The normal form that is reported passes
    the validator, and the short form has at most 15 characters and is
    the address itself when that has at most 15. *)
Theorem validateAddress_operation_result (address : string) :
  let r := validateAddress_operation address in
  ValidatedAddress.isValid r = validateAddress address
  /\ (ValidatedAddress.isValid r = false ->
      ValidatedAddress.type r = None /\ ValidatedAddress.isRobust r = None
      /\ ValidatedAddress.normalized r = None
      /\ ValidatedAddress.short r = None)
  /\ (ValidatedAddress.isValid r = true ->
      ValidatedAddress.isEthAddress r = isEthAddress address
      /\ ValidatedAddress.type r = Some (getAddressTypeName address)
      /\ ValidatedAddress.isRobust r = Some (isRobustAddress address)
      /\ (exists n, ValidatedAddress.normalized r = Some n
                    /\ validateAddress n = true /\ addressesEqual address n = true)
      /\ (exists s, ValidatedAddress.short r = Some s
                    /\ String.length s <= 15
                    /\ (String.length address <= 15 -> s = address)))
  /\ (forall h, String.length h = 40 ->
        ValidatedAddress.isEthAddress (validateAddress_operation ("0x" ++ h))
        = true
        /\ ValidatedAddress.isValid (validateAddress_operation ("0x" ++ h))
           = str_forall hex_char h).
Proof.
  cbv zeta. unfold validateAddress_operation.
  cbn [ValidatedAddress.isValid ValidatedAddress.type ValidatedAddress.isRobust
       ValidatedAddress.normalized ValidatedAddress.short
       ValidatedAddress.isEthAddress].
  split; [reflexivity|]. split; [intros ->; auto|]. split.
  - intros Hv. rewrite Hv.
    split.
    { unfold isEthAddress.
      destruct (looks_like_eth address) eqn:Hlook.
      - rewrite <- (validateAddress_0x address (looks_like_eth_0x _ Hlook)).
        now symmetry.
      - destruct (regex_test ETH_ADDRESS address) eqn:He; [|reflexivity].
        apply eth_looks_like_eth in He. congruence. }
    split; [reflexivity|]. split; [reflexivity|]. split.
    + exists (normalizeAddress address). split; [reflexivity|].
      rewrite normalizeAddress_toLowerCase.
      split; [now apply validateAddress_lower|].
      unfold addressesEqual.
      rewrite !normalizeAddress_toLowerCase, toLowerCase_idempotent.
      apply String.eqb_refl.
    + exists (formatAddressShort address default_address_chars).
      split; [reflexivity|]. split.
      * unfold default_address_chars.
        destruct (Nat.le_gt_cases (String.length address) 15) as [Hs | Hs].
        -- unfold formatAddressShort.
           replace (Nat.leb (String.length address) (6 * 2 + 3)) with true
             by (symmetry; apply Nat.leb_le; lia).
           rewrite orb_true_r. exact Hs.
        -- unfold formatAddressShort.
           replace (Nat.leb (String.length address) (6 * 2 + 3)) with false
             by (symmetry; apply Nat.leb_gt; lia).
           destruct address as [|c rest]; [cbn in Hs; lia|].
           cbn [is_empty orb].
           rewrite !str_length_app, slice_to_length by lia.
           unfold slice_last. rewrite slice_length.
           cbn [String.length] in *. lia.
      * intros Hs. unfold formatAddressShort, default_address_chars.
        replace (Nat.leb (String.length address) (6 * 2 + 3)) with true
          by (symmetry; apply Nat.leb_le; lia).
        now rewrite orb_true_r.
  - intros h Hl. split.
    + unfold looks_like_eth. cbn [append String.length]. rewrite Hl.
      destruct h; reflexivity.
    + rewrite validateAddress_0x by (destruct h; reflexivity).
      destruct (str_forall hex_char h) eqn:Hh.
      * apply ETH_ADDRESS_iff. eauto.
      * destruct (regex_test ETH_ADDRESS ("0x" ++ h)) eqn:He; [|reflexivity].
        apply ETH_ADDRESS_iff in He as (h' & E & _ & Hh').
        injection E as <-. congruence.
Qed.

(* ------------------------------------------------------------------ *)
(** * The CID operations of the utility resource *)
(* ------------------------------------------------------------------ *)

Lemma base58_alnum (c : ascii) : base58_char c = true -> is_alnum c = true.
Proof. all_chars c. Qed.

(** The two kinds of CID that the validator accepts. *)
Lemma valid_cid_cases (cid : string) :
  validateCid cid = true ->
  (exists h, cid = "Qm" ++ h /\ String.length h = 44
             /\ str_forall base58_char h = true)
  \/ (startsWith cid "Qm" = false /\ startsWith cid "b" = true
      /\ 59 <= String.length cid).
Proof.
  rewrite validateCid_behaviour.
  destruct (startsWith cid "Qm") eqn:HQ.
  - intros H. left. now apply CID_V0_PATTERN_iff.
  - destruct (startsWith cid "b") eqn:Hb; [|discriminate].
    intros H%Nat.leb_le. right. auto.
Qed.

(** X22.  The operations [formatCid] and [validateCid].  [formatCid]
    fails, with ["Invalid CID: "] and the input, exactly when
    [validateCid] reports the CID as not valid, with [null] for the
    version and for [isPieceCid].  Otherwise both report the same
    version, 0 or 1 and never [null], and a piece CID has version 1;
    the short form always has 19 characters, the first eight and the
    last eight of the CID around three dots; and [parseCid] finds the
    CID again in both gateway links when the CID is made of letters and
    digits, as every CID of version 0 is. *)
Theorem cid_operations (cid network : string) :
  let v := validateCid_operation cid in
  match formatCid_operation cid network with
  | Thrown m =>
      m = "Invalid CID: " ++ cid
      /\ ValidatedCid.isValid v = false
      /\ ValidatedCid.version v = None /\ ValidatedCid.isPieceCid v = None
  | Returned r =>
      ValidatedCid.isValid v = true
      /\ ValidatedCid.version v = FormattedCid.version r
      /\ ValidatedCid.isPieceCid v = Some (FormattedCid.isPieceCid r)
      /\ (FormattedCid.version r = Some 0%Z \/ FormattedCid.version r = Some 1%Z)
      /\ (FormattedCid.isPieceCid r = true -> FormattedCid.version r = Some 1%Z)
      /\ String.length (FormattedCid.short r) = 19
      /\ (exists a m z,
            cid = a ++ m ++ z /\ String.length a = 8 /\ String.length z = 8
            /\ FormattedCid.short r = a ++ "..." ++ z)
      /\ (str_forall is_alnum cid = true ->
          parseCid (FormattedCid.ipfsGateway (FormattedCid.cid_links r))
          = Parsed.Make cid true (FormattedCid.version r)
          /\ parseCid (FormattedCid.filGateway (FormattedCid.cid_links r))
             = Parsed.Make cid true (FormattedCid.version r))
      /\ (FormattedCid.version r = Some 0%Z -> str_forall is_alnum cid = true)
  end.
Proof.
  cbv zeta. unfold formatCid_operation, validateCid_operation.
  destruct (validateCid cid) eqn:Hv; cbn [negb]; [|now auto].
  cbn [ValidatedCid.isValid ValidatedCid.version ValidatedCid.isPieceCid
       FormattedCid.version FormattedCid.isPieceCid FormattedCid.short
       FormattedCid.cid_links FormattedCid.ipfsGateway FormattedCid.filGateway].
  assert (Hlen : 2 * default_cid_chars + 3 < String.length cid).
  { unfold default_cid_chars.
    destruct (valid_cid_cases cid Hv) as [(h & -> & Hl & _) | (_ & _ & Hl)].
    - cbn [append String.length]. lia.
    - lia. }
  assert (Hver : (getCidVersion cid = Some 0%Z
                  /\ isPieceCid cid = false
                  /\ str_forall is_alnum cid = true)
                 \/ (getCidVersion cid = Some 1%Z
                     /\ startsWith cid "Qm" = false)).
  { destruct (valid_cid_cases cid Hv) as [(h & -> & Hl & Hh) | (HQ & Hb & Hl)].
    - left. split; [now destruct h|]. split; [reflexivity|].
      cbn [append str_forall].
      change (is_alnum "Q") with true. change (is_alnum "m") with true.
      cbn [andb].
      eapply str_forall_impl; [|exact Hh]. apply base58_alnum.
    - right. split; [|exact HQ].
      destruct cid as [|c r]; [discriminate|].
      unfold getCidVersion. rewrite HQ, Hb. reflexivity. }
  assert (Hne : cid <> "") by (intros ->; discriminate).
  destruct (formatCidShort_shape cid default_cid_chars) as (_ & Hshort & _).
  destruct (Hshort Hlen ltac:(unfold default_cid_chars; lia)) as (Hl19 & Habz).
  split; [reflexivity|]. split; [reflexivity|]. split; [reflexivity|].
  split; [destruct Hver as [(-> & _) | (-> & _)]; auto|].
  split.
  { intros Hp. destruct Hver as [(_ & Hnp & _) | (-> & _)]; [congruence|].
    reflexivity. }
  split; [exact Hl19|]. split; [exact Habz|]. split.
  - intros Hal.
    pose proof (parseCid_link default_gateway cid Hne Hal eq_refl) as H1.
    pose proof (parseCid_link "https://fil.storage" cid Hne Hal eq_refl) as H2.
    rewrite Hv in H1, H2. split; [exact H1 | exact H2].
  - intros H0. destruct Hver as [(_ & _ & Hal) | (H1 & _)]; [exact Hal|].
    congruence.
Qed.

(* ------------------------------------------------------------------ *)
(** * The endpoint of a Lotus client *)
(* ------------------------------------------------------------------ *)

Lemma NETWORKS_get_cases (network : string) :
  NETWORKS_get network
  = if String.eqb network "mainnet" then Configured NETWORKS_mainnet
    else if String.eqb network "calibration" then Configured NETWORKS_calibration
    else if String.eqb network "hyperspace" then Configured NETWORKS_hyperspace
    else if existsb (String.eqb network) inherited_keys then Inherited network
    else Undefined.
Proof.
  unfold NETWORKS_get, NETWORKS. cbn [own_network].
  rewrite (String.eqb_sym "mainnet"), (String.eqb_sym "calibration"),
    (String.eqb_sym "hyperspace").
  destruct (String.eqb network "mainnet"); [reflexivity|].
  destruct (String.eqb network "calibration"); [reflexivity|].
  destruct (String.eqb network "hyperspace"); reflexivity.
Qed.

(** X24.  The endpoint of the client that [createLotusClient] builds.
    A URL that is not empty is the endpoint, whatever the network is
    called.  Without one the endpoint is that of the network for
    [calibration] and [hyperspace] and the one of the main network for
    every other name, [custom] included, except for the names that an
    object inherits, such as [constructor], for which there is no
    endpoint at all.  The timeout is 30 seconds; the header
    [Authorization] is sent, with [Bearer] and the token, exactly when
    there is a token that is not empty. *)
Theorem createLotusClient_endpoint (network : string)
    (url token : option string) :
  let s := createLotusClient network url token in
  AxiosConfig.timeout s = 30000%Z
  /\ (truthy url = true -> AxiosConfig.baseURL s = url)
  /\ (truthy url = false ->
      AxiosConfig.baseURL s
      = if String.eqb network "calibration"
        then Some (Network.lotusRpc NETWORKS_calibration)
        else if String.eqb network "hyperspace"
        then Some (Network.lotusRpc NETWORKS_hyperspace)
        else if existsb (String.eqb network) inherited_keys then None
        else Some (Network.lotusRpc NETWORKS_mainnet))
  /\ In ("Content-Type", "application/json") (AxiosConfig.headers s)
  /\ (forall v,
        In ("Authorization", v) (AxiosConfig.headers s)
        <-> exists t, token = Some t /\ t <> "" /\ v = "Bearer " ++ t).
Proof.
  cbv zeta. unfold createLotusClient, LotusClient_settings.
  cbn [LotusClientConfig.network LotusClientConfig.rpcUrl
       LotusClientConfig.apiToken LotusClientConfig.timeout
       AxiosConfig.timeout AxiosConfig.baseURL AxiosConfig.headers].
  split; [reflexivity|]. split; [now intros ->|]. split.
  - intros Hu. rewrite Hu.
    assert (Hcfg : getNetworkConfig network url
                   = match NETWORKS_get network with
                     | Undefined => Configured NETWORKS_mainnet
                     | entry => entry
                     end).
    { unfold getNetworkConfig. destruct url as [u|]; [|reflexivity].
      rewrite Hu, andb_false_r. reflexivity. }
    rewrite Hcfg, NETWORKS_get_cases.
    destruct (String.eqb_spec network "mainnet") as [-> | _]; [reflexivity|].
    destruct (String.eqb network "calibration"); [reflexivity|].
    destruct (String.eqb network "hyperspace"); [reflexivity|].
    destruct (existsb (String.eqb network) inherited_keys); reflexivity.
  - split.
    + destruct token as [t|]; [destruct (truthy (Some t))|]; cbn; auto.
    + intros v. destruct token as [t|].
      * destruct t as [|c t].
        -- cbn. split.
           ++ intros [H | []]. discriminate H.
           ++ intros (t & [= <-] & Ht & _). congruence.
        -- cbn [truthy is_empty negb app In]. split.
           ++ intros [H | [H | []]]; [discriminate H|].
              injection H as <-. exists (String c t).
              split; [reflexivity|]. split; [discriminate | reflexivity].
           ++ intros (t' & [= <-] & _ & ->). right. left. reflexivity.
      * cbn. split.
        -- intros [H | []]. discriminate H.
        -- intros (t & H & _). discriminate H.
Qed.

(* ------------------------------------------------------------------ *)
(** * The state of the power actor *)
(* ------------------------------------------------------------------ *)

Section PowerActor.

Variables T json : Type.
Variable json_string : string -> json.
Variable json_null : json.
Variable field_State : T -> option T.

(** The two requests, and how the method goes through them. *)
Lemma getStatePowerActor_steps (this : Lotus.LotusClient)
    (post1 post2 : Lotus.request json -> Lotus.post_outcome T)
    (tsk : option json) :
  let params := [json_string "f04"; LotusMethods.or_null json json_null tsk] in
  let n := Lotus.requestId this in
  let req1 := Lotus.Request json "2.0" "Filecoin.StateGetActor" params (n + 1) in
  let req2 :=
    Lotus.Request json "2.0" "Filecoin.StateReadState" params (n + 1 + 1) in
  LotusMethods.getStatePowerActor T json json_string json_null field_State
    this post1 post2 tsk
  = match snd (LotusMethods.getStateGetActor T json json_string json_null
                 this post1 "f04" tsk) with
    | Thrown e => (Lotus.Client (n + 1), [req1], Thrown e)
    | Returned _ =>
        match snd (LotusMethods.getStateReadState T json json_string json_null
                     (Lotus.Client (n + 1)) post2 "f04" tsk) with
        | Thrown e => (Lotus.Client (n + 1 + 1), [req1; req2], Thrown e)
        | Returned state =>
            (Lotus.Client (n + 1 + 1), [req1; req2],
             Returned (match state with
                       | Some s => field_State s
                       | None => None
                       end))
        end
    end.
Proof. reflexivity. Qed.

(** X23.  [getStatePowerActor] asks for the actor [f04] and then reads
    its state: the requests it posts are the first, or both, of
    [Filecoin.StateGetActor] and [Filecoin.StateReadState], with the
    same parameters and with the next ids of the client in order.  The
    second request is posted exactly when the first call succeeds, and
    a result is returned only after both.  The result of the first call
    is not used: any two answers that make it succeed lead to the same
    requests and the same result. *)
Theorem getStatePowerActor_requests (this : Lotus.LotusClient)
    (post1 post2 : Lotus.request json -> Lotus.post_outcome T)
    (tsk : option json) :
  let params := [json_string "f04"; LotusMethods.or_null json json_null tsk] in
  let '(this', log, out) :=
    LotusMethods.getStatePowerActor T json json_string json_null field_State
      this post1 post2 tsk in
  map (Lotus.id json) log
  = Lotus.count_from (Lotus.requestId this) (List.length log)
  /\ Lotus.requestId this'
     = (Lotus.requestId this + N.of_nat (List.length log))%N
  /\ map (Lotus.method json) log
     = firstn (List.length log)
         ["Filecoin.StateGetActor"; "Filecoin.StateReadState"]
  /\ Forall (fun r => Lotus.params json r = params
                      /\ Lotus.jsonrpc json r = "2.0") log
  /\ (List.length log = 1 \/ List.length log = 2)
  /\ (List.length log = 2
      <-> exists actor,
            snd (LotusMethods.getStateGetActor T json json_string json_null
                   this post1 "f04" tsk) = Returned actor)
  /\ (forall state, out = Returned state -> List.length log = 2)
  /\ (forall post1' actor actor',
        snd (LotusMethods.getStateGetActor T json json_string json_null
               this post1 "f04" tsk) = Returned actor ->
        snd (LotusMethods.getStateGetActor T json json_string json_null
               this post1' "f04" tsk) = Returned actor' ->
        LotusMethods.getStatePowerActor T json json_string json_null
          field_State this post1' post2 tsk
        = LotusMethods.getStatePowerActor T json json_string json_null
            field_State this post1 post2 tsk).
Proof.
  cbv zeta. rewrite getStatePowerActor_steps. cbv zeta.
  destruct (snd (LotusMethods.getStateGetActor T json json_string json_null
                   this post1 "f04" tsk)) as [actor | e] eqn:E1.
  - destruct (snd (LotusMethods.getStateReadState T json json_string json_null
                     (Lotus.Client (Lotus.requestId this + 1)) post2 "f04" tsk))
      as [state | e] eqn:E2;
      (cbn [List.length map firstn Lotus.count_from Lotus.id Lotus.method
            Lotus.requestId N.of_nat];
       split; [reflexivity|]; split; [lia|]; split; [reflexivity|];
       split; [repeat (apply Forall_cons; [now split|]); apply Forall_nil|];
       split; [now right|];
       split; [split; [intros _; eauto | reflexivity]|];
       split; [intros; reflexivity|];
       intros post1' a a' _ H';
       rewrite getStatePowerActor_steps; cbv zeta;
       rewrite H', E2; reflexivity).
  - cbn [List.length map firstn Lotus.count_from Lotus.id Lotus.method
         Lotus.requestId N.of_nat].
    split; [reflexivity|]. split; [lia|]. split; [reflexivity|].
    split; [repeat (apply Forall_cons; [now split|]); apply Forall_nil|].
    split; [now left|].
    split; [split; [discriminate | intros (a & H); discriminate H]|].
    split; [discriminate|].
    intros post1' a a' H. discriminate H.
Qed.

End PowerActor.

(* ------------------------------------------------------------------ *)
(** * Quotients by a power of two *)
(* ------------------------------------------------------------------ *)

(** A common factor 2^s of the two terms of a quotient does not change
    the double it rounds to. *)
Lemma round_scale (neg : bool) (num den s : N) :
  (0 < den)%N ->
  Number.round neg (num * 2 ^ s) (den * 2 ^ s) = Number.round neg num den.
Proof.
  intros Hden. pose proof (pow2_pos s) as Hs.
  unfold Number.round.
  destruct (N.eqb_spec num 0) as [-> | Hnum].
  { reflexivity. }
  replace (num * 2 ^ s =? 0)%N with false by (symmetry; apply N.eqb_neq; nia).
  rewrite !N.log2_mul_pow2 by lia.
  replace (Z.of_N (s + N.log2 num) - Z.of_N (s + N.log2 den))%Z
    with (Z.of_N (N.log2 num) - Z.of_N (N.log2 den))%Z by lia.
  set (e0 := (Z.of_N (N.log2 num) - Z.of_N (N.log2 den))%Z).
  assert (Hreached :
    (if (0 <=? e0)%Z then (den * 2 ^ s * 2 ^ Z.to_N e0 <=? num * 2 ^ s)%N
     else (den * 2 ^ s <=? num * 2 ^ s * 2 ^ Z.to_N (- e0))%N)
    = (if (0 <=? e0)%Z then (den * 2 ^ Z.to_N e0 <=? num)%N
       else (den <=? num * 2 ^ Z.to_N (- e0))%N)).
  { destruct (0 <=? e0)%Z.
    - destruct (N.leb_spec (den * 2 ^ Z.to_N e0) num);
        [apply N.leb_le | apply N.leb_gt]; nia.
    - destruct (N.leb_spec den (num * 2 ^ Z.to_N (- e0)));
        [apply N.leb_le | apply N.leb_gt]; nia. }
  rewrite Hreached.
  set (q := Z.max ((if (if (0 <=? e0)%Z then (den * 2 ^ Z.to_N e0 <=? num)%N
                        else (den <=? num * 2 ^ Z.to_N (- e0))%N)
                    then e0 else (e0 - 1)%Z) - 52) (-1074)).
  set (n' := if (0 <=? q)%Z then num else (num * 2 ^ Z.to_N (- q))%N).
  set (d' := if (0 <=? q)%Z then (den * 2 ^ Z.to_N q)%N else den).
  assert (Hn : (if (0 <=? q)%Z then num * 2 ^ s
                else num * 2 ^ s * 2 ^ Z.to_N (- q))%N = (n' * 2 ^ s)%N).
  { unfold n'. destruct (0 <=? q)%Z; lia. }
  assert (Hd : (if (0 <=? q)%Z then den * 2 ^ s * 2 ^ Z.to_N q
                else den * 2 ^ s)%N = (d' * 2 ^ s)%N).
  { unfold d'. destruct (0 <=? q)%Z; lia. }
  rewrite Hn, Hd.
  assert (Hd' : (0 < d')%N).
  { unfold d'. destruct (0 <=? q)%Z; [|exact Hden].
    pose proof (pow2_pos (Z.to_N q)). nia. }
  rewrite N.Div0.div_mul_cancel_r by lia.
  rewrite N.Div0.mul_mod_distr_r.
  assert (Hcmp : (2 * (n' mod d' * 2 ^ s) ?= d' * 2 ^ s)%N
                 = (2 * (n' mod d') ?= d')%N).
  { destruct (N.compare_spec (2 * (n' mod d')) d') as [E | E | E].
    - apply N.compare_eq_iff. nia.
    - apply N.compare_lt_iff. nia.
    - apply N.compare_gt_iff. nia. }
  rewrite Hcmp. reflexivity.
Qed.

(** The double of a power of two. *)
Lemma of_bigint_pow2 (j : N) :
  (j <= 52)%N ->
  Number.of_bigint (Z.of_N (2 ^ j)) = Number.Finite false (2 ^ 52) (Z.of_N j - 52).
Proof.
  intros Hj. pose proof (pow2_pos j) as Hp.
  assert (Hsafe : (2 ^ j < 2 ^ 53)%N) by (apply N.pow_lt_mono_r; lia).
  rewrite (of_bigint_exact (2 ^ j) Hp Hsafe). unfold scaled_double.
  rewrite N.log2_pow2 by lia. rewrite <- N.pow_add_r.
  replace (j + (52 - j))%N with 52%N by lia. f_equal. lia.
Qed.

(** The quotient of an integer below 2^53 by a power of two is exact. *)
Lemma div_pow2_exact (a j : N) :
  (0 < a < 2 ^ 53)%N -> (j <= 52)%N ->
  NumberExt.div (Number.of_bigint (Z.of_N a)) (Number.of_bigint (Z.of_N (2 ^ j)))
  = Number.Finite false (a * 2 ^ (52 - N.log2 a))
      (Z.of_N (N.log2 a) - 52 - Z.of_N j).
Proof.
  intros [Hpos Hsafe] Hj.
  rewrite (of_bigint_exact a Hpos Hsafe), (of_bigint_pow2 j Hj).
  unfold scaled_double, NumberExt.div. cbn [xorb].
  change (2 ^ 52 =? 0)%N with false. cbv iota.
  pose proof (log2_below_53 a Hpos Hsafe) as HL.
  pose proof (mantissa_normal a Hpos Hsafe) as [HMlo HMhi].
  set (L := N.log2 a) in *. set (M := (a * 2 ^ (52 - L))%N) in *.
  assert (HMlog : N.log2 M = 52%N).
  { apply N.log2_unique; [lia|]. split; [exact HMlo | exact HMhi]. }
  replace (Z.of_N L - 52 - 10 * Z.of_nat 0 - (Z.of_N j - 52))%Z
    with (Z.of_N L - Z.of_N j)%Z by lia.
  assert (Hres : Number.round false M (2 ^ (52 + j - L))
                 = Number.Finite false M (Z.of_N L - 52 - Z.of_N j)).
  { rewrite round_dyadic by lia. rewrite HMlog.
    replace (52 - 52)%N with 0%N by lia. rewrite N.pow_0_r, N.mul_1_r.
    f_equal. lia. }
  destruct (Z.leb_spec 0 (Z.of_N L - Z.of_N j)) as [Hd | Hd].
  - rewrite <- Hres.
    replace (2 ^ 52)%N with (2 ^ (52 + j - L) * 2 ^ Z.to_N (Z.of_N L - Z.of_N j))%N.
    + apply round_scale. apply pow2_pos.
    + rewrite <- N.pow_add_r. f_equal. lia.
  - rewrite <- Hres. f_equal.
    rewrite <- N.pow_add_r. f_equal. lia.
Qed.

(** Two decimals of an integer below 2^53 divided by a power of two:
    the nearest number of hundredths, the larger one of two. *)
Lemma toFixed_dyadic (a j : N) :
  (0 < a < 2 ^ 53)%N -> (j <= 52)%N ->
  Number.toFixed 2
    (Number.Finite false (a * 2 ^ (52 - N.log2 a))
       (Z.of_N (N.log2 a) - 52 - Z.of_N j))
  = let h := ((200 * a + 2 ^ j) / (2 * 2 ^ j))%N in
    Some (decimal (h / 100) ++ "."
          ++ BigNumber.pad_left 2 (decimal (h mod 100))).
Proof.
  intros [Hpos Hsafe] Hj.
  pose proof (log2_below_53 a Hpos Hsafe) as HL.
  pose proof (mantissa_normal a Hpos Hsafe) as [HMlo HMhi].
  pose proof (pow2_pos j) as HP.
  set (L := N.log2 a) in *. set (S := (2 ^ (52 - L))%N) in *.
  set (e := (Z.of_N L - 52 - Z.of_N j)%Z).
  set (P := (2 ^ j)%N) in *.
  assert (HS : (0 < S)%N) by apply pow2_pos.
  assert (He : (e <= 0)%Z) by (unfold e; lia).
  assert (Hden : (2 ^ Z.to_N (- e) = S * P)%N).
  { unfold S, P. rewrite <- N.pow_add_r. f_equal. lia. }
  assert (Hsmall : Number.ge_int (Number.Finite false (a * S) e) (10 ^ 21)
                   = false).
  { unfold Number.ge_int.
    assert (Hbig : (Z.of_N (a * S) < 10 ^ 21)%Z).
    { apply Z.lt_trans with (Z.of_N (2 ^ 53)); [lia | reflexivity]. }
    destruct (Z.leb_spec 0 e) as [He0 | He0]; apply Z.leb_gt.
    - replace e with 0%Z by lia. rewrite Z.pow_0_r. lia.
    - assert (1 <= 2 ^ (- e))%Z by (apply (Z.pow_le_mono_r 2 0); lia).
      nia. }
  unfold Number.toFixed. rewrite Hsmall.
  cbn [andb]. change (10 ^ N.of_nat 2)%N with 100%N.
  assert (Hh :
    ((2 * (if (0 <=? e)%Z then a * S * 2 ^ Z.to_N e else a * S) * 100
      + (if (0 <=? e)%Z then 1 else 2 ^ Z.to_N (- e)))
     / (2 * (if (0 <=? e)%Z then 1 else 2 ^ Z.to_N (- e)))
     = (200 * a + P) / (2 * P))%N).
  { destruct (Z.leb_spec 0 e) as [He0 | He0].
    - assert (E0 : e = 0%Z) by lia. rewrite E0 in Hden |- *.
      cbn [Z.opp Z.to_N] in Hden |- *. rewrite N.pow_0_r in Hden |- *.
      assert (S = 1%N /\ P = 1%N) as [-> ->] by nia.
      f_equal; lia.
    - rewrite Hden.
      replace (2 * (a * S) * 100 + S * P)%N with (S * (200 * a + P))%N by lia.
      replace (2 * (S * P))%N with (S * (2 * P))%N by lia.
      apply N.Div0.div_mul_cancel_l. lia. }
  rewrite Hh. reflexivity.
Qed.

(* ------------------------------------------------------------------ *)
(** * The size of a piece, as the utility resource reports it *)
(* ------------------------------------------------------------------ *)

Lemma DIGITS_PATTERN_iff (s : string) :
  regex_test DIGITS_PATTERN s = true
  <-> s <> "" /\ str_forall is_digit s = true.
Proof.
  rewrite regex_test_iff. unfold DIGITS_PATTERN. split.
  - intros (gs & Hcut & ->). cut_inv Hcut.
    destruct Hitem as (Hg & Hlo & Hhi). simpl in *.
    rewrite str_app_empty_r. split; [|exact Hg].
    intros ->. simpl in Hlo. lia.
  - intros (Hne & Hds). exists [s]. simpl. rewrite str_app_empty_r.
    split; [|reflexivity].
    constructor; [|constructor].
    repeat split; simpl; auto. destruct s; [congruence | simpl; lia].
Qed.

Lemma digit_no_space (c : ascii) :
  is_digit c = true -> negb (is_space c) = true.
Proof. all_chars c. Qed.

(** [BigInt] of a text of digits. *)
Lemma BigInt_of_digits (ds : string) :
  ds <> "" -> str_forall is_digit ds = true ->
  BigInt_of_string ds = Returned (Z.of_N (digits_value 0 ds)).
Proof.
  intros Hne Hds. unfold BigInt_of_string, trim.
  destruct ds as [|c s]; [congruence|].
  assert (Hc : is_digit c = true).
  { simpl in Hds. now apply andb_true_iff in Hds as [? _]. }
  rewrite trimStart_id by (now apply digit_not_space).
  rewrite trimEnd_id
    by (eapply str_forall_impl; [|exact Hds]; apply digit_no_space).
  assert (Hplain : forall r,
            str_forall is_digit (String c r) = true ->
            (let (neg, ds) := any_sign (String c r) in
             if negb (is_empty ds) && str_forall is_digit ds
             then Returned (let v := Z.of_N (digits_value 0 ds) in
                            if neg then (- v)%Z else v)
             else Thrown "SyntaxError")
            = Returned (Z.of_N (digits_value 0 (String c r)))).
  { intros r Hr. rewrite (any_sign_digit c r Hc). cbn [is_empty negb andb].
    now rewrite Hr. }
  destruct s as [|d s'].
  - specialize (Hplain "" Hds). revert Hplain Hc. clear.
    destruct c as [[] [] [] [] [] [] [] []]; intros Hplain Hc;
      try discriminate Hc; exact Hplain.
  - assert (Hd : is_digit d = true).
    { simpl in Hds. apply andb_true_iff in Hds as [_ Hds].
      now apply andb_true_iff in Hds as [? _]. }
    specialize (Hplain (String d s') Hds). revert Hplain Hc Hd. clear.
    destruct c as [[] [] [] [] [] [] [] []]; intros Hplain Hc Hd;
      try discriminate Hc; try exact Hplain;
      destruct d as [[] [] [] [] [] [] [] []];
      try discriminate Hd; exact Hplain.
Qed.

Lemma byte_value_digits (ds : string) :
  ds <> "" -> str_forall is_digit ds = true ->
  byte_value ds = Returned (Z.of_N (digits_value 0 ds)).
Proof.
  intros Hne Hds. unfold byte_value.
  rewrite (proj2 (DIGITS_PATTERN_iff ds) (conj Hne Hds)).
  now apply BigInt_of_digits.
Qed.

(** [formatBytes] prints a power of two without rounding. *)
Lemma formatBytes_pow2 (j : N) :
  (j <= 52)%N ->
  exists (c : N) (k : nat),
    k <= 6 /\ (2 ^ j = c * 1024 ^ N.of_nat k)%N /\ (1 <= c < 1024)%N
    /\ formatBytes (Z.of_N (2 ^ j))
       = Some (decimal c ++ ".00 " ++ nth k size_units "").
Proof.
  intros Hj. pose proof (pow2_pos j) as Hp.
  assert (Hsafe : (2 ^ j < 2 ^ 53)%N) by (apply N.pow_lt_mono_r; lia).
  destruct (formatBytes_exact (2 ^ j) Hsafe) as (k & h & Hk & Hlo & Hhi & Hh & Hf).
  assert (HP : (1024 ^ N.of_nat k = 2 ^ (10 * N.of_nat k))%N).
  { change 1024%N with (2 ^ 10)%N. now rewrite <- N.pow_mul_r. }
  assert (HP1 : (1024 ^ N.of_nat (k + 1) = 1024 * 1024 ^ N.of_nat k)%N).
  { rewrite Nat.add_1_r, Nat2N.inj_succ, N.pow_succ_r'. reflexivity. }
  rewrite HP1 in Hhi. rewrite HP in *.
  assert (Hle : (10 * N.of_nat k <= j)%N).
  { destruct Hlo as [-> | Hlo]; [simpl; lia|].
    apply N.pow_le_mono_r_iff in Hlo; lia. }
  set (c := (2 ^ (j - 10 * N.of_nat k))%N).
  assert (Hc : (2 ^ j = c * 2 ^ (10 * N.of_nat k))%N).
  { unfold c. rewrite <- N.pow_add_r. f_equal. lia. }
  pose proof (pow2_pos (10 * N.of_nat k)) as HPpos.
  pose proof (pow2_pos (j - 10 * N.of_nat k)) as Hcpos. fold c in Hcpos.
  set (P := (2 ^ (10 * N.of_nat k))%N) in *.
  assert (Hc1024 : (c < 1024)%N).
  { rewrite Hc in Hhi. apply N.mul_lt_mono_pos_r in Hhi; assumption. }
  assert (Hh100 : h = (100 * c)%N).
  { rewrite Hc in Hh. destruct Hh as [H1 H2].
    assert (L1 : (2 * h * P < (200 * c + 2) * P)%N) by lia.
    assert (L2 : ((200 * c + 1) * P < (2 * h + 2) * P)%N) by lia.
    apply N.mul_lt_mono_pos_r in L1; [|exact HPpos].
    apply N.mul_lt_mono_pos_r in L2; [|exact HPpos]. lia. }
  exists c, k. split; [exact Hk|]. split; [now rewrite HP|]. split; [lia|].
  rewrite Hf, Hh100. unfold hundredths.
  rewrite (N.mul_comm 100 c), N.div_mul, N.Div0.mod_mul by lia.
  reflexivity.
Qed.

(** The overhead that is printed for a padded size 2^j. *)
Lemma padding_overhead_pow2 (n j : N) :
  (n <= 2 ^ j)%N -> (j <= 46)%N ->
  padding_overhead (Z.of_N (2 ^ j)) (Z.of_N n)
  = let h := ((20000 * (2 ^ j - n) + 2 ^ j) / (2 * 2 ^ j))%N in
    Some (decimal (h / 100) ++ "."
          ++ BigNumber.pad_left 2 (decimal (h mod 100)) ++ "%").
Proof.
  intros Hn Hj. pose proof (pow2_pos j) as Hp.
  assert (H46 : (2 ^ j <= 2 ^ 46)%N) by (apply N.pow_le_mono_r; lia).
  set (P := (2 ^ j)%N) in *.
  set (a := ((P - n) * 100)%N).
  assert (Ha : ((Z.of_N P - Z.of_N n) * 100)%Z = Z.of_N a) by (unfold a; lia).
  assert (Hh : ((20000 * (P - n) + P) / (2 * P) = (200 * a + P) / (2 * P))%N)
    by (unfold a; f_equal; lia).
  unfold padding_overhead. rewrite Ha. cbv zeta. rewrite Hh.
  destruct (N.eq_dec a 0) as [Ea | Ea].
  - rewrite Ea. unfold P. rewrite (of_bigint_pow2 j) by lia.
    replace ((200 * 0 + 2 ^ j) / (2 * 2 ^ j))%N with 0%N
      by (symmetry; apply N.div_small; lia).
    change (Number.of_bigint (Z.of_N 0)) with (Number.Finite false 0 0).
    unfold NumberExt.div. cbn [xorb].
    change (2 ^ 52 =? 0)%N with false. cbv iota.
    assert (Hd : (0 <=? 0 - (Z.of_N j - 52))%Z = true) by (apply Z.leb_le; lia).
    rewrite Hd, N.mul_0_l. reflexivity.
  - assert (Hsafe : (a < 2 ^ 53)%N).
    { apply N.le_lt_trans with (2 ^ 46 * 100)%N; [unfold a; nia | reflexivity]. }
    unfold P. rewrite (div_pow2_exact a j) by lia.
    rewrite (toFixed_dyadic a j) by lia. cbv beta iota zeta.
    rewrite str_app_assoc. reflexivity.
Qed.

(** X25.  The operation [calculatePieceSize] on a text of digits that
    stands for at most 2^46 bytes.  The padded size is a power of two,
    at least 256 and at least the input, and less than twice the input
    when that is above 128; it is printed without rounding, as a whole
    number below 1024 of a unit.  The overhead is the nearest number of
    hundredths of a percent of the padded size, the larger one of two:
    at most 100.00, and at most 50.00 for an input above 128.  An input
    that is not made of digits goes through [parseBytes]: the empty
    text counts as zero, with an overhead of 100.00%, a negative number
    has an overhead above 100%, a number with a unit is cut to whole
    units first, a unit that is not known counts as bytes, and a text
    that does not start with a number is a [SyntaxError]. *)
Theorem calculatePieceSize_operation_digits (ds : string) :
  (ds <> "" -> str_forall is_digit ds = true ->
   (digits_value 0 ds <= 2 ^ 46)%N ->
   let n := digits_value 0 ds in
   exists (j c : N) (k : nat),
     (8 <= j <= 46)%N /\ (n <= 2 ^ j)%N /\ (j = 8%N \/ 2 ^ j < 2 * n)%N
     /\ k <= 6 /\ (2 ^ j = c * 1024 ^ N.of_nat k)%N /\ (1 <= c < 1024)%N
     /\ let h := ((20000 * (2 ^ j - n) + 2 ^ j) / (2 * 2 ^ j))%N in
        (h <= 10000)%N /\ ((128 < n)%N -> (h <= 5000)%N)
        /\ calculatePieceSize_operation ds
           = Returned
               (PieceSize.Make ds (decimal n) (formatBytes (Z.of_N n))
                  (decimal (2 ^ j))
                  (Some (decimal c ++ ".00 " ++ nth k size_units ""))
                  (Some (decimal (h / 100) ++ "."
                         ++ BigNumber.pad_left 2 (decimal (h mod 100)) ++ "%"))
                  "Filecoin requires data to be padded to power-of-2 piece sizes"))
  /\ calculatePieceSize_operation "1000"
     = Returned
         (PieceSize.Make "1000" "1000" (Some "1000.00 B") "1024"
            (Some "1.00 KiB") (Some "2.34%")
            "Filecoin requires data to be padded to power-of-2 piece sizes")
  /\ calculatePieceSize_operation ""
     = Returned
         (PieceSize.Make "" "0" (Some "0.00 B") "256"
            (Some "256.00 B") (Some "100.00%")
            "Filecoin requires data to be padded to power-of-2 piece sizes")
  /\ calculatePieceSize_operation "-5"
     = Returned
         (PieceSize.Make "-5" "-5" (Some "-5.00 B") "256"
            (Some "256.00 B") (Some "101.95%")
            "Filecoin requires data to be padded to power-of-2 piece sizes")
  /\ calculatePieceSize_operation "1.5 KiB"
     = Returned
         (PieceSize.Make "1.5 KiB" "1024" (Some "1.00 KiB") "1024"
            (Some "1.00 KiB") (Some "0.00%")
            "Filecoin requires data to be padded to power-of-2 piece sizes")
  /\ calculatePieceSize_operation "12 apples"
     = Returned
         (PieceSize.Make "12 apples" "12" (Some "12.00 B") "256"
            (Some "256.00 B") (Some "95.31%")
            "Filecoin requires data to be padded to power-of-2 piece sizes")
  /\ calculatePieceSize_operation "twelve" = Thrown "SyntaxError".
Proof.
  split; [|repeat split; vm_compute; reflexivity].
  intros Hne Hds Hbound n.
  destruct (padded_size_exponent (Z.of_N n)) as (jz & Hj8 & Hpad & Hle & Hlt).
  set (j := Z.to_N jz).
  assert (Hjz : jz = Z.of_N j) by (unfold j; lia).
  assert (Hpow : (2 ^ jz)%Z = Z.of_N (2 ^ j)).
  { rewrite Hjz, N2Z.inj_pow. reflexivity. }
  rewrite Hpow in Hpad, Hle.
  assert (Hnle : (n <= 2 ^ j)%N) by lia.
  assert (Hdouble : (j = 8 \/ 2 ^ j < 2 * n)%N).
  { destruct Hlt as [-> | Hlt]; [left; reflexivity|]. right.
    assert (Hj1 : (2 ^ (jz - 1))%Z = Z.of_N (2 ^ (j - 1))).
    { rewrite N2Z.inj_pow. f_equal. lia. }
    rewrite Hj1 in Hlt.
    replace j with (N.succ (j - 1)) at 1 by lia. rewrite N.pow_succ_r'. lia. }
  assert (Hj46 : (j <= 46)%N).
  { destruct Hdouble as [-> | Hd]; [lia|].
    fold n in Hbound.
    destruct (N.le_gt_cases j 46) as [?|Hgt]; [assumption|]. exfalso.
    assert (2 ^ 47 <= 2 ^ j)%N by (apply N.pow_le_mono_r; lia).
    change (2 ^ 47)%N with (2 * 2 ^ 46)%N in *. lia. }
  destruct (formatBytes_pow2 j ltac:(lia)) as (c & k & Hk & Hc & Hc1 & Hfmt).
  pose proof (pow2_pos j) as Hp.
  exists j, c, k.
  split; [lia|]. split; [exact Hnle|]. split; [exact Hdouble|].
  split; [exact Hk|]. split; [exact Hc|]. split; [exact Hc1|].
  cbv zeta. split; [|split].
  - apply N.lt_succ_r. apply N.Div0.div_lt_upper_bound. lia.
  - intros Hbig. apply N.lt_succ_r. apply N.Div0.div_lt_upper_bound.
    assert (Hd : (2 ^ j < 2 * n)%N).
    { destruct Hdouble as [-> | Hd]; [|exact Hd].
      change (2 ^ 8)%N with 256%N. lia. }
    lia.
  - unfold calculatePieceSize_operation.
    rewrite (byte_value_digits ds Hne Hds). fold n. cbv zeta.
    rewrite Hpad, !bigint_string_nat, Hfmt.
    rewrite (padding_overhead_pow2 n j Hnle Hj46). reflexivity.
Qed.

(* ------------------------------------------------------------------ *)
(** * Signing and verifying *)
(* ------------------------------------------------------------------ *)

Section SigningFacts.

Variables T json : Type.
Variable json_string : string -> json.
Variable json_base64 : string -> json.
Variable json_signature : string -> json.
Variable as_string : T -> option string.
Variable text_of : T -> string.
Variable is_null : T -> bool.
Variable field : string -> T -> option T.

(** What [sign_with] adds to the log: nothing, or one request to sign
    for an address that is valid. *)
Lemma sign_with_log (lotus : Lotus.LotusClient)
    (post : Lotus.request json -> Lotus.post_outcome T)
    (log : list (Lotus.request json)) (a data : string) :
  let result := Signing.sign_with T json json_string is_null field
                  lotus post log a data in
  (validateAddress a = false
   /\ result = (log, Thrown ("Invalid signer address: " ++ a)))
  \/ (validateAddress a = true
      /\ fst result
         = (log ++ [Lotus.Request json "2.0" "Filecoin.WalletSign"
                      [json_string a; json_string data]
                      (Lotus.requestId lotus + 1)])%list
      /\ forall r, snd result = Returned r -> Signing.signer T r = a).
Proof.
  cbv zeta. unfold Signing.sign_with.
  destruct (validateAddress a) eqn:Hv; cbn [negb]; [right | left; now split].
  split; [reflexivity|].
  unfold Lotus.call.
  destruct (post _) as [resp | msg resp | msg].
  - destruct (Lotus.error T resp) as [e|].
    + split; [reflexivity | discriminate].
    + destruct (Lotus.result T resp) as [sig|].
      * destruct (is_null sig); (split; [reflexivity|]).
        -- discriminate.
        -- now intros r [= <-].
      * split; [reflexivity | discriminate].
  - destruct (Lotus.response_error T resp);
      (split; [reflexivity | discriminate]).
  - split; [reflexivity | discriminate].
Qed.

(** X26.  The operations [signData] and [verifySignature] do not
    involve the node for an address that the validator rejects.
    [verifySignature] posts nothing for such an address and fails with
    ["Invalid address: "] and the address; for a valid one it posts a
    single request, [Filecoin.WalletVerify], with id 1.  [signData]
    posts at most two requests, with the ids 1 and 2 in order: with a
    signer it never asks for the default address, and it posts
    nothing when the signer is not valid; every request
    [Filecoin.WalletSign] it posts is for a valid address and for the
    data given, and the address is the signer of the result. *)
Theorem sign_and_verify_requests
    (post1 post2 : Lotus.request json -> Lotus.post_outcome T)
    (data signerAddress signature_text : string) :
  let signing :=
    Signing.signData_operation T json json_string as_string text_of is_null
      field post1 post2 data signerAddress in
  let verifying :=
    Signing.verifySignature_operation T json json_string json_base64
      json_signature post1 signature_text data signerAddress in
  (validateAddress signerAddress = false ->
   verifying = ([], Thrown ("Invalid address: " ++ signerAddress)))
  /\ (validateAddress signerAddress = true ->
      fst verifying
      = [Lotus.Request json "2.0" "Filecoin.WalletVerify"
           [json_string signerAddress; json_base64 data;
            json_signature signature_text] 1])
  /\ map (Lotus.id json) (fst signing)
     = Lotus.count_from 0 (List.length (fst signing))
  /\ List.length (fst signing) <= 2
  /\ (signerAddress <> "" ->
      forall req, In req (fst signing) ->
                  Lotus.method json req <> "Filecoin.WalletDefaultAddress")
  /\ (signerAddress <> "" -> validateAddress signerAddress = false ->
      signing = ([], Thrown ("Invalid signer address: " ++ signerAddress)))
  /\ (forall req,
        In req (fst signing) ->
        Lotus.method json req = "Filecoin.WalletSign" ->
        exists a,
          validateAddress a = true
          /\ Lotus.params json req = [json_string a; json_string data]
          /\ forall r, snd signing = Returned r -> Signing.signer T r = a).
Proof.
  cbv zeta. split; [|split].
  - intros Hv. unfold Signing.verifySignature_operation. now rewrite Hv.
  - intros Hv. unfold Signing.verifySignature_operation. rewrite Hv.
    cbn [negb]. unfold Lotus.call.
    destruct (post1 _) as [resp | msg resp | msg];
      [destruct (Lotus.error T resp) | destruct (Lotus.response_error T resp) |];
      reflexivity.
  - set (req0 := Lotus.Request json "2.0" "Filecoin.WalletDefaultAddress" [] 1).
    assert (Hcases :
      (signerAddress <> ""
       /\ Signing.signData_operation T json json_string as_string text_of
            is_null field post1 post2 data signerAddress
          = Signing.sign_with T json json_string is_null field
              Lotus.new_client post1 [] signerAddress data)
      \/ (signerAddress = ""
          /\ ((exists m,
                 Signing.signData_operation T json json_string as_string
                   text_of is_null field post1 post2 data signerAddress
                 = ([req0], Thrown m))
              \/ (exists a,
                    Signing.signData_operation T json json_string as_string
                      text_of is_null field post1 post2 data signerAddress
                    = Signing.sign_with T json json_string is_null field
                        (Lotus.Client 1) post2 [req0] a data)))).
    { unfold Signing.signData_operation.
      destruct signerAddress as [|c rest]; [right | left; now split].
      split; [reflexivity|].
      cbn [is_empty negb]. unfold Lotus.call.
      cbn [Lotus.new_client Lotus.requestId]. fold req0.
      change (0 + 1)%N with 1%N.
      change (Lotus.Request json "2.0" ("Filecoin." ++ "WalletDefaultAddress")
                [] 1) with req0.
      destruct (post1 req0) as [resp | msg resp | msg].
      - destruct (Lotus.error T resp) as [e|]; [left; eauto|].
        destruct (Lotus.result T resp) as [v|]; [|left; eauto].
        destruct (as_string v) as [a|]; [right; eauto | left; eauto].
      - destruct (Lotus.response_error T resp); left; eauto.
      - left; eauto. }
    destruct Hcases as [(Hne & ->) | (-> & [(m & ->) | (a & ->)])].
    + pose proof (sign_with_log Lotus.new_client post1 [] signerAddress data)
        as Hsign. cbv zeta in Hsign.
      destruct Hsign as [(Hv & ->) | (Hv & Hlog & Hres)].
      * cbn [fst snd List.length map Lotus.count_from].
        split; [reflexivity|]. split; [lia|].
        split; [intros _ r []|]. split; [reflexivity|].
        intros r [].
      * destruct (Signing.sign_with T json json_string is_null field
                    Lotus.new_client post1 [] signerAddress data)
          as [log out].
        cbn [fst snd] in *. subst log.
        cbn [app List.length map Lotus.count_from Lotus.id Lotus.requestId
             Lotus.new_client].
        split; [reflexivity|]. split; [lia|].
        split; [intros _ r [<- | []]; discriminate|].
        split; [intros _ H; congruence|].
        intros r [<- | []] _.
        exists signerAddress. split; [exact Hv|].
        split; [reflexivity | exact Hres].
    + cbn [fst snd List.length map Lotus.count_from Lotus.id req0].
      split; [reflexivity|]. split; [lia|].
      split; [intros H; now elim H|]. split; [intros H; now elim H|].
      intros r [<- | []] H. discriminate H.
    + pose proof (sign_with_log (Lotus.Client 1) post2 [req0] a data)
        as Hsign. cbv zeta in Hsign.
      destruct Hsign as [(Hv & ->) | (Hv & Hlog & Hres)].
      * cbn [fst snd List.length map Lotus.count_from Lotus.id req0].
        split; [reflexivity|]. split; [lia|].
        split; [intros H; now elim H|]. split; [intros H; now elim H|].
        intros r [<- | []] H. discriminate H.
      * destruct (Signing.sign_with T json json_string is_null field
                    (Lotus.Client 1) post2 [req0] a data) as [log out].
        cbn [fst snd] in *. subst log.
        cbn [app List.length map Lotus.count_from Lotus.id Lotus.requestId
             req0].
        split; [reflexivity|]. split; [lia|].
        split; [intros H; now elim H|]. split; [intros H; now elim H|].
        intros r [<- | [<- | []]] H; [discriminate H|].
        exists a. split; [exact Hv|]. split; [reflexivity | exact Hres].
Qed.

End SigningFacts.

(* ------------------------------------------------------------------ *)
(** * The address format of the FEVM resource *)
(* ------------------------------------------------------------------ *)

Lemma startsWith_two (c d x y : ascii) (rest : string) :
  startsWith (String c (String d rest)) (String x (String y ""))
  = Ascii.eqb x c && Ascii.eqb y d.
Proof.
  unfold startsWith. cbn [String.prefix].
  destruct (ascii_dec x c) as [-> | Hx].
  - rewrite Ascii.eqb_refl. cbn [andb].
    destruct (ascii_dec y d) as [-> | Hy].
    + rewrite Ascii.eqb_refl. now destruct rest.
    + symmetry. now apply Ascii.eqb_neq.
  - apply Ascii.eqb_neq in Hx. now rewrite Hx.
Qed.

Lemma isDelegatedAddress_startsWith (address : string) :
  isDelegatedAddress address
  = startsWith address "f4" || startsWith address "t4".
Proof.
  destruct address as [|c [|d rest]].
  - reflexivity.
  - all_chars c.
  - rewrite isDelegatedAddress_chars, !startsWith_two.
    rewrite (Ascii.eqb_sym c "f"), (Ascii.eqb_sym c "t"), (Ascii.eqb_sym d "4").
    destruct (Ascii.eqb "f" c), (Ascii.eqb "t" c), (Ascii.eqb "4" d);
      reflexivity.
Qed.

(** A valid address that is not an Ethereum address has a protocol. *)
Lemma valid_protocol (address : string) :
  validateAddress address = true -> startsWith address "0x" = false ->
  exists p, getAddressType address = Some p /\ (0 <= p <= 4)%Z.
Proof.
  intros Hv H0.
  destruct address as [|c rest]; [discriminate|].
  destruct (f_or_t c) eqn:Hc.
  - destruct rest as [|d rest].
    { destruct (f_or_t_inv c Hc) as [-> | ->]; discriminate. }
    rewrite validateAddress_tail in Hv by exact Hc.
    rewrite getAddressType_tail by exact Hc.
    rewrite parseInt_charAt_second in Hv.
    destruct (parseInt (String d "")) as [p|]; [|discriminate].
    destruct ((p <? 0)%Z || (4 <? p)%Z) eqn:Hr; [discriminate|].
    apply orb_false_iff in Hr as [H1 H2].
    apply Z.ltb_ge in H1. apply Z.ltb_ge in H2. eauto.
  - rewrite validateAddress_other in Hv by exact Hc.
    rewrite H0 in Hv. discriminate.
Qed.

(** X27.  The operation [convertAddress] of the FEVM resource looks at
    the first two characters only.  It takes every text that starts
    with [0x] for an Ethereum address and reports it in lower case,
    every text that starts with [f4] or [t4], the texts for which
    [isDelegatedAddress] holds, for a delegated address, reported as
    it is, and fails for every other text.  So among the addresses that
    the validator accepts it returns exactly for the Ethereum and the
    delegated ones, and fails for those of the protocols 0 to 3; but
    it also returns for texts that are not valid, such as [0x] on its
    own. *)
Theorem fevm_convertAddress_formats (address : string) :
  match fevm_convertAddress_operation address with
  | Returned r =>
      FevmAddress.original r = address
      /\ (startsWith address "0x" = true
          /\ FevmAddress.addressType r = "Ethereum (0x)"
          /\ FevmAddress.normalized r = normalizeAddress address
          \/ startsWith address "0x" = false
             /\ isDelegatedAddress address = true
             /\ FevmAddress.addressType r = "Filecoin f4"
             /\ FevmAddress.normalized r = address)
      /\ (validateAddress address = true ->
          isEthAddress address = true
          \/ getAddressType address = Some ADDRESS_TYPES_DELEGATED)
  | Thrown m =>
      m = "Unknown address format. Use 0x or f4/t4 format."
      /\ startsWith address "0x" = false
      /\ startsWith address "f4" = false
      /\ startsWith address "t4" = false
      /\ isEthAddress address = false
      /\ isDelegatedAddress address = false
      /\ (validateAddress address = true ->
          exists p, getAddressType address = Some p /\ (0 <= p <= 3)%Z)
  end
  /\ (exists r, fevm_convertAddress_operation "0x" = Returned r
                /\ validateAddress "0x" = false)
  /\ (exists r, fevm_convertAddress_operation "f4" = Returned r
                /\ validateAddress "f4" = false).
Proof.
  split; [|split; eexists; split; reflexivity].
  pose proof (proj1 (address_delegated_iff address)) as Hdel.
  unfold fevm_convertAddress_operation.
  rewrite <- isDelegatedAddress_startsWith.
  destruct (startsWith address "0x") eqn:H0.
  - cbn [FevmAddress.original FevmAddress.addressType FevmAddress.normalized].
    split; [reflexivity|]. split.
    + left. split; [reflexivity|]. split; [reflexivity|].
      now rewrite normalizeAddress_toLowerCase.
    + intros Hv. left. unfold isEthAddress.
      now rewrite <- (validateAddress_0x address H0).
  - assert (Heth : isEthAddress address = false).
    { unfold isEthAddress.
      destruct (regex_test ETH_ADDRESS address) eqn:He; [|reflexivity].
      apply eth_looks_like_eth, looks_like_eth_0x in He. congruence. }
    destruct (isDelegatedAddress address) eqn:Hd.
    + cbn [FevmAddress.original FevmAddress.addressType FevmAddress.normalized].
      split; [reflexivity|]. split; [right; auto|].
      intros _. right. now apply Hdel.
    + split; [reflexivity|]. split; [reflexivity|].
      pose proof (isDelegatedAddress_startsWith address) as Hpre.
      rewrite Hd in Hpre. symmetry in Hpre.
      apply orb_false_iff in Hpre as [Hf4 Ht4].
      split; [exact Hf4|]. split; [exact Ht4|].
      split; [exact Heth|]. split; [reflexivity|].
      intros Hv. destruct (valid_protocol address Hv H0) as (p & Hp & Hr).
      exists p. split; [exact Hp|].
      assert (p <> 4%Z); [|lia].
      intros ->. apply (proj2 (address_delegated_iff address)) in Hp.
      congruence.
Qed.
